(** * Qwen device-flow OAuth client (qwensdk): model and verified properties

    A shallow embedding of the SDK module of the invoice tool: the generic
    [withRetry] executor, the PKCE helpers, the device-token poller, the token
    refresher, the token store and the request dispatcher of class
    [QwenCodeSDK]; and of the functions of the tool itself (main.ts) that call
    it: [stripJsonFences], [parseInvoiceJson], [extractSingleInvoice] and
    [extractAllInvoices].

    Conventions of the embedding.
    - A JavaScript string is the list of its UTF-16 code units ([jsstring]).
    - A JavaScript value that comes out of [JSON.parse] or is stored in an
      untyped field is a [JsVal]; TypeScript interfaces are erased, so the
      fields of the token objects hold [JsVal]s.
    - A JavaScript number is an exact rational ([Q]); the rounding of IEEE-754
      doubles is not modelled (it is the identity on the integers below 2^53
      that the properties use).  Durations in milliseconds that the callers
      pass as integers ([retries], [delay], [interval]) are [Z].
    - Asynchronous methods are run to completion one after the other (the
      SDK is used from a single flow), as functions from a [World] to a
      result and a new [World]; a rejected promise is the result [Throw]. *)

From Stdlib Require Import ZArith NArith QArith Qround List String Ascii Bool Lia.
From Stdlib.Strings Require Import Byte.
From Stdlib Require DecimalFacts DecimalPos DecimalN.
Import ListNotations.

Set Warnings "-register-all".

Local Open Scope N_scope.

(* ================================================================= *)
(** ** JavaScript strings *)

Definition code_unit := N.
Definition jsstring := list code_unit.

Definition jsstring_eq_dec : forall a b : jsstring, {a = b} + {a <> b} :=
  list_eq_dec N.eq_dec.

Fixpoint jsstring_eqb (a b : jsstring) : bool :=
  match a, b with
  | [], [] => true
  | x :: a', y :: b' => (x =? y) && jsstring_eqb a' b'
  | _, _ => false
  end.

(** Decoding of the UTF-8 bytes of a Rocq string literal into UTF-16 code
    units, so that the literals of the source can be written as they are.
    [utf8_decode] expects well-formed UTF-8 (which literals are). *)
Definition surrogates_of (cp : N) : jsstring :=
  if cp <? 65536 then [cp]
  else let v := cp - 65536 in [55296 + v / 1024; 56320 + v mod 1024].

Fixpoint utf8_decode (fuel : nat) (bs : list N) : jsstring :=
  match fuel with
  | O => []
  | S fuel' =>
    match bs with
    | [] => []
    | b0 :: r0 =>
      if b0 <? 128 then b0 :: utf8_decode fuel' r0
      else if b0 <? 224 then
        match r0 with
        | b1 :: r1 => ((b0 mod 32) * 64 + b1 mod 64) :: utf8_decode fuel' r1
        | _ => []
        end
      else if b0 <? 240 then
        match r0 with
        | b1 :: b2 :: r2 =>
            ((b0 mod 16) * 4096 + (b1 mod 64) * 64 + b2 mod 64)
              :: utf8_decode fuel' r2
        | _ => []
        end
      else
        match r0 with
        | b1 :: b2 :: b3 :: r3 =>
            surrogates_of ((b0 mod 8) * 262144 + (b1 mod 64) * 4096
                           + (b2 mod 64) * 64 + b3 mod 64)
              ++ utf8_decode fuel' r3
        | _ => []
        end
    end
  end.

Fixpoint bytes_of_string (s : string) : list N :=
  match s with
  | EmptyString => []
  | String a r => N_of_ascii a :: bytes_of_string r
  end.

(** [js "text"] is the JavaScript string literal ['text']. *)
Definition js (s : string) : jsstring :=
  utf8_decode (String.length s) (bytes_of_string s).

(** ECMAScript WhiteSpace and LineTerminator code points, the set that
    [String.prototype.trim] removes. *)
Definition is_js_whitespace (c : code_unit) : bool :=
  ((9 <=? c) && (c <=? 13)) || (c =? 32) || (c =? 160) || (c =? 5760)
  || ((8192 <=? c) && (c <=? 8202)) || (c =? 8232) || (c =? 8233)
  || (c =? 8239) || (c =? 8287) || (c =? 12288) || (c =? 65279).

Fixpoint trimStart (s : jsstring) : jsstring :=
  match s with
  | c :: r => if is_js_whitespace c then trimStart r else s
  | [] => []
  end.

Definition trimEnd (s : jsstring) : jsstring := rev (trimStart (rev s)).

(** [s.trim()] *)
Definition trim (s : jsstring) : jsstring := trimEnd (trimStart s).

Fixpoint starts_with (s pre : jsstring) : bool :=
  match pre, s with
  | [], _ => true
  | p :: pre', c :: s' => (p =? c) && starts_with s' pre'
  | _ :: _, [] => false
  end.

(** [s.includes(sub)] *)
Fixpoint includes (s sub : jsstring) : bool :=
  starts_with s sub
  || match s with
     | [] => false
     | _ :: r => includes r sub
     end.

(** Decimal digits of a non-negative integer, most significant first. *)
Fixpoint digits_of_uint (d : Decimal.uint) : jsstring :=
  match d with
  | Decimal.Nil => []
  | Decimal.D0 r => 48 :: digits_of_uint r
  | Decimal.D1 r => 49 :: digits_of_uint r
  | Decimal.D2 r => 50 :: digits_of_uint r
  | Decimal.D3 r => 51 :: digits_of_uint r
  | Decimal.D4 r => 52 :: digits_of_uint r
  | Decimal.D5 r => 53 :: digits_of_uint r
  | Decimal.D6 r => 54 :: digits_of_uint r
  | Decimal.D7 r => 55 :: digits_of_uint r
  | Decimal.D8 r => 56 :: digits_of_uint r
  | Decimal.D9 r => 57 :: digits_of_uint r
  end.

Definition N_to_jsstring (n : N) : jsstring :=
  match n with
  | 0 => [48]
  | _ => digits_of_uint (N.to_uint n)
  end.

(** The decimal text of an integer, as a template literal prints an
    integral number (below 10^21). *)
Definition Z_to_jsstring (z : Z) : jsstring :=
  match z with
  | Zneg p => 45 :: N_to_jsstring (Npos p)
  | _ => N_to_jsstring (Z.to_N z)
  end.

(** [n.toString().padStart(width, '0')] for a non-negative integer. *)
Definition pad_digits (width : nat) (n : N) : jsstring :=
  let d := N_to_jsstring n in
  repeat 48 (width - List.length d) ++ d.

(** Replacement of every unpaired surrogate by U+FFFD: what a round trip
    through UTF-8 (a file written and read with encoding 'utf8', a USVString
    conversion) does to a string. *)
Definition is_high_surrogate (c : code_unit) : bool := (55296 <=? c) && (c <=? 56319).
Definition is_low_surrogate (c : code_unit) : bool := (56320 <=? c) && (c <=? 57343).

Fixpoint toWellFormed (s : jsstring) : jsstring :=
  match s with
  | [] => []
  | c :: r =>
    if is_high_surrogate c then
      match r with
      | d :: r' =>
          if is_low_surrogate d then c :: d :: toWellFormed r'
          else 65533 :: toWellFormed r
      | [] => [65533]
      end
    else if is_low_surrogate c then 65533 :: toWellFormed r
    else c :: toWellFormed r
  end.

(* ================================================================= *)
(** ** JavaScript values and JSON *)

(** The values that [JSON.parse] produces, and [undefined].  An object is
    the list of its own properties in insertion order (the engine lists
    the properties whose names are array indices first; that reordering,
    which only shows in the text of an error message, is not modelled). *)
Inductive JsVal : Type :=
| VUndefined
| VNull
| VBool (b : bool)
| VNum (q : Q)
| VStr (s : jsstring)
| VArr (l : list JsVal)
| VObj (m : list (jsstring * JsVal)).

Fixpoint lookup (k : jsstring) (m : list (jsstring * JsVal)) : JsVal :=
  match m with
  | [] => VUndefined
  | (k', v) :: m' => if jsstring_eqb k k' then v else lookup k m'
  end.

(** [o[k] = v] on the property list of an object: an existing property
    keeps its place. *)
Fixpoint define_property (k : jsstring) (v : JsVal) (m : list (jsstring * JsVal))
  : list (jsstring * JsVal) :=
  match m with
  | [] => [(k, v)]
  | (k', v') :: m' =>
      if jsstring_eqb k k' then (k, v) :: m' else (k', v') :: define_property k v m'
  end.

(** [v.k] for the property names the SDK reads (none of them is [length],
    an index or a name on a prototype): [None] is the TypeError of reading a
    property of [null] or [undefined]. *)
Definition get_prop (v : JsVal) (k : jsstring) : option JsVal :=
  match v with
  | VUndefined | VNull => None
  | VObj m => Some (lookup k m)
  | _ => Some VUndefined
  end.

(** [v?.k] *)
Definition get_prop_opt (v : JsVal) (k : jsstring) : JsVal :=
  match get_prop v k with
  | Some x => x
  | None => VUndefined
  end.

(** ToBoolean *)
Definition truthy (v : JsVal) : bool :=
  match v with
  | VUndefined | VNull => false
  | VBool b => b
  | VNum q => negb (Qnum q =? 0)%Z
  | VStr s => match s with [] => false | _ => true end
  | VArr _ | VObj _ => true
  end.

(** [v === 'literal'] *)
Definition strict_eq_string (v : JsVal) (s : jsstring) : bool :=
  match v with
  | VStr t => jsstring_eqb t s
  | _ => false
  end.

(** *** JSON.parse *)

Definition is_json_ws (c : code_unit) : bool :=
  (c =? 32) || (c =? 9) || (c =? 10) || (c =? 13).

Fixpoint skip_ws (s : jsstring) : jsstring :=
  match s with
  | c :: r => if is_json_ws c then skip_ws r else s
  | [] => []
  end.

Definition hex_value (c : code_unit) : option N :=
  if (48 <=? c) && (c <=? 57) then Some (c - 48)
  else if (97 <=? c) && (c <=? 102) then Some (c - 87)
  else if (65 <=? c) && (c <=? 70) then Some (c - 55)
  else None.

Definition hex4_value (h1 h2 h3 h4 : code_unit) : option N :=
  match hex_value h1, hex_value h2, hex_value h3, hex_value h4 with
  | Some a, Some b, Some c, Some d => Some (((a * 16 + b) * 16 + c) * 16 + d)
  | _, _, _, _ => None
  end.

(** The character a single-letter escape stands for. *)
Definition unescape (e : code_unit) : option code_unit :=
  if e =? 34 then Some 34          (* quotation mark *)
  else if e =? 92 then Some 92     (* reverse solidus *)
  else if e =? 47 then Some 47     (* solidus *)
  else if e =? 98 then Some 8      (* b: backspace *)
  else if e =? 102 then Some 12    (* f: form feed *)
  else if e =? 110 then Some 10    (* n: line feed *)
  else if e =? 114 then Some 13    (* r: carriage return *)
  else if e =? 116 then Some 9     (* t: tab *)
  else None.

Definition cons_fst {A B} (a : A) (r : option (list A * B)) : option (list A * B) :=
  match r with
  | Some (t, rest) => Some (a :: t, rest)
  | None => None
  end.

(** The characters of a JSON string after its opening quote, up to and
    including the closing quote; the result is the decoded string and the
    remaining input. *)
Fixpoint parse_string_body (s : jsstring) : option (jsstring * jsstring) :=
  match s with
  | [] => None
  | c :: r =>
    if c =? 34 then Some ([], r)
    else if c =? 92 then
      match r with
      | [] => None
      | e :: r' =>
        if e =? 117 then
          match r' with
          | h1 :: h2 :: h3 :: h4 :: r'' =>
              match hex4_value h1 h2 h3 h4 with
              | Some u => cons_fst u (parse_string_body r'')
              | None => None
              end
          | _ => None
          end
        else
          match unescape e with
          | Some u => cons_fst u (parse_string_body r')
          | None => None
          end
      end
    else if c <? 32 then None
    else cons_fst c (parse_string_body r)
  end.

Definition is_digit (c : code_unit) : bool := (48 <=? c) && (c <=? 57).

Fixpoint take_digits (s : jsstring) : list N * jsstring :=
  match s with
  | c :: r =>
      if is_digit c then let (ds, rest) := take_digits r in (c - 48 :: ds, rest)
      else ([], s)
  | [] => ([], [])
  end.

Definition digits_value (ds : list N) : N :=
  fold_left (fun acc d => acc * 10 + d) ds 0.

(** The value [m * 10^e] of a decimal literal. *)
Definition decimal_value (neg : bool) (m : N) (e : Z) : Q :=
  let z := if neg then Z.opp (Z.of_N m) else Z.of_N m in
  Qred (match e with
        | Zneg p => Qmake z (Pos.pow 10 p)
        | _ => Qmake (z * 10 ^ e) 1
        end).

(** A JSON number: an optional minus sign, an integer part (a single 0, or
    digits that do not start with 0), an optional fraction (a dot and at
    least one digit) and an optional exponent (e or E, an optional sign and at
    least one digit). *)
Definition parse_number (s : jsstring) : option (Q * jsstring) :=
  let (neg, s1) := match s with
                   | c :: r => if c =? 45 then (true, r) else (false, s)
                   | [] => (false, s)
                   end in
  let int_part :=
    match s1 with
    | c :: r =>
        if c =? 48 then Some ([0], r)
        else if is_digit c then Some (take_digits s1)
        else None
    | [] => None
    end in
  match int_part with
  | None => None
  | Some (ids, s2) =>
    let frac_part :=
      match s2 with
      | c :: r =>
          if c =? 46 then
            match take_digits r with
            | ([], _) => None
            | (fds, rest) => Some (fds, rest)
            end
          else Some ([], s2)
      | [] => Some ([], s2)
      end in
    match frac_part with
    | None => None
    | Some (fds, s3) =>
      let exp_part :=
        match s3 with
        | c :: r =>
            if (c =? 101) || (c =? 69) then
              let (eneg, r1) :=
                match r with
                | d :: r' => if d =? 45 then (true, r')
                             else if d =? 43 then (false, r')
                             else (false, r)
                | [] => (false, r)
                end in
              match take_digits r1 with
              | ([], _) => None
              | (eds, rest) =>
                  let ev := Z.of_N (digits_value eds) in
                  Some (if eneg then Z.opp ev else ev, rest)
              end
            else Some (0%Z, s3)
        | [] => Some (0%Z, s3)
        end in
      match exp_part with
      | None => None
      | Some (ev, s4) =>
          Some (decimal_value neg (digits_value (ids ++ fds))
                  (ev - Z.of_nat (List.length fds)), s4)
      end
    end
  end.

Definition expect_literal (lit : jsstring) (v : JsVal) (s : jsstring)
  : option (JsVal * jsstring) :=
  if starts_with s lit then Some (v, skipn (List.length lit) s) else None.

(** A JSON value, its members and its elements.  [fuel] bounds the number
    of nested and successive calls; more than twice the length of the input
    is always enough ([JSON_parse], [parse_fuel_enough]). *)
Fixpoint parse_value (fuel : nat) (s : jsstring) : option (JsVal * jsstring) :=
  match fuel with
  | O => None
  | S fuel' =>
    match skip_ws s with
    | [] => None
    | c :: r =>
      if c =? 123 then                                   (* { *)
        match skip_ws r with
        | d :: r' =>
            if d =? 125 then Some (VObj [], r')          (* } *)
            else parse_members fuel' [] (d :: r')
        | [] => None
        end
      else if c =? 91 then                               (* [ *)
        match skip_ws r with
        | d :: r' =>
            if d =? 93 then Some (VArr [], r')           (* ] *)
            else parse_elements fuel' [] (d :: r')
        | [] => None
        end
      else if c =? 34 then
        match parse_string_body r with
        | Some (t, rest) => Some (VStr t, rest)
        | None => None
        end
      else if c =? 116 then expect_literal (js "true") (VBool true) (c :: r)
      else if c =? 102 then expect_literal (js "false") (VBool false) (c :: r)
      else if c =? 110 then expect_literal (js "null") VNull (c :: r)
      else
        match parse_number (c :: r) with
        | Some (q, rest) => Some (VNum q, rest)
        | None => None
        end
    end
  end

with parse_members (fuel : nat) (acc : list (jsstring * JsVal)) (s : jsstring)
  : option (JsVal * jsstring) :=
  match fuel with
  | O => None
  | S fuel' =>
    match skip_ws s with
    | c :: r =>
      if c =? 34 then
        match parse_string_body r with
        | Some (k, r1) =>
          match skip_ws r1 with
          | d :: r2 =>
            if d =? 58 then                              (* : *)
              match parse_value fuel' r2 with
              | Some (v, r3) =>
                let acc' := define_property k v acc in
                match skip_ws r3 with
                | e :: r4 =>
                    if e =? 44 then parse_members fuel' acc' r4     (* , *)
                    else if e =? 125 then Some (VObj acc', r4)
                    else None
                | [] => None
                end
              | None => None
              end
            else None
          | [] => None
          end
        | None => None
        end
      else None
    | [] => None
    end
  end

with parse_elements (fuel : nat) (acc : list JsVal) (s : jsstring)
  : option (JsVal * jsstring) :=
  match fuel with
  | O => None
  | S fuel' =>
    match parse_value fuel' s with
    | Some (v, r1) =>
      match skip_ws r1 with
      | e :: r2 =>
          if e =? 44 then parse_elements fuel' (acc ++ [v]) r2
          else if e =? 93 then Some (VArr (acc ++ [v]), r2)
          else None
      | [] => None
      end
    | None => None
    end
  end.

(** [JSON.parse(text)]: [None] is the SyntaxError. *)
Definition JSON_parse (text : jsstring) : option JsVal :=
  match parse_value (S (2 * List.length text)) text with
  | Some (v, rest) =>
      match skip_ws rest with
      | [] => Some v
      | _ :: _ => None
      end
  | None => None
  end.

(* ================================================================= *)
(** ** Dates *)

(** A [Date] holds a time value: milliseconds since the epoch, or [None]
    for an invalid date (NaN). *)
Definition Date := option Z.

Local Open Scope Z_scope.

Definition msPerDay : Z := 86400000.
Definition maxTime : Z := 8640000000000000.

(** Day number (days since 1970-01-01) of a proleptic Gregorian date. *)
Definition days_from_civil (y m d : Z) : Z :=
  let y' := if m <=? 2 then y - 1 else y in
  let era := y' / 400 in
  let yoe := y' - era * 400 in
  let mp := (m + 9) mod 12 in
  let doy := (153 * mp + 2) / 5 + d - 1 in
  let doe := yoe * 365 + yoe / 4 - yoe / 100 + doy in
  era * 146097 + doe - 719468.

(** Year, month (1-12) and day of a day number. *)
Definition civil_from_days (z : Z) : Z * Z * Z :=
  let z' := z + 719468 in
  let era := z' / 146097 in
  let doe := z' - era * 146097 in
  let yoe := (doe - doe / 1460 + doe / 36524 - doe / 146096) / 365 in
  let doy := doe - (365 * yoe + yoe / 4 - yoe / 100) in
  let mp := (5 * doy + 2) / 153 in
  let d := doy - (153 * mp + 2) / 5 + 1 in
  let m := if mp <? 10 then mp + 3 else mp - 9 in
  let y := yoe + era * 400 in
  (if m <=? 2 then y + 1 else y, m, d).

Definition is_leap_year (y : Z) : bool :=
  ((y mod 4 =? 0) && negb (y mod 100 =? 0)) || (y mod 400 =? 0).

Definition days_in_month (y m : Z) : Z :=
  if m =? 2 then (if is_leap_year y then 29 else 28)
  else if (m =? 4) || (m =? 6) || (m =? 9) || (m =? 11) then 30
  else 31.

(** TimeClip: the time value of [new Date(x)] for a finite number [x]:
    invalid when [abs(x) > 8.64e15], the integer part of [x] otherwise. *)
Definition TimeClip (q : Q) : Date :=
  if Z.abs (Qnum q) <=? maxTime * Zpos (Qden q)
  then Some (Z.quot (Qnum q) (Zpos (Qden q)))
  else None.

Definition year_text (y : Z) : jsstring :=
  if (0 <=? y) && (y <=? 9999) then pad_digits 4 (Z.to_N y)
  else (if y <? 0 then 45%N else 43%N) :: pad_digits 6 (Z.to_N (Z.abs y)).

(** [date.toISOString()] of a valid date: [YYYY-MM-DDTHH:mm:ss.sssZ]. *)
Definition toISOString_ms (t : Z) : jsstring :=
  let day := t / msPerDay in
  let r := t mod msPerDay in
  let '(y, m, d) := civil_from_days day in
  (year_text y ++ [45%N] ++ pad_digits 2 (Z.to_N m) ++ [45%N]
   ++ pad_digits 2 (Z.to_N d) ++ [84%N]
   ++ pad_digits 2 (Z.to_N (r / 3600000)) ++ [58%N]
   ++ pad_digits 2 (Z.to_N ((r / 60000) mod 60)) ++ [58%N]
   ++ pad_digits 2 (Z.to_N ((r / 1000) mod 60)) ++ [46%N]
   ++ pad_digits 3 (Z.to_N (r mod 1000)) ++ [90%N])%list.

(** Exactly [n] decimal digits at the head of a string. *)
Fixpoint read_digits (n : nat) (acc : Z) (s : jsstring) : option (Z * jsstring) :=
  match n with
  | O => Some (acc, s)
  | S n' =>
    match s with
    | c :: r =>
        if is_digit c then read_digits n' (acc * 10 + Z.of_N (c - 48)) r
        else None
    | [] => None
    end
  end.

Definition expect_char (c : code_unit) (s : jsstring) : option jsstring :=
  match s with
  | x :: r => if (x =? c)%N then Some r else None
  | [] => None
  end.

Definition read_year (s : jsstring) : option (Z * jsstring) :=
  match s with
  | c :: r =>
      if (c =? 43)%N then read_digits 6 0 r
      else if (c =? 45)%N then
        match read_digits 6 0 r with
        | Some (y, rest) => if y =? 0 then None else Some (- y, rest)
        | None => None
        end
      else read_digits 4 0 s
  | [] => None
  end.

(** The date-time strings in the form that [toISOString] writes, with every
    field in range: the part of [Date.parse] that ECMAScript fixes for every
    engine and time zone. *)
Definition parse_iso_utc (s : jsstring) : Date :=
  match read_year s with
  | Some (y, s1) =>
    match expect_char 45%N s1 with Some s2 =>
    match read_digits 2 0 s2 with Some (m, s3) =>
    match expect_char 45%N s3 with Some s4 =>
    match read_digits 2 0 s4 with Some (d, s5) =>
    match expect_char 84%N s5 with Some s6 =>
    match read_digits 2 0 s6 with Some (h, s7) =>
    match expect_char 58%N s7 with Some s8 =>
    match read_digits 2 0 s8 with Some (mi, s9) =>
    match expect_char 58%N s9 with Some s10 =>
    match read_digits 2 0 s10 with Some (sec, s11) =>
    match expect_char 46%N s11 with Some s12 =>
    match read_digits 3 0 s12 with Some (ms, s13) =>
    match s13 with
    | [z] =>
      if (z =? 90)%N && (1 <=? m) && (m <=? 12) && (1 <=? d)
         && (d <=? days_in_month y m) && (h <=? 23) && (mi <=? 59)
         && (sec <=? 59)
      then
        let t := days_from_civil y m d * msPerDay
                 + h * 3600000 + mi * 60000 + sec * 1000 + ms in
        if Z.abs t <=? maxTime then Some t else None
      else None
    | _ => None
    end
    | None => None end | None => None end | None => None end
    | None => None end | None => None end | None => None end
    | None => None end | None => None end | None => None end
    | None => None end | None => None end | None => None end
  | None => None
  end.

Local Close Scope Z_scope.

(* ================================================================= *)
(** ** Buffers: UTF-8, base64 and SHA-256 *)

Definition byte_of_N (n : N) : byte :=
  match Byte.of_N n with
  | Some b => b
  | None => x00
  end.

(** The UTF-8 bytes of a string, as [hash.update(string)] and
    [Buffer.from(string)] take them (an unpaired surrogate is encoded as
    U+FFFD). *)
Definition utf8_of_code_point (cp : N) : list byte :=
  if cp <? 128 then [byte_of_N cp]
  else if cp <? 2048 then [byte_of_N (192 + cp / 64); byte_of_N (128 + cp mod 64)]
  else if cp <? 65536 then
    [byte_of_N (224 + cp / 4096); byte_of_N (128 + (cp / 64) mod 64);
     byte_of_N (128 + cp mod 64)]
  else
    [byte_of_N (240 + cp / 262144); byte_of_N (128 + (cp / 4096) mod 64);
     byte_of_N (128 + (cp / 64) mod 64); byte_of_N (128 + cp mod 64)].

Fixpoint utf8_encode (s : jsstring) : list byte :=
  match s with
  | [] => []
  | c :: r =>
    if is_high_surrogate c then
      match r with
      | d :: r' =>
          if is_low_surrogate d
          then utf8_of_code_point (65536 + (c - 55296) * 1024 + (d - 56320))
                 ++ utf8_encode r'
          else utf8_of_code_point 65533 ++ utf8_encode r
      | [] => utf8_of_code_point 65533
      end
    else if is_low_surrogate c then utf8_of_code_point 65533 ++ utf8_encode r
    else utf8_of_code_point c ++ utf8_encode r
  end.

(** *** [buffer.toString('base64')] *)

Definition base64_alphabet : jsstring :=
  Eval cbv in js "ABCDEFGHIJKLMNOPQRSTUVWXYZabcdefghijklmnopqrstuvwxyz0123456789+/".

Definition base64_char (i : N) : code_unit := nth (N.to_nat i) base64_alphabet 61.

Fixpoint Buffer_toString_base64 (bs : list byte) : jsstring :=
  match bs with
  | [] => []
  | [a] =>
      let a := Byte.to_N a in
      [base64_char (a / 4); base64_char ((a mod 4) * 16); 61; 61]
  | [a; b] =>
      let a := Byte.to_N a in
      let b := Byte.to_N b in
      [base64_char (a / 4); base64_char ((a mod 4) * 16 + b / 16);
       base64_char ((b mod 16) * 4); 61]
  | a :: b :: c :: r =>
      let a := Byte.to_N a in
      let b := Byte.to_N b in
      let c := Byte.to_N c in
      base64_char (a / 4) :: base64_char ((a mod 4) * 16 + b / 16)
        :: base64_char ((b mod 16) * 4 + c / 64) :: base64_char (c mod 64)
        :: Buffer_toString_base64 r
  end.

(** [s.replace(/x/g, y)] for a single character [x]. *)
Definition replace_all_char (x y : code_unit) (s : jsstring) : jsstring :=
  map (fun c => if c =? x then y else c) s.

(** [s.replace(/=+$/, '')]: the run of [=] that ends the string is removed. *)
Fixpoint strip_trailing_equals (s : jsstring) : jsstring :=
  match s with
  | [] => []
  | c :: r =>
    match strip_trailing_equals r with
    | [] => if c =? 61 then [] else [c]
    | r' => c :: r'
    end
  end.

(** *** SHA-256 (FIPS 180-4), the digest behind [crypto.createHash('sha256')] *)

Definition w32 (x : N) : N := x mod 4294967296.
Definition add32 (a b : N) : N := w32 (a + b).
Definition rotr (n x : N) : N := N.lor (N.shiftr x n) (w32 (N.shiftl x (32 - n))).
Definition not32 (x : N) : N := N.lxor x 4294967295.
Definition Ch (x y z : N) : N := N.lxor (N.land x y) (N.land (not32 x) z).
Definition Maj (x y z : N) : N :=
  N.lxor (N.land x y) (N.lxor (N.land x z) (N.land y z)).
Definition Sigma0 (x : N) : N := N.lxor (rotr 2 x) (N.lxor (rotr 13 x) (rotr 22 x)).
Definition Sigma1 (x : N) : N := N.lxor (rotr 6 x) (N.lxor (rotr 11 x) (rotr 25 x)).
Definition sigma0 (x : N) : N := N.lxor (rotr 7 x) (N.lxor (rotr 18 x) (N.shiftr x 3)).
Definition sigma1 (x : N) : N := N.lxor (rotr 17 x) (N.lxor (rotr 19 x) (N.shiftr x 10)).

(** The round constants: the first 32 bits of the fractional parts of the
    cube roots of the first 64 primes. *)
Definition sha256_K : list N :=
  [1116352408; 1899447441; 3049323471; 3921009573;
   961987163; 1508970993; 2453635748; 2870763221;
   3624381080; 310598401; 607225278; 1426881987;
   1925078388; 2162078206; 2614888103; 3248222580;
   3835390401; 4022224774; 264347078; 604807628;
   770255983; 1249150122; 1555081692; 1996064986;
   2554220882; 2821834349; 2952996808; 3210313671;
   3336571891; 3584528711; 113926993; 338241895;
   666307205; 773529912; 1294757372; 1396182291;
   1695183700; 1986661051; 2177026350; 2456956037;
   2730485921; 2820302411; 3259730800; 3345764771;
   3516065817; 3600352804; 4094571909; 275423344;
   430227734; 506948616; 659060556; 883997877;
   958139571; 1322822218; 1537002063; 1747873779;
   1955562222; 2024104815; 2227730452; 2361852424;
   2428436474; 2756734187; 3204031479; 3329325298].

(** The initial hash value: the first 32 bits of the fractional parts of
    the square roots of the first 8 primes. *)
Definition sha256_H0 : list N :=
  [1779033703; 3144134277; 1013904242; 2773480762;
   1359893119; 2600822924; 528734635; 1541459225].

(** Big-endian bytes of a number. *)
Fixpoint be_bytes (n : nat) (x : N) : list N :=
  match n with
  | O => []
  | S n' => (x / 256 ^ N.of_nat n') mod 256 :: be_bytes n' x
  end.

Definition sha256_pad (msg : list N) : list N :=
  let len := N.of_nat (List.length msg) in
  let zeros := N.to_nat ((119 - len mod 64) mod 64) in
  msg ++ [128] ++ repeat 0 zeros ++ be_bytes 8 (len * 8).

Fixpoint be_words (n : nat) (bs : list N) : list N :=
  match n with
  | O => []
  | S n' =>
    match bs with
    | a :: b :: c :: d :: r => ((a * 256 + b) * 256 + c) * 256 + d :: be_words n' r
    | _ => []
    end
  end.

(** The message schedule: [n] more words after the words [w]. *)
Fixpoint sha256_schedule (n : nat) (w : list N) : list N :=
  match n with
  | O => w
  | S n' =>
    let i := List.length w in
    let x := add32 (add32 (sigma1 (nth (i - 2) w 0)) (nth (i - 7) w 0))
                   (add32 (sigma0 (nth (i - 15) w 0)) (nth (i - 16) w 0)) in
    sha256_schedule n' (w ++ [x])
  end.

Definition sha256_round (st : list N) (kw : N * N) : list N :=
  match st with
  | [a; b; c; d; e; f; g; h] =>
      let t1 := add32 (add32 (add32 h (Sigma1 e)) (add32 (Ch e f g) (fst kw))) (snd kw) in
      let t2 := add32 (Sigma0 a) (Maj a b c) in
      [add32 t1 t2; a; b; c; add32 d t1; e; f; g]
  | _ => st
  end.

Definition sha256_block (h : list N) (block : list N) : list N :=
  let w := sha256_schedule 48 (be_words 16 block) in
  let st := fold_left sha256_round (combine sha256_K w) h in
  map (fun p => add32 (fst p) (snd p)) (combine h st).

Fixpoint sha256_blocks (n : nat) (h : list N) (bs : list N) : list N :=
  match n with
  | O => h
  | S n' => sha256_blocks n' (sha256_block h (firstn 64 bs)) (skipn 64 bs)
  end.

Definition sha256 (msg : list byte) : list byte :=
  let padded := sha256_pad (map Byte.to_N msg) in
  let h := sha256_blocks (List.length padded / 64) sha256_H0 padded in
  map byte_of_N (flat_map (be_bytes 4) h).

(* ================================================================= *)
(** ** Errors, requests and the world the SDK runs in *)

(** A thrown value: an [Error] object with the two properties that
    [buildHttpError] attaches and the handlers inspect. *)
Record JsError : Type := mkError {
  err_name : jsstring;
  err_message : jsstring;
  err_status : option Z;     (* [error.status]; [None] is [undefined] *)
  err_data : JsVal           (* [error.data] *)
}.

(** [new Error(message)] *)
Definition new_Error (message : jsstring) : JsError :=
  {| err_name := js "Error"; err_message := message;
     err_status := None; err_data := VUndefined |}.

(** [error?.status === n] *)
Definition status_is (e : JsError) (n : Z) : bool :=
  match err_status e with
  | Some s => (s =? n)%Z
  | None => false
  end.

(** interface QwenTokenData (the interface is erased at run time: a field
    holds whatever the response or the stored file had there). *)
Record QwenTokenData : Type := mkToken {
  access_token : JsVal;
  refresh_token : JsVal;
  token_type : JsVal;
  resource_url : JsVal;
  expiry_date : JsVal
}.

Inductive Body : Type :=
| NoBody
| TextBody (text : jsstring)
| FormBody (params : list (jsstring * jsstring)).   (* a URLSearchParams *)

Record Request : Type := mkRequest {
  req_url : jsstring;
  req_method : jsstring;
  req_headers : list (jsstring * jsstring);
  req_body : Body
}.

(** A response: [resp_body] is the text of the body, decoded from UTF-8. *)
Record Response : Type := mkResponse {
  resp_status : Z;
  resp_statusText : jsstring;
  resp_body : jsstring
}.

(** [response.ok] *)
Definition resp_ok (r : Response) : bool :=
  ((200 <=? resp_status r) && (resp_status r <=? 299))%Z.

Inductive NetOutcome : Type :=
| NetFailure (e : JsError)       (* [fetch] rejects *)
| NetResponse (r : Response).

(** The state of one SDK instance and of what it talks to.
    - [clock]: what [Date.now()] reads, in milliseconds;
    - [server]: the answer to the [n]-th [fetch] of the run (the time it
      takes in milliseconds, and its outcome);
    - [requests]: the requests issued so far, oldest first;
    - [timers]: the delays of the [setTimeout] sleeps awaited so far, oldest
      first; an awaited sleep of [ms] advances the clock by [ms];
    - [entropy], [drawn]: the bytes [crypto.randomBytes] hands out, and how
      many it has handed out;
    - [file]: the content of the file at [tokenStoragePath], when it exists;
    - [fs_read_error], [fs_write_error]: the error with which reading, or
      creating the directory and writing, fails, if it does;
    - [warnings]: the [console.warn] calls;
    - [currentToken], [currentEmail]: the fields of the instance. *)
Record World : Type := mkWorld {
  clock : Z;
  server : nat -> Request -> N * NetOutcome;
  requests : list Request;
  timers : list Z;
  entropy : nat -> byte;
  drawn : nat;
  file : option jsstring;
  fs_read_error : option JsError;
  fs_write_error : option JsError;
  warnings : list (jsstring * JsError);
  currentToken : option QwenTokenData;
  currentEmail : JsVal
}.

Definition advance (ms : Z) (w : World) : World :=
  mkWorld (clock w + Z.max 0 ms)%Z (server w) (requests w) (timers w) (entropy w)
          (drawn w) (file w) (fs_read_error w) (fs_write_error w) (warnings w)
          (currentToken w) (currentEmail w).

Definition log_request (r : Request) (w : World) : World :=
  mkWorld (clock w) (server w) (requests w ++ [r]) (timers w) (entropy w)
          (drawn w) (file w) (fs_read_error w) (fs_write_error w) (warnings w)
          (currentToken w) (currentEmail w).

Definition log_timer (ms : Z) (w : World) : World :=
  mkWorld (clock w) (server w) (requests w) (timers w ++ [ms]) (entropy w)
          (drawn w) (file w) (fs_read_error w) (fs_write_error w) (warnings w)
          (currentToken w) (currentEmail w).

Definition set_drawn (n : nat) (w : World) : World :=
  mkWorld (clock w) (server w) (requests w) (timers w) (entropy w)
          n (file w) (fs_read_error w) (fs_write_error w) (warnings w)
          (currentToken w) (currentEmail w).

Definition set_file (content : jsstring) (w : World) : World :=
  mkWorld (clock w) (server w) (requests w) (timers w) (entropy w)
          (drawn w) (Some content) (fs_read_error w) (fs_write_error w)
          (warnings w) (currentToken w) (currentEmail w).

Definition log_warning (label : jsstring) (e : JsError) (w : World) : World :=
  mkWorld (clock w) (server w) (requests w) (timers w) (entropy w)
          (drawn w) (file w) (fs_read_error w) (fs_write_error w)
          (warnings w ++ [(label, e)]) (currentToken w) (currentEmail w).

Definition set_currentToken (t : QwenTokenData) (w : World) : World :=
  mkWorld (clock w) (server w) (requests w) (timers w) (entropy w)
          (drawn w) (file w) (fs_read_error w) (fs_write_error w) (warnings w)
          (Some t) (currentEmail w).

Definition set_currentEmail (e : JsVal) (w : World) : World :=
  mkWorld (clock w) (server w) (requests w) (timers w) (entropy w)
          (drawn w) (file w) (fs_read_error w) (fs_write_error w) (warnings w)
          (currentToken w) e.

(** *** Promises run to completion: a state and exception monad *)

Inductive Result (A : Type) : Type :=
| Ok (a : A)        (* the promise is fulfilled *)
| Throw (e : JsError).   (* the promise is rejected *)
Arguments Ok {A} a.
Arguments Throw {A} e.

Definition M (A : Type) : Type := World -> Result A * World.

Definition ret {A} (a : A) : M A := fun w => (Ok a, w).
Definition throw {A} (e : JsError) : M A := fun w => (Throw e, w).

Definition bind {A B} (m : M A) (k : A -> M B) : M B :=
  fun w =>
    match m w with
    | (Ok a, w') => k a w'
    | (Throw e, w') => (Throw e, w')
    end.

(** [try { m } catch (error) { handler }] *)
Definition try_catch {A} (m : M A) (handler : JsError -> M A) : M A :=
  fun w =>
    match m w with
    | (Ok a, w') => (Ok a, w')
    | (Throw e, w') => handler e w'
    end.

Definition gets {A} (f : World -> A) : M A := fun w => (Ok (f w), w).
Definition modify (f : World -> World) : M unit := fun w => (Ok tt, f w).

Declare Scope js_scope.
Delimit Scope js_scope with js.
Notation "x <- m ;; k" := (bind m (fun x => k))
  (at level 61, m at next level, right associativity) : js_scope.
Notation "m ;;; k" := (bind m (fun _ => k))
  (at level 61, right associativity) : js_scope.

(** [Date.now()] *)
Definition Date_now : M Z := gets clock.

(** [await new Promise(resolve => setTimeout(resolve, ms))] *)
Definition sleep (ms : Z) : M unit := modify (fun w => advance ms (log_timer ms w)).

(** [crypto.randomBytes(n)] *)
Definition randomBytes (n : nat) : M (list byte) :=
  fun w => (Ok (map (entropy w) (seq (drawn w) n)), set_drawn (drawn w + n) w).

(** [console.warn(label, error)] *)
Definition console_warn (label : jsstring) (e : JsError) : M unit :=
  modify (log_warning label e).

(** *** The JavaScript engine

    What the model leaves to the engine the code runs on: the decimal text
    of a number, the value of a numeric string, the dates that [Date.parse]
    reads outside the ISO form above (they depend on the engine and on the
    local time zone), and the messages of the errors that the engine
    itself throws. *)
Inductive EngineFault : Type :=
| JSON_SyntaxError          (* [JSON.parse], [response.json()] *)
| Nullish_TypeError         (* a property of [null] or [undefined] is read *)
| NotAFunction_TypeError    (* a method that the value does not have is called *)
| InvalidTime_RangeError    (* [toISOString] of an invalid date *)
| Timeout_AbortError        (* the request was aborted by the timeout *)
| Missing_File_Error.       (* the file to read does not exist *)

Record Engine : Type := mkEngine {
  Number_toString : Q -> jsstring;
  StringToNumber : jsstring -> option Q;     (* [None] is NaN *)
  Date_parse_other : jsstring -> Date;
  fault_message : EngineFault -> jsstring
}.

Definition fault_name (f : EngineFault) : jsstring :=
  match f with
  | JSON_SyntaxError => js "SyntaxError"
  | Nullish_TypeError | NotAFunction_TypeError => js "TypeError"
  | InvalidTime_RangeError => js "RangeError"
  | Timeout_AbortError => js "AbortError"
  | Missing_File_Error => js "Error"
  end.

(** An engine to run the model on concrete inputs: numbers print as the
    decimal text of their integer part (exact on integers), and nothing
    outside the ISO form is read as a number or a date. *)
Definition integer_engine : Engine :=
  {| Number_toString := fun q => Z_to_jsstring (Qfloor q);
     StringToNumber := fun _ => None;
     Date_parse_other := fun _ => None;
     fault_message := fun f => fault_name f |}.

(* ================================================================= *)
(** ** The SDK module *)

Definition QWEN_OAUTH_DEVICE_CODE_ENDPOINT : jsstring :=
  js "https://chat.qwen.ai/api/v1/oauth2/device/code".
Definition QWEN_OAUTH_TOKEN_ENDPOINT : jsstring :=
  js "https://chat.qwen.ai/api/v1/oauth2/token".
Definition QWEN_OAUTH_CLIENT_ID : jsstring := js "f0304373b74a44d2b584a3fb70ca9e56".
Definition QWEN_OAUTH_SCOPE : jsstring := js "openid profile email model.completion".
Definition QWEN_OAUTH_GRANT_TYPE : jsstring :=
  js "urn:ietf:params:oauth:grant-type:device_code".
Definition QWEN_USER_AGENT : jsstring := js "google-api-nodejs-client/9.15.1".
Definition QWEN_X_GOOG_API_CLIENT : jsstring := js "gl-node/22.17.0".
Definition QWEN_CLIENT_METADATA : jsstring :=
  js "ideType=IDE_UNSPECIFIED,platform=PLATFORM_UNSPECIFIED,pluginType=GEMINI".

Definition MAX_RETRIES : Z := 5.
Definition RETRY_DELAY_MS : Z := 2000.
Definition requestTimeoutMs : Z := 120000.

(** *** withRetry *)

(** The [for] loop of [withRetry] from the iteration numbered [attempt],
    with [iterations] iterations left to run ([retries - attempt + 1] of
    them when that is positive, none otherwise). *)
Fixpoint withRetry_loop {T} (fn : M T) (retries delay : Z) (iterations : nat)
    (attempt : Z) (lastError : option JsError) : M T :=
  match iterations with
  | O =>
      throw (match lastError with
             | Some e => e
             | None => new_Error (js "请求失败")
             end)
  | S iterations' =>
      fun w =>
        match fn w with
        | (Ok v, w1) => (Ok v, w1)
        | (Throw error, w1) =>
            if status_is error 401 || status_is error 403 || status_is error 400
            then (Throw error, w1)
            else
              let w2 := if (attempt <? retries)%Z
                        then snd (sleep (delay * attempt) w1)
                        else w1 in
              withRetry_loop fn retries delay iterations' (attempt + 1)%Z
                             (Some error) w2
        end
  end.

Definition withRetry {T} (fn : M T) (retries delay : Z) : M T :=
  withRetry_loop fn retries delay (Z.to_nat retries) 1%Z None.

(** *** PKCE helpers *)

Definition base64URLEncode (str : list byte) : jsstring :=
  strip_trailing_equals
    (replace_all_char 47 95 (replace_all_char 43 45 (Buffer_toString_base64 str))).

Definition generateCodeVerifier : M jsstring :=
  (bytes <- randomBytes 32 ;;
   ret (base64URLEncode bytes))%js.

Definition generateCodeChallenge (verifier : jsstring) : jsstring :=
  base64URLEncode (sha256 (utf8_encode verifier)).

(** [Math.floor(interval * 1.5)].  The code multiplies in double precision:
    the product is exact, and this is its integer part, as long as
    [3 * |interval| < 2^53]; beyond that bound the product is rounded and
    the properties below say nothing. *)
Definition slow_down_interval (interval : Z) : Z :=
  Qfloor (inject_Z interval * 1.5).

Inductive SendResult : Type :=
| StreamBody (text : jsstring)    (* [response.body] *)
| JsonBody (v : JsVal).           (* [await response.json()] *)

Fixpoint join (sep : jsstring) (parts : list jsstring) : jsstring :=
  match parts with
  | [] => []
  | [p] => p
  | p :: rest => p ++ sep ++ join sep rest
  end.

(** *** JSON.stringify: the quoting of strings *)

Definition hex_digit (n : N) : code_unit := if n <? 10 then 48 + n else 87 + n.

Definition unicode_escape (c : code_unit) : jsstring :=
  [92; 117; hex_digit (c / 4096); hex_digit ((c / 256) mod 16);
   hex_digit ((c / 16) mod 16); hex_digit (c mod 16)].

Definition escape_unit (c : code_unit) : jsstring :=
  if c =? 8 then [92; 98]
  else if c =? 9 then [92; 116]
  else if c =? 10 then [92; 110]
  else if c =? 12 then [92; 102]
  else if c =? 13 then [92; 114]
  else if c =? 34 then [92; 34]
  else if c =? 92 then [92; 92]
  else if c <? 32 then unicode_escape c
  else [c].

Fixpoint quote_chars (s : jsstring) : jsstring :=
  match s with
  | [] => []
  | c :: r =>
    if is_high_surrogate c then
      match r with
      | d :: r' =>
          if is_low_surrogate d then c :: d :: quote_chars r'
          else unicode_escape c ++ quote_chars r
      | [] => unicode_escape c
      end
    else if is_low_surrogate c then unicode_escape c ++ quote_chars r
    else escape_unit c ++ quote_chars r
  end.

Definition QuoteJSONString (s : jsstring) : jsstring := [34] ++ quote_chars s ++ [34].

(** The text of an array or object from the texts of its parts: [gap] is
    the indentation unit, [stepback] the indentation of the enclosing level
    and [indent] that of the parts. *)
Definition wrap_parts (opening closing : code_unit) (gap stepback indent : jsstring)
    (parts : list jsstring) : jsstring :=
  match parts with
  | [] => [opening; closing]
  | _ :: _ =>
    match gap with
    | [] => [opening] ++ join [44] parts ++ [closing]
    | _ :: _ =>
        [opening; 10] ++ indent ++ join ([44; 10] ++ indent) parts
          ++ [10] ++ stepback ++ [closing]
    end
  end.

Section SDK.

Context (E : Engine).

Definition engine_error (f : EngineFault) : JsError :=
  {| err_name := fault_name f; err_message := fault_message E f;
     err_status := None; err_data := VUndefined |}.

(** ToString, as template literals and [URLSearchParams.append] apply it. *)
Fixpoint ToString (v : JsVal) : jsstring :=
  match v with
  | VUndefined => js "undefined"
  | VNull => js "null"
  | VBool b => if b then js "true" else js "false"
  | VNum q => Number_toString E q
  | VStr s => s
  | VArr l =>
      join [44] (map (fun e => match e with
                               | VUndefined | VNull => []
                               | _ => ToString e
                               end) l)
  | VObj _ => js "[object Object]"
  end.

(** ToNumber; [None] is NaN. *)
Definition ToNumber (v : JsVal) : option Q :=
  match v with
  | VUndefined => None
  | VNull => Some 0%Q
  | VBool b => Some (if b then 1%Q else 0%Q)
  | VNum q => Some q
  | VStr s => StringToNumber E s
  | VArr _ | VObj _ => StringToNumber E (ToString v)
  end.

(** SerializeJSONProperty: [None] is [undefined] (the value has no JSON
    text). *)
Fixpoint SerializeJSONProperty (gap indent : jsstring) (v : JsVal) : option jsstring :=
  match v with
  | VUndefined => None
  | VNull => Some (js "null")
  | VBool b => Some (if b then js "true" else js "false")
  | VNum q => Some (Number_toString E q)
  | VStr s => Some (QuoteJSONString s)
  | VArr l =>
      let inner := indent ++ gap in
      Some (wrap_parts 91 93 gap indent inner
              (map (fun e => match SerializeJSONProperty gap inner e with
                             | Some t => t
                             | None => js "null"
                             end) l))
  | VObj m =>
      let inner := indent ++ gap in
      Some (wrap_parts 123 125 gap indent inner
              (flat_map
                 (fun kv =>
                    match SerializeJSONProperty gap inner (snd kv) with
                    | Some t =>
                        [QuoteJSONString (fst kv) ++ [58]
                           ++ match gap with [] => [] | _ :: _ => [32] end ++ t]
                    | None => []
                    end) m))
  end.

(** [JSON.stringify(v)] is [JSON_stringify [] v]; [JSON.stringify(v, null, 2)]
    is [JSON_stringify (js "  ") v]. *)
Definition JSON_stringify (gap : jsstring) (v : JsVal) : option jsstring :=
  SerializeJSONProperty gap [] v.

(** [v.k], throwing the TypeError when [v] is [null] or [undefined]. *)
Definition prop (v : JsVal) (k : jsstring) : M JsVal :=
  match get_prop v k with
  | Some x => ret x
  | None => throw (engine_error Nullish_TypeError)
  end.

(** [Date.parse(s)] *)
Definition Date_parse (s : jsstring) : Date :=
  match parse_iso_utc s with
  | Some t => Some t
  | None => Date_parse_other E s
  end.

(** [new Date(v)] for a value that is not a [Date]. *)
Definition new_Date (v : JsVal) : Date :=
  match v with
  | VStr s => Date_parse s
  | VArr _ | VObj _ => Date_parse (ToString v)
  | _ => match ToNumber v with
         | Some q => TimeClip q
         | None => None
         end
  end.

(** [new Date(Date.now() + expires_in * 1000).toISOString()] *)
Definition expiry_from_now (expires_in : JsVal) : M jsstring :=
  (now <- Date_now ;;
   match ToNumber expires_in with
   | Some n =>
       match TimeClip (inject_Z now + n * 1000) with
       | Some t => ret (toISOString_ms t)
       | None => throw (engine_error InvalidTime_RangeError)
       end
   | None => throw (engine_error InvalidTime_RangeError)
   end)%js.

Definition parseExpiry (expiryDate : JsVal) : Date := new_Date expiryDate.

(** [new Date() >= parseExpiry(token.expiry_date)]: a comparison with an
    invalid date is false. *)
Definition isTokenExpired (token : QwenTokenData) : M bool :=
  (now <- Date_now ;;
   ret match parseExpiry (expiry_date token) with
       | Some t => (t <=? now)%Z
       | None => false
       end)%js.

(** *** The class QwenCodeSDK: private helpers *)

(** [fs.existsSync(this.tokenStoragePath)] *)
Definition fs_existsSync : M bool :=
  gets (fun w => match file w with Some _ => true | None => false end).

(** [await fs.promises.readFile(this.tokenStoragePath, 'utf8')] *)
Definition fs_readFile : M jsstring :=
  fun w =>
    match fs_read_error w with
    | Some e => (Throw e, w)
    | None =>
        match file w with
        | Some text => (Ok text, w)
        | None => (Throw (engine_error Missing_File_Error), w)
        end
    end.

(** [await fs.promises.mkdir(path.dirname(this.tokenStoragePath),
    { recursive: true })] *)
Definition fs_mkdir : M unit :=
  fun w =>
    match fs_write_error w with
    | Some e => (Throw e, w)
    | None => (Ok tt, w)
    end.

(** [await fs.promises.writeFile(this.tokenStoragePath, text)]: the file
    holds the UTF-8 encoding of the text, which reads back as
    [toWellFormed text]. *)
Definition fs_writeFile (text : jsstring) : M unit :=
  fun w =>
    match fs_write_error w with
    | Some e => (Throw e, w)
    | None => (Ok tt, set_file (toWellFormed text) w)
    end.

Definition extractError (error : JsError) : jsstring :=
  match err_message error with
  | _ :: _ => err_message error
  | [] =>
      (* String(error): the name of an error whose message is empty *)
      err_name error
  end.

(** [resource.replace(/\/$/, '')] *)
Definition strip_final_slash (s : jsstring) : jsstring :=
  match rev s with
  | c :: r => if c =? 47 then rev r else s
  | [] => s
  end.

Definition buildBaseUrl (resource : JsVal) : M jsstring :=
  if truthy resource then
    match resource with
    | VStr s =>
        match trim s with
        | _ :: _ => ret (js "https://" ++ strip_final_slash s ++ js "/v1")
        | [] => ret (js "https://portal.qwen.ai/v1")
        end
    | _ => throw (engine_error NotAFunction_TypeError)
    end
  else ret (js "https://portal.qwen.ai/v1").

(** [`Bearer ${this.currentToken?.access_token ?? ''}`] *)
Definition bearer_text (tok : option QwenTokenData) : jsstring :=
  js "Bearer "
  ++ match tok with
     | Some t =>
         match access_token t with
         | VUndefined | VNull => []
         | v => ToString v
         end
     | None => []
     end.

Definition buildQwenHeaders (stream : bool) : M (list (jsstring * jsstring)) :=
  (tok <- gets currentToken ;;
   ret [(js "Content-Type", js "application/json");
        (js "Authorization", bearer_text tok);
        (js "User-Agent", QWEN_USER_AGENT);
        (js "X-Goog-Api-Client", QWEN_X_GOOG_API_CLIENT);
        (js "Client-Metadata", QWEN_CLIENT_METADATA);
        (js "Accept", if stream then js "text/event-stream"
                      else js "application/json")])%js.

(** [fetch] under the timer that aborts it after [requestTimeoutMs].  The
    latency of the server is the time that [fetch] takes to settle (the
    headers arrive, or the request fails); the timer is cleared then.  The
    response holds its body, and reading it takes no time in the model; in
    the code no timer bounds that reading, so no property below bounds how
    long a call that gets a response can last. *)
Definition fetchWithTimeout (req : Request) : M Response :=
  fun w =>
    let (latency, outcome) := server w (List.length (requests w)) req in
    let w1 := log_request req w in
    if (requestTimeoutMs <=? Z.of_N latency)%Z
    then (Throw (engine_error Timeout_AbortError), advance requestTimeoutMs w1)
    else
      match outcome with
      | NetFailure e => (Throw e, advance (Z.of_N latency) w1)
      | NetResponse r => (Ok r, advance (Z.of_N latency) w1)
      end.

Definition readErrorResponse (response : Response) : jsstring :=
  let head := Z_to_jsstring (resp_status response) ++ [32]
              ++ resp_statusText response ++ js ": " in
  match JSON_parse (resp_body response) with
  | Some data =>
      head ++ match JSON_stringify [] data with
              | Some t => t
              | None => js "undefined"
              end
  | None => head ++ resp_body response
  end.

Definition buildHttpError (response : Response) : JsError :=
  {| err_name := js "Error";
     err_message := readErrorResponse response;
     err_status := Some (resp_status response);
     err_data := match JSON_parse (resp_body response) with
                 | Some data => data
                 | None => VUndefined
                 end |}.

(** [JSON.parse(text)], throwing the SyntaxError. *)
Definition JSON_parse_or_throw (text : jsstring) : M JsVal :=
  match JSON_parse text with
  | Some v => ret v
  | None => throw (engine_error JSON_SyntaxError)
  end.

(** [await response.json()] *)
Definition response_json (response : Response) : M JsVal :=
  JSON_parse_or_throw (resp_body response).

(** [params.append(name, value)] *)
Definition URLSearchParams_append (params : list (jsstring * jsstring)) (name value : jsstring)
  : list (jsstring * jsstring) :=
  params ++ [(name, toWellFormed value)].

(** The request that [postForm] issues. *)
Definition form_request (url : jsstring) (params : list (jsstring * jsstring)) : Request :=
  {| req_url := url;
     req_method := js "POST";
     req_headers := [(js "Content-Type", js "application/x-www-form-urlencoded");
                     (js "Accept", js "application/json")];
     req_body := FormBody params |}.

Definition postForm (url : jsstring) (params : list (jsstring * jsstring)) : M JsVal :=
  (response <- fetchWithTimeout (form_request url params) ;;
   if negb (resp_ok response) then throw (buildHttpError response)
   else response_json response)%js.

(** *** The token store *)

(** The object [storageData] (interface QwenTokenStorage) that
    [saveTokenToStorage] builds at time [now]. *)
Definition storageData (token : QwenTokenData) (email : JsVal) (now : Z) : JsVal :=
  VObj [(js "access_token", access_token token);
        (js "refresh_token", refresh_token token);
        (js "last_refresh", VStr (toISOString_ms now));
        (js "resource_url", resource_url token);
        (js "email", email);
        (js "type", VStr (js "qwen"));
        (js "expired", expiry_date token)].

Definition saveTokenToStorage (token : QwenTokenData) (email : JsVal) : M unit :=
  (now <- Date_now ;;
   let data := storageData token email now in
   fs_mkdir ;;;
   match JSON_stringify (js "  ") data with
   | Some text => fs_writeFile text
   | None => throw (engine_error NotAFunction_TypeError)
   end)%js.

Definition updateTokenEmail (email : jsstring) : M unit :=
  (tok <- gets currentToken ;;
   match tok with
   | None => ret tt
   | Some t =>
       modify (set_currentEmail (VStr email)) ;;;
       saveTokenToStorage t (VStr email)
   end)%js.

Definition loadTokenFromStorage : M (option QwenTokenData) :=
  (try_catch
     (found <- fs_existsSync ;;
      if found then
        data <- fs_readFile ;;
        storageData <- JSON_parse_or_throw data ;;
        a <- prop storageData (js "access_token") ;;
        r <- prop storageData (js "refresh_token") ;;
        u <- prop storageData (js "resource_url") ;;
        x <- prop storageData (js "expired") ;;
        let token := {| access_token := a; refresh_token := r;
                        token_type := VStr (js "Bearer");
                        resource_url := u; expiry_date := x |} in
        modify (set_currentToken token) ;;;
        e <- prop storageData (js "email") ;;
        modify (set_currentEmail e) ;;;
        ret (Some token)
      else ret None)
     (fun error =>
        console_warn (js "加载令牌失败:") error ;;;
        ret None))%js.

(** *** The device-authorization initiator *)

(** [deviceFlow.code_verifier = codeVerifier]: on anything but an object
    the assignment is the TypeError of strict mode (which the check of the
    three fields before it never lets happen: only an object has them). *)
Definition set_code_verifier (deviceFlow : JsVal) (codeVerifier : jsstring) : M JsVal :=
  match deviceFlow with
  | VObj m => ret (VObj (define_property (js "code_verifier") (VStr codeVerifier) m))
  | _ => throw (engine_error NotAFunction_TypeError)
  end.

(** The operation that [initiateDeviceFlow] hands to [withRetry]. *)
Definition device_code_request : M JsVal :=
  (codeVerifier <- generateCodeVerifier ;;
   let codeChallenge := generateCodeChallenge codeVerifier in
   let params := URLSearchParams_append (URLSearchParams_append (URLSearchParams_append (URLSearchParams_append []
        (js "client_id") QWEN_OAUTH_CLIENT_ID)
        (js "scope") QWEN_OAUTH_SCOPE)
        (js "code_challenge") codeChallenge)
        (js "code_challenge_method") (js "S256") in
   deviceFlow <- postForm QWEN_OAUTH_DEVICE_CODE_ENDPOINT params ;;
   user_code <- prop deviceFlow (js "user_code") ;;
   device_code <- prop deviceFlow (js "device_code") ;;
   verification_uri_complete <- prop deviceFlow (js "verification_uri_complete") ;;
   if negb (truthy user_code) || negb (truthy device_code)
      || negb (truthy verification_uri_complete)
   then throw (new_Error (js "设备授权返回缺少字段"))
   else set_code_verifier deviceFlow codeVerifier)%js.

Definition initiateDeviceFlow : M JsVal :=
  withRetry device_code_request MAX_RETRIES RETRY_DELAY_MS.

(** *** The device-token poller *)

(** The [try] block of one iteration of [pollForToken]. *)
Definition poll_request (deviceCode codeVerifier email : jsstring) : M QwenTokenData :=
  (let params := URLSearchParams_append (URLSearchParams_append (URLSearchParams_append (URLSearchParams_append []
        (js "grant_type") QWEN_OAUTH_GRANT_TYPE)
        (js "client_id") QWEN_OAUTH_CLIENT_ID)
        (js "device_code") deviceCode)
        (js "code_verifier") codeVerifier in
   response <- postForm QWEN_OAUTH_TOKEN_ENDPOINT params ;;
   a <- prop response (js "access_token") ;;
   r <- prop response (js "refresh_token") ;;
   t <- prop response (js "token_type") ;;
   u <- prop response (js "resource_url") ;;
   n <- prop response (js "expires_in") ;;
   x <- expiry_from_now n ;;
   let tokenData := {| access_token := a; refresh_token := r; token_type := t;
                       resource_url := u; expiry_date := VStr x |} in
   modify (set_currentToken tokenData) ;;;
   modify (set_currentEmail (VStr (trim email))) ;;;
   saveTokenToStorage tokenData (VStr (trim email)) ;;;
   ret tokenData)%js.

(** [pollForToken]: the [while (true)] loop, run for at most [fuel]
    iterations; [None] when the loop is still polling after them. *)
Fixpoint pollForToken (fuel : nat) (deviceCode codeVerifier email : jsstring)
    (interval : Z) (w : World) : option (Result QwenTokenData * World) :=
  match fuel with
  | O => None
  | S fuel' =>
    match poll_request deviceCode codeVerifier email w with
    | (Ok tokenData, w1) => Some (Ok tokenData, w1)
    | (Throw error, w1) =>
      let errorData := err_data error in
      if status_is error 400 && negb (truthy errorData)
         && includes (err_message error) (js "user_code")
      then Some (Throw (new_Error (js "令牌获取失败，接口返回: "
                                      ++ err_message error)), w1)
      else if status_is error 400
              && strict_eq_string (get_prop_opt errorData (js "error"))
                                  (js "authorization_pending")
      then pollForToken fuel' deviceCode codeVerifier email interval
                        (snd (sleep interval w1))
      else if status_is error 400
              && strict_eq_string (get_prop_opt errorData (js "error"))
                                  (js "slow_down")
      then
        let interval' := slow_down_interval interval in
        pollForToken fuel' deviceCode codeVerifier email interval'
                     (snd (sleep interval' w1))
      else Some (Throw (new_Error (js "令牌获取失败: " ++ extractError error)), w1)
    end
  end.

(** *** The token refresher *)

(** The operation that [refreshToken] hands to [withRetry]. *)
Definition refresh_request (refreshToken : JsVal) : M QwenTokenData :=
  (let params := URLSearchParams_append (URLSearchParams_append (URLSearchParams_append []
        (js "grant_type") (js "refresh_token"))
        (js "refresh_token") (ToString refreshToken))
        (js "client_id") QWEN_OAUTH_CLIENT_ID in
   response <- postForm QWEN_OAUTH_TOKEN_ENDPOINT params ;;
   a <- prop response (js "access_token") ;;
   r <- prop response (js "refresh_token") ;;
   t <- prop response (js "token_type") ;;
   u <- prop response (js "resource_url") ;;
   n <- prop response (js "expires_in") ;;
   x <- expiry_from_now n ;;
   let tokenData := {| access_token := a;
                       refresh_token := if truthy r then r else refreshToken;
                       token_type := t; resource_url := u;
                       expiry_date := VStr x |} in
   modify (set_currentToken tokenData) ;;;
   known <- gets currentEmail ;;
   let email := if truthy known then known else VStr (js "unknown") in
   saveTokenToStorage tokenData email ;;;
   ret tokenData)%js.

Definition refreshToken (refreshToken : JsVal) : M QwenTokenData :=
  withRetry (refresh_request refreshToken) MAX_RETRIES RETRY_DELAY_MS.

(** *** The request dispatcher *)

(** The operation that [sendRequest] hands to [withRetry]. *)
Definition chat_request (options : JsVal) : M SendResult :=
  (tok <- gets currentToken ;;
   baseUrl <- buildBaseUrl (match tok with
                            | Some t => resource_url t
                            | None => VUndefined
                            end) ;;
   let apiUrl := baseUrl ++ js "/chat/completions" in
   stream <- prop options (js "stream") ;;
   headers <- buildQwenHeaders (truthy stream) ;;
   response <- fetchWithTimeout
     {| req_url := apiUrl;
        req_method := js "POST";
        req_headers := headers;
        req_body := match JSON_stringify [] options with
                    | Some text => TextBody text
                    | None => NoBody
                    end |} ;;
   if truthy stream then
     if negb (resp_ok response)
     then throw (new_Error (readErrorResponse response))
     else ret (StreamBody (resp_body response))
   else if negb (resp_ok response)
   then throw (new_Error (readErrorResponse response))
   else v <- response_json response ;; ret (JsonBody v))%js.

Definition sendRequest (options : JsVal) : M SendResult :=
  (held <- gets currentToken ;;
   token <- match held with
            | Some t => ret t
            | None =>
                loadTokenFromStorage ;;;
                loaded <- gets currentToken ;;
                match loaded with
                | Some t => ret t
                | None => throw (new_Error (js "未找到有效的令牌，请先进行认证"))
                end
            end ;;
   expired <- isTokenExpired token ;;
   (if expired && truthy (refresh_token token)
    then refreshToken (refresh_token token) ;;; ret tt
    else ret tt) ;;;
   withRetry (chat_request options) MAX_RETRIES RETRY_DELAY_MS)%js.

End SDK.

(* ================================================================= *)
(** * The invoice tool (main.ts): the callers of the SDK *)

(** A literal of the source, with its double quotes written as
    apostrophes. *)
Definition quoted (s : string) : jsstring :=
  map (fun c => if c =? 39 then 34 else c) (js s).

Definition SYSTEM_PROMPT : jsstring :=
  trim (quoted "You are an invoice extraction assistant. Return ONLY a valid JSON object that conforms to the schema below. Clean amounts and quantities to numbers without currency symbols. Format dates as YYYY-MM-DD. Tax rates must be percentage strings (e.g., '13%'). If a value is missing, use null or an empty string. Include every line item, including discounts as negative amounts. Ignore unrelated text such as download counts.
Schema:
{
    'invoice_title': 'string',
    'invoice_number': 'string',
    'issue_date': 'string',
    'buyer_info': { 'name': 'string', 'tax_id': 'string' },
    'seller_info': { 'name': 'string', 'tax_id': 'string' },
    'items': [
        {
            'name': 'string',
            'model': 'string',
            'unit': 'string',
            'quantity': 'number | null',
            'unit_price': 'number | null',
            'amount': 'number',
            'tax_rate': 'string',
            'tax_amount': 'number'
        }
    ],
    'total_amount_exclusive_tax': 'number',
    'total_tax_amount': 'number',
    'total_amount_inclusive_tax': { 'in_words': 'string', 'in_figures': 'number' },
    'remarks': 'string',
    'issuer': 'string'
}").

(** [s.replace(re, '')] for a global pattern [re] whose matches are the
    [width] characters at the head of the strings on which [found] holds:
    the matches are taken from left to right and do not overlap; [skip]
    counts the characters of a match that are still to be dropped. *)
Fixpoint remove_all (found : jsstring -> bool) (width skip : nat) (s : jsstring)
  : jsstring :=
  match s with
  | [] => []
  | c :: r =>
    match skip with
    | S k => remove_all found width k r
    | O =>
        if found s then remove_all found width (width - 1) r
        else c :: remove_all found width 0 r
    end
  end.

(** The letter whose lower case is [lower], in either case. *)
Definition is_letter (lower c : code_unit) : bool :=
  (c =? lower) || (c =? lower - 32).

(** The pattern of [/```json/gi] at the head of a string. *)
Definition at_json_fence (s : jsstring) : bool :=
  match s with
  | a :: b :: c :: j :: s' :: o :: n :: _ =>
      (a =? 96) && (b =? 96) && (c =? 96)
      && is_letter 106 j && is_letter 115 s' && is_letter 111 o && is_letter 110 n
  | _ => false
  end.

(** The pattern of [/```/g] at the head of a string. *)
Definition at_fence (s : jsstring) : bool :=
  match s with
  | a :: b :: c :: _ => (a =? 96) && (b =? 96) && (c =? 96)
  | _ => false
  end.

Definition stripJsonFences (text : jsstring) : jsstring :=
  trim (remove_all at_fence 3 0 (remove_all at_json_fence 7 0 text)).

(** [v?.[0]] *)
Definition first_opt (v : JsVal) : JsVal :=
  match v with
  | VArr l => nth 0 l VUndefined
  | VObj m => lookup (js "0") m
  | VStr (c :: _) => VStr [c]
  | _ => VUndefined
  end.

(** [response?.choices?.[0]?.message?.content] *)
Definition response_content (response : JsVal) : JsVal :=
  get_prop_opt
    (get_prop_opt (first_opt (get_prop_opt response (js "choices"))) (js "message"))
    (js "content").

(** The options that [extractSingleInvoice] passes to [sendRequest], as the
    list of their properties. *)
Definition invoice_options (dataUrl : jsstring) : list (jsstring * JsVal) :=
  [(js "model", VStr (js "vision-model"));
   (js "messages",
    VArr [VObj [(js "role", VStr (js "system"));
                (js "content", VStr SYSTEM_PROMPT)];
          VObj [(js "role", VStr (js "user"));
                (js "content",
                 VArr [VObj [(js "type", VStr (js "image_url"));
                             (js "image_url",
                              VObj [(js "url", VStr dataUrl);
                                    (js "detail", VStr (js "high"))])];
                       VObj [(js "type", VStr (js "text"));
                             (js "text",
                              VStr (js "请提取发票信息并返回 JSON。"))]])]]);
   (js "stream", VBool false)].

(** The characters that [.] does not match: the line terminators. *)
Definition is_line_terminator (c : code_unit) : bool :=
  (c =? 10) || (c =? 13) || (c =? 8232) || (c =? 8233).

(** [\d+] at the head of a string ([\d] is [is_digit]): what follows the
    digits, when there is one digit at least.  The digits are taken
    greedily; in the pattern below a dot has to follow them, so no shorter
    run can match. *)
Fixpoint after_digits (seen : bool) (s : jsstring) : option jsstring :=
  match s with
  | c :: r => if is_digit c then after_digits true r
              else if seen then Some s else None
  | [] => if seen then Some [] else None
  end.

(** [-\d+\.[^.]+$] matches the whole of [s]. *)
Definition is_page_suffix (s : jsstring) : bool :=
  match s with
  | 45 :: r =>
      match after_digits false r with
      | Some (46 :: c :: ext) => forallb (fun x => negb (x =? 46)) (c :: ext)
      | _ => false
      end
  | _ => false
  end.

(** [file.match(/^(.+)-\d+\.[^.]+$/)]: the first group of the match, which
    is the longest head of [file] that the rest of the pattern can follow;
    [None] when the pattern does not match. *)
Fixpoint page_match (file : jsstring) : option jsstring :=
  match file with
  | [] => None
  | c :: r =>
      if is_line_terminator c then None
      else match page_match r with
           | Some group => Some (c :: group)
           | None => if is_page_suffix r then Some [c] else None
           end
  end.

(** [match ? match[1] : img.file] *)
Definition pdfName_of (file : jsstring) : jsstring :=
  match page_match file with
  | Some group => group
  | None => file
  end.

(** [pdfGroups], a [Map] from the name of a PDF to the data URLs of its
    pages: the entries in the order of their insertion, each with its first
    data URL and the ones pushed after it. *)
Definition PdfGroups : Type := list (jsstring * (jsstring * list jsstring)).

(** [if (!pdfGroups.has(pdfName)) pdfGroups.set(pdfName, []);
     pdfGroups.get(pdfName).push(dataUrl)] *)
Fixpoint push_page (pdfName dataUrl : jsstring) (pdfGroups : PdfGroups) : PdfGroups :=
  match pdfGroups with
  | [] => [(pdfName, (dataUrl, []))]
  | (name, (first, others)) :: rest =>
      if jsstring_eqb name pdfName
      then (name, (first, others ++ [dataUrl])) :: rest
      else (name, (first, others)) :: push_page pdfName dataUrl rest
  end.

(** The first loop of [extractAllInvoices], over the images, each a file
    name with its data URL. *)
Fixpoint group_pages (encodedImages : list (jsstring * jsstring)) (pdfGroups : PdfGroups)
  : PdfGroups :=
  match encodedImages with
  | [] => pdfGroups
  | (file, dataUrl) :: rest =>
      group_pages rest (push_page (pdfName_of file) dataUrl pdfGroups)
  end.

Section InvoiceTool.

Context (E : Engine).

Definition parseInvoiceJson (text : jsstring) : M JsVal :=
  let cleaned := stripJsonFences text in
  JSON_parse_or_throw E cleaned.

(** [content.map((part) => (part.type === 'text' ? part.text : ''))] *)
Fixpoint part_texts (content : list JsVal) : M (list JsVal) :=
  match content with
  | [] => ret []
  | part :: rest =>
      (type <- prop E part (js "type") ;;
       text <- (if strict_eq_string type (js "text") then prop E part (js "text")
                else ret (VStr [])) ;;
       texts <- part_texts rest ;;
       ret (text :: texts))%js
  end.

(** [texts.join('')] *)
Definition join_texts (texts : list JsVal) : jsstring :=
  join [] (map (fun e => match e with
                         | VUndefined | VNull => []
                         | _ => ToString E e
                         end) texts).

Definition extractSingleInvoice (dataUrl : jsstring) : M JsVal :=
  (response <- sendRequest E (VObj (invoice_options dataUrl)) ;;
   let content := match response with
                  | JsonBody v => response_content v
                  | StreamBody _ => VUndefined     (* a stream has no [choices] *)
                  end in
   textContent <- match content with
                  | VArr parts =>
                      texts <- part_texts parts ;; ret (trim (join_texts texts))
                  | VStr s => ret (trim s)
                  | _ => ret []
                  end ;;
   match textContent with
   | [] => throw (new_Error (js "Model returned empty content."))
   | _ :: _ => parseInvoiceJson textContent
   end)%js.

(** [v.length] *)
Definition length_of (v : JsVal) : M JsVal :=
  match v with
  | VUndefined | VNull => throw (engine_error E Nullish_TypeError)
  | VStr s => ret (VNum (inject_Z (Z.of_nat (List.length s))))
  | VArr l => ret (VNum (inject_Z (Z.of_nat (List.length l))))
  | VObj m => ret (lookup (js "length") m)
  | VBool _ | VNum _ => ret VUndefined
  end.

(** The body of the second loop of [extractAllInvoices], its [try] and its
    [catch]: the invoices after it and the line that it logs. *)
Definition recognise (dataUrl : jsstring) (invoices : list JsVal)
  : M (list JsVal * jsstring) :=
  fun w =>
    match extractSingleInvoice dataUrl w with
    | (Ok invoice, w1) =>
        let pushed := invoices ++ [invoice] in
        try_catch
          (items <- prop E invoice (js "items") ;;
           count <- length_of items ;;
           ret (pushed, js " ✓ " ++ ToString E count ++ js " 项商品"))%js
          (fun error => ret (pushed, js " ✗ " ++ err_message error))
          w1
    | (Throw error, w1) => (Ok (invoices, js " ✗ " ++ err_message error), w1)
    end.

(** The second loop of [extractAllInvoices], from the index [i], with the
    invoices recognised and the text written to the standard output so
    far. *)
Fixpoint recognise_from (total i : nat) (pdfGroups : PdfGroups)
    (invoices : list JsVal) (stdout : jsstring) : M (list JsVal * jsstring) :=
  match pdfGroups with
  | [] => ret (invoices, stdout)
  | (pdfName, (first, _)) :: rest =>
      let announced :=
        stdout ++ js "• 识别发票 " ++ Number_toString E (inject_Z (Z.of_nat i + 1))
               ++ js "/" ++ Number_toString E (inject_Z (Z.of_nat total))
               ++ js ": " ++ pdfName ++ js "..." in
      (step <- recognise first invoices ;;
       recognise_from total (S i) rest (fst step) (announced ++ snd step ++ [10]))%js
  end.

(** [extractAllInvoices(sdk, encodedImages)]: the invoices, with the text
    that the call writes to the standard output. *)
Definition extractAllInvoices (encodedImages : list (jsstring * jsstring))
  : M (list JsVal * jsstring) :=
  let pdfGroups := group_pages encodedImages [] in
  recognise_from (List.length pdfGroups) 0 pdfGroups [] [].

End InvoiceTool.

(* ================================================================= *)
(** * The vocabulary of the properties *)

(** The failures that [withRetry] gives up on at once. *)
Definition fatal (e : JsError) : Prop :=
  err_status e = Some 401%Z \/ err_status e = Some 403%Z \/ err_status e = Some 400%Z.

(** The failures that [withRetry] retries: every other one, among them the
    failures that carry no status at all. *)
Definition retryable (e : JsError) : Prop :=
  err_status e <> Some 401%Z /\ err_status e <> Some 403%Z
  /\ err_status e <> Some 400%Z.

(** Every attempt from the one numbered [attempt] to the last one fails
    with a retryable error, with the sleeps of [withRetry] in between; [e] is
    the error of the last attempt and [w'] the world it leaves. *)
Inductive fails_every_attempt {T} (fn : M T) (retries delay : Z)
  : Z -> World -> JsError -> World -> Prop :=
| fails_last_attempt : forall attempt w e w',
    attempt = retries ->
    fn w = (Throw e, w') -> retryable e ->
    fails_every_attempt fn retries delay attempt w e w'
| fails_and_retries : forall attempt w e1 w1 e w',
    (attempt < retries)%Z ->
    fn w = (Throw e1, w1) -> retryable e1 ->
    fails_every_attempt fn retries delay (attempt + 1)%Z
                        (snd (sleep (delay * attempt) w1)) e w' ->
    fails_every_attempt fn retries delay attempt w e w'.

(** base64url without padding, after RFC 4648 (section 5 alphabet, section
    3.2 on omitting the padding): the bits of the input, most significant
    first, are cut into groups of six, the last group is completed with zero
    bits, and each group is written as the character that the URL-safe
    alphabet has at its value. *)
Definition base64url_alphabet : jsstring :=
  Eval cbv in js "ABCDEFGHIJKLMNOPQRSTUVWXYZabcdefghijklmnopqrstuvwxyz0123456789-_".

Definition base64url_char (i : N) : code_unit := nth (N.to_nat i) base64url_alphabet 61.

Definition bits_of_byte (b : byte) : list bool :=
  map (N.testbit (Byte.to_N b)) [7; 6; 5; 4; 3; 2; 1; 0].

Definition bits_value (bits : list bool) : N :=
  fold_left (fun acc (b : bool) => 2 * acc + (if b then 1 else 0)) bits 0.

Fixpoint sextets (bits : list bool) : list N :=
  match bits with
  | [] => []
  | b5 :: b4 :: b3 :: b2 :: b1 :: b0 :: r =>
      bits_value [b5; b4; b3; b2; b1; b0] :: sextets r
  | _ => [bits_value (firstn 6 (bits ++ repeat false 5))]
  end.

Definition base64url_no_padding (bs : list byte) : jsstring :=
  map base64url_char (sextets (flat_map bits_of_byte bs)).

(** On the 64 characters of the standard alphabet, the two replacements of
    [base64URLEncode] give the URL-safe alphabet, which has no [=]. *)
Definition url_safe (c : code_unit) : code_unit :=
  let c1 := if c =? 43 then 45 else c in
  if c1 =? 47 then 95 else c1.

(** A text that [toWellFormed] leaves alone whatever follows it. *)
Definition closed_text (a : jsstring) : Prop :=
  forall b, toWellFormed (a ++ b) = a ++ toWellFormed b.

(** The text of the member [k: v] of an object printed with an
    indentation, for a string [v]. *)
Definition member_text (kv : jsstring * jsstring) : jsstring :=
  QuoteJSONString (fst kv) ++ [58; 32] ++ QuoteJSONString (snd kv).

Definition add_string_member (m : list (jsstring * JsVal)) (kv : jsstring * jsstring)
  : list (jsstring * JsVal) :=
  define_property (fst kv) (VStr (snd kv)) m.

(** The text that [JSON.stringify(o, null, 2)] prints for an object [o]
    whose properties are the strings [kvs]. *)
Definition object_text (kvs : list (jsstring * jsstring)) : jsstring :=
  [123; 10; 32; 32] ++ join [44; 10; 32; 32] (map member_text kvs) ++ [10; 125].

Definition is_string (v : JsVal) : Prop := exists s, v = VStr s.
Definition is_optional_string (v : JsVal) : Prop := v = VUndefined \/ is_string v.

(** A token whose stored fields have the types that interface
    QwenTokenData declares for them. *)
Definition storable (tok : QwenTokenData) : Prop :=
  is_string (access_token tok) /\ is_optional_string (refresh_token tok)
  /\ is_optional_string (resource_url tok) /\ is_string (expiry_date tok).

Definition with_token_type (t : JsVal) (tok : QwenTokenData) : QwenTokenData :=
  {| access_token := access_token tok; refresh_token := refresh_token tok;
     token_type := t; resource_url := resource_url tok;
     expiry_date := expiry_date tok |}.

(** The form that the initiator posts to the device-code endpoint, with the
    given code challenge. *)
Definition device_code_form (codeChallenge : jsstring) : Request :=
  form_request QWEN_OAUTH_DEVICE_CODE_ENDPOINT
    [(js "client_id", QWEN_OAUTH_CLIENT_ID);
     (js "scope", QWEN_OAUTH_SCOPE);
     (js "code_challenge", codeChallenge);
     (js "code_challenge_method", js "S256")].

(** The form that one poll posts to the token endpoint. *)
Definition poll_params (deviceCode codeVerifier : jsstring) : list (jsstring * jsstring) :=
  [(js "grant_type", QWEN_OAUTH_GRANT_TYPE);
   (js "client_id", QWEN_OAUTH_CLIENT_ID);
   (js "device_code", toWellFormed deviceCode);
   (js "code_verifier", toWellFormed codeVerifier)].

Definition poll_form (deviceCode codeVerifier : jsstring) : Request :=
  form_request QWEN_OAUTH_TOKEN_ENDPOINT (poll_params deviceCode codeVerifier).

(** An HTTP 400 answer whose body is a JSON object with the given error
    code. *)
Definition error_answer (code : jsstring) (r : Response) : Prop :=
  resp_status r = 400%Z
  /\ exists d, JSON_parse (resp_body r) = Some d
               /\ get_prop_opt d (js "error") = VStr code.

(** The world after a request that was answered after [latency]
    milliseconds. *)
Definition answered (req : Request) (latency : N) (w : World) : World :=
  advance (Z.of_N latency) (log_request req w).

(** A 2xx answer whose body is the JSON object with the properties [m]. *)
Definition object_answer (m : list (jsstring * JsVal)) (r : Response) : Prop :=
  resp_ok r = true /\ JSON_parse (resp_body r) = Some (VObj m).

(** The token that the poller builds from the properties [m] of a token
    response, with the expiry text [x]. *)
Definition token_of_response (m : list (jsstring * JsVal)) (x : jsstring) : QwenTokenData :=
  {| access_token := lookup (js "access_token") m;
     refresh_token := lookup (js "refresh_token") m;
     token_type := lookup (js "token_type") m;
     resource_url := lookup (js "resource_url") m;
     expiry_date := VStr x |}.

(** A request to the chat endpoint that carries the given Authorization
    header and no other. *)
Definition authorized_chat_request (authorization : jsstring) (rq : Request) : Prop :=
  (exists base, req_url rq = base ++ js "/chat/completions")
  /\ req_url rq <> QWEN_OAUTH_TOKEN_ENDPOINT
  /\ In (js "Authorization", authorization) (req_headers rq)
  /\ forall v, In (js "Authorization", v) (req_headers rq) -> v = authorization.

Section DispatcherVocabulary.

Context (E : Engine).

(** The form that a refresh posts to the token endpoint. *)
Definition refresh_form (refreshToken : JsVal) : Request :=
  form_request QWEN_OAUTH_TOKEN_ENDPOINT
    [(js "grant_type", js "refresh_token");
     (js "refresh_token", toWellFormed (ToString E refreshToken));
     (js "client_id", QWEN_OAUTH_CLIENT_ID)].

(** The token that the refresher builds from the properties [m] of a token
    response, with the expiry text [x]: the refresh token in use stays when
    the response brings no new one. *)
Definition refreshed_token (m : list (jsstring * JsVal)) (refreshToken : JsVal)
    (x : jsstring) : QwenTokenData :=
  {| access_token := lookup (js "access_token") m;
     refresh_token := if truthy (lookup (js "refresh_token") m)
                      then lookup (js "refresh_token") m else refreshToken;
     token_type := lookup (js "token_type") m;
     resource_url := lookup (js "resource_url") m;
     expiry_date := VStr x |}.

(** What a run of the dispatching loop does to the world: the token held
    stays, and the requests issued are chat requests authorized by it. *)
Definition dispatches (w w' : World) : Prop :=
  currentToken w' = currentToken w
  /\ exists rs, requests w' = requests w ++ rs
                /\ Forall (authorized_chat_request (bearer_text E (currentToken w))) rs.

End DispatcherVocabulary.

(* ================================================================= *)
(** ** The vocabulary of the further properties *)

(** The sleeps of [withRetry] after [n] failed attempts that are retried:
    [delay * 1], ..., [delay * n]. *)
Definition linear_backoff (delay : Z) (n : nat) : list Z :=
  map (fun k => (delay * Z.of_nat k)%Z) (seq 1 n).

(** An operation that issues exactly one request each time it is invoked,
    and does not sleep. *)
Definition one_request_each {T} (fn : M T) : Prop :=
  forall w r w1,
    fn w = (r, w1) ->
    timers w1 = timers w
    /\ List.length (requests w1) = S (List.length (requests w)).

(** [retried_to fn retries delay attempt w last w0]: the loop of [withRetry],
    at the iteration numbered [attempt] in the world [w], comes to run the
    operation as iteration [last] in the world [w0]: at once, or after runs
    that failed with an error that is retried, each followed by its sleep. *)
Inductive retried_to {T} (fn : M T) (retries delay : Z)
  : Z -> World -> Z -> World -> Prop :=
| retried_to_here attempt w : retried_to fn retries delay attempt w attempt w
| retried_to_next attempt w e w1 last w0 :
    fn w = (Throw e, w1) ->
    retryable e ->
    (attempt < retries)%Z ->
    retried_to fn retries delay (attempt + 1)%Z (snd (sleep (delay * attempt) w1))
               last w0 ->
    retried_to fn retries delay attempt w last w0.

(** Why the run numbered [attempt] is the last one: it returned, it failed
    with a status that is not retried, or no attempt is left. *)
Definition ends_the_loop {T} (retries attempt : Z) (r : Result T) : Prop :=
  match r with
  | Ok _ => True
  | Throw e => fatal e \/ (retries <= attempt)%Z
  end.

Section DispatcherVocabulary2.

Context (E : Engine).

(** The token held needs no refresh at time [now]: it has no refresh token,
    or its expiry does not read as a date, or its expiry is still ahead. *)
Definition no_refresh_due (tok : QwenTokenData) (now : Z) : Prop :=
  truthy (refresh_token tok) = false
  \/ match parseExpiry E (expiry_date tok) with
     | Some expiry => (now < expiry)%Z
     | None => True
     end.

(** The request that the dispatcher posts for the options [options] with
    the token [tok] held, to the base URL [baseUrl]. *)
Definition chat_post (tok : QwenTokenData) (baseUrl : jsstring) (options : JsVal)
  : Request :=
  {| req_url := baseUrl ++ js "/chat/completions";
     req_method := js "POST";
     req_headers :=
       [(js "Content-Type", js "application/json");
        (js "Authorization", bearer_text E (Some tok));
        (js "User-Agent", QWEN_USER_AGENT);
        (js "X-Goog-Api-Client", QWEN_X_GOOG_API_CLIENT);
        (js "Client-Metadata", QWEN_CLIENT_METADATA);
        (js "Accept", if truthy (get_prop_opt options (js "stream"))
                      then js "text/event-stream" else js "application/json")];
     req_body := match JSON_stringify E [] options with
                 | Some text => TextBody text
                 | None => NoBody
                 end |}.

End DispatcherVocabulary2.

(** A server that answers every request in time, and never with a 2xx
    status. *)
Definition rejects_everything (srv : nat -> Request -> N * NetOutcome) : Prop :=
  forall n rq,
    exists latency r,
      srv n rq = (latency, NetResponse r)
      /\ (Z.of_N latency < requestTimeoutMs)%Z
      /\ resp_ok r = false.

(** The email under which the refresher stores the token: the email of the
    instance, or 'unknown' when there is none. *)
Definition refresh_label (known : JsVal) : JsVal :=
  if truthy known then known else VStr (js "unknown").

(** The characters that RFC 7636 allows in a code verifier (the unreserved
    characters of a URI): letters, digits, [-], [.], [_] and [~]. *)
Definition is_unreserved (c : code_unit) : bool :=
  ((65 <=? c) && (c <=? 90)) || ((97 <=? c) && (c <=? 122))
  || ((48 <=? c) && (c <=? 57))
  || (c =? 45) || (c =? 46) || (c =? 95) || (c =? 126).

(** The bytes that the [k]-th draw of 32 random bytes after the world [w]
    hands out, and the form that an attempt of the initiator posts when it
    draws them for its verifier. *)
Definition verifier_bytes (w : World) (k : nat) : list byte :=
  map (entropy w) (seq (32 * k + drawn w) 32).

Definition device_code_post (w : World) (k : nat) : Request :=
  device_code_form (generateCodeChallenge (base64URLEncode (verifier_bytes w k))).

(** A 2xx answer of the device-code endpoint that lacks one of the three
    fields that the initiator requires. *)
Definition incomplete_device_answer (r : Response) : Prop :=
  exists m,
    object_answer m r
    /\ truthy (lookup (js "user_code") m) && truthy (lookup (js "device_code") m)
       && truthy (lookup (js "verification_uri_complete") m) = false.

Definition answers_incomplete (srv : nat -> Request -> N * NetOutcome) : Prop :=
  forall n rq,
    exists latency r,
      srv n rq = (latency, NetResponse r)
      /\ (Z.of_N latency < requestTimeoutMs)%Z
      /\ incomplete_device_answer r.

(** A server that answers every poll in time with [authorization_pending]
    or [slow_down]. *)
Definition keeps_waiting (srv : nat -> Request -> N * NetOutcome) (poll : Request) : Prop :=
  forall n,
    exists latency r,
      srv n poll = (latency, NetResponse r)
      /\ (Z.of_N latency < requestTimeoutMs)%Z
      /\ (error_answer (js "authorization_pending") r
          \/ error_answer (js "slow_down") r).

(** The token that [loadTokenFromStorage] builds from the value [v] that
    the file holds. *)
Definition token_of_storage (v : JsVal) : QwenTokenData :=
  {| access_token := get_prop_opt v (js "access_token");
     refresh_token := get_prop_opt v (js "refresh_token");
     token_type := VStr (js "Bearer");
     resource_url := get_prop_opt v (js "resource_url");
     expiry_date := get_prop_opt v (js "expired") |}.

(** The sleeps that a world has logged, added up. *)
Definition slept (w : World) : Z := fold_right Z.add 0%Z (timers w).

(** A run from [w] to [w'] that issues [n] requests at most and whose sleeps
    add up to [ms] milliseconds at most.  The time that the requests
    themselves take is not part of it. *)
Definition within (ms : Z) (n : nat) (w w' : World) : Prop :=
  (slept w' <= slept w + ms)%Z
  /\ (List.length (requests w') <= List.length (requests w) + n)%nat.

(** The sleeps of [withRetry] between [iterations] attempts, the first of
    them numbered [attempt], added up. *)
Fixpoint retry_budget (delay : Z) (iterations : nat) (attempt : Z) : Z :=
  match iterations with
  | O => 0
  | S n =>
      match n with
      | O => 0
      | S _ => Z.max 0 (delay * attempt) + retry_budget delay n (attempt + 1)
      end
  end.

(** A server that answers no request within the 120 seconds. *)
Definition never_in_time (srv : nat -> Request -> N * NetOutcome) : Prop :=
  forall n rq, (requestTimeoutMs <= Z.of_N (fst (srv n rq)))%Z.

(** A text without a backtick. *)
Definition backtick_free (s : jsstring) : bool := forallb (fun c => negb (c =? 96)) s.

(** [null] and [undefined] *)
Definition nullish (v : JsVal) : bool :=
  match v with
  | VUndefined | VNull => true
  | _ => false
  end.

(** What a part of a content array that is neither [null] nor [undefined]
    contributes: its [text] when its [type] is the string text, the empty
    string otherwise. *)
Definition text_of_part (part : JsVal) : JsVal :=
  if strict_eq_string (get_prop_opt part (js "type")) (js "text")
  then get_prop_opt part (js "text")
  else VStr [].

Section InvoiceVocabulary.

Context (E : Engine).

(** The instance holds the token [tok], which needs no refresh; the chat
    request for the image [dataUrl] goes to the base URL [baseUrl], and the
    server answers it in time, with a 2xx status and a body that reads as
    the JSON value [v]. *)
Definition invoice_answered (dataUrl : jsstring) (w : World) (tok : QwenTokenData)
    (baseUrl : jsstring) (latency : N) (r : Response) (v : JsVal) : Prop :=
  currentToken w = Some tok
  /\ no_refresh_due E tok (clock w)
  /\ buildBaseUrl E (resource_url tok) w = (Ok baseUrl, w)
  /\ server w (List.length (requests w))
       (chat_post E tok baseUrl (VObj (invoice_options dataUrl)))
     = (latency, NetResponse r)
  /\ (Z.of_N latency < requestTimeoutMs)%Z
  /\ resp_ok r = true
  /\ JSON_parse (resp_body r) = Some v.

(** What [extractSingleInvoice] makes of the text of an answer. *)
Definition invoice_of_text (textContent : jsstring) : Result JsVal :=
  match textContent with
  | [] => Throw (new_Error (js "Model returned empty content."))
  | _ :: _ =>
      match JSON_parse (stripJsonFences textContent) with
      | Some invoice => Ok invoice
      | None => Throw (engine_error E JSON_SyntaxError)
      end
  end.

End InvoiceVocabulary.

(** The name of each group with the first of its data URLs, the one that
    is sent. *)
Definition first_pages (pdfGroups : PdfGroups) : list (jsstring * jsstring) :=
  map (fun g => (fst g, fst (snd g))) pdfGroups.

(** The image [(file, dataUrl)] is the first of [encodedImages] whose file
    belongs to the PDF [pdfName]. *)
Definition first_image_of (pdfName dataUrl : jsstring)
    (encodedImages : list (jsstring * jsstring)) : Prop :=
  exists before file after,
    encodedImages = before ++ (file, dataUrl) :: after
    /\ pdfName_of file = pdfName
    /\ forall image, In image before -> pdfName_of (fst image) <> pdfName.

(* ================================================================= *)
(** ** The worlds of the concrete runs *)

(** A fresh instance at time 0 in front of the given server: nothing
    requested, nothing stored, no token held. *)
Definition fresh_world (srv : nat -> Request -> N * NetOutcome) : World :=
  {| clock := 0; server := srv; requests := []; timers := [];
     entropy := fun _ => x00; drawn := 0; file := None;
     fs_read_error := None; fs_write_error := None; warnings := [];
     currentToken := None; currentEmail := VUndefined |}.

(** [json_text "{'a': 1}"] is the text [{"a": 1}]: the apostrophes of the
    literal stand for quotation marks. *)
Definition json_text (s : string) : jsstring :=
  map (fun c => if c =? 39 then 34 else c) (js s).

Definition answer (status : Z) (statusText body : string) : N * NetOutcome :=
  (0, NetResponse (mkResponse status (js statusText) (json_text body))).

Definition network_down : N * NetOutcome :=
  (0, NetFailure {| err_name := js "TypeError"; err_message := js "fetch failed";
                    err_status := None; err_data := VUndefined |}).

Definition pending_answer : N * NetOutcome :=
  answer 400 "Bad Request" "{'error':'authorization_pending'}".

Definition slow_down_answer : N * NetOutcome :=
  answer 400 "Bad Request" "{'error':'slow_down'}".

Definition grant_answer (expires_in : string) : N * NetOutcome :=
  answer 200 "OK"
    ("{'access_token':'tok-A','token_type':'Bearer','expires_in':"
       ++ expires_in ++ "}").

(** The operation that the executor runs in the examples: one form post. *)
Definition ping : M JsVal := postForm integer_engine QWEN_OAUTH_TOKEN_ENDPOINT [].
Definition ping_request : Request := form_request QWEN_OAUTH_TOKEN_ENDPOINT [].

Definition unauthorized_world : World :=
  fresh_world (fun _ _ => answer 401 "Unauthorized" "{'error':'invalid_token'}").

Definition flaky_world : World :=
  fresh_world (fun n _ => match n with
                          | 0%nat | 1%nat => network_down
                          | _ => answer 200 "OK" "{'ok':true}"
                          end).

Definition down_world : World := fresh_world (fun _ _ => network_down).

Definition two_pending_world : World :=
  fresh_world (fun n _ => match n with
                          | 0%nat | 1%nat => pending_answer
                          | _ => grant_answer "3600"
                          end).

Definition one_pending_world : World :=
  fresh_world (fun n _ => match n with
                          | 0%nat => pending_answer
                          | _ => grant_answer "7200"
                          end).

Definition slow_down_world : World :=
  fresh_world (fun n _ => match n with
                          | 0%nat => slow_down_answer
                          | _ => grant_answer "3600"
                          end).

(** The email field of the envelope that the file holds. *)
Definition stored_email (w : World) : option JsVal :=
  match file w with
  | Some text =>
      match JSON_parse text with
      | Some v => get_prop v (js "email")
      | None => None
      end
  | None => None
  end.

(** The poll of the first scenario: 5000 ms between polls, an email with a
    space in front. *)
Definition two_pending_poll : option (Result QwenTokenData * World) :=
  pollForToken integer_engine 3 (js "DC123") (js "v1") (js " user@example.com")
               5000 two_pending_world.

(** The scenario of the dispatcher: a token that expired at time 0 is
    held at time 1000; the token endpoint grants the refresh, and the chat
    endpoint answers 500 once before it answers. *)
Definition expired_token : QwenTokenData :=
  {| access_token := VStr (js "tok-old");
     refresh_token := VStr (js "rt-1");
     token_type := VStr (js "Bearer");
     resource_url := VUndefined;
     expiry_date := VStr (js "1970-01-01T00:00:00.000Z") |}.

Definition refresh_grant : Response :=
  mkResponse 200 (js "OK") (json_text "{'access_token':'tok-B','expires_in':3600}").

Definition expired_world : World :=
  {| clock := 1000; 
     server := fun n _ => match n with
                          | 0%nat => (0, NetResponse refresh_grant)
                          | 1%nat => answer 500 "Internal Server Error" "oops"
                          | _ => answer 200 "OK" "{'choices':[]}"
                          end;
     requests := []; timers := [];
     entropy := fun _ => x00; drawn := 0; file := None;
     fs_read_error := None; fs_write_error := None; warnings := [];
     currentToken := Some expired_token; currentEmail := VUndefined |}.

Definition chat_options : JsVal :=
  VObj [(js "model", VStr (js "qwen3-coder-plus")); (js "messages", VArr [])].

(** A token with every field set, of a type that is not 'Bearer'. *)
Definition mac_token : QwenTokenData :=
  {| access_token := VStr (js "tok-A");
     refresh_token := VStr (json_text "rt-'quoted'");
     token_type := VStr (js "MAC");
     resource_url := VStr (js "portal.qwen.ai/");
     expiry_date := VStr (js "2026-11-02T00:00:00.123Z") |}.

Definition empty_world : World := fresh_world (fun _ _ => network_down).

Definition corrupted_world : World :=
  set_file (json_text "{'access_token': 'tok-A', ") empty_world.

(** A store whose file holds a well-formed token, where it can be read and
    where it cannot (the file is there, reading it fails with EACCES). *)
Definition stored_token_text : jsstring :=
  json_text ("{'access_token':'tok-A','refresh_token':'rt-1',"
             ++ "'last_refresh':'2026-11-02T00:00:00.000Z','email':'user@example.com',"
             ++ "'type':'qwen','expired':'2099-01-01T00:00:00.000Z'}").

Definition readable_world : World := set_file stored_token_text empty_world.

Definition permission_denied : JsError :=
  new_Error (js "EACCES: permission denied").

Definition unreadable_world : World :=
  mkWorld 0 (fun _ _ => network_down) [] [] (fun _ => x00) 0 (Some stored_token_text)
          (Some permission_denied) None [] None VUndefined.

(** The end-to-end scenario: one [authorization_pending] answer, then a
    grant; the email passed in has white space around it. *)
Definition one_pending_poll : option (Result QwenTokenData * World) :=
  pollForToken integer_engine 2 (js "DC123") (js "v1") (js "  alice@example.com ")
               5000 one_pending_world.

(** A token that is good until 2099, for the portal given with a slash at
    its end. *)
Definition fresh_token : QwenTokenData :=
  {| access_token := VStr (js "tok-A");
     refresh_token := VStr (js "rt-1");
     token_type := VStr (js "Bearer");
     resource_url := VStr (js "portal.qwen.ai/");
     expiry_date := VStr (js "2099-01-01T00:00:00.000Z") |}.

(** The options of the examples, as the list of their properties. *)
Definition chat_properties : list (jsstring * JsVal) :=
  [(js "model", VStr (js "qwen3-coder-plus")); (js "messages", VArr [])].

(** Instances that hold the fresh token, in front of a server that rejects
    every request with 401, and in front of one that answers every
    request. *)
Definition rejecting_world : World :=
  set_currentToken fresh_token
    (fresh_world (fun _ _ => answer 401 "Unauthorized" "{'error':'invalid_token'}")).

Definition serving_world : World :=
  set_currentToken fresh_token (fresh_world (fun _ _ => answer 200 "OK" "{'choices':[]}")).

(** An instance that holds the expired token at time 1000, in front of a
    token endpoint that refuses the refresh. *)
Definition invalid_grant : Response :=
  mkResponse 400 (js "Bad Request") (json_text "{'error':'invalid_grant'}").

Definition refused_world : World :=
  set_currentToken expired_token
    (advance 1000 (fresh_world (fun _ _ => (0, NetResponse invalid_grant)))).

(** Device-code endpoints: one whose answers lack the user code, and one
    whose answer is complete (and tries to set the verifier). *)
Definition incomplete_flow : Response :=
  mkResponse 200 (js "OK") (json_text "{'device_code':'DC123'}").

Definition incomplete_world : World :=
  fresh_world (fun _ _ => (0, NetResponse incomplete_flow)).

Definition device_world : World :=
  fresh_world (fun _ _ =>
    answer 200 "OK"
      ("{'device_code':'DC123','user_code':'UC-1',"
       ++ "'verification_uri':'https://chat.qwen.ai/device',"
       ++ "'verification_uri_complete':'https://chat.qwen.ai/device?user_code=UC-1',"
       ++ "'expires_in':900,'interval':5,'code_verifier':'forged'}")).

(** Token endpoints: one that never decides, and one that denies. *)
Definition waiting_world : World :=
  fresh_world (fun n _ => if Nat.even n then pending_answer else slow_down_answer).

Definition access_denied : Response :=
  mkResponse 400 (js "Bad Request") (json_text "{'error':'access_denied'}").

Definition denied_world : World :=
  fresh_world (fun _ _ => (0, NetResponse access_denied)).

(** A store whose file holds an empty object, and an instance that holds a
    token but has stored nothing yet. *)
Definition unvalidated_world : World := set_file (json_text "{}") empty_world.

Definition labelled_world : World := set_currentToken mac_token empty_world.

(** Chat endpoints for the invoice tool: one whose model answers with an
    invoice in a fence, and one whose model answers with an empty
    object. *)
Definition fenced_invoice : Response :=
  mkResponse 200 (js "OK")
    (json_text
       "{'choices':[{'message':{'content':'```json\n{\'items\':[]}\n```'}}]}").

Definition invoice_world : World :=
  set_currentToken fresh_token (fresh_world (fun _ _ => (0, NetResponse fenced_invoice))).

Definition empty_invoice : Response :=
  mkResponse 200 (js "OK") (json_text "{'choices':[{'message':{'content':'{}'}}]}").

Definition empty_invoice_world : World :=
  set_currentToken fresh_token (fresh_world (fun _ _ => (0, NetResponse empty_invoice))).

(** The data URL of the examples. *)
Definition page_image : jsstring := js "data:image/png;base64,iVBORw0KGgo=".

(** Token endpoints: one that answers after 120 seconds, one that grants
    without a lifetime, and one that grants to an instance whose file
    cannot be written. *)
Definition stalled_world : World :=
  fresh_world (fun _ _ => (120000, NetResponse (mkResponse 200 (js "OK") (json_text "{}")))).

Definition no_lifetime : Response :=
  mkResponse 200 (js "OK") (json_text "{'access_token':'tok-A'}").

Definition no_lifetime_world : World :=
  fresh_world (fun _ _ => (0, NetResponse no_lifetime)).

Definition disk_full : JsError :=
  {| err_name := js "Error"; err_message := js "ENOSPC: no space left on device";
     err_status := None; err_data := VUndefined |}.

Definition fetch_failed : JsError :=
  {| err_name := js "TypeError"; err_message := js "fetch failed";
     err_status := None; err_data := VUndefined |}.

Definition granted_properties : list (jsstring * JsVal) :=
  [(js "access_token", VStr (js "tok-A")); (js "token_type", VStr (js "Bearer"));
   (js "expires_in", VNum 3600)].

Definition granted : Response :=
  mkResponse 200 (js "OK")
    (json_text "{'access_token':'tok-A','token_type':'Bearer','expires_in':3600}").

Definition unwritable_world : World :=
  {| clock := 0; server := fun _ _ => (0, NetResponse granted); requests := [];
     timers := []; entropy := fun _ => x00; drawn := 0; file := None;
     fs_read_error := None; fs_write_error := Some disk_full; warnings := [];
     currentToken := None; currentEmail := VUndefined |}.

(* ================================================================= *)
(** * Verified properties *)

(* ================================================================= *)
(** ** The retrying executor *)

Lemma status_is_true e n : status_is e n = true <-> err_status e = Some n.
Proof.
  unfold status_is. destruct (err_status e) as [s|].
  - rewrite Z.eqb_eq. split; intros H; [now subst | now inversion H].
  - split; discriminate.
Qed.

Lemma fatal_test e :
  fatal e -> status_is e 401 || status_is e 403 || status_is e 400 = true.
Proof.
  intros [H | [H | H]]; apply status_is_true in H; rewrite H;
    repeat rewrite orb_true_r; reflexivity.
Qed.

Lemma retryable_test e :
  retryable e -> status_is e 401 || status_is e 403 || status_is e 400 = false.
Proof.
  intros (H1 & H3 & H0).
  repeat (apply orb_false_intro);
    (destruct (status_is e _) eqn:Hs; [apply status_is_true in Hs; contradiction | reflexivity]).
Qed.

Lemma no_status_retryable e : err_status e = None -> retryable e.
Proof. intros H. unfold retryable. rewrite H. repeat split; discriminate. Qed.

Lemma withRetry_loop_fatal T (fn : M T) retries delay n attempt lastError w e w1 :
  fn w = (Throw e, w1) -> fatal e ->
  withRetry_loop fn retries delay (S n) attempt lastError w = (Throw e, w1).
Proof.
  intros Hfn Hfatal. simpl. rewrite Hfn, (fatal_test e Hfatal). reflexivity.
Qed.

Lemma withRetry_loop_ok T (fn : M T) retries delay n attempt lastError w v w1 :
  fn w = (Ok v, w1) ->
  withRetry_loop fn retries delay (S n) attempt lastError w = (Ok v, w1).
Proof. intros Hfn. simpl. rewrite Hfn. reflexivity. Qed.

Lemma withRetry_loop_retry T (fn : M T) retries delay n attempt lastError w e w1 :
  fn w = (Throw e, w1) -> retryable e -> (attempt < retries)%Z ->
  withRetry_loop fn retries delay (S n) attempt lastError w
  = withRetry_loop fn retries delay n (attempt + 1)%Z (Some e)
                   (snd (sleep (delay * attempt) w1)).
Proof.
  intros Hfn Hre Hlt. simpl. rewrite Hfn, (retryable_test e Hre).
  apply Z.ltb_lt in Hlt. rewrite Hlt. reflexivity.
Qed.

Lemma withRetry_loop_exhausted T (fn : M T) retries delay attempt lastError w e w1 :
  fn w = (Throw e, w1) -> retryable e -> (retries <= attempt)%Z ->
  withRetry_loop fn retries delay 1 attempt lastError w = (Throw e, w1).
Proof.
  intros Hfn Hre Hge. simpl. rewrite Hfn, (retryable_test e Hre).
  apply Z.ltb_ge in Hge. rewrite Hge. reflexivity.
Qed.

Lemma withRetry_loop_all_fail T (fn : M T) retries delay attempt w e w' :
  fails_every_attempt fn retries delay attempt w e w' ->
  forall lastError,
    withRetry_loop fn retries delay (Z.to_nat (retries - attempt + 1)) attempt
                   lastError w = (Throw e, w').
Proof.
  induction 1 as [attempt w e w' Heq Hfn Hre
                 | attempt w e1 w1 e w' Hlt Hfn Hre _ IH]; intros lastError.
  - subst attempt. replace (retries - retries + 1)%Z with 1%Z by lia.
    change (Z.to_nat 1) with 1%nat.
    apply withRetry_loop_exhausted; [assumption | assumption | lia].
  - replace (Z.to_nat (retries - attempt + 1))
      with (S (Z.to_nat (retries - (attempt + 1) + 1))) by lia.
    rewrite (withRetry_loop_retry _ _ _ _ _ _ _ _ _ _ Hfn Hre Hlt).
    apply IH.
Qed.

(** C1. An operation that fails with a 401, 403 or 400 status marker is
    invoked exactly once, already on the first attempt: the executor ends
    with the very error and the very world that this one invocation leaves
    (no further invocation, no sleep).  The same holds for the loop at any
    later attempt: the invocation that fails so is its last one. *)
Theorem withRetry_fatal_status_invoked_once :
  forall (T : Type) (fn : M T) (retries delay : Z) (w w1 : World) (e : JsError),
    (1 <= retries)%Z ->
    fn w = (Throw e, w1) ->
    fatal e ->
    withRetry fn retries delay w = (Throw e, w1)
    /\ forall (iterations : nat) (attempt : Z) (lastError : option JsError),
         withRetry_loop fn retries delay (S iterations) attempt lastError w
         = (Throw e, w1).
Proof.
  intros T fn retries delay w w1 e Hretries Hfn Hfatal. split.
  - unfold withRetry.
    destruct (Z.to_nat retries) as [|n] eqn:Hn; [lia|].
    now apply withRetry_loop_fatal.
  - intros iterations attempt lastError. now apply withRetry_loop_fatal.
Qed.

(** C2. An operation that fails twice with a retryable error (one without
    a status marker, for instance) and succeeds on the third attempt returns
    the value of that attempt, after exactly the sleeps [delay * 1] and
    [delay * 2], one before each retry; and when every attempt up to the
    last one ([retries], 5 by default) fails with a retryable error, the
    error of the last attempt is propagated. *)
Theorem withRetry_linear_backoff_and_exhaustion :
  forall (T : Type) (fn : M T) (retries delay : Z),
    (forall w0 e1 w1 e2 w2 v w3,
        (3 <= retries)%Z ->
        fn w0 = (Throw e1, w1) -> err_status e1 = None ->
        fn (snd (sleep (delay * 1) w1)) = (Throw e2, w2) -> err_status e2 = None ->
        fn (snd (sleep (delay * 2) w2)) = (Ok v, w3) ->
        withRetry fn retries delay w0 = (Ok v, w3)
        /\ (timers w1 = timers w0 ->
            timers w2 = timers (snd (sleep (delay * 1) w1)) ->
            timers w3 = timers (snd (sleep (delay * 2) w2)) ->
            timers w3 = timers w0 ++ [delay * 1; delay * 2]%Z))
    /\ (forall w e w',
           fails_every_attempt fn retries delay 1 w e w' ->
           withRetry fn retries delay w = (Throw e, w'))
    /\ MAX_RETRIES = 5%Z.
Proof.
  intros T fn retries delay. split; [|split; [|reflexivity]].
  - intros w0 e1 w1 e2 w2 v w3 Hretries H1 S1 H2 S2 H3. split.
    + unfold withRetry.
      destruct (Z.to_nat retries) as [|[|[|n]]] eqn:Hn; try lia.
      rewrite (withRetry_loop_retry _ _ _ _ _ _ _ _ _ _ H1 (no_status_retryable _ S1))
        by lia.
      change (1 + 1)%Z with 2%Z.
      rewrite (withRetry_loop_retry _ _ _ _ _ _ _ _ _ _ H2 (no_status_retryable _ S2))
        by lia.
      now apply withRetry_loop_ok.
    + intros T1 T2 T3. rewrite T3. simpl. rewrite T2. simpl. rewrite T1.
      rewrite <- app_assoc. reflexivity.
  - intros w e w' Hall. unfold withRetry.
    replace (Z.to_nat retries) with (Z.to_nat (retries - 1 + 1)) by (f_equal; lia).
    now apply withRetry_loop_all_fail.
Qed.

(* ================================================================= *)
(** ** PKCE: base64url without padding *)

Lemma list_ind3 (A : Type) (P : list A -> Prop) :
  P [] -> (forall a, P [a]) -> (forall a b, P [a; b]) ->
  (forall a b c r, P r -> P (a :: b :: c :: r)) ->
  forall l, P l.
Proof.
  intros H0 H1 H2 H3.
  fix IH 1. intros [|a [|b [|c r]]];
    [exact H0 | apply H1 | apply H2 | apply H3; apply IH].
Qed.

Lemma sextet1 a : bits_value (firstn 6 (bits_of_byte a)) = Byte.to_N a / 4.
Proof. destruct a; reflexivity. Qed.

Lemma sextet2 a b :
  bits_value (skipn 6 (bits_of_byte a) ++ firstn 4 (bits_of_byte b))
  = (Byte.to_N a mod 4) * 16 + Byte.to_N b / 16.
Proof.
  assert (Ha : bits_value (skipn 6 (bits_of_byte a)) = Byte.to_N a mod 4)
    by (destruct a; reflexivity).
  assert (Hb : bits_value (firstn 4 (bits_of_byte b)) = Byte.to_N b / 16)
    by (destruct b; reflexivity).
  rewrite <- Ha, <- Hb. unfold bits_value, bits_of_byte. simpl.
  repeat match goal with |- context [if ?x then _ else _] => destruct x end;
    reflexivity.
Qed.

Lemma sextet3 b c :
  bits_value (skipn 4 (bits_of_byte b) ++ firstn 2 (bits_of_byte c))
  = (Byte.to_N b mod 16) * 4 + Byte.to_N c / 64.
Proof.
  assert (Hb : bits_value (skipn 4 (bits_of_byte b)) = Byte.to_N b mod 16)
    by (destruct b; reflexivity).
  assert (Hc : bits_value (firstn 2 (bits_of_byte c)) = Byte.to_N c / 64)
    by (destruct c; reflexivity).
  rewrite <- Hb, <- Hc. unfold bits_value, bits_of_byte. simpl.
  repeat match goal with |- context [if ?x then _ else _] => destruct x end;
    reflexivity.
Qed.

Lemma sextet4 c : bits_value (skipn 2 (bits_of_byte c)) = Byte.to_N c mod 64.
Proof. destruct c; reflexivity. Qed.

Lemma sextet2_last a :
  bits_value (skipn 6 (bits_of_byte a) ++ repeat false 4) = (Byte.to_N a mod 4) * 16.
Proof. destruct a; reflexivity. Qed.

Lemma sextet3_last b :
  bits_value (skipn 4 (bits_of_byte b) ++ repeat false 2) = (Byte.to_N b mod 16) * 4.
Proof. destruct b; reflexivity. Qed.

Lemma sextets_three_bytes a b c bits :
  sextets (bits_of_byte a ++ bits_of_byte b ++ bits_of_byte c ++ bits)
  = [Byte.to_N a / 4; (Byte.to_N a mod 4) * 16 + Byte.to_N b / 16;
     (Byte.to_N b mod 16) * 4 + Byte.to_N c / 64; Byte.to_N c mod 64]
    ++ sextets bits.
Proof.
  rewrite <- sextet1, <- sextet2, <- sextet3, <- sextet4. reflexivity.
Qed.

Lemma sextets_two_bytes a b :
  sextets (bits_of_byte a ++ bits_of_byte b)
  = [Byte.to_N a / 4; (Byte.to_N a mod 4) * 16 + Byte.to_N b / 16;
     (Byte.to_N b mod 16) * 4].
Proof. rewrite <- sextet1, <- sextet2, <- sextet3_last. reflexivity. Qed.

Lemma sextets_one_byte a :
  sextets (bits_of_byte a) = [Byte.to_N a / 4; (Byte.to_N a mod 4) * 16].
Proof. rewrite <- sextet1, <- sextet2_last. reflexivity. Qed.

Lemma url_safe_alphabet i :
  i < 64 -> url_safe (base64_char i) = base64url_char i /\ base64url_char i <> 61.
Proof.
  intros Hi.
  assert (Hall : forallb (fun n => (url_safe (base64_char n) =? base64url_char n)
                                   && negb (base64url_char n =? 61))
                         (map N.of_nat (seq 0 64)) = true) by (vm_compute; reflexivity).
  rewrite forallb_forall in Hall.
  assert (Hin : In i (map N.of_nat (seq 0 64))).
  { apply in_map_iff. exists (N.to_nat i). split; [apply N2Nat.id|].
    apply in_seq. lia. }
  apply Hall, andb_prop in Hin. destruct Hin as [H1 H2].
  apply N.eqb_eq in H1. apply negb_true_iff, N.eqb_neq in H2. auto.
Qed.

Lemma replace_all_char_url_safe s :
  replace_all_char 47 95 (replace_all_char 43 45 s) = map url_safe s.
Proof. unfold replace_all_char. rewrite map_map. reflexivity. Qed.

Lemma strip_trailing_equals_cons c r :
  c <> 61 -> strip_trailing_equals (c :: r) = c :: strip_trailing_equals r.
Proof.
  intros Hc. simpl. apply N.eqb_neq in Hc. rewrite Hc.
  destruct (strip_trailing_equals r); reflexivity.
Qed.

Lemma byte_lt_256 (a : byte) : Byte.to_N a < 256.
Proof. pose proof (Byte.to_N_bounded a). lia. Qed.

Lemma sextet_bounds (a b : byte) :
  Byte.to_N a / 4 < 64
  /\ Byte.to_N a mod 4 * 16 + Byte.to_N b / 16 < 64
  /\ Byte.to_N a mod 16 * 4 + Byte.to_N b / 64 < 64
  /\ Byte.to_N a mod 64 < 64
  /\ Byte.to_N a mod 4 * 16 < 64
  /\ Byte.to_N a mod 16 * 4 < 64.
Proof.
  pose proof (byte_lt_256 a) as Ha. pose proof (byte_lt_256 b) as Hb.
  pose proof (N.mod_upper_bound (Byte.to_N a) 4 ltac:(lia)).
  pose proof (N.mod_upper_bound (Byte.to_N a) 16 ltac:(lia)).
  pose proof (N.mod_upper_bound (Byte.to_N a) 64 ltac:(lia)).
  assert (Byte.to_N a / 4 < 64) by (apply N.Div0.div_lt_upper_bound; lia).
  assert (Byte.to_N b / 16 < 16) by (apply N.Div0.div_lt_upper_bound; lia).
  assert (Byte.to_N b / 64 < 4) by (apply N.Div0.div_lt_upper_bound; lia).
  repeat split; lia.
Qed.

Ltac sextet_bound :=
  match goal with
  | |- Byte.to_N ?a / 4 < 64 => apply (sextet_bounds a a)
  | |- Byte.to_N ?a mod 4 * 16 + Byte.to_N ?b / 16 < 64 => apply (sextet_bounds a b)
  | |- Byte.to_N ?a mod 16 * 4 + Byte.to_N ?b / 64 < 64 => apply (sextet_bounds a b)
  | |- Byte.to_N ?a mod 64 < 64 => apply (sextet_bounds a a)
  | |- Byte.to_N ?a mod 4 * 16 < 64 => apply (sextet_bounds a a)
  | |- Byte.to_N ?a mod 16 * 4 < 64 => apply (sextet_bounds a a)
  end.

Lemma base64URLEncode_refines bs :
  base64URLEncode bs = base64url_no_padding bs
  /\ ~ In 61 (base64url_no_padding bs).
Proof.
  unfold base64URLEncode, base64url_no_padding.
  rewrite replace_all_char_url_safe.
  induction bs as [|a|a b|a b c r [IH1 IH2]] using list_ind3.
  - split; [reflexivity | intros []].
  - cbn [flat_map]. rewrite app_nil_r, sextets_one_byte.
    cbn [Buffer_toString_base64 map].
    destruct (url_safe_alphabet (Byte.to_N a / 4)) as [E1 N1]; [sextet_bound|].
    destruct (url_safe_alphabet (Byte.to_N a mod 4 * 16)) as [E2 N2]; [sextet_bound|].
    rewrite E1, E2.
    rewrite !strip_trailing_equals_cons by assumption.
    split; [reflexivity|].
    intros [H | [H | []]]; congruence.
  - cbn [flat_map]. rewrite app_nil_r, sextets_two_bytes.
    cbn [Buffer_toString_base64 map].
    destruct (url_safe_alphabet (Byte.to_N a / 4)) as [E1 N1]; [sextet_bound|].
    destruct (url_safe_alphabet (Byte.to_N a mod 4 * 16 + Byte.to_N b / 16))
      as [E2 N2]; [sextet_bound|].
    destruct (url_safe_alphabet (Byte.to_N b mod 16 * 4)) as [E3 N3]; [sextet_bound|].
    rewrite E1, E2, E3.
    rewrite !strip_trailing_equals_cons by assumption.
    split; [reflexivity|].
    intros [H | [H | [H | []]]]; congruence.
  - cbn [flat_map]. rewrite sextets_three_bytes.
    cbn [Buffer_toString_base64 map app].
    destruct (url_safe_alphabet (Byte.to_N a / 4)) as [E1 N1]; [sextet_bound|].
    destruct (url_safe_alphabet (Byte.to_N a mod 4 * 16 + Byte.to_N b / 16))
      as [E2 N2]; [sextet_bound|].
    destruct (url_safe_alphabet (Byte.to_N b mod 16 * 4 + Byte.to_N c / 64))
      as [E3 N3]; [sextet_bound|].
    destruct (url_safe_alphabet (Byte.to_N c mod 64)) as [E4 N4]; [sextet_bound|].
    rewrite E1, E2, E3, E4.
    rewrite !strip_trailing_equals_cons by assumption.
    rewrite IH1.
    split; [reflexivity|].
    intros [H | [H | [H | [H | H]]]]; congruence || contradiction.
Qed.

(* ================================================================= *)
(** ** JSON: a quoted string reads back as itself *)

Lemma list_ind2 (A : Type) (P : list A -> Prop) :
  P [] -> (forall a, P [a]) ->
  (forall a b r, P r -> P (b :: r) -> P (a :: b :: r)) ->
  forall l, P l.
Proof.
  intros H0 H1 H2.
  assert (Hboth : forall l, P l /\ forall a, P (a :: l)).
  { induction l as [|b r [IHr IHbr]].
    - split; [exact H0 | exact H1].
    - split; [apply IHbr | intros a; apply H2; [exact IHr | apply IHbr]]. }
  intros l. apply Hboth.
Qed.

Lemma hex_value_digit n : n < 16 -> hex_value (hex_digit n) = Some n.
Proof.
  intros Hn.
  assert (Hall : forallb (fun k => match hex_value (hex_digit k) with
                                   | Some v => v =? k
                                   | None => false
                                   end) (map N.of_nat (seq 0 16)) = true)
    by (vm_compute; reflexivity).
  rewrite forallb_forall in Hall.
  assert (Hin : In n (map N.of_nat (seq 0 16))).
  { apply in_map_iff. exists (N.to_nat n). split; [apply N2Nat.id|].
    apply in_seq. lia. }
  apply Hall in Hin. destruct (hex_value (hex_digit n)); [|discriminate].
  apply N.eqb_eq in Hin. now subst.
Qed.

Lemma hex4_value_escape c :
  c < 65536 ->
  hex4_value (hex_digit (c / 4096)) (hex_digit ((c / 256) mod 16))
             (hex_digit ((c / 16) mod 16)) (hex_digit (c mod 16)) = Some c.
Proof.
  intros Hc. unfold hex4_value.
  assert (H1 : c / 4096 < 16) by (apply N.Div0.div_lt_upper_bound; lia).
  rewrite (hex_value_digit _ H1).
  rewrite !hex_value_digit by (apply N.mod_upper_bound; lia).
  f_equal.
  pose proof (N.div_mod c 16 ltac:(lia)) as D0.
  pose proof (N.div_mod (c / 16) 16 ltac:(lia)) as D1.
  pose proof (N.div_mod (c / 256) 16 ltac:(lia)) as D2.
  rewrite N.Div0.div_div in D1, D2.
  change (16 * 16) with 256 in D1. change (256 * 16) with 4096 in D2.
  lia.
Qed.

Lemma parse_string_body_plain c t :
  c <> 34 -> c <> 92 -> 32 <= c ->
  parse_string_body (c :: t) = cons_fst c (parse_string_body t).
Proof.
  intros H1 H2 H3. simpl.
  apply N.eqb_neq in H1, H2. rewrite H1, H2.
  apply N.ltb_ge in H3. rewrite H3. reflexivity.
Qed.

Lemma parse_string_body_unicode_escape c t :
  c < 65536 ->
  parse_string_body (unicode_escape c ++ t) = cons_fst c (parse_string_body t).
Proof.
  intros Hc. unfold unicode_escape.
  cbn [app parse_string_body N.eqb Pos.eqb].
  rewrite (hex4_value_escape c Hc). reflexivity.
Qed.

Lemma parse_string_body_escape_unit c t :
  parse_string_body (escape_unit c ++ t) = cons_fst c (parse_string_body t).
Proof.
  unfold escape_unit.
  repeat match goal with
         | |- context [if ?x =? ?k then _ else _] =>
             let Hk := fresh "Hk" in
             destruct (N.eqb_spec x k) as [Hk|Hk]; [subst; reflexivity|]
         end.
  destruct (N.ltb_spec c 32) as [Hlt|Hge].
  - apply parse_string_body_unicode_escape. lia.
  - now apply parse_string_body_plain.
Qed.

Lemma high_surrogate_range c :
  is_high_surrogate c = true -> 55296 <= c <= 56319.
Proof.
  unfold is_high_surrogate. intros [H1 H2]%andb_prop.
  apply N.leb_le in H1, H2. lia.
Qed.

Lemma low_surrogate_range c :
  is_low_surrogate c = true -> 56320 <= c <= 57343.
Proof.
  unfold is_low_surrogate. intros [H1 H2]%andb_prop.
  apply N.leb_le in H1, H2. lia.
Qed.

Lemma parse_string_body_quote_chars s rest :
  parse_string_body (quote_chars s ++ 34 :: rest) = Some (s, rest).
Proof.
  induction s as [|c|c d r IHr IHdr] using list_ind2.
  - reflexivity.
  - cbn [quote_chars].
    destruct (is_high_surrogate c) eqn:Hh; [|destruct (is_low_surrogate c) eqn:Hl].
    + apply high_surrogate_range in Hh.
      rewrite parse_string_body_unicode_escape by lia. reflexivity.
    + apply low_surrogate_range in Hl. rewrite app_nil_r.
      rewrite parse_string_body_unicode_escape by lia. reflexivity.
    + rewrite app_nil_r, parse_string_body_escape_unit. reflexivity.
  - cbn [quote_chars] in *.
    destruct (is_high_surrogate c) eqn:Hh; [|destruct (is_low_surrogate c) eqn:Hl].
    + apply high_surrogate_range in Hh.
      destruct (is_low_surrogate d) eqn:Hd.
      * apply low_surrogate_range in Hd. cbn [app].
        rewrite !parse_string_body_plain by lia.
        rewrite IHr. reflexivity.
      * rewrite <- app_assoc, parse_string_body_unicode_escape by lia.
        rewrite IHdr. reflexivity.
    + apply low_surrogate_range in Hl.
      rewrite <- app_assoc, parse_string_body_unicode_escape by lia.
      rewrite IHdr. reflexivity.
    + rewrite <- app_assoc, parse_string_body_escape_unit.
      rewrite IHdr. reflexivity.
Qed.

(* ================================================================= *)
(** ** JSON: the text of a quoted string survives the UTF-8 file *)

Lemma closed_text_nil : closed_text [].
Proof. intros b. reflexivity. Qed.

Lemma closed_text_app a a' : closed_text a -> closed_text a' -> closed_text (a ++ a').
Proof.
  intros Ha Ha' b. rewrite <- !app_assoc, Ha, Ha'. reflexivity.
Qed.

Lemma closed_text_unit c :
  is_high_surrogate c = false -> is_low_surrogate c = false -> closed_text [c].
Proof. intros Hh Hl b. simpl. rewrite Hh, Hl. reflexivity. Qed.

Lemma closed_text_pair c d :
  is_high_surrogate c = true -> is_low_surrogate d = true -> closed_text [c; d].
Proof. intros Hh Hl b. simpl. rewrite Hh, Hl. reflexivity. Qed.

Lemma not_surrogate_below c :
  c < 55296 -> is_high_surrogate c = false /\ is_low_surrogate c = false.
Proof.
  intros Hc. unfold is_high_surrogate, is_low_surrogate.
  split; apply andb_false_intro1; apply N.leb_gt; lia.
Qed.

Lemma closed_text_below s : Forall (fun c => c < 55296) s -> closed_text s.
Proof.
  induction 1 as [|c s Hc _ IH].
  - apply closed_text_nil.
  - change (c :: s) with ([c] ++ s). apply closed_text_app; [|exact IH].
    destruct (not_surrogate_below c Hc). now apply closed_text_unit.
Qed.

Lemma hex_digit_small n : n < 16 -> hex_digit n < 55296.
Proof. intros Hn. unfold hex_digit. destruct (n <? 10); lia. Qed.

Lemma closed_text_unicode_escape c : c < 65536 -> closed_text (unicode_escape c).
Proof.
  intros Hc. apply closed_text_below. unfold unicode_escape.
  assert (c / 4096 < 16) by (apply N.Div0.div_lt_upper_bound; lia).
  repeat constructor; try lia; apply hex_digit_small;
    try assumption; apply N.mod_upper_bound; lia.
Qed.

Lemma closed_text_escape_unit c :
  is_high_surrogate c = false -> is_low_surrogate c = false ->
  closed_text (escape_unit c).
Proof.
  intros Hh Hl. unfold escape_unit.
  repeat match goal with
         | |- context [if ?x =? ?k then _ else _] =>
             destruct (N.eqb_spec x k);
             [apply closed_text_below; repeat constructor; lia|]
         end.
  destruct (N.ltb_spec c 32).
  - apply closed_text_unicode_escape. lia.
  - now apply closed_text_unit.
Qed.

Lemma closed_text_quote_chars s : closed_text (quote_chars s).
Proof.
  induction s as [|c|c d r IHr IHdr] using list_ind2.
  - apply closed_text_nil.
  - cbn [quote_chars].
    destruct (is_high_surrogate c) eqn:Hh; [|destruct (is_low_surrogate c) eqn:Hl].
    + apply high_surrogate_range in Hh. apply closed_text_unicode_escape. lia.
    + apply low_surrogate_range in Hl.
      apply closed_text_app; [|apply closed_text_nil].
      apply closed_text_unicode_escape. lia.
    + apply closed_text_app; [|apply closed_text_nil].
      now apply closed_text_escape_unit.
  - cbn [quote_chars] in *.
    destruct (is_high_surrogate c) eqn:Hh; [|destruct (is_low_surrogate c) eqn:Hl].
    + destruct (is_low_surrogate d) eqn:Hd.
      * change (c :: d :: quote_chars r) with ([c; d] ++ quote_chars r).
        apply closed_text_app; [now apply closed_text_pair | exact IHr].
      * apply high_surrogate_range in Hh.
        apply closed_text_app; [|exact IHdr].
        apply closed_text_unicode_escape. lia.
    + apply low_surrogate_range in Hl.
      apply closed_text_app; [|exact IHdr].
      apply closed_text_unicode_escape. lia.
    + apply closed_text_app; [|exact IHdr]. now apply closed_text_escape_unit.
Qed.

Lemma closed_text_QuoteJSONString s : closed_text (QuoteJSONString s).
Proof.
  unfold QuoteJSONString.
  apply closed_text_app; [apply closed_text_below; repeat constructor; lia|].
  apply closed_text_app; [apply closed_text_quote_chars|].
  apply closed_text_below; repeat constructor; lia.
Qed.

Lemma closed_text_fixed a : closed_text a -> toWellFormed a = a.
Proof. intros Ha. specialize (Ha []). rewrite !app_nil_r in Ha. exact Ha. Qed.

(* ================================================================= *)
(** ** JSON: an indented object of strings reads back as itself *)

Lemma parse_members_unfold fuel acc s :
  parse_members (S fuel) acc s =
  match skip_ws s with
  | c :: r =>
    if c =? 34 then
      match parse_string_body r with
      | Some (k, r1) =>
        match skip_ws r1 with
        | d :: r2 =>
          if d =? 58 then
            match parse_value fuel r2 with
            | Some (v, r3) =>
              let acc' := define_property k v acc in
              match skip_ws r3 with
              | e :: r4 =>
                  if e =? 44 then parse_members fuel acc' r4
                  else if e =? 125 then Some (VObj acc', r4)
                  else None
              | [] => None
              end
            | None => None
            end
          else None
        | [] => None
        end
      | None => None
      end
    else None
  | [] => None
  end.
Proof. reflexivity. Qed.

Lemma parse_value_string fuel s rest :
  parse_value (S fuel) (32 :: QuoteJSONString s ++ rest) = Some (VStr s, rest).
Proof.
  unfold QuoteJSONString. cbn [parse_value skip_ws is_json_ws N.eqb Pos.eqb orb app].
  rewrite <- app_assoc. cbn [app].
  rewrite parse_string_body_quote_chars. reflexivity.
Qed.

Lemma parse_members_skip fuel acc s s' :
  skip_ws s = skip_ws s' -> parse_members fuel acc s = parse_members fuel acc s'.
Proof.
  intros Hs. destruct fuel; [reflexivity|].
  rewrite !parse_members_unfold, Hs. reflexivity.
Qed.

Lemma parse_members_strings kvs :
  forall kv fuel acc rest,
    (List.length kvs < fuel)%nat ->
    parse_members (S fuel) acc
      (join [44; 10; 32; 32] (map member_text (kv :: kvs)) ++ 10 :: 125 :: rest)
    = Some (VObj (fold_left add_string_member (kv :: kvs) acc), rest).
Proof.
  induction kvs as [|kv2 kvs IH]; intros [k v] fuel acc rest Hfuel;
    (destruct fuel as [|fuel]; [simpl in Hfuel; lia|]).
  - cbn [map join fold_left]. unfold member_text, add_string_member. cbn [fst snd].
    rewrite parse_members_unfold.
    unfold QuoteJSONString at 1. rewrite <- !app_assoc.
    cbn [app skip_ws is_json_ws N.eqb Pos.eqb orb].
    rewrite parse_string_body_quote_chars.
    cbn [app skip_ws is_json_ws N.eqb Pos.eqb orb].
    rewrite parse_value_string.
    reflexivity.
  - cbn [map fold_left].
    change (join [44; 10; 32; 32] (member_text (k, v) :: member_text kv2 :: map member_text kvs))
      with (member_text (k, v) ++ [44; 10; 32; 32]
              ++ join [44; 10; 32; 32] (map member_text (kv2 :: kvs))).
    rewrite parse_members_unfold.
    unfold member_text at 1, add_string_member at 2. cbn [fst snd].
    unfold QuoteJSONString at 1. rewrite <- !app_assoc.
    cbn [app skip_ws is_json_ws N.eqb Pos.eqb orb].
    rewrite parse_string_body_quote_chars.
    cbn [app skip_ws is_json_ws N.eqb Pos.eqb orb].
    rewrite parse_value_string.
    cbn [app skip_ws is_json_ws N.eqb Pos.eqb orb].
    rewrite (parse_members_skip _ _ _
               (join [44; 10; 32; 32] (map member_text (kv2 :: kvs))
                  ++ 10 :: 125 :: rest)).
    + rewrite IH by (simpl in Hfuel; lia). reflexivity.
    + reflexivity.
Qed.

Lemma join_cons2 sep (a b : jsstring) l :
  join sep (a :: b :: l) = a ++ sep ++ join sep (b :: l).
Proof. reflexivity. Qed.

Lemma member_text_length kv : Nat.le 6 (List.length (member_text kv)).
Proof.
  unfold member_text, QuoteJSONString. rewrite !length_app. simpl. lia.
Qed.

Lemma members_text_length kv kvs :
  Nat.le (List.length (kv :: kvs))
         (List.length (join [44; 10; 32; 32] (map member_text (kv :: kvs)))).
Proof.
  revert kv. induction kvs as [|kv2 kvs IH]; intros kv.
  - pose proof (member_text_length kv). simpl. lia.
  - cbn [map]. rewrite join_cons2. rewrite !length_app.
    specialize (IH kv2). cbn [map] in IH.
    pose proof (member_text_length kv). simpl in *. lia.
Qed.

Lemma closed_text_members kvs :
  closed_text (join [44; 10; 32; 32] (map member_text kvs)).
Proof.
  assert (Hm : forall kv, closed_text (member_text kv)).
  { intros kv. unfold member_text.
    apply closed_text_app; [apply closed_text_QuoteJSONString|].
    apply closed_text_app; [apply closed_text_below; repeat constructor; lia|].
    apply closed_text_QuoteJSONString. }
  induction kvs as [|kv [|kv2 kvs] IH].
  - apply closed_text_nil.
  - apply Hm.
  - cbn [map]. rewrite join_cons2.
    apply closed_text_app; [apply Hm|].
    apply closed_text_app; [apply closed_text_below; repeat constructor; lia|].
    exact IH.
Qed.

Lemma object_text_well_formed kvs : toWellFormed (object_text kvs) = object_text kvs.
Proof.
  apply closed_text_fixed. unfold object_text.
  apply closed_text_app; [apply closed_text_below; repeat constructor; lia|].
  apply closed_text_app; [apply closed_text_members|].
  apply closed_text_below; repeat constructor; lia.
Qed.

Lemma JSON_parse_object_text kv kvs :
  JSON_parse (object_text (kv :: kvs))
  = Some (VObj (fold_left add_string_member (kv :: kvs) [])).
Proof.
  unfold JSON_parse.
  assert (Hlen : Nat.le (List.length kvs + 7) (List.length (object_text (kv :: kvs)))).
  { unfold object_text. rewrite !length_app.
    pose proof (members_text_length kv kvs). simpl in *. lia. }
  destruct (2 * List.length (object_text (kv :: kvs)))%nat as [|[|fuel]] eqn:Hfuel;
    [lia | lia |].
  assert (Hparse : parse_value (S (S (S fuel))) (object_text (kv :: kvs))
                   = parse_members (S (S fuel)) []
                       (join [44; 10; 32; 32] (map member_text (kv :: kvs))
                          ++ 10 :: 125 :: [])).
  { unfold object_text. destruct kv as [k v].
    destruct kvs as [|kv2 kvs];
      cbn [map]; [|rewrite join_cons2]; cbn [join];
      unfold member_text, QuoteJSONString;
      cbn [fst snd]; rewrite <- ?app_assoc; reflexivity. }
  rewrite Hparse, parse_members_strings by lia.
  reflexivity.
Qed.

(* ================================================================= *)
(** ** JSON.parse: the fuel is enough *)

Local Abbreviation len := (@List.length code_unit).

Lemma skip_ws_length s : (len (skip_ws s) <= len s)%nat.
Proof.
  induction s as [|c r IH]; [reflexivity|]. simpl.
  destruct (is_json_ws c); simpl; lia.
Qed.

Lemma skip_ws_cons_length s c r : skip_ws s = c :: r -> (len r < len s)%nat.
Proof.
  intros H. pose proof (skip_ws_length s) as Hl. rewrite H in Hl. simpl in Hl. lia.
Qed.

Lemma cons_fst_some {A B} (a : A) (o : option (list A * B)) t rest :
  cons_fst a o = Some (t, rest) -> exists t', o = Some (t', rest).
Proof.
  destruct o as [[t' rest']|]; [|discriminate]. simpl. intros H. inversion H. eauto.
Qed.

Lemma parse_string_body_length n :
  forall s t rest, (len s <= n)%nat ->
    parse_string_body s = Some (t, rest) -> (len rest < len s)%nat.
Proof.
  induction n as [|n IH]; intros s t rest Hn H.
  - destruct s; [discriminate | simpl in Hn; lia].
  - destruct s as [|c r]; [discriminate|]. simpl in H, Hn.
    destruct (c =? 34).
    + inversion H; subst. simpl. lia.
    + destruct (c =? 92).
      * destruct r as [|e r']; [discriminate|].
        destruct (e =? 117).
        -- destruct r' as [|h1 [|h2 [|h3 [|h4 r'']]]]; try discriminate.
           destruct (hex4_value h1 h2 h3 h4); [|discriminate].
           apply cons_fst_some in H. destruct H as [t' H].
           apply IH in H; simpl in *; lia.
        -- destruct (unescape e); [|discriminate].
           apply cons_fst_some in H. destruct H as [t' H].
           apply IH in H; simpl in *; lia.
      * destruct (c <? 32); [discriminate|].
        apply cons_fst_some in H. destruct H as [t' H].
        apply IH in H; simpl in *; lia.
Qed.

Lemma take_digits_length s : (len (snd (take_digits s)) <= len s)%nat.
Proof.
  induction s as [|c r IH]; [reflexivity|]. simpl.
  destruct (is_digit c); [|simpl; lia].
  destruct (take_digits r) as [ds rest]. simpl in *. lia.
Qed.

Lemma take_digits_length' s ds rest :
  take_digits s = (ds, rest) -> (len rest <= len s)%nat.
Proof. intros H. pose proof (take_digits_length s) as Hl. rewrite H in Hl. exact Hl. Qed.

Lemma parse_number_length s q rest :
  parse_number s = Some (q, rest) -> (len rest < len s)%nat.
Proof.
  unfold parse_number.
  set (sign := match s with
               | c :: r => if c =? 45 then (true, r) else (false, s)
               | [] => (false, s)
               end).
  assert (Hsign : (len (snd sign) <= len s)%nat).
  { unfold sign. destruct s as [|c r]; [simpl; lia|].
    destruct (c =? 45); simpl; lia. }
  destruct sign as [neg s1]. cbn [snd] in Hsign.
  set (int_part := match s1 with
                   | c :: r => if c =? 48 then Some ([0], r)
                               else if is_digit c then Some (take_digits s1) else None
                   | [] => None
                   end).
  assert (Hint : forall ids s2, int_part = Some (ids, s2) -> (len s2 < len s1)%nat).
  { unfold int_part. intros ids s2. destruct s1 as [|c r]; [discriminate|].
    destruct (c =? 48); [intros H; inversion H; subst; simpl; lia|].
    destruct (is_digit c) eqn:Hd; [|discriminate].
    intros H. inversion H as [Htd]. simpl in Htd. rewrite Hd in Htd.
    destruct (take_digits r) as [ds rest'] eqn:Hr. inversion Htd; subst.
    apply take_digits_length' in Hr. simpl. lia. }
  destruct int_part as [[ids s2]|]; [|discriminate].
  specialize (Hint ids s2 eq_refl).
  set (frac_part := match s2 with
                    | c :: r =>
                        if c =? 46 then
                          match take_digits r with
                          | ([], _) => None
                          | (fds, rest) => Some (fds, rest)
                          end
                        else Some ([], s2)
                    | [] => Some ([], s2)
                    end).
  assert (Hfrac : forall fds s3, frac_part = Some (fds, s3) -> (len s3 <= len s2)%nat).
  { unfold frac_part. intros fds s3. destruct s2 as [|c r]; [intros H; inversion H; lia|].
    destruct (c =? 46); [|intros H; inversion H; lia].
    destruct (take_digits r) as [[|d ds] rest'] eqn:Hr; [discriminate|].
    intros H. inversion H; subst. apply take_digits_length' in Hr. simpl. lia. }
  destruct frac_part as [[fds s3]|]; [|discriminate].
  specialize (Hfrac fds s3 eq_refl).
  set (exp_part := match s3 with
                   | c :: r =>
                       if (c =? 101) || (c =? 69) then
                         let (eneg, r1) :=
                           match r with
                           | d :: r' => if d =? 45 then (true, r')
                                        else if d =? 43 then (false, r')
                                        else (false, r)
                           | [] => (false, r)
                           end in
                         match take_digits r1 with
                         | ([], _) => None
                         | (eds, rest) =>
                             let ev := Z.of_N (digits_value eds) in
                             Some (if eneg then Z.opp ev else ev, rest)
                         end
                       else Some (0%Z, s3)
                   | [] => Some (0%Z, s3)
                   end).
  assert (Hexp : forall ev s4, exp_part = Some (ev, s4) -> (len s4 <= len s3)%nat).
  { unfold exp_part. intros ev s4. destruct s3 as [|c r]; [intros H; inversion H; lia|].
    destruct ((c =? 101) || (c =? 69)); [|intros H; inversion H; lia].
    set (sg := match r with
               | d :: r' => if d =? 45 then (true, r')
                            else if d =? 43 then (false, r') else (false, r)
               | [] => (false, r)
               end).
    assert (Hsg : (len (snd sg) <= len r)%nat).
    { unfold sg. destruct r as [|d r']; [simpl; lia|].
      destruct (d =? 45); [simpl; lia|]. destruct (d =? 43); simpl; lia. }
    destruct sg as [eneg r1]. cbn [snd] in Hsg.
    destruct (take_digits r1) as [[|d ds] rest'] eqn:Hr; [discriminate|].
    intros H. inversion H; subst. apply take_digits_length' in Hr. simpl. lia. }
  destruct exp_part as [[ev s4]|]; [|discriminate].
  specialize (Hexp ev s4 eq_refl).
  intros H. inversion H; subst. lia.
Qed.

Lemma expect_literal_length lit v s v' rest :
  lit <> [] -> expect_literal lit v s = Some (v', rest) -> (len rest < len s)%nat.
Proof.
  unfold expect_literal. intros Hlit.
  destruct (starts_with s lit) eqn:Hs; [|discriminate].
  intros H. inversion H; subst. rewrite length_skipn.
  destruct lit as [|p lit']; [contradiction|].
  destruct s as [|c s']; [discriminate|]. simpl. lia.
Qed.

Lemma parse_value_unfold fuel s :
  parse_value (S fuel) s =
  match skip_ws s with
  | [] => None
  | c :: r =>
    if c =? 123 then
      match skip_ws r with
      | d :: r' =>
          if d =? 125 then Some (VObj [], r')
          else parse_members fuel [] (d :: r')
      | [] => None
      end
    else if c =? 91 then
      match skip_ws r with
      | d :: r' =>
          if d =? 93 then Some (VArr [], r')
          else parse_elements fuel [] (d :: r')
      | [] => None
      end
    else if c =? 34 then
      match parse_string_body r with
      | Some (t, rest) => Some (VStr t, rest)
      | None => None
      end
    else if c =? 116 then expect_literal (js "true") (VBool true) (c :: r)
    else if c =? 102 then expect_literal (js "false") (VBool false) (c :: r)
    else if c =? 110 then expect_literal (js "null") VNull (c :: r)
    else
      match parse_number (c :: r) with
      | Some (q, rest) => Some (VNum q, rest)
      | None => None
      end
  end.
Proof. reflexivity. Qed.

Lemma parse_elements_unfold fuel acc s :
  parse_elements (S fuel) acc s =
  match parse_value fuel s with
  | Some (v, r1) =>
    match skip_ws r1 with
    | e :: r2 =>
        if e =? 44 then parse_elements fuel (acc ++ [v]) r2
        else if e =? 93 then Some (VArr (acc ++ [v]), r2)
        else None
    | [] => None
    end
  | None => None
  end.
Proof. reflexivity. Qed.

(** Every successful parse consumes input. *)
Lemma parse_consumes fuel :
  (forall s v rest, parse_value fuel s = Some (v, rest) -> (len rest < len s)%nat)
  /\ (forall acc s v rest,
         parse_members fuel acc s = Some (v, rest) -> (len rest < len s)%nat)
  /\ (forall acc s v rest,
         parse_elements fuel acc s = Some (v, rest) -> (len rest < len s)%nat).
Proof.
  induction fuel as [|fuel (IHv & IHm & IHe)].
  - repeat split; intros; discriminate.
  - split; [|split].
    + intros s v rest. rewrite parse_value_unfold.
      destruct (skip_ws s) as [|c r] eqn:Hs; [discriminate|].
      apply skip_ws_cons_length in Hs.
      destruct (c =? 123).
      { destruct (skip_ws r) as [|d r'] eqn:Hr; [discriminate|].
        pose proof (skip_ws_length r) as Hl. rewrite Hr in Hl.
        destruct (d =? 125).
        - intros H. inversion H; subst. simpl in Hl. lia.
        - intros H. apply IHm in H. lia. }
      destruct (c =? 91).
      { destruct (skip_ws r) as [|d r'] eqn:Hr; [discriminate|].
        pose proof (skip_ws_length r) as Hl. rewrite Hr in Hl.
        destruct (d =? 93).
        - intros H. inversion H; subst. simpl in Hl. lia.
        - intros H. apply IHe in H. lia. }
      destruct (c =? 34).
      { destruct (parse_string_body r) as [[t rest']|] eqn:Hp; [|discriminate].
        intros H. inversion H; subst.
        apply (parse_string_body_length _ _ _ _ (le_n _)) in Hp. lia. }
      destruct (c =? 116);
        [intros H; apply expect_literal_length in H; [simpl in H; lia | discriminate]|].
      destruct (c =? 102);
        [intros H; apply expect_literal_length in H; [simpl in H; lia | discriminate]|].
      destruct (c =? 110);
        [intros H; apply expect_literal_length in H; [simpl in H; lia | discriminate]|].
      destruct (parse_number (c :: r)) as [[q rest']|] eqn:Hp; [|discriminate].
      intros H. inversion H; subst. apply parse_number_length in Hp. simpl in Hp. lia.
    + intros acc s v rest. rewrite parse_members_unfold.
      destruct (skip_ws s) as [|c r] eqn:Hs; [discriminate|].
      apply skip_ws_cons_length in Hs.
      destruct (c =? 34); [|discriminate].
      destruct (parse_string_body r) as [[k r1]|] eqn:Hp; [|discriminate].
      apply (parse_string_body_length _ _ _ _ (le_n _)) in Hp.
      destruct (skip_ws r1) as [|d r2] eqn:Hr1; [discriminate|].
      apply skip_ws_cons_length in Hr1.
      destruct (d =? 58); [|discriminate].
      destruct (parse_value fuel r2) as [[v0 r3]|] eqn:Hv; [|discriminate].
      apply IHv in Hv. cbv zeta.
      destruct (skip_ws r3) as [|e r4] eqn:Hr3; [discriminate|].
      apply skip_ws_cons_length in Hr3.
      destruct (e =? 44); [intros H; apply IHm in H; lia|].
      destruct (e =? 125); [|discriminate].
      intros H. inversion H; subst. lia.
    + intros acc s v rest. rewrite parse_elements_unfold.
      destruct (parse_value fuel s) as [[v0 r1]|] eqn:Hv; [|discriminate].
      apply IHv in Hv.
      destruct (skip_ws r1) as [|e r2] eqn:Hr1; [discriminate|].
      apply skip_ws_cons_length in Hr1.
      destruct (e =? 44); [intros H; apply IHe in H; lia|].
      destruct (e =? 93); [|discriminate].
      intros H. inversion H; subst. lia.
Qed.

(** With more fuel than twice the length of the input, the result does not
    depend on the fuel. *)
Lemma parse_fuel_enough fuel :
  (forall s fuel', (2 * len s < fuel)%nat -> (fuel <= fuel')%nat ->
                   parse_value fuel' s = parse_value fuel s)
  /\ (forall acc s fuel', (2 * len s < fuel)%nat -> (fuel <= fuel')%nat ->
                          parse_members fuel' acc s = parse_members fuel acc s)
  /\ (forall acc s fuel', (2 * len s + 2 <= fuel)%nat -> (fuel <= fuel')%nat ->
                          parse_elements fuel' acc s = parse_elements fuel acc s).
Proof.
  induction fuel as [|fuel (IHv & IHm & IHe)].
  - repeat split; intros; lia.
  - split; [|split].
    + intros s [|fuel'] Hlen Hle; [lia|].
      rewrite !parse_value_unfold.
      destruct (skip_ws s) as [|c r] eqn:Hs; [reflexivity|].
      apply skip_ws_cons_length in Hs.
      destruct (c =? 123).
      { destruct (skip_ws r) as [|d r'] eqn:Hr; [reflexivity|].
        pose proof (skip_ws_length r) as Hl. rewrite Hr in Hl.
        destruct (d =? 125); [reflexivity|]. apply IHm; simpl in *; lia. }
      destruct (c =? 91); [|reflexivity].
      destruct (skip_ws r) as [|d r'] eqn:Hr; [reflexivity|].
      pose proof (skip_ws_length r) as Hl. rewrite Hr in Hl.
      destruct (d =? 93); [reflexivity|]. apply IHe; simpl in *; lia.
    + intros acc s [|fuel'] Hlen Hle; [lia|].
      rewrite !parse_members_unfold.
      destruct (skip_ws s) as [|c r] eqn:Hs; [reflexivity|].
      apply skip_ws_cons_length in Hs.
      destruct (c =? 34); [|reflexivity].
      destruct (parse_string_body r) as [[k r1]|] eqn:Hp; [|reflexivity].
      apply (parse_string_body_length _ _ _ _ (le_n _)) in Hp.
      destruct (skip_ws r1) as [|d r2] eqn:Hr1; [reflexivity|].
      apply skip_ws_cons_length in Hr1.
      destruct (d =? 58); [|reflexivity].
      rewrite (IHv r2 fuel') by lia.
      destruct (parse_value fuel r2) as [[v0 r3]|] eqn:Hv; [|reflexivity].
      apply (proj1 (parse_consumes fuel)) in Hv. cbv zeta.
      destruct (skip_ws r3) as [|e r4] eqn:Hr3; [reflexivity|].
      apply skip_ws_cons_length in Hr3.
      destruct (e =? 44); [|reflexivity]. apply IHm; lia.
    + intros acc s [|fuel'] Hlen Hle; [lia|].
      rewrite !parse_elements_unfold.
      rewrite (IHv s fuel') by lia.
      destruct (parse_value fuel s) as [[v0 r1]|] eqn:Hv; [|reflexivity].
      apply (proj1 (parse_consumes fuel)) in Hv.
      destruct (skip_ws r1) as [|e r2] eqn:Hr1; [reflexivity|].
      apply skip_ws_cons_length in Hr1.
      destruct (e =? 44); [|reflexivity]. apply IHe; lia.
Qed.

(** [JSON_parse] gives the result that any larger fuel gives: [None] is a
    syntax error of the text, never a lack of fuel. *)
Lemma JSON_parse_fuel text fuel :
  (2 * len text < fuel)%nat ->
  parse_value fuel text = parse_value (S (2 * len text)) text.
Proof.
  intros H. apply (proj1 (parse_fuel_enough (S (2 * len text)))); lia.
Qed.

(* ================================================================= *)
(** ** The token store *)

Lemma jsstring_eqb_eq a b : jsstring_eqb a b = true <-> a = b.
Proof.
  revert b. induction a as [|x a IH]; intros [|y b]; simpl;
    try (split; [discriminate | discriminate]); try (split; reflexivity).
  rewrite andb_true_iff, N.eqb_eq, IH.
  split; [intros [-> ->]; reflexivity | intros H; inversion H; auto].
Qed.

Ltac lookup_cases k :=
  repeat match goal with
         | |- context [jsstring_eqb k ?key] =>
             let H := fresh "Hkey" in
             destruct (jsstring_eqb k key) eqn:H;
             [apply jsstring_eqb_eq in H; subst k; reflexivity|]
         end;
  reflexivity.

Ltac storage_case kvs :=
  exists (object_text kvs); eexists;
  split; [reflexivity|];
  split; [apply object_text_well_formed|];
  split; [apply JSON_parse_object_text|];
  let k := fresh "k" in
  intros k; cbn [get_prop storageData]; f_equal;
  match goal with
  | |- context [toISOString_ms ?now] => generalize (toISOString_ms now); intro
  end;
  match goal with
  | |- lookup k ?m = lookup k ?m' =>
      let c := eval vm_compute in m in
      let c' := eval vm_compute in m' in
      change (lookup k c = lookup k c')
  end;
  cbn [lookup]; lookup_cases k.

Section TokenStore.

Context (E : Engine).

Lemma storageData_round_trip tok email now :
  storable tok ->
  exists text v,
    JSON_stringify E (js "  ") (storageData tok (VStr email) now) = Some text
    /\ toWellFormed text = text
    /\ JSON_parse text = Some v
    /\ forall k, get_prop v k = get_prop (storageData tok (VStr email) now) k.
Proof.
  destruct tok as [a r t u x].
  intros ([sa Ha] & Hr & Hu & [sx Hx]). cbn in Ha, Hr, Hu, Hx. subst a x.
  destruct Hr as [Hr | [sr Hr]], Hu as [Hu | [su Hu]]; subst r u.
  - storage_case [(js "access_token", sa); (js "last_refresh", toISOString_ms now);
                  (js "email", email); (js "type", js "qwen"); (js "expired", sx)].
  - storage_case [(js "access_token", sa); (js "last_refresh", toISOString_ms now);
                  (js "resource_url", su);
                  (js "email", email); (js "type", js "qwen"); (js "expired", sx)].
  - storage_case [(js "access_token", sa); (js "refresh_token", sr);
                  (js "last_refresh", toISOString_ms now);
                  (js "email", email); (js "type", js "qwen"); (js "expired", sx)].
  - storage_case [(js "access_token", sa); (js "refresh_token", sr);
                  (js "last_refresh", toISOString_ms now); (js "resource_url", su);
                  (js "email", email); (js "type", js "qwen"); (js "expired", sx)].
Qed.


Lemma save_then_load tok email w :
  storable tok -> fs_write_error w = None -> fs_read_error w = None ->
  exists text,
    saveTokenToStorage E tok (VStr email) w = (Ok tt, set_file text w)
    /\ JSON_stringify E (js "  ") (storageData tok (VStr email) (clock w)) = Some text
    /\ loadTokenFromStorage E (set_file text w)
       = (Ok (Some (with_token_type (VStr (js "Bearer")) tok)),
          set_currentEmail (VStr email)
            (set_currentToken (with_token_type (VStr (js "Bearer")) tok)
               (set_file text w))).
Proof.
  intros Htok Hwrite Hread.
  destruct (storageData_round_trip tok email (clock w) Htok)
    as (text & v & Htext & Hwf & Hparse & Hprops).
  exists text. split; [|split; [exact Htext|]].
  - unfold saveTokenToStorage, bind, Date_now, gets, fs_mkdir, fs_writeFile.
    rewrite Hwrite. cbn beta iota. rewrite Htext, Hwrite, Hwf. reflexivity.
  - unfold loadTokenFromStorage, try_catch, bind, fs_existsSync, gets, fs_readFile,
      JSON_parse_or_throw, prop, modify, ret.
    cbn [file set_file fs_read_error]. rewrite Hread, Hparse.
    rewrite !Hprops. reflexivity.
Qed.

(** C7. A token saved under "user@example.com" and loaded again has the
    access token, the refresh token and the expiry it was saved with (and
    the same resource URL); the instance then holds the loaded token and
    the email. *)
Theorem token_store_round_trip :
  forall (tok : QwenTokenData) (w : World),
    storable tok -> fs_write_error w = None -> fs_read_error w = None ->
    exists (w1 w2 : World) (loaded : QwenTokenData),
      saveTokenToStorage E tok (VStr (js "user@example.com")) w = (Ok tt, w1)
      /\ loadTokenFromStorage E w1 = (Ok (Some loaded), w2)
      /\ access_token loaded = access_token tok
      /\ refresh_token loaded = refresh_token tok
      /\ expiry_date loaded = expiry_date tok
      /\ resource_url loaded = resource_url tok
      /\ currentToken w2 = Some loaded
      /\ currentEmail w2 = VStr (js "user@example.com").
Proof.
  intros tok w Htok Hwrite Hread.
  destruct (save_then_load tok (js "user@example.com") w Htok Hwrite Hread)
    as (text & Hsave & _ & Hload).
  eexists _, _, _. split; [exact Hsave|]. split; [exact Hload|].
  repeat split.
Qed.

Lemma loadTokenFromStorage_total w :
  exists r w', loadTokenFromStorage E w = (Ok r, w').
Proof.
  unfold loadTokenFromStorage, try_catch.
  match goal with |- context [match ?m w with _ => _ end] => destruct (m w) as [[a|e] w1] end.
  - eauto.
  - unfold bind, console_warn, modify, ret. eauto.
Qed.

(** C8 (as the code has it). Loading a token never fails: when there is no
    file the result is absent and nothing else happens; when the file does
    not parse, or cannot be read, a warning is logged and the result is
    absent; and in every case the call returns.  So every failure while
    loading is degraded, not corruption alone.  Saving, on the contrary,
    propagates the failure of the file system to its caller, and the poller
    propagates the failure of an attempt that is not an HTTP 400 answer. *)
Theorem loadTokenFromStorage_never_throws :
  (forall w, file w = None -> loadTokenFromStorage E w = (Ok None, w))
  /\ (forall w text,
         file w = Some text -> fs_read_error w = None -> JSON_parse text = None ->
         loadTokenFromStorage E w
         = (Ok None,
            log_warning (js "加载令牌失败:") (engine_error E JSON_SyntaxError) w))
  /\ (forall w text e,
         file w = Some text -> fs_read_error w = Some e ->
         loadTokenFromStorage E w
         = (Ok None, log_warning (js "加载令牌失败:") e w))
  /\ (forall w, exists r w', loadTokenFromStorage E w = (Ok r, w'))
  /\ (forall tok email w e,
         fs_write_error w = Some e ->
         saveTokenToStorage E tok email w = (Throw e, w))
  /\ (forall fuel deviceCode codeVerifier email interval w err w1,
         poll_request E deviceCode codeVerifier email w = (Throw err, w1) ->
         err_status err <> Some 400%Z ->
         pollForToken E (S fuel) deviceCode codeVerifier email interval w
         = Some (Throw (new_Error (js "令牌获取失败: " ++ extractError err)), w1)).
Proof.
  split; [|split; [|split; [|split; [|split]]]].
  - intros w Hfile.
    unfold loadTokenFromStorage, try_catch, bind, fs_existsSync, gets, ret.
    rewrite Hfile. reflexivity.
  - intros w text Hfile Hread Hparse.
    unfold loadTokenFromStorage, try_catch, bind, fs_existsSync, gets, fs_readFile,
      JSON_parse_or_throw, console_warn, modify, throw, ret.
    repeat (first [rewrite Hfile | rewrite Hread | rewrite Hparse]; cbn beta iota).
    reflexivity.
  - intros w text e Hfile Hread.
    unfold loadTokenFromStorage, try_catch, bind, fs_existsSync, gets, fs_readFile,
      console_warn, modify, ret.
    repeat (first [rewrite Hfile | rewrite Hread]; cbn beta iota).
    reflexivity.
  - apply loadTokenFromStorage_total.
  - intros tok email w e Hwrite.
    unfold saveTokenToStorage, bind, Date_now, gets, fs_mkdir.
    rewrite Hwrite. reflexivity.
  - intros fuel deviceCode codeVerifier email interval w err w1 Hreq Hstatus.
    cbn [pollForToken]. rewrite Hreq.
    assert (Hs : status_is err 400 = false).
    { destruct (status_is err 400) eqn:Hs; [|reflexivity].
      apply status_is_true in Hs. contradiction. }
    rewrite Hs. reflexivity.
Qed.

(** C10. The stored envelope has no token type: what is saved does not
    depend on the token type of the token; every token that is loaded has
    the token type 'Bearer', whatever the file holds; so a token saved with
    any other token type comes back with 'Bearer'. *)
Theorem token_type_is_not_stored :
  (forall tok email now,
      get_prop (storageData tok email now) (js "token_type") = Some VUndefined)
  /\ (forall tok t email w,
         saveTokenToStorage E (with_token_type t tok) email w
         = saveTokenToStorage E tok email w)
  /\ (forall w loaded w',
         loadTokenFromStorage E w = (Ok (Some loaded), w') ->
         token_type loaded = VStr (js "Bearer"))
  /\ (forall tok email w,
         storable tok -> fs_write_error w = None -> fs_read_error w = None ->
         exists w1 w2 loaded,
           saveTokenToStorage E tok (VStr email) w = (Ok tt, w1)
           /\ loadTokenFromStorage E w1 = (Ok (Some loaded), w2)
           /\ token_type loaded = VStr (js "Bearer")).
Proof.
  split; [|split; [|split]].
  - intros tok email now. reflexivity.
  - intros tok t email w. reflexivity.
  - intros w loaded w'.
    unfold loadTokenFromStorage, try_catch, bind, fs_existsSync, gets, modify,
      console_warn, ret, prop, throw.
    destruct (file w) as [text|]; [|discriminate].
    destruct (fs_readFile E w) as [[data|e] w1]; [|discriminate].
    destruct (JSON_parse_or_throw E data w1) as [[v|e] w2]; [|discriminate].
    repeat match goal with
           | |- context [match get_prop v ?k with _ => _ end] =>
               destruct (get_prop v k); [|discriminate]
           end.
    intros H. inversion H. reflexivity.
  - intros tok email w Htok Hwrite Hread.
    destruct (save_then_load tok email w Htok Hwrite Hread)
      as (text & Hsave & _ & Hload).
    eexists _, _, _. split; [exact Hsave|]. split; [exact Hload|]. reflexivity.
Qed.

End TokenStore.
(* ================================================================= *)
(** ** The device-authorization initiator *)

Lemma base64url_char_small i : base64url_char i < 55296.
Proof.
  unfold base64url_char.
  destruct (nth_in_or_default (N.to_nat i) base64url_alphabet 61) as [Hin | ->]; [|lia].
  revert Hin. generalize (nth (N.to_nat i) base64url_alphabet 61). intros c Hin.
  assert (Hall : forallb (fun c => c <? 55296) base64url_alphabet = true)
    by (vm_compute; reflexivity).
  rewrite forallb_forall in Hall. apply Hall in Hin. now apply N.ltb_lt.
Qed.

Lemma base64url_no_padding_well_formed bs :
  toWellFormed (base64url_no_padding bs) = base64url_no_padding bs.
Proof.
  apply closed_text_fixed, closed_text_below. unfold base64url_no_padding.
  apply Forall_map, Forall_forall. intros i _. apply base64url_char_small.
Qed.

Lemma jsstring_eqb_refl a : jsstring_eqb a a = true.
Proof. now apply jsstring_eqb_eq. Qed.

Lemma lookup_define_property k v m : lookup k (define_property k v m) = v.
Proof.
  induction m as [|[k' v'] m IH]; simpl.
  - now rewrite jsstring_eqb_refl.
  - destruct (jsstring_eqb k k') eqn:Hk; simpl.
    + now rewrite jsstring_eqb_refl.
    + rewrite Hk. exact IH.
Qed.

Lemma device_code_request_pairs (E : Engine) w session w' :
  device_code_request E w = (Ok session, w') ->
  exists bytes latency,
    bytes = map (entropy w) (seq (drawn w) 32)
    /\ get_prop session (js "code_verifier")
       = Some (VStr (base64url_no_padding bytes))
    /\ w' = answered
              (device_code_form
                 (base64url_no_padding
                    (sha256 (utf8_encode (base64url_no_padding bytes)))))
              latency (set_drawn (drawn w + 32) w).
Proof.
  unfold device_code_request, generateCodeVerifier, randomBytes, bind.
  unfold ret at 1. cbn beta iota.
  set (bytes := map (entropy w) (seq (drawn w) 32)).
  destruct (base64URLEncode_refines bytes) as [Hv _]. rewrite Hv. clear Hv.
  unfold generateCodeChallenge.
  destruct (base64URLEncode_refines
              (sha256 (utf8_encode (base64url_no_padding bytes)))) as [Hc _].
  rewrite Hc. clear Hc.
  unfold URLSearchParams_append. cbn [app].
  rewrite (base64url_no_padding_well_formed
             (sha256 (utf8_encode (base64url_no_padding bytes)))).
  unfold postForm, bind.
  change (form_request QWEN_OAUTH_DEVICE_CODE_ENDPOINT _)
    with (device_code_form
            (base64url_no_padding (sha256 (utf8_encode (base64url_no_padding bytes))))).
  unfold fetchWithTimeout.
  destruct (server _ _ _) as [latency outcome].
  destruct (requestTimeoutMs <=? Z.of_N latency)%Z; [discriminate|].
  destruct outcome as [e|response]; [discriminate|].
  destruct (negb (resp_ok response)); [discriminate|].
  unfold response_json, JSON_parse_or_throw.
  destruct (JSON_parse (resp_body response)) as [deviceFlow|]; [|discriminate].
  unfold ret at 1. unfold prop.
  destruct deviceFlow as [| | | | | |m]; try discriminate;
    cbn [get_prop]; unfold ret at 1 2 3;
    try (destruct (_ || _); discriminate).
  destruct (_ || _); [discriminate|].
  unfold set_code_verifier, ret. intros H.
  pose proof (f_equal fst H) as Hs. pose proof (f_equal snd H) as Hw.
  cbn [fst snd] in Hs, Hw. clear H.
  injection Hs as Hs. subst session w'.
  exists bytes, latency. split; [reflexivity|]. split; [|reflexivity].
  cbn [get_prop]. now rewrite lookup_define_property.
Qed.

(** C5. The code challenge of a verifier is the base64url encoding,
    without padding characters, of the SHA-256 digest of the UTF-8 text of
    the verifier; a generated verifier is the base64url encoding, without
    padding characters, of the 32 bytes drawn from the random source; and
    the session that the initiator obtains carries the verifier whose
    challenge, so computed, was posted to the device-code endpoint. *)
Theorem pkce_challenge_is_base64url_of_sha256 :
  (forall verifier : jsstring,
      generateCodeChallenge verifier
      = base64url_no_padding (sha256 (utf8_encode verifier))
      /\ ~ In 61 (generateCodeChallenge verifier))
  /\ (forall w : World,
         exists bytes : list byte,
           bytes = map (entropy w) (seq (drawn w) 32)
           /\ List.length bytes = 32%nat
           /\ generateCodeVerifier w
              = (Ok (base64url_no_padding bytes), set_drawn (drawn w + 32) w)
           /\ ~ In 61 (base64url_no_padding bytes))
  /\ (forall (E : Engine) (w : World) (session : JsVal) (w' : World),
         device_code_request E w = (Ok session, w') ->
         exists (bytes : list byte) (latency : N),
           bytes = map (entropy w) (seq (drawn w) 32)
           /\ get_prop session (js "code_verifier")
              = Some (VStr (base64url_no_padding bytes))
           /\ w' = answered
                     (device_code_form
                        (base64url_no_padding
                           (sha256 (utf8_encode (base64url_no_padding bytes)))))
                     latency (set_drawn (drawn w + 32) w)).
Proof.
  split; [|split].
  - intros verifier. unfold generateCodeChallenge.
    destruct (base64URLEncode_refines (sha256 (utf8_encode verifier))) as [H1 H2].
    rewrite H1. auto.
  - intros w. exists (map (entropy w) (seq (drawn w) 32)).
    destruct (base64URLEncode_refines (map (entropy w) (seq (drawn w) 32)))
      as [H1 H2].
    split; [reflexivity|]. split; [|split].
    + rewrite length_map, length_seq. reflexivity.
    + unfold generateCodeVerifier, bind, randomBytes, ret. rewrite H1. reflexivity.
    + exact H2.
  - apply device_code_request_pairs.
Qed.

(* ================================================================= *)
(** ** The device-token poller *)

Ltac world_simpl :=
  cbn [clock server requests timers entropy drawn file fs_read_error
       fs_write_error warnings currentToken currentEmail advance log_request
       log_timer set_drawn set_file log_warning set_currentToken
       set_currentEmail answered fst snd].

Section Poller.

Context (E : Engine).

Lemma fetchWithTimeout_answer req w latency r :
  server w (List.length (requests w)) req = (latency, NetResponse r) ->
  (Z.of_N latency < requestTimeoutMs)%Z ->
  fetchWithTimeout E req w = (Ok r, answered req latency w).
Proof.
  intros Hs Hl. unfold fetchWithTimeout. rewrite Hs.
  apply Z.leb_gt in Hl. rewrite Hl. reflexivity.
Qed.

Lemma poll_request_rejected deviceCode codeVerifier email w latency r :
  server w (List.length (requests w)) (poll_form deviceCode codeVerifier)
  = (latency, NetResponse r) ->
  (Z.of_N latency < requestTimeoutMs)%Z ->
  resp_ok r = false ->
  poll_request E deviceCode codeVerifier email w
  = (Throw (buildHttpError E r), answered (poll_form deviceCode codeVerifier) latency w).
Proof.
  intros Hs Hl Hok.
  unfold poll_request, postForm, bind.
  change (form_request QWEN_OAUTH_TOKEN_ENDPOINT _)
    with (poll_form deviceCode codeVerifier).
  rewrite (fetchWithTimeout_answer _ _ _ _ Hs Hl), Hok. reflexivity.
Qed.

Lemma error_answer_not_ok code r : error_answer code r -> resp_ok r = false.
Proof. intros [Hs _]. unfold resp_ok. rewrite Hs. reflexivity. Qed.

Lemma error_answer_caught code r :
  error_answer code r ->
  status_is (buildHttpError E r) 400 = true
  /\ truthy (err_data (buildHttpError E r)) = true
  /\ get_prop_opt (err_data (buildHttpError E r)) (js "error") = VStr code.
Proof.
  intros [Hs (d & Hd & Herr)].
  unfold buildHttpError, status_is. cbn [err_status err_data].
  rewrite Hs, Hd. repeat split; [|exact Herr].
  destruct d; try discriminate Herr; reflexivity.
Qed.

Lemma pollForToken_pending fuel deviceCode codeVerifier email interval w latency r :
  server w (List.length (requests w)) (poll_form deviceCode codeVerifier)
  = (latency, NetResponse r) ->
  (Z.of_N latency < requestTimeoutMs)%Z ->
  error_answer (js "authorization_pending") r ->
  pollForToken E (S fuel) deviceCode codeVerifier email interval w
  = pollForToken E fuel deviceCode codeVerifier email interval
      (snd (sleep interval (answered (poll_form deviceCode codeVerifier) latency w))).
Proof.
  intros Hs Hl Hr. cbn [pollForToken].
  rewrite (poll_request_rejected _ _ _ _ _ _ Hs Hl (error_answer_not_ok _ _ Hr)).
  destruct (error_answer_caught _ _ Hr) as (H400 & Htruthy & Hcode).
  rewrite H400, Htruthy, Hcode. reflexivity.
Qed.

Lemma slow_down_interval_floor interval :
  slow_down_interval interval = (3 * interval / 2)%Z.
Proof.
  unfold slow_down_interval, Qfloor, Qmult, inject_Z. cbn [Qnum Qden].
  change (Z.pos (1 * 10)) with (2 * 5)%Z.
  replace (interval * 15)%Z with (3 * interval * 5)%Z by lia.
  apply Z.div_mul_cancel_r; lia.
Qed.

(** C4. On an HTTP 400 answer whose error code is [slow_down], the poll
    interval becomes [Math.floor(interval * 1.5)], the poller sleeps that
    new interval and goes on polling with it; the new interval is the integer
    part of three halves of the old one, 7500 ms after 5000 ms.  This is for
    the intervals whose three-fold stays below [2^53], where the product of
    the code, which is computed in double precision, is exact. *)
Theorem pollForToken_slow_down :
  forall fuel deviceCode codeVerifier email interval w latency r,
    server w (List.length (requests w)) (poll_form deviceCode codeVerifier)
    = (latency, NetResponse r) ->
    (Z.of_N latency < requestTimeoutMs)%Z ->
    error_answer (js "slow_down") r ->
    (3 * Z.abs interval < 2 ^ 53)%Z ->
    pollForToken E (S fuel) deviceCode codeVerifier email interval w
    = pollForToken E fuel deviceCode codeVerifier email (slow_down_interval interval)
        (snd (sleep (slow_down_interval interval)
                (answered (poll_form deviceCode codeVerifier) latency w)))
    /\ timers (snd (sleep (slow_down_interval interval)
                      (answered (poll_form deviceCode codeVerifier) latency w)))
       = timers w ++ [slow_down_interval interval]
    /\ slow_down_interval interval = (3 * interval / 2)%Z
    /\ slow_down_interval 5000 = 7500%Z.
Proof.
  intros fuel deviceCode codeVerifier email interval w latency r Hs Hl Hr Hexact.
  split; [|split; [reflexivity | split; [apply slow_down_interval_floor | reflexivity]]].
  cbn [pollForToken].
  rewrite (poll_request_rejected _ _ _ _ _ _ Hs Hl (error_answer_not_ok _ _ Hr)).
  destruct (error_answer_caught _ _ Hr) as (H400 & Htruthy & Hcode).
  rewrite H400, Htruthy, Hcode. reflexivity.
Qed.


Lemma TimeClip_integer q z :
  q == inject_Z z ->
  TimeClip q = if (Z.abs z <=? maxTime)%Z then Some z else None.
Proof.
  intros Hq. unfold TimeClip.
  unfold Qeq, inject_Z in Hq. cbn [Qnum Qden] in Hq. rewrite Z.mul_1_r in Hq.
  rewrite Hq, Z.quot_mul by discriminate.
  rewrite Z.abs_mul, (Z.abs_eq (Z.pos (Qden q))) by lia.
  destruct (Z.leb_spec (Z.abs z) maxTime) as [Hle|Hgt].
  - assert (H : (Z.abs z * Z.pos (Qden q) <= maxTime * Z.pos (Qden q))%Z)
      by (apply Z.mul_le_mono_nonneg_r; lia).
    apply Z.leb_le in H. rewrite H. reflexivity.
  - assert (H : (maxTime * Z.pos (Qden q) < Z.abs z * Z.pos (Qden q))%Z)
      by (apply Z.mul_lt_mono_pos_r; lia).
    apply Z.leb_gt in H. rewrite H. reflexivity.
Qed.

Lemma JSON_stringify_object gap m :
  exists text, JSON_stringify E gap (VObj m) = Some text.
Proof. unfold JSON_stringify. cbn [SerializeJSONProperty]. eauto. Qed.

Lemma poll_request_granted deviceCode codeVerifier email w latency r m q t :
  server w (List.length (requests w)) (poll_form deviceCode codeVerifier)
  = (latency, NetResponse r) ->
  (Z.of_N latency < requestTimeoutMs)%Z ->
  object_answer m r ->
  ToNumber E (lookup (js "expires_in") m) = Some q ->
  TimeClip (inject_Z (clock w + Z.of_N latency) + q * 1000) = Some t ->
  fs_write_error w = None ->
  exists text,
    JSON_stringify E (js "  ")
      (storageData (token_of_response m (toISOString_ms t)) (VStr (trim email))
                   (clock w + Z.of_N latency)) = Some text
    /\ poll_request E deviceCode codeVerifier email w
       = (Ok (token_of_response m (toISOString_ms t)),
          set_file (toWellFormed text)
            (set_currentEmail (VStr (trim email))
               (set_currentToken (token_of_response m (toISOString_ms t))
                  (answered (poll_form deviceCode codeVerifier) latency w)))).
Proof.
  intros Hs Hl [Hok Hbody] Hn Ht Hwrite.
  destruct (JSON_stringify_object (js "  ")
              [(js "access_token", lookup (js "access_token") m);
               (js "refresh_token", lookup (js "refresh_token") m);
               (js "last_refresh", VStr (toISOString_ms (clock w + Z.of_N latency)));
               (js "resource_url", lookup (js "resource_url") m);
               (js "email", VStr (trim email));
               (js "type", VStr (js "qwen"));
               (js "expired", VStr (toISOString_ms t))]) as [text Htext].
  exists text. split; [exact Htext|].
  unfold poll_request, postForm, bind.
  change (form_request QWEN_OAUTH_TOKEN_ENDPOINT _)
    with (poll_form deviceCode codeVerifier).
  rewrite (fetchWithTimeout_answer _ _ _ _ Hs Hl), Hok.
  cbn [negb]. unfold response_json, JSON_parse_or_throw. rewrite Hbody.
  unfold ret, prop. cbn [get_prop]. unfold ret.
  unfold expiry_from_now, bind, Date_now, gets. rewrite Hn.
  assert (Hclock : clock (answered (poll_form deviceCode codeVerifier) latency w)
                   = (clock w + Z.of_N latency)%Z).
  { unfold answered, advance, log_request. cbn [clock]. lia. }
  rewrite Hclock, Ht.
  unfold ret, modify, saveTokenToStorage, bind, Date_now, gets, fs_mkdir, fs_writeFile.
  world_simpl. rewrite Hwrite. cbn beta iota. world_simpl.
  replace (clock w + Z.max 0 (Z.of_N latency))%Z with (clock w + Z.of_N latency)%Z by lia.
  unfold token_of_response in Htext |- *. unfold storageData in Htext |- *.
  cbn [access_token refresh_token resource_url expiry_date] in Htext |- *.
  rewrite Htext. cbn beta iota. world_simpl. rewrite Hwrite. reflexivity.
Qed.


Lemma requests_after_pending req latency interval w :
  server (snd (sleep interval (answered req latency w))) = server w
  /\ requests (snd (sleep interval (answered req latency w))) = requests w ++ [req]
  /\ timers (snd (sleep interval (answered req latency w))) = timers w ++ [interval]
  /\ clock (snd (sleep interval (answered req latency w)))
     = (clock w + Z.of_N latency + Z.max 0 interval)%Z
  /\ fs_write_error (snd (sleep interval (answered req latency w))) = fs_write_error w.
Proof.
  unfold sleep, modify. world_simpl. repeat split. lia.
Qed.

(** C3 (as the code has it). When the token endpoint answers
    [authorization_pending] twice and then grants a token with
    [expires_in = 3600], the poller returns a token whose expiry is the
    instant at which the grant was received plus 3600 seconds: the start of
    the poll plus the time the three requests and the two sleeps took, plus
    3600 seconds.  Exactly two sleeps, each of the initial interval, happen
    before; and the token is stored at once, under the email passed in with
    the white space around it removed. *)
Theorem pollForToken_grant_after_two_pending :
  forall fuel deviceCode codeVerifier email interval w
         l0 r0 l1 r1 l2 r2 m q received,
    server w (List.length (requests w)) (poll_form deviceCode codeVerifier)
    = (l0, NetResponse r0) ->
    (Z.of_N l0 < requestTimeoutMs)%Z ->
    error_answer (js "authorization_pending") r0 ->
    server w (S (List.length (requests w))) (poll_form deviceCode codeVerifier)
    = (l1, NetResponse r1) ->
    (Z.of_N l1 < requestTimeoutMs)%Z ->
    error_answer (js "authorization_pending") r1 ->
    server w (S (S (List.length (requests w)))) (poll_form deviceCode codeVerifier)
    = (l2, NetResponse r2) ->
    (Z.of_N l2 < requestTimeoutMs)%Z ->
    object_answer m r2 ->
    lookup (js "expires_in") m = VNum q -> q == 3600 ->
    fs_write_error w = None ->
    received = (clock w + Z.of_N l0 + Z.max 0 interval
                + Z.of_N l1 + Z.max 0 interval + Z.of_N l2)%Z ->
    (Z.abs (received + 3600 * 1000) <= maxTime)%Z ->
    exists tok w' text,
      pollForToken E (S (S (S fuel))) deviceCode codeVerifier email interval w
      = Some (Ok tok, w')
      /\ tok = token_of_response m (toISOString_ms (received + 3600 * 1000))
      /\ clock w' = received
      /\ timers w' = timers w ++ [interval; interval]
      /\ requests w'
         = requests w ++ [poll_form deviceCode codeVerifier;
                          poll_form deviceCode codeVerifier;
                          poll_form deviceCode codeVerifier]
      /\ JSON_stringify E (js "  ") (storageData tok (VStr (trim email)) received)
         = Some text
      /\ file w' = Some (toWellFormed text)
      /\ currentToken w' = Some tok
      /\ currentEmail w' = VStr (trim email).
Proof.
  intros fuel deviceCode codeVerifier email interval w l0 r0 l1 r1 l2 r2 m q received
         Hs0 Hl0 Hr0 Hs1 Hl1 Hr1 Hs2 Hl2 Hr2 Hexp Hq Hwrite Hrec Hrange.
  set (pf := poll_form deviceCode codeVerifier) in *.
  set (w1 := snd (sleep interval (answered pf l0 w))).
  destruct (requests_after_pending pf l0 interval w)
    as (Hsrv1 & Hreq1 & Htim1 & Hclk1 & Hfs1). fold w1 in Hsrv1, Hreq1, Htim1, Hclk1, Hfs1.
  set (w2 := snd (sleep interval (answered pf l1 w1))).
  destruct (requests_after_pending pf l1 interval w1)
    as (Hsrv2 & Hreq2 & Htim2 & Hclk2 & Hfs2). fold w2 in Hsrv2, Hreq2, Htim2, Hclk2, Hfs2.
  assert (Hs1' : server w1 (List.length (requests w1)) pf = (l1, NetResponse r1)).
  { rewrite Hsrv1, Hreq1, length_app. cbn [List.length]. rewrite Nat.add_1_r. exact Hs1. }
  assert (Hs2' : server w2 (List.length (requests w2)) pf = (l2, NetResponse r2)).
  { rewrite Hsrv2, Hsrv1, Hreq2, Hreq1, !length_app. cbn [List.length].
    rewrite !Nat.add_1_r. exact Hs2. }
  assert (Hclip : TimeClip (inject_Z (clock w2 + Z.of_N l2) + q * 1000)
                  = Some (received + 3600 * 1000)%Z).
  { rewrite (TimeClip_integer _ (received + 3600 * 1000)).
    - apply Z.leb_le in Hrange. rewrite Hrange. reflexivity.
    - rewrite Hq, Hclk2, Hclk1, Hrec. rewrite !inject_Z_plus, inject_Z_mult.
      ring. }
  assert (Hnum : ToNumber E (lookup (js "expires_in") m) = Some q)
    by (rewrite Hexp; reflexivity).
  destruct (poll_request_granted deviceCode codeVerifier email w2 l2 r2 m q _
              Hs2' Hl2 Hr2 Hnum Hclip) as (text & Htext & Hgrant).
  { rewrite Hfs2, Hfs1. exact Hwrite. }
  fold pf in Hgrant.
  assert (Hnow : (clock w2 + Z.of_N l2)%Z = received) by (rewrite Hclk2, Hclk1, Hrec; lia).
  rewrite Hnow in Htext.
  eexists _, _, text. split.
  - rewrite (pollForToken_pending _ _ _ _ _ _ _ _ Hs0 Hl0 Hr0). fold pf w1.
    rewrite (pollForToken_pending _ _ _ _ _ _ _ _ Hs1' Hl1 Hr1). fold pf w2.
    cbn [pollForToken]. rewrite Hgrant. reflexivity.
  - split; [reflexivity|].
    split; [world_simpl; fold w2; rewrite Hclk2, Hclk1, Hrec; lia|].
    split; [world_simpl; fold w2; rewrite Htim2, Htim1, <- app_assoc; reflexivity|].
    split; [world_simpl; fold w2; rewrite Hreq2, Hreq1, <- !app_assoc; reflexivity|].
    split; [exact Htext|]. repeat split.
Qed.

Lemma poll_request_stores deviceCode codeVerifier email w tok w' :
  poll_request E deviceCode codeVerifier email w = (Ok tok, w') ->
  exists now text,
    JSON_stringify E (js "  ") (storageData tok (VStr (trim email)) now) = Some text
    /\ file w' = Some (toWellFormed text)
    /\ currentToken w' = Some tok
    /\ currentEmail w' = VStr (trim email).
Proof.
  unfold poll_request, bind.
  destruct (postForm E QWEN_OAUTH_TOKEN_ENDPOINT _ w) as [[response|e] w1];
    [|discriminate].
  repeat match goal with
         | |- context [prop E response ?k ?w0] =>
             let v := fresh "v" in
             unfold prop at 1; destruct (get_prop response k) as [v|];
             [unfold ret at 1 | discriminate]
         end.
  destruct (expiry_from_now E _ w1) as [[x|e] w2] eqn:Hx; [|discriminate].
  assert (w2 = w1).
  { unfold expiry_from_now, bind, Date_now, gets in Hx.
    destruct (ToNumber E _); [destruct (TimeClip _)|]; inversion Hx; reflexivity. }
  subst w2.
  unfold modify, saveTokenToStorage, bind, Date_now, gets, fs_mkdir, fs_writeFile, ret.
  world_simpl.
  destruct (fs_write_error w1); [discriminate|].
  match goal with
  | |- context [JSON_stringify E ?gap ?d] => destruct (JSON_stringify E gap d) as [text|] eqn:Htext
  end; [|discriminate].
  world_simpl.
  destruct (fs_write_error w1); [discriminate|].
  intros H. inversion H; subst. exists (clock w1), text.
  split; [exact Htext|]. repeat split.
Qed.

Lemma pollForToken_ok_inv fuel deviceCode codeVerifier email :
  forall interval w tok w',
    pollForToken E fuel deviceCode codeVerifier email interval w = Some (Ok tok, w') ->
    exists w0, poll_request E deviceCode codeVerifier email w0 = (Ok tok, w').
Proof.
  induction fuel as [|fuel IH]; intros interval w tok w' H; [discriminate|].
  cbn [pollForToken] in H.
  destruct (poll_request E deviceCode codeVerifier email w) as [[tok1|err] w1] eqn:Hreq.
  - inversion H; subst. eauto.
  - repeat match type of H with
           | (if ?c then _ else _) = _ => destruct c
           end; try discriminate; eauto.
Qed.

(** C9 (as the code has it). Whatever email is passed to the poller, when a
    token is granted the envelope that is stored has in its email field that
    email with the white space around it removed; so it is the value that
    was passed when that value has no white space around it. *)
Theorem pollForToken_stores_trimmed_email :
  forall fuel deviceCode codeVerifier email interval w tok w',
    pollForToken E fuel deviceCode codeVerifier email interval w = Some (Ok tok, w') ->
    exists now text,
      JSON_stringify E (js "  ") (storageData tok (VStr (trim email)) now) = Some text
      /\ file w' = Some (toWellFormed text)
      /\ get_prop (storageData tok (VStr (trim email)) now) (js "email")
         = Some (VStr (trim email))
      /\ currentEmail w' = VStr (trim email)
      /\ (trim email = email ->
          get_prop (storageData tok (VStr (trim email)) now) (js "email")
          = Some (VStr email)).
Proof.
  intros fuel deviceCode codeVerifier email interval w tok w' H.
  destruct (pollForToken_ok_inv _ _ _ _ _ _ _ _ H) as [w0 Hreq].
  destruct (poll_request_stores _ _ _ _ _ _ Hreq) as (now & text & Htext & Hfile & _ & Hemail).
  exists now, text. repeat split; try assumption.
  intros Htrim. rewrite Htrim. reflexivity.
Qed.

End Poller.

(* ================================================================= *)
(** ** The request dispatcher *)

Lemma withRetry_loop_invariant T (fn : M T) (R : World -> World -> Prop) :
  (forall w, R w w) ->
  (forall a b c, R a b -> R b c -> R a c) ->
  (forall w r w', fn w = (r, w') -> R w w') ->
  (forall ms w, R w (snd (sleep ms w))) ->
  forall retries delay n attempt lastError w r w',
    withRetry_loop fn retries delay n attempt lastError w = (r, w') -> R w w'.
Proof.
  intros Hrefl Htrans Hfn Hsleep retries delay.
  induction n as [|n IH]; intros attempt lastError w r w' H.
  - cbn in H. unfold throw in H. inversion H. apply Hrefl.
  - cbn [withRetry_loop] in H.
    destruct (fn w) as [[v|e] w1] eqn:Hrun.
    + inversion H; subst. eapply Hfn; eauto.
    + destruct (status_is e 401 || status_is e 403 || status_is e 400).
      * inversion H; subst. eapply Hfn; eauto.
      * apply IH in H. eapply Htrans; [eapply Hfn; eauto|].
        destruct (attempt <? retries)%Z; [|exact H].
        eapply Htrans; [apply Hsleep | exact H].
Qed.

Lemma withRetry_first_attempt T (fn : M T) (R : World -> World -> Prop) :
  (forall w, R w w) ->
  (forall a b c, R a b -> R b c -> R a c) ->
  (forall w r w', fn w = (r, w') -> R w w') ->
  (forall ms w, R w (snd (sleep ms w))) ->
  forall retries delay w r w',
    (1 <= retries)%Z ->
    withRetry fn retries delay w = (r, w') ->
    exists r1 w1, fn w = (r1, w1) /\ R w1 w'.
Proof.
  intros Hrefl Htrans Hfn Hsleep retries delay w r w' Hretries H.
  unfold withRetry in H.
  destruct (Z.to_nat retries) as [|n] eqn:Hn; [lia|].
  cbn [withRetry_loop] in H.
  destruct (fn w) as [[v|e] w1] eqn:Hrun.
  - inversion H; subst. eauto.
  - destruct (status_is e 401 || status_is e 403 || status_is e 400).
    + inversion H; subst. eauto.
    + exists (Throw e), w1. split; [reflexivity|].
      eapply withRetry_loop_invariant in H; eauto.
      destruct (1 <? retries)%Z; [|exact H].
      eapply Htrans; [apply Hsleep | exact H].
Qed.

Lemma chat_url_is_not_token_endpoint base :
  base ++ js "/chat/completions" <> QWEN_OAUTH_TOKEN_ENDPOINT.
Proof.
  intros H. apply (f_equal (@rev code_unit)) in H.
  rewrite rev_app_distr in H. vm_compute in H. discriminate H.
Qed.

Section Dispatcher.

Context (E : Engine).

Lemma dispatches_refl w : (dispatches E) w w.
Proof. split; [reflexivity|]. exists []. rewrite app_nil_r. auto. Qed.

Lemma dispatches_trans a b c : (dispatches E) a b -> (dispatches E) b c -> (dispatches E) a c.
Proof.
  intros [Hab (rs1 & Hr1 & Hf1)] [Hbc (rs2 & Hr2 & Hf2)].
  split; [congruence|]. exists (rs1 ++ rs2).
  rewrite Hr2, Hr1, app_assoc. split; [reflexivity|].
  apply Forall_app. split; [exact Hf1|]. rewrite Hab in Hf2. exact Hf2.
Qed.

Lemma dispatches_sleep ms w : (dispatches E) w (snd (sleep ms w)).
Proof. split; [reflexivity|]. exists []. rewrite app_nil_r. auto. Qed.

Lemma buildBaseUrl_pure v w : snd (buildBaseUrl E v w) = w.
Proof.
  unfold buildBaseUrl. destruct (truthy v); [|reflexivity].
  destruct v; try reflexivity. destruct (trim s); reflexivity.
Qed.

Lemma chat_request_issues options w r w' :
  chat_request E options w = (r, w') ->
  w' = w
  \/ exists rq latency,
       w' = advance latency (log_request rq w)
       /\ authorized_chat_request (bearer_text E (currentToken w)) rq.
Proof.
  unfold chat_request, bind, gets.
  pose proof (buildBaseUrl_pure
                match currentToken w with
                | Some t => resource_url t
                | None => VUndefined
                end w) as Hpure.
  destruct (buildBaseUrl E _ w) as [[baseUrl|e] w1]; cbn [snd] in Hpure; subst w1.
  2: { intros H. inversion H. auto. }
  unfold prop. destruct (get_prop options (js "stream")) as [stream|].
  2: { unfold throw. intros H. inversion H. auto. }
  unfold ret at 1. unfold buildQwenHeaders, bind, gets, ret at 1.
  match goal with
  | |- context [fetchWithTimeout E ?rq w] => set (req := rq)
  end.
  assert (Hreq : authorized_chat_request (bearer_text E (currentToken w)) req).
  { unfold authorized_chat_request, req. cbn [req_url req_headers].
    split; [eauto|]. split; [apply chat_url_is_not_token_endpoint|].
    split; [right; left; reflexivity|].
    intros v Hin. cbn [In] in Hin.
    repeat (destruct Hin as [Hin|Hin]; [inversion Hin; try reflexivity|]);
      try contradiction.
    all: exfalso; vm_compute in H0; discriminate H0. }
  unfold fetchWithTimeout.
  destruct (server w (List.length (requests w)) req) as [latency outcome].
  intros H. right. exists req.
  destruct (requestTimeoutMs <=? Z.of_N latency)%Z.
  { inversion H. eauto. }
  destruct outcome as [e|response].
  { inversion H. eauto. }
  exists (Z.of_N latency). split; [|exact Hreq].
  unfold response_json, JSON_parse_or_throw, throw, ret, bind in H.
  destruct (truthy stream), (negb (resp_ok response));
    try destruct (JSON_parse (resp_body response)); inversion H; reflexivity.
Qed.

Lemma chat_request_dispatches options w r w' :
  chat_request E options w = (r, w') -> (dispatches E) w w'.
Proof.
  intros H. apply chat_request_issues in H.
  destruct H as [-> | (rq & latency & -> & Hrq)].
  - apply dispatches_refl.
  - split; [reflexivity|]. exists [rq]. split; [reflexivity|]. auto.
Qed.


Lemma chat_request_issues_one o w tok :
  currentToken w = Some tok ->
  is_optional_string (resource_url tok) ->
  exists r rq latency,
    chat_request E (VObj o) w = (r, advance latency (log_request rq w)).
Proof.
  intros Hcur Hurl.
  unfold chat_request, bind, gets. rewrite Hcur.
  assert (Hbase : exists base, buildBaseUrl E (resource_url tok) w = (Ok base, w)).
  { unfold buildBaseUrl. unfold is_optional_string, is_string in Hurl.
    destruct Hurl as [Hu | [u Hu]]; rewrite Hu; [eexists; reflexivity|].
    destruct (truthy (VStr u)); [|eexists; reflexivity].
    destruct (trim u); eexists; reflexivity. }
  destruct Hbase as [base Hbase]. rewrite Hbase.
  unfold prop. cbn [get_prop]. unfold ret at 1.
  unfold buildQwenHeaders, bind, gets, ret at 1.
  unfold fetchWithTimeout.
  match goal with
  | |- context [server w ?n ?rq] =>
      destruct (server w n rq) as [latency outcome]
  end.
  destruct (requestTimeoutMs <=? Z.of_N latency)%Z; [eauto|].
  destruct outcome as [e|response]; [eauto|].
  unfold response_json, JSON_parse_or_throw, throw, ret, bind.
  destruct (truthy (lookup (js "stream") o)), (negb (resp_ok response));
    try destruct (JSON_parse (resp_body response)); eauto.
Qed.

Lemma refresh_request_granted rt w latency r m q t :
  server w (List.length (requests w)) (refresh_form E rt) = (latency, NetResponse r) ->
  (Z.of_N latency < requestTimeoutMs)%Z ->
  object_answer m r ->
  ToNumber E (lookup (js "expires_in") m) = Some q ->
  TimeClip (inject_Z (clock w + Z.of_N latency) + q * 1000) = Some t ->
  fs_write_error w = None ->
  exists text,
    refresh_request E rt w
    = (Ok (refreshed_token m rt (toISOString_ms t)),
       set_file text
         (set_currentToken (refreshed_token m rt (toISOString_ms t))
            (answered (refresh_form E rt) latency w))).
Proof.
  intros Hs Hl [Hok Hbody] Hn Ht Hwrite.
  unfold refresh_request, postForm, bind.
  change (form_request QWEN_OAUTH_TOKEN_ENDPOINT _) with (refresh_form E rt).
  rewrite (fetchWithTimeout_answer _ _ _ _ _ Hs Hl), Hok.
  cbn [negb]. unfold response_json, JSON_parse_or_throw. rewrite Hbody.
  unfold ret, prop. cbn [get_prop]. unfold ret.
  unfold expiry_from_now, bind, Date_now, gets. rewrite Hn.
  assert (Hclock : clock (answered (refresh_form E rt) latency w)
                   = (clock w + Z.of_N latency)%Z).
  { unfold answered, advance, log_request. cbn [clock]. lia. }
  rewrite Hclock, Ht.
  unfold ret, modify, saveTokenToStorage, bind, Date_now, gets, fs_mkdir, fs_writeFile.
  world_simpl. rewrite Hwrite. cbn beta iota.
  match goal with
  | |- context [JSON_stringify E ?gap (storageData ?tok ?email ?now)] =>
      destruct (JSON_stringify_object E gap
                  [(js "access_token", access_token tok);
                   (js "refresh_token", refresh_token tok);
                   (js "last_refresh", VStr (toISOString_ms now));
                   (js "resource_url", resource_url tok);
                   (js "email", email);
                   (js "type", VStr (js "qwen"));
                   (js "expired", expiry_date tok)]) as [text Htext];
      change (JSON_stringify E gap (storageData tok email now) = Some text) in Htext;
      rewrite Htext
  end.
  cbn beta iota. world_simpl. rewrite Hwrite.
  exists (toWellFormed text). reflexivity.
Qed.

Lemma withRetry_loop_ok_inv T (fn : M T) retries delay n :
  forall attempt lastError w v w',
    withRetry_loop fn retries delay n attempt lastError w = (Ok v, w') ->
    exists w0, fn w0 = (Ok v, w').
Proof.
  induction n as [|n IH]; intros attempt lastError w v w' H.
  - cbn in H. unfold throw in H. discriminate H.
  - cbn [withRetry_loop] in H.
    destruct (fn w) as [[v1|e] w1] eqn:Hrun.
    + exists w. rewrite Hrun. exact H.
    + destruct (status_is e 401 || status_is e 403 || status_is e 400);
        [discriminate H|].
      eapply IH. exact H.
Qed.

Lemma refresh_request_holds rt w refreshed w' :
  refresh_request E rt w = (Ok refreshed, w') -> currentToken w' = Some refreshed.
Proof.
  unfold refresh_request, bind.
  destruct (postForm E QWEN_OAUTH_TOKEN_ENDPOINT _ w) as [[response|e] w1];
    [|discriminate].
  repeat match goal with
         | |- context [prop E response ?k ?w0] =>
             let v := fresh "v" in
             unfold prop at 1; destruct (get_prop response k) as [v|];
             [unfold ret at 1 | discriminate]
         end.
  destruct (expiry_from_now E _ w1) as [[x|e] w2] eqn:Hx; [|discriminate].
  assert (w2 = w1).
  { unfold expiry_from_now, bind, Date_now, gets in Hx.
    destruct (ToNumber E _); [destruct (TimeClip _)|];
      unfold ret, throw in Hx; apply (f_equal snd) in Hx; cbn [snd] in Hx;
      congruence. }
  subst w2.
  unfold modify, saveTokenToStorage, bind, Date_now, gets, fs_mkdir, fs_writeFile, ret.
  world_simpl.
  destruct (fs_write_error w1); [discriminate|].
  match goal with
  | |- context [JSON_stringify E ?gap ?d] => destruct (JSON_stringify E gap d) as [text|]
  end; [|discriminate].
  world_simpl.
  destruct (fs_write_error w1); [discriminate|].
  intros H.
  pose proof (f_equal fst H) as Hr. pose proof (f_equal snd H) as Hw.
  cbn [fst snd] in Hr, Hw. injection Hr as Hr. subst refreshed w'. reflexivity.
Qed.

Lemma refreshToken_holds rt w refreshed w' :
  refreshToken E rt w = (Ok refreshed, w') -> currentToken w' = Some refreshed.
Proof.
  unfold refreshToken, withRetry. intros H.
  apply withRetry_loop_ok_inv in H. destruct H as [w0 H].
  eapply refresh_request_holds. exact H.
Qed.

(** C6. When the token held has expired and has a refresh token,
    [sendRequest] calls the refresher exactly once, before anything else:
    if the refresh fails, its error is the result and nothing is dispatched;
    otherwise every request that follows the refresh is a chat request whose
    Authorization header is the bearer text of the refreshed access token,
    however often the chat request is retried (the dispatching loop neither
    checks the expiry nor refreshes).  When the token endpoint grants the
    refresh at the first request, exactly one request goes to the token
    endpoint, and the chat request is issued at least once when the options
    are an object and the refreshed resource URL is a string or absent. *)
Theorem sendRequest_refreshes_once_before_dispatch :
  forall options w tok expiry,
    currentToken w = Some tok ->
    parseExpiry E (expiry_date tok) = Some expiry ->
    (expiry <= clock w)%Z ->
    truthy (refresh_token tok) = true ->
    (forall res w',
        sendRequest E options w = (res, w') ->
        (exists e,
            refreshToken E (refresh_token tok) w = (Throw e, w') /\ res = Throw e)
        \/ (exists refreshed w1 rs,
               refreshToken E (refresh_token tok) w = (Ok refreshed, w1)
               /\ currentToken w1 = Some refreshed
               /\ requests w' = requests w1 ++ rs
               /\ Forall (authorized_chat_request (bearer_text E (Some refreshed))) rs
               /\ currentToken w' = Some refreshed))
    /\ (forall latency r m q t,
           server w (List.length (requests w)) (refresh_form E (refresh_token tok))
           = (latency, NetResponse r) ->
           (Z.of_N latency < requestTimeoutMs)%Z ->
           object_answer m r ->
           ToNumber E (lookup (js "expires_in") m) = Some q ->
           TimeClip (inject_Z (clock w + Z.of_N latency) + q * 1000) = Some t ->
           fs_write_error w = None ->
           exists res w' rs refreshed,
             sendRequest E options w = (res, w')
             /\ refreshed = refreshed_token m (refresh_token tok) (toISOString_ms t)
             /\ requests w' = requests w ++ refresh_form E (refresh_token tok) :: rs
             /\ Forall (authorized_chat_request (bearer_text E (Some refreshed))) rs
             /\ currentToken w' = Some refreshed
             /\ ((exists o, options = VObj o) ->
                 is_optional_string (lookup (js "resource_url") m) ->
                 rs <> [])).
Proof.
  intros options w tok expiry Hcur Hexp Hpast Hrt.
  assert (Hsend : sendRequest E options w
                  = match refreshToken E (refresh_token tok) w with
                    | (Ok _, w1) =>
                        withRetry (chat_request E options) MAX_RETRIES RETRY_DELAY_MS w1
                    | (Throw e, w1) => (Throw e, w1)
                    end).
  { unfold sendRequest, bind, gets. rewrite Hcur. unfold ret at 1.
    unfold isTokenExpired, bind, Date_now, gets, ret at 1.
    rewrite Hexp. apply Z.leb_le in Hpast. rewrite Hpast, Hrt. cbn [andb].
    destruct (refreshToken E (refresh_token tok) w) as [[refreshed|e] w1];
      reflexivity. }
  split.
  - intros res w' Hrun. rewrite Hsend in Hrun.
    destruct (refreshToken E (refresh_token tok) w) as [[refreshed|e] w1] eqn:Href.
    + right. exists refreshed, w1.
      pose proof (refreshToken_holds _ _ _ _ Href) as Hheld.
      unfold withRetry in Hrun.
      apply (withRetry_loop_invariant _ (chat_request E options) (dispatches E)
               dispatches_refl dispatches_trans
               (chat_request_dispatches options) dispatches_sleep) in Hrun.
      destruct Hrun as [Htok (rs & Hrs & Hall)].
      exists rs. rewrite Hheld in Hall, Htok. auto.
    + left. exists e.
      pose proof (f_equal fst Hrun) as Hr. pose proof (f_equal snd Hrun) as Hw.
      cbn [fst snd] in Hr, Hw. subst res w'. auto.
  - intros latency r m q t Hs Hl Hr Hn Ht Hwrite.
    destruct (refresh_request_granted _ _ _ _ _ _ _ Hs Hl Hr Hn Ht Hwrite)
      as [text Hrefresh].
    set (refreshed := refreshed_token m (refresh_token tok) (toISOString_ms t)) in *.
    set (w1 := set_file text
                 (set_currentToken refreshed
                    (answered (refresh_form E (refresh_token tok)) latency w))) in *.
    assert (Href : refreshToken E (refresh_token tok) w = (Ok refreshed, w1)).
    { unfold refreshToken.
      exact (withRetry_loop_ok _ (refresh_request E (refresh_token tok))
               MAX_RETRIES RETRY_DELAY_MS 4 1%Z None w refreshed w1 Hrefresh). }
    rewrite Href in Hsend.
    destruct (withRetry (chat_request E options) MAX_RETRIES RETRY_DELAY_MS w1)
      as [res w'] eqn:Hchat.
    destruct (withRetry_first_attempt _ (chat_request E options) (dispatches E)
                dispatches_refl dispatches_trans
                (chat_request_dispatches options) dispatches_sleep
                MAX_RETRIES RETRY_DELAY_MS w1 res w'
                ltac:(unfold MAX_RETRIES; lia) Hchat)
      as (r1 & w2 & Hfirst & Hrest).
    pose proof (chat_request_dispatches _ _ _ _ Hfirst) as Hd1.
    destruct (dispatches_trans _ _ _ Hd1 Hrest) as [Htok (rs & Hrs & Hall)].
    exists res, w', rs, refreshed.
    split; [exact Hsend|]. split; [reflexivity|].
    split; [rewrite Hrs; unfold w1; world_simpl; rewrite <- app_assoc; reflexivity|].
    split; [exact Hall|]. split; [rewrite Htok; reflexivity|].
    intros [o Ho] Hurl Hnil. subst rs options.
    rewrite app_nil_r in Hrs.
    destruct (chat_request_issues_one o w1 refreshed) as (r0 & rq & lat & Hone);
      [reflexivity | exact Hurl |].
    rewrite Hone in Hfirst.
    pose proof (f_equal snd Hfirst) as Hw2. cbn [snd] in Hw2. subst w2.
    destruct Hrest as [_ (rs2 & Hrs2 & _)].
    rewrite Hrs2 in Hrs. revert Hrs. world_simpl. rewrite <- app_assoc.
    intros Hrs. apply (f_equal (@List.length Request)) in Hrs.
    rewrite !length_app in Hrs. cbn [List.length] in Hrs. lia.
Qed.

End Dispatcher.

(* ================================================================= *)
(** ** withRetry: the schedule of the attempts *)

Lemma sleep_logs ms w :
  timers (snd (sleep ms w)) = timers w ++ [ms]
  /\ requests (snd (sleep ms w)) = requests w.
Proof. split; reflexivity. Qed.

Lemma withRetry_loop_schedule T (fn : M T) retries delay :
  one_request_each fn ->
  forall n attempt lastError w r w',
    (Z.of_nat (S n) = retries - attempt + 1)%Z ->
    withRetry_loop fn retries delay (S n) attempt lastError w = (r, w') ->
    exists k,
      (k <= n)%nat
      /\ List.length (requests w') = (List.length (requests w) + S k)%nat
      /\ timers w'
         = timers w ++ map (fun j => (delay * (attempt + Z.of_nat j))%Z) (seq 0 k).
Proof.
  intros Hfn.
  assert (Hstop : forall w w1 : World,
             timers w1 = timers w ->
             List.length (requests w1) = S (List.length (requests w)) ->
             forall n attempt,
             exists k,
               (k <= n)%nat
               /\ List.length (requests w1) = (List.length (requests w) + S k)%nat
               /\ timers w1
                  = timers w ++ map (fun j => (delay * (attempt + Z.of_nat j))%Z) (seq 0 k)).
  { intros w w1 Ht Hr n attempt. exists 0%nat.
    split; [lia|]. split; [lia|]. cbn. rewrite app_nil_r. exact Ht. }
  induction n as [|n IH]; intros attempt lastError w r w' Hn H.
  - cbn [withRetry_loop] in H.
    destruct (fn w) as [[v|e] w1] eqn:Hrun; destruct (Hfn _ _ _ Hrun) as [Ht Hr].
    + inversion H; subst. now apply Hstop.
    + assert (Hlast : (attempt <? retries)%Z = false) by (apply Z.ltb_ge; lia).
      rewrite Hlast in H.
      destruct (status_is e 401 || status_is e 403 || status_is e 400);
        inversion H; subst; now apply Hstop.
  - remember (S n) as m eqn:Hm. cbn [withRetry_loop] in H.
    destruct (fn w) as [[v|e] w1] eqn:Hrun; destruct (Hfn _ _ _ Hrun) as [Ht Hr].
    + inversion H; subst. now apply Hstop.
    + destruct (status_is e 401 || status_is e 403 || status_is e 400).
      * inversion H; subst. now apply Hstop.
      * assert (Hlt : (attempt <? retries)%Z = true) by (apply Z.ltb_lt; lia).
        rewrite Hlt in H. subst m.
        apply IH in H; [|lia].
        destruct H as (k & Hk & Hreq & Htim).
        destruct (sleep_logs (delay * attempt) w1) as [Hst Hsr].
        exists (S k). split; [lia|]. split.
        -- rewrite Hreq, Hsr, Hr. lia.
        -- rewrite Htim, Hst, Ht, <- app_assoc. f_equal.
           cbn [seq map app]. rewrite Z.add_0_r. f_equal.
           rewrite <- seq_shift, map_map. apply map_ext. intros j. f_equal. lia.
Qed.

(** X1. [withRetry] runs the operation at most [retries] times, and the sleeps
    between the runs are [delay * 1], [delay * 2], ... in this order: one
    before each retry, none after the last attempt. *)
Theorem withRetry_backoff_schedule :
  forall (T : Type) (fn : M T) (retries delay : Z) (w : World) (r : Result T) (w' : World),
    one_request_each fn ->
    (1 <= retries)%Z ->
    withRetry fn retries delay w = (r, w') ->
    exists k : nat,
      (Z.of_nat k < retries)%Z
      /\ List.length (requests w') = (List.length (requests w) + S k)%nat
      /\ timers w' = timers w ++ linear_backoff delay k.
Proof.
  intros T fn retries delay w r w' Hfn Hretries H. unfold withRetry in H.
  destruct (Z.to_nat retries) as [|n] eqn:Hn; [lia|].
  apply (withRetry_loop_schedule _ _ _ _ Hfn) in H; [|lia].
  destruct H as (k & Hk & Hreq & Htim).
  exists k. split; [lia|]. split; [exact Hreq|].
  rewrite Htim. f_equal. unfold linear_backoff.
  rewrite <- seq_shift, map_map. apply map_ext. intros j. f_equal. lia.
Qed.

Lemma status_fatal e :
  status_is e 401 || status_is e 403 || status_is e 400 = true -> fatal e.
Proof.
  intros H. unfold fatal.
  apply orb_prop in H as [H|H]; [apply orb_prop in H as [H|H]|];
    apply status_is_true in H; auto.
Qed.

Lemma status_retryable e :
  status_is e 401 || status_is e 403 || status_is e 400 = false -> retryable e.
Proof.
  intros H. apply orb_false_elim in H as [H H400]. apply orb_false_elim in H as [H401 H403].
  unfold retryable.
  repeat split; intros Hs;
    match goal with
    | Hn : status_is e ?n = false |- _ =>
        match type of Hs with
        | _ = Some n => unfold status_is in Hn; rewrite Hs, Z.eqb_refl in Hn;
                        discriminate Hn
        end
    end.
Qed.

Lemma withRetry_loop_last_attempt T (fn : M T) retries delay :
  forall n attempt lastError w r w',
    (Z.of_nat (S n) = retries - attempt + 1)%Z ->
    withRetry_loop fn retries delay (S n) attempt lastError w = (r, w') ->
    exists last w0,
      retried_to fn retries delay attempt w last w0
      /\ fn w0 = (r, w')
      /\ ends_the_loop retries last r.
Proof.
  induction n as [|n IH]; intros attempt lastError w r w' Hn H;
    destruct (fn w) as [[v|e] w1] eqn:Hrun;
    try (rewrite (withRetry_loop_ok _ _ _ _ _ _ _ _ _ _ Hrun) in H;
         exists attempt, w; rewrite Hrun, H;
         pose proof (f_equal fst H) as Hr; cbn [fst] in Hr; subst r;
         split; [constructor|]; split; [reflexivity | exact I]);
    destruct (status_is e 401 || status_is e 403 || status_is e 400) eqn:Hstatus;
    try (rewrite (withRetry_loop_fatal _ _ _ _ _ _ _ _ _ _ Hrun (status_fatal _ Hstatus)) in H;
         exists attempt, w; rewrite Hrun, H;
         pose proof (f_equal fst H) as Hr; cbn [fst] in Hr; subst r;
         split; [constructor|]; split; [reflexivity|]; left; now apply status_fatal).
  - rewrite (withRetry_loop_exhausted _ _ _ _ _ _ _ _ _ Hrun (status_retryable _ Hstatus))
      in H by lia.
    exists attempt, w. rewrite Hrun, H.
    pose proof (f_equal fst H) as Hr. cbn [fst] in Hr. subst r.
    split; [constructor|]. split; [reflexivity|]. right. lia.
  - rewrite (withRetry_loop_retry _ _ _ _ _ _ _ _ _ _ Hrun (status_retryable _ Hstatus))
      in H by lia.
    apply (IH (attempt + 1)%Z) in H; [|lia].
    destruct H as (last & w0 & Hchain & Hlast & Hends).
    exists last, w0. split; [|split; assumption].
    eapply retried_to_next; [exact Hrun | now apply status_retryable | lia | exact Hchain].
Qed.

(** X2. For an operation that rejects with error objects (what [Throw] holds,
    and what every operation that the SDK passes does): what [withRetry]
    returns or throws is what the last run of the operation returned or
    threw, and it leaves the world as that run left it (there is no sleep
    after the last attempt).  The last run is the one that returned, that
    failed with status 401, 403 or 400, or that was the [retries]-th; the
    runs before it each failed with an error that is retried and were
    followed by their sleep.  The executor has an error of its own in one
    case only: with no attempt allowed ([retries] zero or negative) the
    operation is not run at all, and the error is 请求失败. *)
Theorem withRetry_result_is_the_last_attempt :
  forall (T : Type) (fn : M T) (retries delay : Z) (w : World),
    ((1 <= retries)%Z ->
     forall r w',
       withRetry fn retries delay w = (r, w') ->
       exists last w0,
         retried_to fn retries delay 1 w last w0
         /\ fn w0 = (r, w')
         /\ ends_the_loop retries last r)
    /\ ((retries <= 0)%Z ->
        withRetry fn retries delay w = (Throw (new_Error (js "请求失败")), w)).
Proof.
  intros T fn retries delay w. split.
  - intros Hretries r w' H. unfold withRetry in H.
    destruct (Z.to_nat retries) as [|n] eqn:Hn; [lia|].
    apply withRetry_loop_last_attempt in H; [exact H | lia].
  - intros Hretries. unfold withRetry.
    replace (Z.to_nat retries) with 0%nat by lia. reflexivity.
Qed.

Lemma postForm_one_request E url params : one_request_each (postForm E url params).
Proof.
  intros w r w1. unfold postForm, bind, fetchWithTimeout.
  destruct (server w _ _) as [latency outcome].
  destruct (requestTimeoutMs <=? Z.of_N latency)%Z.
  { intros H. inversion H; subst. cbn. rewrite length_app. cbn. split; [reflexivity | lia]. }
  destruct outcome as [e|response].
  { intros H. inversion H; subst. cbn. rewrite length_app. cbn. split; [reflexivity | lia]. }
  unfold response_json, JSON_parse_or_throw, throw, ret.
  destruct (negb (resp_ok response)); [|destruct (JSON_parse (resp_body response))];
    intros H; inversion H; subst; cbn; rewrite length_app; cbn; split; (reflexivity || lia).
Qed.

(* ================================================================= *)
(** ** The request dispatcher: the token that is used *)

Section Dispatcher2.

Context (E : Engine).

Lemma loadTokenFromStorage_some w tok w1 :
  loadTokenFromStorage E w = (Ok (Some tok), w1) -> currentToken w1 = Some tok.
Proof.
  unfold loadTokenFromStorage, try_catch, bind, fs_existsSync, gets, modify,
    console_warn, ret, prop, throw.
  destruct (file w) as [text|]; [|discriminate].
  destruct (fs_readFile E w) as [[data|e] w0]; [|discriminate].
  destruct (JSON_parse_or_throw E data w0) as [[v|e] w2]; [|discriminate].
  repeat match goal with
         | |- context [match get_prop v ?k with _ => _ end] =>
             destruct (get_prop v k); [|discriminate]
         end.
  intros H. pose proof (f_equal fst H) as Hr. pose proof (f_equal snd H) as Hw.
  cbn [fst snd] in Hr, Hw. injection Hr as Hr. subst tok w1. reflexivity.
Qed.

Lemma loadTokenFromStorage_none w w1 :
  loadTokenFromStorage E w = (Ok None, w1) ->
  currentToken w1 = currentToken w /\ requests w1 = requests w
  /\ timers w1 = timers w /\ file w1 = file w.
Proof.
  unfold loadTokenFromStorage, try_catch, bind, fs_existsSync, gets, modify,
    console_warn, ret, prop, throw.
  destruct (file w) as [text|] eqn:Hfile.
  2: { intros H. inversion H; subst. auto. }
  unfold fs_readFile. rewrite Hfile.
  destruct (fs_read_error w) as [e|].
  { intros H. inversion H; subst. cbn. auto. }
  unfold JSON_parse_or_throw, throw, ret.
  destruct (JSON_parse text) as [v|].
  2: { intros H. inversion H; subst. cbn. auto. }
  destruct v; cbn [get_prop]; intros H; inversion H; subst; cbn; auto.
Qed.

(** X3. Without a token in memory, [sendRequest] first loads the stored one:
    when there is none to load (no file, or a file that does not load), it
    fails with the error 未找到有效的令牌 before any request is issued; when one
    loads, it goes on exactly as if that token had been in memory. *)
Theorem sendRequest_loads_the_stored_token :
  forall (options : JsVal) (w : World),
    currentToken w = None ->
    (forall w1,
        loadTokenFromStorage E w = (Ok None, w1) ->
        sendRequest E options w
        = (Throw (new_Error (js "未找到有效的令牌，请先进行认证")), w1)
        /\ requests w1 = requests w /\ timers w1 = timers w)
    /\ (forall tok w1,
           loadTokenFromStorage E w = (Ok (Some tok), w1) ->
           sendRequest E options w = sendRequest E options w1)
    /\ (file w = None ->
        sendRequest E options w
        = (Throw (new_Error (js "未找到有效的令牌，请先进行认证")), w)).
Proof.
  intros options w Hcur.
  assert (Hnone : forall w1,
             loadTokenFromStorage E w = (Ok None, w1) ->
             sendRequest E options w
             = (Throw (new_Error (js "未找到有效的令牌，请先进行认证")), w1)
             /\ requests w1 = requests w /\ timers w1 = timers w).
  { intros w1 Hload.
    destruct (loadTokenFromStorage_none _ _ Hload) as (Htok & Hreq & Htim & _).
    split; [|auto].
    unfold sendRequest, bind, gets. rewrite Hcur, Hload, Htok, Hcur. reflexivity. }
  split; [exact Hnone|]. split.
  - intros tok w1 Hload.
    pose proof (loadTokenFromStorage_some _ _ _ Hload) as Htok.
    unfold sendRequest, bind, gets. rewrite Hcur, Hload, Htok. reflexivity.
  - intros Hfile. apply Hnone.
    unfold loadTokenFromStorage, try_catch, bind, fs_existsSync, gets, ret.
    rewrite Hfile. reflexivity.
Qed.

Lemma sendRequest_no_refresh options w tok :
  currentToken w = Some tok ->
  no_refresh_due E tok (clock w) ->
  sendRequest E options w
  = withRetry (chat_request E options) MAX_RETRIES RETRY_DELAY_MS w.
Proof.
  intros Hcur Hdue.
  unfold sendRequest, bind, gets. rewrite Hcur. unfold ret at 1.
  unfold isTokenExpired, bind, Date_now, gets, ret at 1.
  assert (Hno : match parseExpiry E (expiry_date tok) with
                | Some t => (t <=? clock w)%Z
                | None => false
                end && truthy (refresh_token tok) = false).
  { destruct Hdue as [Hrt | Hexp].
    - rewrite Hrt. apply andb_false_r.
    - destruct (parseExpiry E (expiry_date tok)) as [t|]; [|reflexivity].
      apply Z.leb_gt in Hexp. rewrite Hexp. reflexivity. }
  rewrite Hno. reflexivity.
Qed.

(** X4. A token that needs no refresh (no refresh token, an expiry that does not
    read as a date, or an expiry still ahead) is used as it is: [sendRequest]
    is the retried chat request, nothing goes to the token endpoint, every
    request issued carries the access token held, and the token held stays. *)
Theorem sendRequest_uses_the_held_token :
  forall (options : JsVal) (w : World) (tok : QwenTokenData),
    currentToken w = Some tok ->
    no_refresh_due E tok (clock w) ->
    sendRequest E options w
    = withRetry (chat_request E options) MAX_RETRIES RETRY_DELAY_MS w
    /\ forall res w',
         sendRequest E options w = (res, w') ->
         currentToken w' = Some tok
         /\ exists rs,
              requests w' = requests w ++ rs
              /\ Forall (authorized_chat_request (bearer_text E (Some tok))) rs.
Proof.
  intros options w tok Hcur Hdue.
  pose proof (sendRequest_no_refresh options w tok Hcur Hdue) as Hsend.
  split; [exact Hsend|].
  intros res w' Hrun. rewrite Hsend in Hrun. unfold withRetry in Hrun.
  apply (withRetry_loop_invariant _ (chat_request E options) (dispatches E)
           (dispatches_refl E) (dispatches_trans E)
           (chat_request_dispatches E options) (dispatches_sleep E)) in Hrun.
  destruct Hrun as [Htok (rs & Hrs & Hall)].
  rewrite Hcur in Htok, Hall. split; [exact Htok|]. exists rs. auto.
Qed.

End Dispatcher2.

(* ================================================================= *)
(** ** The request dispatcher: rejections and answers *)

Section Dispatcher3.

Context (E : Engine).

Lemma buildBaseUrl_any_world v w base :
  buildBaseUrl E v w = (Ok base, w) ->
  forall w0, buildBaseUrl E v w0 = (Ok base, w0).
Proof.
  intros H w0. pose proof (f_equal fst H) as Hr. cbn [fst] in Hr.
  rewrite (surjective_pairing (buildBaseUrl E v w0)), (buildBaseUrl_pure E).
  f_equal. rewrite <- Hr. unfold buildBaseUrl.
  destruct (truthy v); [|reflexivity].
  destruct v; try reflexivity. destruct (trim s); reflexivity.
Qed.

Lemma chat_request_rejected o w tok base latency r :
  currentToken w = Some tok ->
  buildBaseUrl E (resource_url tok) w = (Ok base, w) ->
  server w (List.length (requests w)) (chat_post E tok base (VObj o))
  = (latency, NetResponse r) ->
  (Z.of_N latency < requestTimeoutMs)%Z ->
  resp_ok r = false ->
  chat_request E (VObj o) w
  = (Throw (new_Error (readErrorResponse E r)),
     answered (chat_post E tok base (VObj o)) latency w).
Proof.
  intros Hcur Hbase Hs Hl Hok.
  unfold chat_request, bind, gets. rewrite Hcur, Hbase.
  unfold prop. cbn [get_prop]. unfold ret at 1.
  unfold buildQwenHeaders, bind, gets, ret at 1. rewrite Hcur.
  change (fetchWithTimeout E _ w)
    with (fetchWithTimeout E (chat_post E tok base (VObj o)) w).
  rewrite (fetchWithTimeout_answer E _ _ _ _ Hs Hl), Hok. cbn [negb].
  destruct (truthy (lookup (js "stream") o)); reflexivity.
Qed.

Lemma chat_requests_all_rejected o tok base delay retries :
  forall n attempt lastError w,
    currentToken w = Some tok ->
    buildBaseUrl E (resource_url tok) w = (Ok base, w) ->
    rejects_everything (server w) ->
    (Z.of_nat (S n) = retries - attempt + 1)%Z ->
    exists latency r w',
      withRetry_loop (chat_request E (VObj o)) retries delay (S n) attempt lastError w
      = (Throw (new_Error (readErrorResponse E r)), w')
      /\ server w (List.length (requests w) + n) (chat_post E tok base (VObj o))
         = (latency, NetResponse r)
      /\ requests w' = requests w ++ repeat (chat_post E tok base (VObj o)) (S n)
      /\ timers w'
         = timers w ++ map (fun j => (delay * (attempt + Z.of_nat j))%Z) (seq 0 n)
      /\ currentToken w' = Some tok.
Proof.
  set (rq := chat_post E tok base (VObj o)).
  induction n as [|n IH]; intros attempt lastError w Hcur Hbase Hsrv Hn.
  - destruct (Hsrv (List.length (requests w)) rq) as (latency & r & Hs & Hl & Hok).
    exists latency, r, (answered rq latency w).
    pose proof (chat_request_rejected o w tok base latency r Hcur Hbase Hs Hl Hok) as Hrun.
    fold rq in Hrun.
    split.
    + apply withRetry_loop_exhausted; [exact Hrun | apply no_status_retryable; reflexivity | lia].
    + split; [rewrite Nat.add_0_r; exact Hs|]. split; [reflexivity|].
      split; [cbn; rewrite app_nil_r; reflexivity | exact Hcur].
  - destruct (Hsrv (List.length (requests w)) rq) as (latency & r & Hs & Hl & Hok).
    pose proof (chat_request_rejected o w tok base latency r Hcur Hbase Hs Hl Hok) as Hrun.
    fold rq in Hrun.
    rewrite (withRetry_loop_retry _ _ _ _ _ _ _ _ _ _ Hrun
               (no_status_retryable (new_Error (readErrorResponse E r)) eq_refl)) by lia.
    set (w1 := snd (sleep (delay * attempt) (answered rq latency w))).
    destruct (IH (attempt + 1)%Z (Some (new_Error (readErrorResponse E r))) w1)
      as (latency' & r' & w' & Hloop & Hlast & Hreq & Htim & Htok).
    + exact Hcur.
    + apply (buildBaseUrl_any_world _ _ _ Hbase).
    + exact Hsrv.
    + lia.
    + exists latency', r', w'. split; [exact Hloop|].
      split.
      { revert Hlast. unfold w1, sleep, modify. world_simpl.
        rewrite length_app. cbn [List.length].
        replace (List.length (requests w) + 1 + n)%nat
          with (List.length (requests w) + S n)%nat by lia.
        auto. }
      split.
      { rewrite Hreq. unfold w1, sleep, modify. world_simpl.
        rewrite <- app_assoc. reflexivity. }
      split; [|exact Htok].
      rewrite Htim. unfold w1, sleep, modify. world_simpl.
      rewrite <- app_assoc. f_equal. cbn [seq map app]. rewrite Z.add_0_r. f_equal.
      rewrite <- seq_shift, map_map. apply map_ext. intros j. f_equal. lia.
Qed.

(** X5. A rejection by the chat endpoint is retried whatever its status, 401,
    403 and 400 included: the error that the dispatcher raises for it carries
    no status marker.  In front of a server that rejects every request, the
    same chat request is issued five times, with sleeps of 2, 4, 6 and 8
    seconds in between, and the error of the fifth rejection is the
    result. *)
Theorem sendRequest_retries_every_rejection :
  forall (o : list (jsstring * JsVal)) (w : World) (tok : QwenTokenData)
         (base : jsstring),
    currentToken w = Some tok ->
    no_refresh_due E tok (clock w) ->
    buildBaseUrl E (resource_url tok) w = (Ok base, w) ->
    rejects_everything (server w) ->
    exists latency r w',
      sendRequest E (VObj o) w = (Throw (new_Error (readErrorResponse E r)), w')
      /\ server w (List.length (requests w) + 4) (chat_post E tok base (VObj o))
         = (latency, NetResponse r)
      /\ err_status (new_Error (readErrorResponse E r)) = None
      /\ requests w' = requests w ++ repeat (chat_post E tok base (VObj o)) 5
      /\ timers w' = timers w ++ [2000; 4000; 6000; 8000]%Z
      /\ currentToken w' = Some tok.
Proof.
  intros o w tok base Hcur Hdue Hbase Hsrv.
  rewrite (sendRequest_no_refresh E (VObj o) w tok Hcur Hdue).
  unfold withRetry. change (Z.to_nat MAX_RETRIES) with 5%nat.
  destruct (chat_requests_all_rejected o tok base RETRY_DELAY_MS MAX_RETRIES
              4 1%Z None w Hcur Hbase Hsrv eq_refl)
    as (latency & r & w' & Hloop & Hlast & Hreq & Htim & Htok).
  exists latency, r, w'. repeat split; assumption.
Qed.

Lemma chat_request_answered o w tok base latency r :
  currentToken w = Some tok ->
  buildBaseUrl E (resource_url tok) w = (Ok base, w) ->
  server w (List.length (requests w)) (chat_post E tok base (VObj o))
  = (latency, NetResponse r) ->
  (Z.of_N latency < requestTimeoutMs)%Z ->
  resp_ok r = true ->
  chat_request E (VObj o) w
  = (if truthy (lookup (js "stream") o) then Ok (StreamBody (resp_body r))
     else match JSON_parse (resp_body r) with
          | Some v => Ok (JsonBody v)
          | None => Throw (engine_error E JSON_SyntaxError)
          end,
     answered (chat_post E tok base (VObj o)) latency w).
Proof.
  intros Hcur Hbase Hs Hl Hok.
  unfold chat_request, bind, gets. rewrite Hcur, Hbase.
  unfold prop. cbn [get_prop]. unfold ret at 1.
  unfold buildQwenHeaders, bind, gets, ret at 1. rewrite Hcur.
  change (fetchWithTimeout E _ w)
    with (fetchWithTimeout E (chat_post E tok base (VObj o)) w).
  rewrite (fetchWithTimeout_answer E _ _ _ _ Hs Hl), Hok. cbn [negb].
  destruct (truthy (lookup (js "stream") o)); [reflexivity|].
  unfold response_json, JSON_parse_or_throw, bind.
  destruct (JSON_parse (resp_body r)); reflexivity.
Qed.

(** X6. What [sendRequest] returns for a 2xx answer to its first request: with
    [stream] on, the body as it is, whatever it holds; with [stream] off or
    absent, the value that the body reads as JSON.  One request is issued and
    there is no sleep. *)
Theorem sendRequest_returns_the_answer :
  forall (o : list (jsstring * JsVal)) (w : World) (tok : QwenTokenData)
         (base : jsstring) (latency : N) (r : Response),
    currentToken w = Some tok ->
    no_refresh_due E tok (clock w) ->
    buildBaseUrl E (resource_url tok) w = (Ok base, w) ->
    server w (List.length (requests w)) (chat_post E tok base (VObj o))
    = (latency, NetResponse r) ->
    (Z.of_N latency < requestTimeoutMs)%Z ->
    resp_ok r = true ->
    (truthy (lookup (js "stream") o) = true ->
     sendRequest E (VObj o) w
     = (Ok (StreamBody (resp_body r)),
        answered (chat_post E tok base (VObj o)) latency w))
    /\ (forall v,
           truthy (lookup (js "stream") o) = false ->
           JSON_parse (resp_body r) = Some v ->
           sendRequest E (VObj o) w
           = (Ok (JsonBody v), answered (chat_post E tok base (VObj o)) latency w)).
Proof.
  intros o w tok base latency r Hcur Hdue Hbase Hs Hl Hok.
  rewrite (sendRequest_no_refresh E (VObj o) w tok Hcur Hdue).
  pose proof (chat_request_answered o w tok base latency r Hcur Hbase Hs Hl Hok) as Hrun.
  unfold withRetry. change (Z.to_nat MAX_RETRIES) with 5%nat.
  split.
  - intros Hstream. rewrite Hstream in Hrun.
    now apply withRetry_loop_ok.
  - intros v Hstream Hparse. rewrite Hstream, Hparse in Hrun.
    now apply withRetry_loop_ok.
Qed.

End Dispatcher3.

(* ================================================================= *)
(** ** The token refresher: rejections, and what a refresh keeps *)

Section Refresher.

Context (E : Engine).

Lemma refresh_request_rejected rt w latency r :
  server w (List.length (requests w)) (refresh_form E rt) = (latency, NetResponse r) ->
  (Z.of_N latency < requestTimeoutMs)%Z ->
  resp_ok r = false ->
  refresh_request E rt w
  = (Throw (buildHttpError E r), answered (refresh_form E rt) latency w).
Proof.
  intros Hs Hl Hok.
  unfold refresh_request, postForm, bind.
  change (form_request QWEN_OAUTH_TOKEN_ENDPOINT _) with (refresh_form E rt).
  rewrite (fetchWithTimeout_answer E _ _ _ _ Hs Hl), Hok. reflexivity.
Qed.

Lemma sendRequest_refresh_due options w tok expiry :
  currentToken w = Some tok ->
  parseExpiry E (expiry_date tok) = Some expiry ->
  (expiry <= clock w)%Z ->
  truthy (refresh_token tok) = true ->
  sendRequest E options w
  = match refreshToken E (refresh_token tok) w with
    | (Ok _, w1) => withRetry (chat_request E options) MAX_RETRIES RETRY_DELAY_MS w1
    | (Throw e, w1) => (Throw e, w1)
    end.
Proof.
  intros Hcur Hexp Hpast Hrt.
  unfold sendRequest, bind, gets. rewrite Hcur. unfold ret at 1.
  unfold isTokenExpired, bind, Date_now, gets, ret at 1.
  rewrite Hexp. apply Z.leb_le in Hpast. rewrite Hpast, Hrt. cbn [andb].
  destruct (refreshToken E (refresh_token tok) w) as [[refreshed|e] w1]; reflexivity.
Qed.

(** X7. A refresh that the token endpoint rejects with status 400, 401 or 403
    is not retried: one request, no sleep, and the HTTP error (with its
    status and the parsed body) is the result; the token held and the file
    stay as they were.  [sendRequest] with an expired token then fails with
    that error and sends no chat request. *)
Theorem refreshToken_rejection_is_final :
  forall (rt : JsVal) (w : World) (latency : N) (r : Response),
    server w (List.length (requests w)) (refresh_form E rt) = (latency, NetResponse r) ->
    (Z.of_N latency < requestTimeoutMs)%Z ->
    resp_status r = 400%Z \/ resp_status r = 401%Z \/ resp_status r = 403%Z ->
    refreshToken E rt w
    = (Throw (buildHttpError E r), answered (refresh_form E rt) latency w)
    /\ requests (answered (refresh_form E rt) latency w)
       = requests w ++ [refresh_form E rt]
    /\ timers (answered (refresh_form E rt) latency w) = timers w
    /\ currentToken (answered (refresh_form E rt) latency w) = currentToken w
    /\ file (answered (refresh_form E rt) latency w) = file w
    /\ forall options tok expiry,
         currentToken w = Some tok ->
         refresh_token tok = rt ->
         parseExpiry E (expiry_date tok) = Some expiry ->
         (expiry <= clock w)%Z ->
         truthy rt = true ->
         sendRequest E options w
         = (Throw (buildHttpError E r), answered (refresh_form E rt) latency w).
Proof.
  intros rt w latency r Hs Hl Hstatus.
  assert (Hok : resp_ok r = false).
  { unfold resp_ok. destruct Hstatus as [H | [H | H]]; rewrite H; reflexivity. }
  assert (Hfatal : fatal (buildHttpError E r)).
  { unfold fatal, buildHttpError. cbn [err_status].
    destruct Hstatus as [H | [H | H]]; rewrite H; auto. }
  assert (Href : refreshToken E rt w
                 = (Throw (buildHttpError E r), answered (refresh_form E rt) latency w)).
  { unfold refreshToken, withRetry. change (Z.to_nat MAX_RETRIES) with 5%nat.
    apply withRetry_loop_fatal; [|exact Hfatal].
    now apply refresh_request_rejected. }
  split; [exact Href|]. repeat split.
  intros options tok expiry Hcur Hrt Hexp Hpast Htruthy. subst rt.
  rewrite (sendRequest_refresh_due options w tok expiry Hcur Hexp Hpast Htruthy).
  rewrite Href. reflexivity.
Qed.

Lemma refresh_request_stores rt w latency r m q t :
  server w (List.length (requests w)) (refresh_form E rt) = (latency, NetResponse r) ->
  (Z.of_N latency < requestTimeoutMs)%Z ->
  object_answer m r ->
  ToNumber E (lookup (js "expires_in") m) = Some q ->
  TimeClip (inject_Z (clock w + Z.of_N latency) + q * 1000) = Some t ->
  fs_write_error w = None ->
  exists text,
    JSON_stringify E (js "  ")
      (storageData (refreshed_token m rt (toISOString_ms t))
                   (refresh_label (currentEmail w)) (clock w + Z.of_N latency))
    = Some text
    /\ refresh_request E rt w
       = (Ok (refreshed_token m rt (toISOString_ms t)),
          set_file (toWellFormed text)
            (set_currentToken (refreshed_token m rt (toISOString_ms t))
               (answered (refresh_form E rt) latency w))).
Proof.
  intros Hs Hl [Hok Hbody] Hn Ht Hwrite.
  destruct (JSON_stringify_object E (js "  ")
              [(js "access_token", lookup (js "access_token") m);
               (js "refresh_token",
                if truthy (lookup (js "refresh_token") m)
                then lookup (js "refresh_token") m else rt);
               (js "last_refresh", VStr (toISOString_ms (clock w + Z.of_N latency)));
               (js "resource_url", lookup (js "resource_url") m);
               (js "email", refresh_label (currentEmail w));
               (js "type", VStr (js "qwen"));
               (js "expired", VStr (toISOString_ms t))]) as [text Htext].
  exists text. split; [exact Htext|].
  unfold refresh_request, postForm, bind.
  change (form_request QWEN_OAUTH_TOKEN_ENDPOINT _) with (refresh_form E rt).
  rewrite (fetchWithTimeout_answer E _ _ _ _ Hs Hl), Hok.
  cbn [negb]. unfold response_json, JSON_parse_or_throw. rewrite Hbody.
  unfold ret, prop. cbn [get_prop]. unfold ret.
  unfold expiry_from_now, bind, Date_now, gets. rewrite Hn.
  assert (Hclock : clock (answered (refresh_form E rt) latency w)
                   = (clock w + Z.of_N latency)%Z).
  { unfold answered, advance, log_request. cbn [clock]. lia. }
  rewrite Hclock, Ht.
  unfold ret, modify, saveTokenToStorage, bind, Date_now, gets, fs_mkdir, fs_writeFile.
  world_simpl. rewrite Hwrite. cbn beta iota. world_simpl.
  replace (clock w + Z.max 0 (Z.of_N latency))%Z with (clock w + Z.of_N latency)%Z by lia.
  unfold refreshed_token, refresh_label in Htext |- *. unfold storageData in Htext |- *.
  cbn [access_token refresh_token resource_url expiry_date] in Htext |- *.
  rewrite Htext. cbn beta iota. world_simpl. rewrite Hwrite. reflexivity.
Qed.

Lemma stored_email_of_text tok email now text w :
  storable tok ->
  JSON_stringify E (js "  ") (storageData tok (VStr email) now) = Some text ->
  file w = Some (toWellFormed text) ->
  stored_email w = Some (VStr email).
Proof.
  intros Htok Htext Hfile.
  destruct (storageData_round_trip E tok email now Htok)
    as (text' & v & Htext' & Hwf & Hparse & Hprops).
  rewrite Htext in Htext'. injection Htext' as <-.
  unfold stored_email. rewrite Hfile, Hwf, Hparse, Hprops. reflexivity.
Qed.


End Refresher.

(* ================================================================= *)
(** ** PKCE: the shape of the codes *)

Lemma base64url_char_unreserved i : i < 64 -> is_unreserved (base64url_char i) = true.
Proof.
  intros Hi.
  assert (Hall : forallb (fun n => is_unreserved (base64url_char n))
                         (map N.of_nat (seq 0 64)) = true) by (vm_compute; reflexivity).
  rewrite forallb_forall in Hall. apply Hall.
  apply in_map_iff. exists (N.to_nat i). split; [apply N2Nat.id|].
  apply in_seq. lia.
Qed.

Lemma sextets_small bs : Forall (fun i => i < 64) (sextets (flat_map bits_of_byte bs)).
Proof.
  induction bs as [|a|a b|a b c r IH] using list_ind3; cbn [flat_map].
  - constructor.
  - rewrite app_nil_r, sextets_one_byte. repeat constructor; sextet_bound.
  - rewrite app_nil_r, sextets_two_bytes. repeat constructor; sextet_bound.
  - rewrite sextets_three_bytes. cbn [app]. repeat (constructor; [sextet_bound|]).
    exact IH.
Qed.

Lemma base64url_no_padding_length bs :
  List.length (base64url_no_padding bs) = ((4 * List.length bs + 2) / 3)%nat.
Proof.
  unfold base64url_no_padding. rewrite length_map.
  induction bs as [|a|a b|a b c r IH] using list_ind3.
  - reflexivity.
  - cbn [flat_map]. rewrite app_nil_r, sextets_one_byte. reflexivity.
  - cbn [flat_map]. rewrite app_nil_r, sextets_two_bytes. reflexivity.
  - cbn [flat_map]. rewrite sextets_three_bytes. rewrite length_app, IH.
    cbn [List.length].
    replace (4 * S (S (S (List.length r))) + 2)%nat
      with ((4 * List.length r + 2) + 4 * 3)%nat by lia.
    rewrite Nat.div_add by lia. lia.
Qed.

Lemma sha256_round_length st kw :
  List.length st = 8%nat -> List.length (sha256_round st kw) = 8%nat.
Proof.
  intros H. destruct st as [|a [|b [|c [|d [|e [|f [|g [|h [|i r]]]]]]]]];
    try discriminate H; reflexivity.
Qed.

Lemma sha256_block_length h block :
  List.length h = 8%nat -> List.length (sha256_block h block) = 8%nat.
Proof.
  intros H. unfold sha256_block. rewrite length_map, length_combine, H.
  assert (Hfold : forall l st, List.length st = 8%nat ->
                     List.length (fold_left sha256_round l st) = 8%nat).
  { induction l as [|kw l IH]; intros st Hst; [exact Hst|].
    cbn [fold_left]. apply IH, sha256_round_length, Hst. }
  rewrite Hfold by exact H. reflexivity.
Qed.

Lemma sha256_length msg : List.length (sha256 msg) = 32%nat.
Proof.
  unfold sha256. rewrite length_map.
  assert (Hblocks : forall n h bs, List.length h = 8%nat ->
                       List.length (sha256_blocks n h bs) = 8%nat).
  { induction n as [|n IH]; intros h bs Hh; [exact Hh|].
    cbn [sha256_blocks]. apply IH, sha256_block_length, Hh. }
  match goal with
  | |- context [sha256_blocks ?n ?h ?bs] =>
      pose proof (Hblocks n h bs eq_refl) as Hlen;
      destruct (sha256_blocks n h bs) as [|a [|b [|c [|d [|e [|f [|g [|h' [|i r]]]]]]]]];
      try discriminate Hlen
  end.
  reflexivity.
Qed.

Lemma forallb_base64url bs : forallb is_unreserved (base64url_no_padding bs) = true.
Proof.
  unfold base64url_no_padding. apply forallb_forall. intros c Hin.
  apply in_map_iff in Hin. destruct Hin as (i & <- & Hi).
  apply base64url_char_unreserved.
  pose proof (sextets_small bs) as Hall. rewrite Forall_forall in Hall. now apply Hall.
Qed.

Lemma base64URLEncode_shape bs :
  List.length (base64URLEncode bs) = ((4 * List.length bs + 2) / 3)%nat
  /\ forallb is_unreserved (base64URLEncode bs) = true.
Proof.
  destruct (base64URLEncode_refines bs) as [-> _].
  split; [apply base64url_no_padding_length | apply forallb_base64url].
Qed.

(** X9. The text of [base64URLEncode] has [ceil(4n/3)] characters for [n]
    bytes, all of them letters, digits, [-] or [_]; so a code verifier has 43
    characters, and so has the code challenge of any verifier: both are within
    what RFC 7636 asks for (43 to 128 unreserved characters). *)
Theorem pkce_codes_have_43_characters :
  (forall bs : list byte,
      List.length (base64URLEncode bs) = ((4 * List.length bs + 2) / 3)%nat
      /\ forallb is_unreserved (base64URLEncode bs) = true)
  /\ (forall w : World,
         exists verifier w',
           generateCodeVerifier w = (Ok verifier, w')
           /\ List.length verifier = 43%nat
           /\ forallb is_unreserved verifier = true)
  /\ (forall verifier : jsstring,
         List.length (generateCodeChallenge verifier) = 43%nat
         /\ forallb is_unreserved (generateCodeChallenge verifier) = true).
Proof.
  split; [exact base64URLEncode_shape|]. split.
  - intros w. unfold generateCodeVerifier, randomBytes, bind, ret.
    eexists _, _. split; [reflexivity|].
    destruct (base64URLEncode_shape (map (entropy w) (seq (drawn w) 32))) as [Hlen Hchars].
    rewrite length_map, length_seq in Hlen. split; [exact Hlen | exact Hchars].
  - intros verifier. unfold generateCodeChallenge.
    destruct (base64URLEncode_shape (sha256 (utf8_encode verifier))) as [Hlen Hchars].
    rewrite sha256_length in Hlen. split; [exact Hlen | exact Hchars].
Qed.

Lemma base64url_char_injective i j :
  i < 64 -> j < 64 -> base64url_char i = base64url_char j -> i = j.
Proof.
  intros Hi Hj H.
  assert (Hnd : NoDup base64url_alphabet).
  { apply (NoDup_count_occ' N.eq_dec). intros c Hc.
    assert (Hall : forallb (fun c => Nat.eqb (count_occ N.eq_dec base64url_alphabet c) 1)
                     base64url_alphabet = true) by (vm_compute; reflexivity).
    rewrite forallb_forall in Hall. apply Nat.eqb_eq, Hall, Hc. }
  rewrite NoDup_nth with (d := 61) in Hnd.
  apply N2Nat.inj, Hnd; [| |exact H];
    change (List.length base64url_alphabet) with 64%nat; lia.
Qed.

Lemma Byte_to_N_injective a x : Byte.to_N a = Byte.to_N x -> a = x.
Proof.
  intros H. apply (f_equal Byte.of_N) in H. rewrite !Byte.of_to_N in H.
  now injection H.
Qed.

Lemma second_sextet_injective a b x y :
  Byte.to_N a mod 4 * 16 + Byte.to_N b / 16 = Byte.to_N x mod 4 * 16 + Byte.to_N y / 16 ->
  Byte.to_N a mod 4 = Byte.to_N x mod 4 /\ Byte.to_N b / 16 = Byte.to_N y / 16.
Proof.
  pose proof (byte_lt_256 b). pose proof (byte_lt_256 y).
  assert (Byte.to_N b / 16 < 16) by (apply N.Div0.div_lt_upper_bound; lia).
  assert (Byte.to_N y / 16 < 16) by (apply N.Div0.div_lt_upper_bound; lia).
  pose proof (N.mod_upper_bound (Byte.to_N a) 4 ltac:(lia)).
  pose proof (N.mod_upper_bound (Byte.to_N x) 4 ltac:(lia)).
  generalize dependent (Byte.to_N b / 16). generalize dependent (Byte.to_N y / 16).
  generalize dependent (Byte.to_N a mod 4). generalize dependent (Byte.to_N x mod 4).
  intros. lia.
Qed.

Lemma third_sextet_injective b c y z :
  Byte.to_N b mod 16 * 4 + Byte.to_N c / 64 = Byte.to_N y mod 16 * 4 + Byte.to_N z / 64 ->
  Byte.to_N b mod 16 = Byte.to_N y mod 16 /\ Byte.to_N c / 64 = Byte.to_N z / 64.
Proof.
  pose proof (byte_lt_256 c). pose proof (byte_lt_256 z).
  assert (Byte.to_N c / 64 < 4) by (apply N.Div0.div_lt_upper_bound; lia).
  assert (Byte.to_N z / 64 < 4) by (apply N.Div0.div_lt_upper_bound; lia).
  pose proof (N.mod_upper_bound (Byte.to_N b) 16 ltac:(lia)).
  pose proof (N.mod_upper_bound (Byte.to_N y) 16 ltac:(lia)).
  generalize dependent (Byte.to_N c / 64). generalize dependent (Byte.to_N z / 64).
  generalize dependent (Byte.to_N b mod 16). generalize dependent (Byte.to_N y mod 16).
  intros. lia.
Qed.

Lemma byte_of_parts n a x :
  n <> 0 ->
  Byte.to_N a / n = Byte.to_N x / n -> Byte.to_N a mod n = Byte.to_N x mod n -> a = x.
Proof.
  intros Hn Hq Hr. apply Byte_to_N_injective.
  rewrite (N.div_mod (Byte.to_N a) n), (N.div_mod (Byte.to_N x) n) by exact Hn.
  rewrite Hq, Hr. reflexivity.
Qed.

Ltac char_eq H :=
  apply base64url_char_injective in H; [|sextet_bound|sextet_bound].

(** X10. [base64URLEncode] loses nothing: two byte strings with the same text
    are the same byte string. *)
Theorem base64URLEncode_injective :
  forall bs bs' : list byte, base64URLEncode bs = base64URLEncode bs' -> bs = bs'.
Proof.
  intros bs bs'.
  destruct (base64URLEncode_refines bs) as [-> _].
  destruct (base64URLEncode_refines bs') as [-> _].
  unfold base64url_no_padding. revert bs'.
  induction bs as [|a|a b|a b c r IH] using list_ind3;
    intros [|x [|y [|z r']]]; cbn [flat_map];
    rewrite ?app_nil_r, ?sextets_one_byte, ?sextets_two_bytes, ?sextets_three_bytes;
    cbn [map app sextets]; intros H; try discriminate H; try reflexivity.
  - injection H as H1 H2. char_eq H1. char_eq H2.
    f_equal. apply (byte_of_parts 4); lia.
  - injection H as H1 H2 H3. char_eq H1. char_eq H2. char_eq H3.
    apply second_sextet_injective in H2. destruct H2 as [H2 H2'].
    f_equal; [apply (byte_of_parts 4); lia|].
    f_equal. apply (byte_of_parts 16); lia.
  - injection H as H1 H2 H3 H4 H5. char_eq H1. char_eq H2. char_eq H3. char_eq H4.
    apply second_sextet_injective in H2. destruct H2 as [H2 H2'].
    apply third_sextet_injective in H3. destruct H3 as [H3 H3'].
    f_equal; [apply (byte_of_parts 4); lia|].
    f_equal; [apply (byte_of_parts 16); lia|].
    f_equal; [apply (byte_of_parts 64); lia|].
    apply IH. exact H5.
Qed.

(* ================================================================= *)
(** ** The device-authorization initiator: incomplete answers *)

Section Initiator.

Context (E : Engine).

Lemma generateCodeChallenge_well_formed v :
  toWellFormed (generateCodeChallenge v) = generateCodeChallenge v.
Proof.
  unfold generateCodeChallenge.
  destruct (base64URLEncode_refines (sha256 (utf8_encode v))) as [-> _].
  apply base64url_no_padding_well_formed.
Qed.

Lemma device_code_request_incomplete w latency r :
  server w (List.length (requests w)) (device_code_post w 0) = (latency, NetResponse r) ->
  (Z.of_N latency < requestTimeoutMs)%Z ->
  incomplete_device_answer r ->
  device_code_request E w
  = (Throw (new_Error (js "设备授权返回缺少字段")),
     answered (device_code_post w 0) latency (set_drawn (drawn w + 32) w)).
Proof.
  intros Hs Hl (m & [Hok Hbody] & Hmissing).
  unfold device_code_request, generateCodeVerifier, randomBytes, bind.
  unfold ret at 1. cbn beta iota.
  unfold URLSearchParams_append. cbn [app].
  rewrite generateCodeChallenge_well_formed.
  unfold postForm, bind.
  change (form_request QWEN_OAUTH_DEVICE_CODE_ENDPOINT _) with (device_code_post w 0).
  rewrite (fetchWithTimeout_answer E (device_code_post w 0)
             (set_drawn (drawn w + 32) w) latency r Hs Hl), Hok.
  cbn [negb]. unfold response_json, JSON_parse_or_throw. rewrite Hbody.
  unfold ret, prop. cbn [get_prop]. unfold ret.
  apply andb_false_iff in Hmissing.
  rewrite andb_false_iff in Hmissing.
  destruct Hmissing as [[H | H] | H]; rewrite H; cbn [negb orb];
    rewrite ?orb_true_r; reflexivity.
Qed.

Lemma device_code_post_next w k req latency ms :
  device_code_post
    (snd (sleep ms (answered req latency (set_drawn (drawn w + 32) w)))) k
  = device_code_post w (S k).
Proof.
  unfold device_code_post, verifier_bytes, sleep, modify. world_simpl.
  do 5 f_equal. lia.
Qed.

Lemma device_code_requests_all_incomplete delay retries :
  forall n attempt lastError w,
    answers_incomplete (server w) ->
    (Z.of_nat (S n) = retries - attempt + 1)%Z ->
    exists w',
      withRetry_loop (device_code_request E) retries delay (S n) attempt lastError w
      = (Throw (new_Error (js "设备授权返回缺少字段")), w')
      /\ requests w' = requests w ++ map (device_code_post w) (seq 0 (S n))
      /\ timers w'
         = timers w ++ map (fun j => (delay * (attempt + Z.of_nat j))%Z) (seq 0 n)
      /\ drawn w' = (drawn w + 32 * S n)%nat.
Proof.
  induction n as [|n IH]; intros attempt lastError w Hsrv Hn.
  - destruct (Hsrv (List.length (requests w)) (device_code_post w 0))
      as (latency & r & Hs & Hl & Hr).
    pose proof (device_code_request_incomplete w latency r Hs Hl Hr) as Hrun.
    eexists. split.
    + apply withRetry_loop_exhausted;
        [exact Hrun | apply no_status_retryable; reflexivity | lia].
    + world_simpl. split; [reflexivity|].
      split; [cbn; rewrite app_nil_r; reflexivity | lia].
  - destruct (Hsrv (List.length (requests w)) (device_code_post w 0))
      as (latency & r & Hs & Hl & Hr).
    pose proof (device_code_request_incomplete w latency r Hs Hl Hr) as Hrun.
    rewrite (withRetry_loop_retry _ _ _ _ _ _ _ _ _ _ Hrun
               (no_status_retryable (new_Error (js "设备授权返回缺少字段")) eq_refl))
      by lia.
    set (w1 := snd (sleep (delay * attempt)
                      (answered (device_code_post w 0) latency
                         (set_drawn (drawn w + 32) w)))).
    destruct (IH (attempt + 1)%Z (Some (new_Error (js "设备授权返回缺少字段"))) w1)
      as (w' & Hloop & Hreq & Htim & Hdrawn).
    + exact Hsrv.
    + lia.
    + exists w'. split; [exact Hloop|]. split.
      { rewrite Hreq. unfold w1 at 1, sleep, modify. world_simpl.
        rewrite <- app_assoc. f_equal.
        change (seq 0 (S (S n))) with (0%nat :: seq 1 (S n)).
        cbn [map app]. f_equal.
        rewrite <- seq_shift, map_map. apply map_ext. intros k.
        apply device_code_post_next. }
      split.
      { rewrite Htim. unfold w1, sleep, modify. world_simpl.
        rewrite <- app_assoc. f_equal. cbn [seq map app]. rewrite Z.add_0_r. f_equal.
        rewrite <- seq_shift, map_map. apply map_ext. intros j. f_equal. lia. }
      rewrite Hdrawn. unfold w1, sleep, modify. world_simpl. lia.
Qed.

(** X11. A 2xx answer that lacks [user_code], [device_code] or
    [verification_uri_complete] is treated as a passing failure: in front of
    a server that keeps answering so, the initiator asks five times, with a
    fresh verifier (32 new random bytes) and its challenge each time and
    sleeps of 2, 4, 6 and 8 seconds in between, before it fails with the error
    设备授权返回缺少字段. *)
Theorem initiateDeviceFlow_retries_incomplete_answers :
  forall w : World,
    answers_incomplete (server w) ->
    exists w',
      initiateDeviceFlow E w = (Throw (new_Error (js "设备授权返回缺少字段")), w')
      /\ requests w'
         = requests w ++ [device_code_post w 0; device_code_post w 1;
                          device_code_post w 2; device_code_post w 3;
                          device_code_post w 4]
      /\ timers w' = timers w ++ [2000; 4000; 6000; 8000]%Z
      /\ drawn w' = (drawn w + 160)%nat.
Proof.
  intros w Hsrv. unfold initiateDeviceFlow, withRetry.
  change (Z.to_nat MAX_RETRIES) with 5%nat.
  destruct (device_code_requests_all_incomplete RETRY_DELAY_MS MAX_RETRIES
              4 1%Z None w Hsrv eq_refl) as (w' & Hloop & Hreq & Htim & Hdrawn).
  exists w'. repeat split; assumption.
Qed.

Lemma lookup_define_property_other k k' v m :
  jsstring_eqb k k' = false -> lookup k (define_property k' v m) = lookup k m.
Proof.
  intros Hk. induction m as [|[k0 v0] m IH]; cbn [define_property lookup].
  - rewrite Hk. reflexivity.
  - destruct (jsstring_eqb k' k0) eqn:Hk0; cbn [lookup].
    + apply jsstring_eqb_eq in Hk0. subst k0. rewrite Hk. reflexivity.
    + rewrite IH. reflexivity.
Qed.

Lemma device_code_request_result w flow w' :
  device_code_request E w = (Ok flow, w') ->
  exists m0 bytes,
    List.length bytes = 32%nat
    /\ flow = VObj (define_property (js "code_verifier")
                      (VStr (base64URLEncode bytes)) m0)
    /\ truthy (lookup (js "user_code") m0) = true
    /\ truthy (lookup (js "device_code") m0) = true
    /\ truthy (lookup (js "verification_uri_complete") m0) = true.
Proof.
  unfold device_code_request, generateCodeVerifier, randomBytes, bind.
  unfold ret at 1. cbn beta iota.
  set (bytes := map (entropy w) (seq (drawn w) 32)).
  destruct (postForm E QWEN_OAUTH_DEVICE_CODE_ENDPOINT _ _) as [[deviceFlow|e] w1];
    [|discriminate].
  unfold prop.
  destruct deviceFlow as [| | | | | |m]; try discriminate;
    cbn [get_prop]; unfold ret at 1 2 3;
    try (cbn [truthy negb orb]; discriminate).
  destruct (truthy (lookup (js "user_code") m)) eqn:H1; [|discriminate].
  destruct (truthy (lookup (js "device_code") m)) eqn:H2; [|discriminate].
  destruct (truthy (lookup (js "verification_uri_complete") m)) eqn:H3; [|discriminate].
  cbn [negb orb]. unfold set_code_verifier, ret. intros H.
  pose proof (f_equal fst H) as Hs. cbn [fst] in Hs. injection Hs as Hs. subst flow.
  exists m, bytes. split; [unfold bytes; rewrite length_map, length_seq; reflexivity|].
  auto.
Qed.


End Initiator.

(* ================================================================= *)
(** ** The device-token poller: how polling ends *)

Section Poller2.

Context (E : Engine).

Lemma pollForToken_slow_down_step fuel deviceCode codeVerifier email interval w latency r :
  server w (List.length (requests w)) (poll_form deviceCode codeVerifier)
  = (latency, NetResponse r) ->
  (Z.of_N latency < requestTimeoutMs)%Z ->
  error_answer (js "slow_down") r ->
  pollForToken E (S fuel) deviceCode codeVerifier email interval w
  = pollForToken E fuel deviceCode codeVerifier email (slow_down_interval interval)
      (snd (sleep (slow_down_interval interval)
              (answered (poll_form deviceCode codeVerifier) latency w))).
Proof.
  intros Hs Hl Hr. cbn [pollForToken].
  rewrite (poll_request_rejected E _ _ _ _ _ _ Hs Hl (error_answer_not_ok _ _ Hr)).
  destruct (error_answer_caught E _ _ Hr) as (H400 & Htruthy & Hcode).
  rewrite H400, Htruthy, Hcode. reflexivity.
Qed.

(** X13. The poller has no deadline: as long as the token endpoint answers
    [authorization_pending] or [slow_down], the poll goes on, however many
    polls have been made and whatever the lifetime that the device code was
    issued with. *)
Theorem pollForToken_has_no_deadline :
  forall (fuel : nat) (deviceCode codeVerifier email : jsstring) (interval : Z)
         (w : World),
    keeps_waiting (server w) (poll_form deviceCode codeVerifier) ->
    pollForToken E fuel deviceCode codeVerifier email interval w = None.
Proof.
  induction fuel as [|fuel IH]; intros deviceCode codeVerifier email interval w Hsrv;
    [reflexivity|].
  destruct (Hsrv (List.length (requests w))) as (latency & r & Hs & Hl & [Hr | Hr]).
  - rewrite (pollForToken_pending E _ _ _ _ _ _ _ _ Hs Hl Hr). apply IH. exact Hsrv.
  - rewrite (pollForToken_slow_down_step _ _ _ _ _ _ _ _ Hs Hl Hr). apply IH. exact Hsrv.
Qed.

Lemma error_answer_tested code r :
  status_is (buildHttpError E r) 400
  && strict_eq_string (get_prop_opt (err_data (buildHttpError E r)) (js "error")) code
  = true ->
  error_answer code r.
Proof.
  intros H. apply andb_prop in H. destruct H as [Hs Hc].
  apply status_is_true in Hs. cbn [buildHttpError err_status] in Hs.
  injection Hs as Hs. split; [exact Hs|].
  cbn [buildHttpError err_data] in Hc.
  destruct (JSON_parse (resp_body r)) as [d|]; [|discriminate Hc].
  exists d. split; [reflexivity|].
  unfold strict_eq_string in Hc.
  destruct (get_prop_opt d (js "error")); try discriminate Hc.
  apply jsstring_eqb_eq in Hc. subst. reflexivity.
Qed.

(** X14. Every rejection other than a 400 answer with the error code
    [authorization_pending] or [slow_down] ends the poll at once: after this
    one request and without a sleep, the poller fails with an error that
    carries no status and whose message starts with 令牌获取失败. *)
Theorem pollForToken_stops_on_other_rejections :
  forall (fuel : nat) (deviceCode codeVerifier email : jsstring) (interval : Z)
         (w : World) (latency : N) (r : Response),
    server w (List.length (requests w)) (poll_form deviceCode codeVerifier)
    = (latency, NetResponse r) ->
    (Z.of_N latency < requestTimeoutMs)%Z ->
    resp_ok r = false ->
    ~ error_answer (js "authorization_pending") r ->
    ~ error_answer (js "slow_down") r ->
    exists e,
      pollForToken E (S fuel) deviceCode codeVerifier email interval w
      = Some (Throw e, answered (poll_form deviceCode codeVerifier) latency w)
      /\ err_status e = None
      /\ starts_with (err_message e) (js "令牌获取失败") = true.
Proof.
  intros fuel deviceCode codeVerifier email interval w latency r Hs Hl Hok Hpending Hslow.
  cbn [pollForToken].
  rewrite (poll_request_rejected E _ _ _ _ _ _ Hs Hl Hok).
  destruct (status_is (buildHttpError E r) 400
            && negb (truthy (err_data (buildHttpError E r)))
            && includes (err_message (buildHttpError E r)) (js "user_code")).
  { eexists. split; [reflexivity|]. split; reflexivity. }
  destruct (status_is (buildHttpError E r) 400
            && strict_eq_string
                 (get_prop_opt (err_data (buildHttpError E r)) (js "error"))
                 (js "authorization_pending")) eqn:H1.
  { apply error_answer_tested in H1. contradiction. }
  destruct (status_is (buildHttpError E r) 400
            && strict_eq_string
                 (get_prop_opt (err_data (buildHttpError E r)) (js "error"))
                 (js "slow_down")) eqn:H2.
  { apply error_answer_tested in H2. contradiction. }
  eexists. split; [reflexivity|]. split; reflexivity.
Qed.

End Poller2.

(* ================================================================= *)
(** ** The device-token poller: failures that are not retried *)

Section Poller3.

Context (E : Engine).

Lemma poll_failure_is_final fuel deviceCode codeVerifier email interval w error w1 :
  poll_request E deviceCode codeVerifier email w = (Throw error, w1) ->
  status_is error 400 = false ->
  pollForToken E (S fuel) deviceCode codeVerifier email interval w
  = Some (Throw (new_Error (js "令牌获取失败: " ++ extractError error)), w1).
Proof.
  intros Hrun Hstatus. cbn [pollForToken]. rewrite Hrun, Hstatus. reflexivity.
Qed.

Lemma poll_request_timeout deviceCode codeVerifier email w latency outcome :
  server w (List.length (requests w)) (poll_form deviceCode codeVerifier)
  = (latency, outcome) ->
  (requestTimeoutMs <= Z.of_N latency)%Z ->
  poll_request E deviceCode codeVerifier email w
  = (Throw (engine_error E Timeout_AbortError),
     advance requestTimeoutMs (log_request (poll_form deviceCode codeVerifier) w)).
Proof.
  intros Hs Hl. unfold poll_request, postForm, bind.
  change (form_request QWEN_OAUTH_TOKEN_ENDPOINT _)
    with (poll_form deviceCode codeVerifier).
  unfold fetchWithTimeout. rewrite Hs.
  apply Z.leb_le in Hl. rewrite Hl. reflexivity.
Qed.

Lemma poll_request_network_failure deviceCode codeVerifier email w latency e :
  server w (List.length (requests w)) (poll_form deviceCode codeVerifier)
  = (latency, NetFailure e) ->
  (Z.of_N latency < requestTimeoutMs)%Z ->
  poll_request E deviceCode codeVerifier email w
  = (Throw e, answered (poll_form deviceCode codeVerifier) latency w).
Proof.
  intros Hs Hl. unfold poll_request, postForm, bind.
  change (form_request QWEN_OAUTH_TOKEN_ENDPOINT _)
    with (poll_form deviceCode codeVerifier).
  unfold fetchWithTimeout. rewrite Hs.
  apply Z.leb_gt in Hl. rewrite Hl. reflexivity.
Qed.

Lemma poll_request_without_lifetime deviceCode codeVerifier email w latency r m :
  server w (List.length (requests w)) (poll_form deviceCode codeVerifier)
  = (latency, NetResponse r) ->
  (Z.of_N latency < requestTimeoutMs)%Z ->
  object_answer m r ->
  ToNumber E (lookup (js "expires_in") m) = None ->
  poll_request E deviceCode codeVerifier email w
  = (Throw (engine_error E InvalidTime_RangeError),
     answered (poll_form deviceCode codeVerifier) latency w).
Proof.
  intros Hs Hl [Hok Hbody] Hn.
  unfold poll_request, postForm, bind.
  change (form_request QWEN_OAUTH_TOKEN_ENDPOINT _)
    with (poll_form deviceCode codeVerifier).
  rewrite (fetchWithTimeout_answer E _ _ _ _ Hs Hl), Hok.
  cbn [negb]. unfold response_json, JSON_parse_or_throw. rewrite Hbody.
  unfold ret, prop. cbn [get_prop]. unfold ret.
  unfold expiry_from_now, bind, Date_now, gets. rewrite Hn. reflexivity.
Qed.

Lemma poll_request_not_stored deviceCode codeVerifier email w latency r m q t e :
  server w (List.length (requests w)) (poll_form deviceCode codeVerifier)
  = (latency, NetResponse r) ->
  (Z.of_N latency < requestTimeoutMs)%Z ->
  object_answer m r ->
  ToNumber E (lookup (js "expires_in") m) = Some q ->
  TimeClip (inject_Z (clock w + Z.of_N latency) + q * 1000) = Some t ->
  fs_write_error w = Some e ->
  poll_request E deviceCode codeVerifier email w
  = (Throw e,
     set_currentEmail (VStr (trim email))
       (set_currentToken (token_of_response m (toISOString_ms t))
          (answered (poll_form deviceCode codeVerifier) latency w))).
Proof.
  intros Hs Hl [Hok Hbody] Hn Ht Hwrite.
  unfold poll_request, postForm, bind.
  change (form_request QWEN_OAUTH_TOKEN_ENDPOINT _)
    with (poll_form deviceCode codeVerifier).
  rewrite (fetchWithTimeout_answer E _ _ _ _ Hs Hl), Hok.
  cbn [negb]. unfold response_json, JSON_parse_or_throw. rewrite Hbody.
  unfold ret, prop. cbn [get_prop]. unfold ret.
  unfold expiry_from_now, bind, Date_now, gets. rewrite Hn.
  assert (Hclock : clock (answered (poll_form deviceCode codeVerifier) latency w)
                   = (clock w + Z.of_N latency)%Z).
  { unfold answered, advance, log_request. cbn [clock]. lia. }
  rewrite Hclock, Ht.
  unfold ret, modify, saveTokenToStorage, bind, Date_now, gets, fs_mkdir.
  world_simpl. rewrite Hwrite. reflexivity.
Qed.

(** X15. The poller is the one call of the SDK that does not go through
    [withRetry]: a request that is not answered within the 120 seconds, or
    that fails in the network, ends the poll at once.  The error is a new
    one, without status, whose message is 令牌获取失败 followed by the message
    of the failure (by its name when it has no message). *)
Theorem pollForToken_gives_up_on_the_first_failure :
  forall (fuel : nat) (deviceCode codeVerifier email : jsstring) (interval : Z)
         (w : World) (latency : N) (outcome : NetOutcome),
    server w (List.length (requests w)) (poll_form deviceCode codeVerifier)
    = (latency, outcome) ->
    ((requestTimeoutMs <= Z.of_N latency)%Z ->
     pollForToken E (S fuel) deviceCode codeVerifier email interval w
     = Some (Throw (new_Error (js "令牌获取失败: "
                               ++ extractError (engine_error E Timeout_AbortError))),
             advance requestTimeoutMs
               (log_request (poll_form deviceCode codeVerifier) w)))
    /\ (forall e,
           (Z.of_N latency < requestTimeoutMs)%Z ->
           outcome = NetFailure e ->
           status_is e 400 = false ->
           pollForToken E (S fuel) deviceCode codeVerifier email interval w
           = Some (Throw (new_Error (js "令牌获取失败: " ++ extractError e)),
                   answered (poll_form deviceCode codeVerifier) latency w)).
Proof.
  intros fuel deviceCode codeVerifier email interval w latency outcome Hs. split.
  - intros Hl. apply poll_failure_is_final; [|reflexivity].
    now apply (poll_request_timeout _ _ _ _ latency outcome).
  - intros e Hl -> Hstatus. apply poll_failure_is_final; [|exact Hstatus].
    now apply poll_request_network_failure.
Qed.

(** X16. Two grants that the poller turns into failures.  A 2xx answer whose
    [expires_in] is missing or is no number fails on the date of expiry
    (the RangeError of [toISOString]), before anything is held or stored.
    A grant that cannot be written to the file fails too, but then the
    instance already holds the granted token and the trimmed email: the
    call reports 令牌获取失败 although the next [sendRequest] would use that
    token. *)
Theorem pollForToken_grants_that_fail :
  forall (fuel : nat) (deviceCode codeVerifier email : jsstring) (interval : Z)
         (w : World) (latency : N) (r : Response) (m : list (jsstring * JsVal)),
    server w (List.length (requests w)) (poll_form deviceCode codeVerifier)
    = (latency, NetResponse r) ->
    (Z.of_N latency < requestTimeoutMs)%Z ->
    object_answer m r ->
    (ToNumber E (lookup (js "expires_in") m) = None ->
     pollForToken E (S fuel) deviceCode codeVerifier email interval w
     = Some (Throw (new_Error (js "令牌获取失败: "
                               ++ extractError (engine_error E InvalidTime_RangeError))),
             answered (poll_form deviceCode codeVerifier) latency w))
    /\ (forall q t e,
           ToNumber E (lookup (js "expires_in") m) = Some q ->
           TimeClip (inject_Z (clock w + Z.of_N latency) + q * 1000) = Some t ->
           fs_write_error w = Some e ->
           status_is e 400 = false ->
           exists w1,
             pollForToken E (S fuel) deviceCode codeVerifier email interval w
             = Some (Throw (new_Error (js "令牌获取失败: " ++ extractError e)), w1)
             /\ currentToken w1 = Some (token_of_response m (toISOString_ms t))
             /\ currentEmail w1 = VStr (trim email)
             /\ file w1 = file w).
Proof.
  intros fuel deviceCode codeVerifier email interval w latency r m Hs Hl Hanswer. split.
  - intros Hn. apply poll_failure_is_final; [|reflexivity].
    now apply (poll_request_without_lifetime _ _ _ _ _ r m).
  - intros q t e Hn Ht Hwrite Hstatus.
    eexists. split.
    + apply poll_failure_is_final; [|exact Hstatus].
      exact (poll_request_not_stored deviceCode codeVerifier email w latency r m q t e
               Hs Hl Hanswer Hn Ht Hwrite).
    + split; [reflexivity|]. split; reflexivity.
Qed.

End Poller3.

(* ================================================================= *)
(** ** The token store: what is loaded, and the email *)

Lemma parse_members_object fuel :
  forall acc s v rest, parse_members fuel acc s = Some (v, rest) -> exists m, v = VObj m.
Proof.
  induction fuel as [|fuel IH]; intros acc s v rest H; [discriminate H|].
  rewrite parse_members_unfold in H.
  destruct (skip_ws s) as [|c r]; [discriminate H|].
  destruct (c =? 34); [|discriminate H].
  destruct (parse_string_body r) as [[k r1]|]; [|discriminate H].
  destruct (skip_ws r1) as [|d r2]; [discriminate H|].
  destruct (d =? 58); [|discriminate H].
  destruct (parse_value fuel r2) as [[v0 r3]|]; [|discriminate H].
  cbv zeta in H.
  destruct (skip_ws r3) as [|e r4]; [discriminate H|].
  destruct (e =? 44); [eapply IH; exact H|].
  destruct (e =? 125); [|discriminate H].
  inversion H. eauto.
Qed.

Lemma parse_elements_array fuel :
  forall acc s v rest, parse_elements fuel acc s = Some (v, rest) -> exists l, v = VArr l.
Proof.
  induction fuel as [|fuel IH]; intros acc s v rest H; [discriminate H|].
  rewrite parse_elements_unfold in H.
  destruct (parse_value fuel s) as [[v0 r1]|]; [|discriminate H].
  destruct (skip_ws r1) as [|e r2]; [discriminate H|].
  destruct (e =? 44); [eapply IH; exact H|].
  destruct (e =? 93); [|discriminate H].
  inversion H. eauto.
Qed.

Lemma JSON_parse_defined text v : JSON_parse text = Some v -> v <> VUndefined.
Proof.
  unfold JSON_parse. rewrite parse_value_unfold.
  destruct (skip_ws text) as [|c r]; [discriminate|].
  intros H Hv. subst v.
  destruct (c =? 123).
  { destruct (skip_ws r) as [|d r']; [discriminate H|].
    destruct (d =? 125).
    - destruct (skip_ws r'); discriminate H.
    - destruct (parse_members _ _ _) as [[v rest]|] eqn:Hm; [|discriminate H].
      apply parse_members_object in Hm. destruct Hm as [m ->].
      destruct (skip_ws rest); discriminate H. }
  destruct (c =? 91).
  { destruct (skip_ws r) as [|d r']; [discriminate H|].
    destruct (d =? 93).
    - destruct (skip_ws r'); discriminate H.
    - destruct (parse_elements _ _ _) as [[v rest]|] eqn:Hm; [|discriminate H].
      apply parse_elements_array in Hm. destruct Hm as [l ->].
      destruct (skip_ws rest); discriminate H. }
  destruct (c =? 34).
  { destruct (parse_string_body r) as [[t rest]|]; [|discriminate H].
    destruct (skip_ws rest); discriminate H. }
  unfold expect_literal in H.
  destruct (c =? 116).
  { destruct (starts_with _ _); [|discriminate H].
    destruct (skip_ws _); discriminate H. }
  destruct (c =? 102).
  { destruct (starts_with _ _); [|discriminate H].
    destruct (skip_ws _); discriminate H. }
  destruct (c =? 110).
  { destruct (starts_with _ _); [|discriminate H].
    destruct (skip_ws _); discriminate H. }
  destruct (parse_number (c :: r)) as [[q rest]|]; [|discriminate H].
  destruct (skip_ws rest); discriminate H.
Qed.

Section TokenStore2.

Context (E : Engine).

(** X17. Loading does not validate what the file holds: whatever JSON value it
    is, except [null], a token is returned and held, its fields being the
    properties of the value under the names of the envelope ([undefined] for
    those that are missing, all of them for an empty object or a value that is
    not an object), and the email of the instance becomes its [email]
    property.  Only [null] is refused, with the warning of the TypeError. *)
Theorem loadTokenFromStorage_does_not_validate :
  forall (w : World) (text : jsstring) (v : JsVal),
    file w = Some text -> fs_read_error w = None -> JSON_parse text = Some v ->
    (v <> VNull ->
     loadTokenFromStorage E w
     = (Ok (Some (token_of_storage v)),
        set_currentEmail (get_prop_opt v (js "email"))
          (set_currentToken (token_of_storage v) w)))
    /\ (v = VNull ->
        loadTokenFromStorage E w
        = (Ok None,
           log_warning (js "加载令牌失败:") (engine_error E Nullish_TypeError) w))
    /\ (v = VObj [] ->
        token_of_storage v
        = {| access_token := VUndefined; refresh_token := VUndefined;
             token_type := VStr (js "Bearer"); resource_url := VUndefined;
             expiry_date := VUndefined |}).
Proof.
  intros w text v Hfile Hread Hparse.
  pose proof (JSON_parse_defined text v Hparse) as Hdef.
  assert (Hload : loadTokenFromStorage E w
                  = match get_prop v (js "access_token") with
                    | Some _ =>
                        (Ok (Some (token_of_storage v)),
                         set_currentEmail (get_prop_opt v (js "email"))
                           (set_currentToken (token_of_storage v) w))
                    | None =>
                        (Ok None,
                         log_warning (js "加载令牌失败:")
                           (engine_error E Nullish_TypeError) w)
                    end).
  { unfold loadTokenFromStorage, try_catch, bind, fs_existsSync, gets, fs_readFile,
      JSON_parse_or_throw, prop, modify, console_warn, throw, ret.
    repeat (first [rewrite Hfile | rewrite Hread | rewrite Hparse]; cbn beta iota).
    destruct v; reflexivity. }
  split; [|split].
  - intros Hnull. rewrite Hload. destruct v; try reflexivity; contradiction.
  - intros ->. rewrite Hload. reflexivity.
  - intros ->. reflexivity.
Qed.

(** X18. [updateTokenEmail] without a token held does nothing.  With a token
    held it stores that token again under the new email, which is taken as it
    is (it is not trimmed): the file then loads back to the same token and to
    that email.  When the file cannot be written, the call fails, but the
    email of the instance has already been changed. *)
Theorem updateTokenEmail_relabels_the_stored_token :
  (forall email w,
      currentToken w = None -> updateTokenEmail E email w = (Ok tt, w))
  /\ (forall email w tok,
         currentToken w = Some tok -> storable tok ->
         fs_write_error w = None -> fs_read_error w = None ->
         exists w1 w2,
           updateTokenEmail E email w = (Ok tt, w1)
           /\ currentToken w1 = Some tok
           /\ currentEmail w1 = VStr email
           /\ stored_email w1 = Some (VStr email)
           /\ loadTokenFromStorage E w1
              = (Ok (Some (with_token_type (VStr (js "Bearer")) tok)), w2)
           /\ currentEmail w2 = VStr email)
  /\ (forall email w tok e,
         currentToken w = Some tok -> fs_write_error w = Some e ->
         updateTokenEmail E email w = (Throw e, set_currentEmail (VStr email) w)).
Proof.
  split; [|split].
  - intros email w Hcur. unfold updateTokenEmail, bind, gets. rewrite Hcur. reflexivity.
  - intros email w tok Hcur Htok Hwrite Hread.
    destruct (save_then_load E tok email (set_currentEmail (VStr email) w) Htok Hwrite Hread)
      as (text & Hsave & Htext & Hload).
    eexists _, _. split.
    { unfold updateTokenEmail, bind, gets, modify. rewrite Hcur. exact Hsave. }
    split; [exact Hcur|]. split; [reflexivity|]. split.
    { destruct (storageData_round_trip E tok email (clock w) Htok)
        as (text' & v & Htext' & Hwf & Hparse & Hprops).
      cbn [clock set_currentEmail] in Htext. rewrite Htext in Htext'.
      injection Htext' as <-.
      unfold stored_email. cbn [file set_file]. rewrite Hparse, Hprops. reflexivity. }
    split; [exact Hload | reflexivity].
  - intros email w tok e Hcur Hwrite.
    unfold updateTokenEmail, bind, gets, modify. rewrite Hcur.
    unfold saveTokenToStorage, bind, Date_now, gets, fs_mkdir.
    cbn [fs_write_error set_currentEmail]. rewrite Hwrite. reflexivity.
Qed.

End TokenStore2.

(* ================================================================= *)
(** ** The base URL of the chat endpoint *)

Lemma trimStart_nil s : trimStart s = [] <-> forallb is_js_whitespace s = true.
Proof.
  induction s as [|c s IH]; cbn [trimStart forallb]; [tauto|].
  destruct (is_js_whitespace c); cbn [andb]; [exact IH|].
  split; discriminate.
Qed.

Lemma trimStart_suffix s : exists pre, s = pre ++ trimStart s /\ forallb is_js_whitespace pre = true.
Proof.
  induction s as [|c s (pre & Hs & Hpre)]; cbn [trimStart].
  - exists []. auto.
  - destruct (is_js_whitespace c) eqn:Hc.
    + exists (c :: pre). cbn [app forallb]. rewrite Hc, Hpre. split; [congruence | reflexivity].
    + exists []. auto.
Qed.

Lemma trim_nil s : trim s = [] <-> forallb is_js_whitespace s = true.
Proof.
  unfold trim, trimEnd. split.
  - intros H. apply (f_equal (@rev code_unit)) in H. rewrite rev_involutive in H.
    cbn [rev] in H. apply trimStart_nil in H.
    rewrite forallb_forall in H.
    destruct (trimStart_suffix s) as (pre & Hs & Hpre).
    rewrite Hs, forallb_app, Hpre. cbn [andb].
    apply forallb_forall. intros c Hc. apply H, in_rev. rewrite rev_involutive. exact Hc.
  - intros H. apply trimStart_nil in H. rewrite H. reflexivity.
Qed.

Section BaseUrl.

Context (E : Engine).

(** X19. The base URL of the chat endpoint: the portal by default, when the
    token has no resource URL or one that is empty or blank; otherwise
    [https://], the resource URL and [/v1], where one slash that ends the
    resource URL is dropped (so a host gives the same URL with or without it),
    but only one, and the resource URL is otherwise taken as it is. *)
Theorem buildBaseUrl_of_resource :
  (forall v w, truthy v = false ->
               buildBaseUrl E v w = (Ok (js "https://portal.qwen.ai/v1"), w))
  /\ (forall s w, forallb is_js_whitespace s = true ->
                  buildBaseUrl E (VStr s) w = (Ok (js "https://portal.qwen.ai/v1"), w))
  /\ (forall host w,
         forallb is_js_whitespace host = false ->
         (forall h, host <> h ++ [47]) ->
         buildBaseUrl E (VStr host) w = (Ok (js "https://" ++ host ++ js "/v1"), w)
         /\ buildBaseUrl E (VStr (host ++ [47])) w
            = (Ok (js "https://" ++ host ++ js "/v1"), w))
  /\ (forall host w,
         buildBaseUrl E (VStr (host ++ [47; 47])) w
         = (Ok (js "https://" ++ (host ++ [47]) ++ js "/v1"), w)).
Proof.
  assert (Hslash : forall host w,
             buildBaseUrl E (VStr (host ++ [47])) w
             = (Ok (js "https://" ++ host ++ js "/v1"), w)).
  { intros host w. unfold buildBaseUrl.
    assert (Ht : truthy (VStr (host ++ [47])) = true) by (destruct host; reflexivity).
    rewrite Ht.
    destruct (trim (host ++ [47])) as [|t0 t] eqn:Htrim.
    - apply trim_nil in Htrim. rewrite forallb_app in Htrim.
      cbn in Htrim. rewrite andb_false_r in Htrim. discriminate Htrim.
    - unfold strip_final_slash. rewrite rev_app_distr. cbn [rev app].
      change (47 =? 47) with true. cbn beta iota. rewrite rev_involutive. reflexivity. }
  split; [|split; [|split]].
  - intros v w Hv. unfold buildBaseUrl. rewrite Hv. reflexivity.
  - intros s w Hs. unfold buildBaseUrl.
    destruct (truthy (VStr s)); [|reflexivity].
    apply trim_nil in Hs. rewrite Hs. reflexivity.
  - intros host w Hhost Hend. split; [|apply Hslash].
    unfold buildBaseUrl.
    assert (Ht : truthy (VStr host) = true) by (destruct host; [discriminate Hhost | reflexivity]).
    rewrite Ht.
    destruct (trim host) as [|t0 t] eqn:Htrim.
    + apply trim_nil in Htrim. congruence.
    + unfold strip_final_slash.
      destruct (rev host) as [|c r] eqn:Hrev; [reflexivity|].
      destruct (c =? 47) eqn:Hc; [|reflexivity].
      apply N.eqb_eq in Hc. subst c. exfalso. apply (Hend (rev r)).
      rewrite <- (rev_involutive host), Hrev. reflexivity.
  - intros host w.
    replace (host ++ [47; 47])%list with ((host ++ [47]) ++ [47])%list
      by (rewrite <- app_assoc; reflexivity).
    apply Hslash.
Qed.

End BaseUrl.

(* ================================================================= *)
(** ** Decimal digits *)

Lemma usize_digits d : DecimalPos.Unsigned.usize d = N.of_nat (List.length (digits_of_uint d)).
Proof.
  induction d; cbn [DecimalPos.Unsigned.usize digits_of_uint List.length];
    rewrite ?IHd; lia.
Qed.

Lemma of_lu_rev_step d :
  d <> Decimal.Nil ->
  DecimalPos.Unsigned.of_lu (Decimal.rev d) = DecimalPos.Unsigned.of_lu (Decimal.rev (DecimalPos.Unsigned.tl d)) + DecimalPos.Unsigned.hd d * 10 ^ DecimalPos.Unsigned.usize (DecimalPos.Unsigned.tl d).
Proof.
  destruct d; [contradiction|..]; intros _; unfold Decimal.rev at 1;
    cbn [Decimal.revapp DecimalPos.Unsigned.tl DecimalPos.Unsigned.hd]; rewrite DecimalPos.Unsigned.of_lu_revapp; cbn [DecimalPos.Unsigned.of_lu]; lia.
Qed.

Lemma digits_of_uint_step d :
  d <> Decimal.Nil ->
  digits_of_uint d = (48 + DecimalPos.Unsigned.hd d) :: digits_of_uint (DecimalPos.Unsigned.tl d) /\ DecimalPos.Unsigned.hd d <= 9.
Proof. destruct d; [contradiction|..]; intros _; split; (reflexivity || cbn; lia). Qed.

Lemma read_digits_uint d :
  forall acc rest,
    read_digits (List.length (digits_of_uint d)) acc (digits_of_uint d ++ rest)
    = Some ((acc * 10 ^ Z.of_nat (List.length (digits_of_uint d))
             + Z.of_N (DecimalPos.Unsigned.of_lu (Decimal.rev d)))%Z, rest).
Proof.
  induction d; intros acc rest;
    [cbn; f_equal; f_equal; lia | ..];
    match goal with
    | |- context [Decimal.rev ?d0] =>
        assert (Hd : d0 <> Decimal.Nil) by discriminate;
        destruct (digits_of_uint_step d0 Hd) as [Hdig Hhd];
        rewrite (of_lu_rev_step d0 Hd), Hdig; clear Hdig;
        cbn [DecimalPos.Unsigned.tl] in *; generalize dependent (DecimalPos.Unsigned.hd d0); intros h Hhd
    end;
    cbn [List.length app read_digits]; unfold is_digit;
    (replace ((48 <=? 48 + h) && (48 + h <=? 57)) with true
      by (symmetry; apply andb_true_intro; split; apply N.leb_le; lia));
    cbn beta iota; rewrite IHd, usize_digits; f_equal; f_equal;
    replace (48 + h - 48) with h by lia;
    rewrite Nat2Z.inj_succ, Z.pow_succ_r by lia;
    rewrite N2Z.inj_add, N2Z.inj_mul, N2Z.inj_pow, nat_N_Z; cbn [Z.of_N]; lia.
Qed.

Lemma read_digits_zeros k n s :
  read_digits (k + n) 0 (repeat 48 k ++ s) = read_digits n 0 s.
Proof. induction k as [|k IH]; [reflexivity|]. cbn. exact IH. Qed.

Lemma to_uint_leading p :
  exists r, Pos.to_uint p = r /\ r <> Decimal.Nil /\ DecimalPos.Unsigned.hd r <> 0.
Proof.
  exists (Pos.to_uint p). split; [reflexivity|].
  split; [apply DecimalPos.Unsigned.to_uint_nonnil|].
  pose proof (DecimalPos.Unsigned.to_of (Pos.to_uint p)) as Hnorm.
  rewrite DecimalPos.Unsigned.of_to in Hnorm. cbn [N.to_uint] in Hnorm.
  pose proof (DecimalPos.Unsigned.to_uint_nonzero p) as Hnz.
  destruct (Pos.to_uint p) as [|r|r|r|r|r|r|r|r|r|r] eqn:Hd; cbn; try discriminate.
  exfalso. rewrite DecimalFacts.unorm_D0 in Hnorm.
    pose proof (DecimalFacts.nb_digits_unorm r) as Hlen.
    destruct r as [|? | ? | ? | ? | ? | ? | ? | ? | ? | ?];
      [apply Hnz; reflexivity | ..];
      (specialize (Hlen ltac:(discriminate)); rewrite <- Hnorm in Hlen;
       cbn [Decimal.nb_digits] in Hlen; lia).
Qed.

Lemma digits_count p w :
  Npos p < 10 ^ N.of_nat w ->
  (List.length (digits_of_uint (Pos.to_uint p)) <= w)%nat.
Proof.
  intros Hlt.
  destruct (to_uint_leading p) as (r & Hr & Hnil & Hhd).
  pose proof (DecimalPos.Unsigned.of_to p) as Hval. rewrite DecimalPos.Unsigned.of_uint_alt, Hr in Hval.
  rewrite Hr. rewrite (of_lu_rev_step r Hnil) in Hval.
  destruct (digits_of_uint_step r Hnil) as [Hdig _]. rewrite Hdig.
  cbn [List.length].
  destruct (Nat.le_gt_cases (S (List.length (digits_of_uint (DecimalPos.Unsigned.tl r)))) w) as [Hle|Hgt];
    [exact Hle|exfalso].
  rewrite usize_digits in Hval.
  assert (Hpow : 10 ^ N.of_nat w <= 10 ^ N.of_nat (List.length (digits_of_uint (DecimalPos.Unsigned.tl r))))
    by (apply N.pow_le_mono_r; lia).
  assert (Hone : 1 * 10 ^ N.of_nat (List.length (digits_of_uint (DecimalPos.Unsigned.tl r)))
                 <= DecimalPos.Unsigned.hd r * 10 ^ N.of_nat (List.length (digits_of_uint (DecimalPos.Unsigned.tl r))))
    by (apply N.mul_le_mono_r; lia).
  lia.
Qed.

Lemma read_digits_pad w v rest :
  (1 <= w)%nat -> v < 10 ^ N.of_nat w ->
  read_digits w 0 (pad_digits w v ++ rest) = Some (Z.of_N v, rest).
Proof.
  intros Hw Hv. unfold pad_digits, N_to_jsstring.
  destruct v as [|p].
  - cbn [List.length]. rewrite <- app_assoc.
    replace w with ((w - 1) + 1)%nat at 1 by lia.
    rewrite read_digits_zeros. reflexivity.
  - pose proof (digits_count p w Hv) as Hlen. cbn [N.to_uint].
    rewrite <- app_assoc.
    replace w with ((w - List.length (digits_of_uint (Pos.to_uint p)))
                    + List.length (digits_of_uint (Pos.to_uint p)))%nat at 1 by lia.
    rewrite read_digits_zeros, read_digits_uint.
    rewrite <- DecimalPos.Unsigned.of_uint_alt, DecimalPos.Unsigned.of_to. reflexivity.
Qed.

Lemma pad_digits_head w v :
  (1 <= w)%nat -> v < 10 ^ N.of_nat w ->
  exists c r, pad_digits w v = c :: r /\ is_digit c = true.
Proof.
  intros Hw Hv.
  pose proof (read_digits_pad w v [] Hw Hv) as H. rewrite app_nil_r in H.
  destruct w as [|w]; [lia|]. cbn [read_digits] in H.
  destruct (pad_digits (S w) v) as [|c r]; [discriminate H|].
  exists c, r. split; [reflexivity|].
  destruct (is_digit c); [reflexivity | discriminate H].
Qed.

(* ================================================================= *)
(** ** The civil calendar *)

Local Open Scope Z_scope.

Ltac euclid := Z.div_mod_to_equations; lia.

Lemma civil_from_days_spec z :
  exists era doe yoe doy mp,
    0 <= doe <= 146096 /\ z + 719468 = era * 146097 + doe
    /\ 0 <= yoe <= 399 /\ 0 <= doy <= 365
    /\ doe = 365 * yoe + yoe / 4 - yoe / 100 + doy
    /\ (doy = 365 -> (yoe + 1) mod 4 = 0 /\ ((yoe + 1) mod 100 <> 0 \/ yoe = 399))
    /\ 0 <= mp <= 11 /\ mp = (5 * doy + 2) / 153
    /\ civil_from_days z
       = (if (if mp <? 10 then mp + 3 else mp - 9) <=? 2
          then yoe + era * 400 + 1 else yoe + era * 400,
          if mp <? 10 then mp + 3 else mp - 9,
          doy - (153 * mp + 2) / 5 + 1).
Proof.
  set (z' := z + 719468).
  set (era := z' / 146097).
  set (doe := z' - era * 146097).
  set (yoe := (doe - doe / 1460 + doe / 36524 - doe / 146096) / 365).
  set (doy := doe - (365 * yoe + yoe / 4 - yoe / 100)).
  set (mp := (5 * doy + 2) / 153).
  exists era, doe, yoe, doy, mp.
  assert (Hdoe : 0 <= doe <= 146096) by (subst doe era; euclid).
  assert (Hyoe : 0 <= yoe <= 399 /\ 0 <= doy <= 365).
  { subst doy yoe. clearbody doe. clear - Hdoe. euclid. }
  split; [exact Hdoe|]. split; [subst doe z'; lia|].
  split; [apply Hyoe|]. split; [apply Hyoe|].
  split; [subst doy; lia|].
  split.
  { subst doy yoe. clearbody doe. clear - Hdoe. intros H. euclid. }
  split; [subst mp; destruct Hyoe as [_ Hdoy]; clearbody doy; euclid|].
  split; reflexivity.
Qed.

Lemma is_leap_year_true y :
  y mod 4 = 0 -> (y mod 100 <> 0 \/ y mod 400 = 0) -> is_leap_year y = true.
Proof.
  intros H4 [H100 | H400]; unfold is_leap_year.
  - apply Z.eqb_eq in H4. apply Z.eqb_neq in H100. rewrite H4, H100. reflexivity.
  - apply Z.eqb_eq in H400. rewrite H400. apply orb_true_r.
Qed.

Lemma civil_round_trip z y m d :
  civil_from_days z = (y, m, d) ->
  1 <= m <= 12 /\ 1 <= d <= days_in_month y m /\ days_from_civil y m d = z
  /\ (z + 719468) / 146097 * 400 <= y <= (z + 719468) / 146097 * 400 + 400.
Proof.
  destruct (civil_from_days_spec z)
    as (era & doe & yoe & doy & mp & Hdoe & Hz & Hyoe & Hdoy & Hsplit & Hleap
        & Hmp & Hmpdef & Hciv).
  rewrite Hciv. intros H.
  apply pair_equal_spec in H. destruct H as [H Hd].
  apply pair_equal_spec in H. destruct H as [Hy Hm].
  assert (Hera : (z + 719468) / 146097 = era) by (clear - Hdoe Hz; euclid).
  assert (Hm12 : 1 <= m <= 12) by (subst m; destruct (mp <? 10) eqn:E;
                                    [apply Z.ltb_lt in E | apply Z.ltb_ge in E]; lia).
  assert (Hmp' : (m + 9) mod 12 = mp).
  { subst m. destruct (mp <? 10) eqn:E;
      [apply Z.ltb_lt in E | apply Z.ltb_ge in E]; clear - Hmp E; euclid. }
  assert (Hy' : (if m <=? 2 then y - 1 else y) = yoe + era * 400).
  { subst y. rewrite Hm. destruct (m <=? 2); lia. }
  split; [exact Hm12|]. split; [|split].
  - assert (Hcases : mp = 0 \/ mp = 1 \/ mp = 2 \/ mp = 3 \/ mp = 4 \/ mp = 5 \/ mp = 6
                     \/ mp = 7 \/ mp = 8 \/ mp = 9 \/ mp = 10 \/ mp = 11) by lia.
    assert (Hd1 : 1 <= d) by (subst d; clear - Hmpdef Hdoy; euclid).
    split; [exact Hd1|].
    clear Hmp' Hy' Hciv.
    destruct Hcases as [E|[E|[E|[E|[E|[E|[E|[E|[E|[E|[E|E]]]]]]]]]]];
      rewrite E in Hy, Hm, Hd, Hmpdef; cbn in Hy, Hm, Hd; subst m;
      unfold days_in_month; cbn [Z.eqb Pos.eqb orb];
      try (subst d; clear - Hmpdef Hdoy; euclid).
    destruct (Z.eq_dec doy 365) as [H365 | H365].
    + destruct (Hleap H365) as [H4 H100].
      rewrite (is_leap_year_true y).
      * cbn beta iota. subst d. lia.
      * subst y. clear - H4. euclid.
      * destruct H100 as [H100 | H399]; [left | right]; subst y;
          [clear - H100; euclid | clear - H399; euclid].
    + destruct (is_leap_year y); cbn beta iota; subst d; lia.
  - unfold days_from_civil. cbv zeta. rewrite Hy', Hmp'.
    replace ((yoe + era * 400) / 400) with era by (clear - Hyoe; euclid).
    subst d. clear - Hz Hsplit. euclid.
  - rewrite Hera. subst y. destruct (_ <=? 2); lia.
Qed.

Local Close Scope Z_scope.

(* ================================================================= *)
(** ** ISO dates read back *)

Local Open Scope Z_scope.

Lemma read_digits_pad_Z w v rest :
  (1 <= w)%nat -> 0 <= v < 10 ^ Z.of_nat w ->
  read_digits w 0 (pad_digits w (Z.to_N v) ++ rest) = Some (v, rest).
Proof.
  intros Hw Hv. rewrite read_digits_pad; [|exact Hw|].
  - rewrite Z2N.id by lia. reflexivity.
  - apply N2Z.inj_lt. rewrite Z2N.id, N2Z.inj_pow, nat_N_Z by lia. apply Hv.
Qed.

Lemma read_year_text y rest :
  -999999 <= y <= 999999 ->
  read_year (year_text y ++ rest) = Some (y, rest).
Proof.
  intros Hy. unfold year_text.
  destruct ((0 <=? y) && (y <=? 9999)) eqn:Hsmall.
  - apply andb_prop in Hsmall. destruct Hsmall as [H0 H9].
    apply Z.leb_le in H0. apply Z.leb_le in H9.
    destruct (pad_digits_head 4 (Z.to_N y)) as (c & r & Hpad & Hc); [lia | lia |].
    pose proof (read_digits_pad_Z 4 y rest ltac:(lia) ltac:(lia)) as Hread.
    rewrite Hpad in Hread |- *. cbn [List.app]. unfold read_year.
    unfold is_digit in Hc. apply andb_prop in Hc. destruct Hc as [Hc1 Hc2].
    apply N.leb_le in Hc1.
    assert (H43 : (c =? 43)%N = false) by (apply N.eqb_neq; lia).
    assert (H45 : (c =? 45)%N = false) by (apply N.eqb_neq; lia).
    rewrite H43, H45. exact Hread.
  - destruct (y <? 0) eqn:Hneg.
    + apply Z.ltb_lt in Hneg. cbn [List.app]. unfold read_year.
      change ((45 =? 43)%N) with false. change ((45 =? 45)%N) with true. cbn beta iota.
      rewrite (read_digits_pad_Z 6 (Z.abs y) rest) by lia.
      assert (H0 : (Z.abs y =? 0) = false) by (apply Z.eqb_neq; lia).
      rewrite H0. f_equal. f_equal. lia.
    + apply Z.ltb_ge in Hneg. cbn [List.app]. unfold read_year.
      change ((43 =? 43)%N) with true. cbn beta iota.
      rewrite (read_digits_pad_Z 6 (Z.abs y) rest) by lia.
      f_equal. f_equal. lia.
Qed.

(** The text that [toISOString] writes for a time value reads back, by
    [Date.parse], as that time value. *)
Lemma parse_iso_utc_toISOString t :
  Z.abs t <= maxTime -> parse_iso_utc (toISOString_ms t) = Some t.
Proof.
  intros Ht. unfold toISOString_ms.
  destruct (civil_from_days (t / msPerDay)) as [[y m] d] eqn:Hciv.
  destruct (civil_round_trip _ _ _ _ Hciv) as (Hm & Hd & Hdays & Hy).
  set (r := t mod msPerDay).
  assert (Hr : 0 <= r < msPerDay) by (apply Z.mod_pos_bound; reflexivity).
  assert (Hyear : -999999 <= y <= 999999).
  { clear - Ht Hy. unfold maxTime, msPerDay in *. Z.div_mod_to_equations. lia. }
  assert (Hdim : days_in_month y m <= 31).
  { unfold days_in_month.
    destruct (m =? 2); [destruct (is_leap_year y); lia|].
    destruct (_ || _); lia. }
  unfold parse_iso_utc.
  rewrite read_year_text by exact Hyear.
  cbn [List.app expect_char]. change ((45 =? 45)%N) with true. cbn beta iota.
  rewrite (read_digits_pad_Z 2 m) by lia.
  cbn [expect_char]. change ((45 =? 45)%N) with true. cbn beta iota.
  rewrite (read_digits_pad_Z 2 d) by lia.
  cbn [expect_char]. change ((84 =? 84)%N) with true. cbn beta iota.
  unfold msPerDay in Hr.
  rewrite (read_digits_pad_Z 2 (r / 3600000))
    by (try lia; clear - Hr; Z.div_mod_to_equations; lia).
  cbn [expect_char]. change ((58 =? 58)%N) with true. cbn beta iota.
  rewrite (read_digits_pad_Z 2 ((r / 60000) mod 60))
    by (try lia; clear - Hr; Z.div_mod_to_equations; lia).
  cbn [expect_char]. change ((58 =? 58)%N) with true. cbn beta iota.
  rewrite (read_digits_pad_Z 2 ((r / 1000) mod 60))
    by (try lia; clear - Hr; Z.div_mod_to_equations; lia).
  cbn [expect_char]. change ((46 =? 46)%N) with true. cbn beta iota.
  rewrite (read_digits_pad_Z 3 (r mod 1000))
    by (try lia; clear - Hr; Z.div_mod_to_equations; lia).
  change ((90 =? 90)%N) with true.
  assert (Hflags : (1 <=? m) && (m <=? 12) && (1 <=? d) && (d <=? days_in_month y m)
                   && (r / 3600000 <=? 23) && ((r / 60000) mod 60 <=? 59)
                   && ((r / 1000) mod 60 <=? 59) = true).
  { repeat (apply andb_true_intro; split); apply Z.leb_le; try lia;
      clear - Hr; Z.div_mod_to_equations; lia. }
  cbn [andb]. rewrite Hflags.
  assert (Hback : days_from_civil y m d * msPerDay + r / 3600000 * 3600000
                  + (r / 60000) mod 60 * 60000 + (r / 1000) mod 60 * 1000
                  + r mod 1000 = t).
  { rewrite Hdays. subst r. unfold msPerDay. clear. Z.div_mod_to_equations. lia. }
  rewrite Hback. apply Z.leb_le in Ht. rewrite Ht. reflexivity.
Qed.

Local Close Scope Z_scope.

(* ================================================================= *)
(** ** The expiry of a granted token *)

Local Open Scope Z_scope.

Lemma TimeClip_range q t : TimeClip q = Some t -> Z.abs t <= maxTime.
Proof.
  unfold TimeClip. destruct (Z.abs (Qnum q) <=? maxTime * Z.pos (Qden q)) eqn:H;
    [|discriminate].
  intros Ht. injection Ht as <-. apply Z.leb_le in H.
  rewrite <- Z.quot_abs by discriminate. rewrite (Z.abs_eq (Z.pos (Qden q))) by lia.
  apply Z.quot_le_upper_bound; lia.
Qed.

Section Expiry.

Context (E : Engine).

Lemma parseExpiry_toISOString t :
  Z.abs t <= maxTime -> parseExpiry E (VStr (toISOString_ms t)) = Some t.
Proof.
  intros Ht. unfold parseExpiry, new_Date, Date_parse.
  rewrite parse_iso_utc_toISOString by exact Ht. reflexivity.
Qed.

Lemma expiry_from_now_ok expires_in w x w' :
  expiry_from_now E expires_in w = (Ok x, w') ->
  w' = w
  /\ exists n t,
       ToNumber E expires_in = Some n
       /\ TimeClip (inject_Z (clock w) + n * 1000) = Some t
       /\ x = toISOString_ms t.
Proof.
  unfold expiry_from_now, bind, Date_now, gets.
  destruct (ToNumber E expires_in) as [n|]; [|discriminate].
  destruct (TimeClip (inject_Z (clock w) + n * 1000)) as [t|] eqn:Ht; [|discriminate].
  unfold ret. intros H.
  pose proof (f_equal fst H) as Hx. pose proof (f_equal snd H) as Hw.
  cbn [fst snd] in Hx, Hw. injection Hx as Hx.
  split; [symmetry; exact Hw|]. exists n, t. auto.
Qed.

Lemma isTokenExpired_at tok t w :
  parseExpiry E (expiry_date tok) = Some t ->
  isTokenExpired E tok w = (Ok (t <=? clock w), w).
Proof.
  intros H. unfold isTokenExpired, bind, Date_now, gets, ret. rewrite H. reflexivity.
Qed.

Lemma poll_request_expiry deviceCode codeVerifier email w tok w' :
  poll_request E deviceCode codeVerifier email w = (Ok tok, w') ->
  exists expires_in w1 x,
    expiry_from_now E expires_in w1 = (Ok x, w1) /\ expiry_date tok = VStr x.
Proof.
  unfold poll_request, bind.
  destruct (postForm E QWEN_OAUTH_TOKEN_ENDPOINT _ w) as [[response|e] w1];
    [|discriminate].
  repeat match goal with
         | |- context [prop E response ?k ?w0] =>
             let v := fresh "v" in
             unfold prop at 1; destruct (get_prop response k) as [v|];
             [unfold ret at 1 | discriminate]
         end.
  destruct (expiry_from_now E _ w1) as [[x|e] w2] eqn:Hx; [|discriminate].
  destruct (expiry_from_now_ok _ _ _ _ Hx) as [-> _].
  unfold modify, saveTokenToStorage, bind, Date_now, gets, fs_mkdir, fs_writeFile, ret.
  world_simpl.
  destruct (fs_write_error w1); [discriminate|].
  match goal with
  | |- context [JSON_stringify E ?gap ?d] => destruct (JSON_stringify E gap d) as [text|]
  end; [|discriminate].
  world_simpl.
  destruct (fs_write_error w1); [discriminate|].
  intros H. pose proof (f_equal fst H) as Hr. cbn [fst] in Hr. injection Hr as Hr.
  subst tok. eauto.
Qed.

Lemma refresh_request_expiry rt w tok w' :
  refresh_request E rt w = (Ok tok, w') ->
  exists expires_in w1 x,
    expiry_from_now E expires_in w1 = (Ok x, w1) /\ expiry_date tok = VStr x.
Proof.
  unfold refresh_request, bind.
  destruct (postForm E QWEN_OAUTH_TOKEN_ENDPOINT _ w) as [[response|e] w1];
    [|discriminate].
  repeat match goal with
         | |- context [prop E response ?k ?w0] =>
             let v := fresh "v" in
             unfold prop at 1; destruct (get_prop response k) as [v|];
             [unfold ret at 1 | discriminate]
         end.
  destruct (expiry_from_now E _ w1) as [[x|e] w2] eqn:Hx; [|discriminate].
  destruct (expiry_from_now_ok _ _ _ _ Hx) as [-> _].
  unfold modify, saveTokenToStorage, bind, Date_now, gets, fs_mkdir, fs_writeFile, ret.
  world_simpl.
  destruct (fs_write_error w1); [discriminate|].
  match goal with
  | |- context [JSON_stringify E ?gap ?d] => destruct (JSON_stringify E gap d) as [text|]
  end; [|discriminate].
  world_simpl.
  destruct (fs_write_error w1); [discriminate|].
  intros H. pose proof (f_equal fst H) as Hr. cbn [fst] in Hr. injection Hr as Hr.
  subst tok. eauto.
Qed.

Lemma expiry_text_reads_back expires_in w x :
  expiry_from_now E expires_in w = (Ok x, w) ->
  exists t,
    parseExpiry E (VStr x) = Some t
    /\ forall s, expires_in = VNum (inject_Z s) -> t = clock w + s * 1000.
Proof.
  intros H. destruct (expiry_from_now_ok _ _ _ _ H) as (_ & n & t & Hn & Ht & ->).
  exists t. split.
  - apply parseExpiry_toISOString. eapply TimeClip_range. exact Ht.
  - intros s ->. cbn [ToNumber] in Hn. injection Hn as <-.
    rewrite (TimeClip_integer _ (clock w + s * 1000)) in Ht.
    + destruct (Z.abs _ <=? maxTime); [|discriminate]. now injection Ht.
    + rewrite inject_Z_plus, inject_Z_mult. reflexivity.
Qed.


End Expiry.

Local Close Scope Z_scope.

(* ================================================================= *)
(** ** Bounds on requests and sleeps *)

Lemma within_refl w : within 0 0 w w.
Proof. unfold within. lia. Qed.

Lemma within_same w w' :
  timers w' = timers w -> requests w' = requests w -> within 0 0 w w'.
Proof. unfold within, slept. intros -> ->. lia. Qed.

Lemma within_trans a n b m w1 w2 w3 :
  within a n w1 w2 -> within b m w2 w3 -> within (a + b) (n + m) w1 w3.
Proof. unfold within. lia. Qed.

Lemma within_weaken a n b m w w' :
  (a <= b)%Z -> (n <= m)%nat -> within a n w w' -> within b m w w'.
Proof. unfold within. lia. Qed.

Lemma within_sleep ms w : within (Z.max 0 ms) 0 w (snd (sleep ms w)).
Proof.
  unfold within, slept, sleep, modify. world_simpl.
  rewrite fold_right_app. cbn [fold_right].
  assert (H : forall l a, fold_right Z.add a l = (fold_right Z.add 0%Z l + a)%Z).
  { induction l as [|x l IH]; intros a; cbn [fold_right]; [lia|]. rewrite IH. lia. }
  rewrite (H (timers w)). lia.
Qed.

Lemma retry_budget_nonneg delay : forall k a, (0 <= retry_budget delay k a)%Z.
Proof.
  induction k as [|k IH]; intros a; cbn [retry_budget]; [lia|].
  destruct k; [lia|]. specialize (IH (a + 1)%Z). lia.
Qed.

Lemma withRetry_loop_within T (fn : M T) retries delay :
  (forall w r w1, fn w = (r, w1) -> within 0 1 w w1) ->
  forall n attempt lastError w r w',
    (Z.of_nat n = Z.max 0 (retries - attempt + 1))%Z ->
    withRetry_loop fn retries delay n attempt lastError w = (r, w') ->
    within (retry_budget delay n attempt) n w w'.
Proof.
  intros Hfn. induction n as [|n IH]; intros attempt lastError w r w' Hn H.
  - cbn in H. unfold throw in H.
    pose proof (f_equal snd H) as Hw. cbn [snd] in Hw. subst w'. apply within_refl.
  - cbn [withRetry_loop] in H.
    pose proof (retry_budget_nonneg delay (S n) attempt) as Hbudget.
    destruct (fn w) as [[v|e] w1] eqn:Hrun; pose proof (Hfn _ _ _ Hrun) as Hstep.
    + pose proof (f_equal snd H) as Hw. cbn [snd] in Hw. subst w'.
      eapply within_weaken; [| |exact Hstep]; lia.
    + destruct (status_is e 401 || status_is e 403 || status_is e 400).
      * pose proof (f_equal snd H) as Hw. cbn [snd] in Hw. subst w'.
        eapply within_weaken; [| |exact Hstep]; lia.
      * destruct n as [|n].
        -- cbn in H. unfold throw in H.
           assert (Hlast : (attempt <? retries)%Z = false) by (apply Z.ltb_ge; lia).
           rewrite Hlast in H.
           pose proof (f_equal snd H) as Hw. cbn [snd] in Hw. subst w'.
           eapply within_weaken; [| |exact Hstep]; lia.
        -- assert (Hlt : (attempt <? retries)%Z = true) by (apply Z.ltb_lt; lia).
           rewrite Hlt in H.
           apply IH in H; [|lia].
           change (retry_budget delay (S (S n)) attempt)
             with (Z.max 0 (delay * attempt)
                   + retry_budget delay (S n) (attempt + 1))%Z.
           pose proof (within_sleep (delay * attempt) w1) as Hsleep.
           revert Hstep Hsleep H. unfold within. lia.
Qed.

Section Bounds.

Context (E : Engine).

Lemma fetchWithTimeout_within req w r w' :
  fetchWithTimeout E req w = (r, w') ->
  within 0 1 w w' /\ currentToken w' = currentToken w
  /\ file w' = file w /\ fs_write_error w' = fs_write_error w.
Proof.
  unfold fetchWithTimeout.
  destruct (server w (List.length (requests w)) req) as [latency outcome].
  destruct (requestTimeoutMs <=? Z.of_N latency)%Z eqn:Hl.
  - intros H. inversion H; subst. unfold within, slept. world_simpl.
    rewrite length_app. cbn [List.length]. repeat split; lia.
  - apply Z.leb_gt in Hl.
    destruct outcome as [e|response]; intros H; inversion H; subst;
      unfold within, slept; world_simpl; rewrite length_app; cbn [List.length];
      repeat split; lia.
Qed.

Lemma postForm_within url params w r w' :
  postForm E url params w = (r, w') -> within 0 1 w w'.
Proof.
  unfold postForm, bind.
  destruct (fetchWithTimeout E _ w) as [[response|e] w1] eqn:Hfetch;
    apply fetchWithTimeout_within in Hfetch; destruct Hfetch as [Hin _].
  - unfold response_json, JSON_parse_or_throw, throw, ret.
    destruct (negb (resp_ok response)); [|destruct (JSON_parse (resp_body response))];
      intros H; inversion H; subst; exact Hin.
  - intros H. inversion H; subst. exact Hin.
Qed.

Lemma saveTokenToStorage_within tok email w r w' :
  saveTokenToStorage E tok email w = (r, w') -> within 0 0 w w'.
Proof.
  unfold saveTokenToStorage, bind, Date_now, gets, fs_mkdir, fs_writeFile, throw.
  destruct (fs_write_error w) eqn:Hw.
  { intros H. inversion H; subst. apply within_refl. }
  destruct (JSON_stringify E _ _); rewrite ?Hw; intros H; inversion H; subst;
    unfold within, slept; world_simpl; lia.
Qed.

Lemma expiry_from_now_pure expires_in w r w' :
  expiry_from_now E expires_in w = (r, w') -> w' = w.
Proof.
  unfold expiry_from_now, bind, Date_now, gets, throw, ret.
  destruct (ToNumber E expires_in); [destruct (TimeClip _)|];
    intros H; inversion H; reflexivity.
Qed.

Lemma refresh_request_within rt w r w' :
  refresh_request E rt w = (r, w') -> within 0 1 w w'.
Proof.
  unfold refresh_request, bind.
  destruct (postForm E QWEN_OAUTH_TOKEN_ENDPOINT _ w) as [[response|e] w1] eqn:Hpost;
    apply postForm_within in Hpost.
  2: { intros H. inversion H; subst. exact Hpost. }
  repeat match goal with
         | |- context [prop E response ?key ?w0] =>
             let v := fresh "v" in
             unfold prop at 1; destruct (get_prop response key) as [v|];
             [unfold ret at 1
             | unfold throw; intros H; inversion H; subst; exact Hpost]
         end.
  destruct (expiry_from_now E _ w1) as [[x|e] w2] eqn:Hx;
    apply expiry_from_now_pure in Hx; subst w2.
  2: { intros H. inversion H; subst. exact Hpost. }
  unfold modify, gets, ret. world_simpl.
  match goal with
  | |- context [saveTokenToStorage E ?tok ?email ?w0] =>
      destruct (saveTokenToStorage E tok email w0) as [[u|e] w3] eqn:Hsave;
      apply saveTokenToStorage_within in Hsave
  end; intros H; inversion H; subst;
    revert Hpost Hsave; unfold within, slept; world_simpl; lia.
Qed.

Lemma device_code_request_within w r w' :
  device_code_request E w = (r, w') -> within 0 1 w w'.
Proof.
  unfold device_code_request, generateCodeVerifier, randomBytes, bind.
  unfold ret at 1. cbn beta iota.
  destruct (postForm E QWEN_OAUTH_DEVICE_CODE_ENDPOINT _ _) as [[deviceFlow|e] w1] eqn:Hpost;
    apply postForm_within in Hpost.
  2: { intros H. inversion H; subst. exact Hpost. }
  unfold prop, throw, ret, set_code_verifier.
  destruct deviceFlow as [| | | | | |m]; cbn [get_prop];
    try (intros H; inversion H; subst; exact Hpost);
    try (destruct (_ || _); intros H; inversion H; subst; exact Hpost).
Qed.

Lemma chat_request_within options w r w' :
  chat_request E options w = (r, w') -> within 0 1 w w'.
Proof.
  unfold chat_request, bind, gets.
  pose proof (buildBaseUrl_pure E
                match currentToken w with
                | Some t => resource_url t
                | None => VUndefined
                end w) as Hpure.
  assert (Hsame : within 0 1 w w) by (unfold within; lia).
  destruct (buildBaseUrl E _ w) as [[baseUrl|e] w1]; cbn [snd] in Hpure; subst w1.
  2: { intros H. inversion H; subst. exact Hsame. }
  unfold prop. destruct (get_prop options (js "stream")) as [stream|].
  2: { unfold throw. intros H. inversion H; subst. exact Hsame. }
  unfold ret at 1. unfold buildQwenHeaders, bind, gets, ret at 1.
  destruct (fetchWithTimeout E _ w) as [[response|e] w1] eqn:Hfetch;
    apply fetchWithTimeout_within in Hfetch; destruct Hfetch as [Hin _].
  2: { intros H. inversion H; subst. exact Hin. }
  unfold response_json, JSON_parse_or_throw, throw, ret, bind.
  destruct (truthy stream), (negb (resp_ok response));
    try destruct (JSON_parse (resp_body response));
    intros H; inversion H; subst; exact Hin.
Qed.

Lemma loadTokenFromStorage_within w r w' :
  loadTokenFromStorage E w = (r, w') -> within 0 0 w w'.
Proof.
  unfold loadTokenFromStorage, try_catch, bind, fs_existsSync, gets, modify,
    console_warn, ret, prop, throw.
  destruct (file w) as [text|] eqn:Hfile.
  2: { intros H. inversion H; subst. apply within_refl. }
  unfold fs_readFile. rewrite Hfile.
  destruct (fs_read_error w) as [e|].
  { intros H. inversion H; subst. apply within_same; reflexivity. }
  unfold JSON_parse_or_throw, throw, ret.
  destruct (JSON_parse text) as [v|].
  2: { intros H. inversion H; subst. apply within_same; reflexivity. }
  destruct v; cbn [get_prop]; intros H; inversion H; subst;
    apply within_same; reflexivity.
Qed.

Lemma withRetry_default_within T (fn : M T) w r w' :
  (forall w0 r0 w1, fn w0 = (r0, w1) -> within 0 1 w0 w1) ->
  withRetry fn MAX_RETRIES RETRY_DELAY_MS w = (r, w') ->
  within 20000 5 w w'.
Proof.
  intros Hfn H. unfold withRetry in H.
  apply (withRetry_loop_within _ fn MAX_RETRIES RETRY_DELAY_MS Hfn) in H;
    [exact H | reflexivity].
Qed.

Lemma refreshToken_within rt w r w' :
  refreshToken E rt w = (r, w') -> within 20000 5 w w'.
Proof. apply withRetry_default_within. apply refresh_request_within. Qed.

Lemma sendRequest_within options w r w' :
  sendRequest E options w = (r, w') -> within 40000 10 w w'.
Proof.
  unfold sendRequest, bind, gets.
  assert (Hrest : forall token w0 r0 w1,
             within 0 0 w w0 ->
             (expired <- isTokenExpired E token ;;
              (if expired && truthy (refresh_token token)
               then refreshToken E (refresh_token token) ;;; ret tt
               else ret tt) ;;;
              withRetry (chat_request E options) MAX_RETRIES RETRY_DELAY_MS)%js w0
             = (r0, w1) ->
             within 40000 10 w w1).
  { intros token w0 r0 w1 Hw0. unfold isTokenExpired, bind, Date_now, gets, ret at 1.
    destruct (_ && truthy (refresh_token token)).
    - destruct (refreshToken E (refresh_token token) w0) as [[tok|e] w2] eqn:Href;
        apply refreshToken_within in Href.
      + unfold ret at 1. intros H.
        apply withRetry_default_within in H; [|apply chat_request_within].
        revert Hw0 Href H. unfold within. lia.
      + intros H. inversion H; subst. revert Hw0 Href. unfold within. lia.
    - unfold ret at 1. intros H.
      apply withRetry_default_within in H; [|apply chat_request_within].
      revert Hw0 H. unfold within. lia. }
  destruct (currentToken w) as [token|].
  + unfold ret at 1. apply Hrest. apply within_refl.
  + destruct (loadTokenFromStorage E w) as [[loaded|e] w0] eqn:Hload;
      apply loadTokenFromStorage_within in Hload.
    * destruct (currentToken w0) as [token|].
      -- unfold ret at 1. apply Hrest. exact Hload.
      -- unfold throw. intros H. inversion H; subst.
         revert Hload. unfold within. lia.
    * intros H. inversion H; subst. revert Hload. unfold within. lia.
Qed.

(** X21. Every call of the SDK that goes through [withRetry] is bounded in the
    requests that it issues and in the time that it sleeps: there are five
    attempts at most, each of one request, and 2 + 4 + 6 + 8 seconds of sleep
    between them.  So [initiateDeviceFlow] and [refreshToken] issue 5
    requests at most and sleep 20 seconds at most, and [sendRequest] (a
    refresh, then the chat request) 10 requests and 40 seconds.  How long
    the requests themselves take is not bounded here: the timer of a request
    stops when the headers arrive. *)
Theorem sdk_calls_end_within_bounds :
  (forall w r w', initiateDeviceFlow E w = (r, w') -> within 20000 5 w w')
  /\ (forall rt w r w', refreshToken E rt w = (r, w') -> within 20000 5 w w')
  /\ (forall options w r w',
         sendRequest E options w = (r, w') -> within 40000 10 w w').
Proof.
  split; [|split].
  - intros w r w'. apply withRetry_default_within. apply device_code_request_within.
  - exact refreshToken_within.
  - exact sendRequest_within.
Qed.

End Bounds.

(* ================================================================= *)
(** ** Requests that are not answered *)

Section Timeouts.

Context (E : Engine).

Lemma refresh_request_timeout rt w :
  never_in_time (server w) ->
  refresh_request E rt w
  = (Throw (engine_error E Timeout_AbortError),
     advance requestTimeoutMs (log_request (refresh_form E rt) w)).
Proof.
  intros Hsrv. unfold refresh_request, postForm, bind.
  change (form_request QWEN_OAUTH_TOKEN_ENDPOINT _) with (refresh_form E rt).
  unfold fetchWithTimeout.
  specialize (Hsrv (List.length (requests w)) (refresh_form E rt)).
  destruct (server w (List.length (requests w)) (refresh_form E rt)) as [latency outcome].
  cbn [fst] in Hsrv. apply Z.leb_le in Hsrv. rewrite Hsrv. reflexivity.
Qed.

Lemma refresh_requests_all_time_out rt delay retries :
  (0 <= delay)%Z ->
  forall n attempt lastError w,
    never_in_time (server w) ->
    (0 <= attempt)%Z ->
    (Z.of_nat (S n) = retries - attempt + 1)%Z ->
    exists w',
      withRetry_loop (refresh_request E rt) retries delay (S n) attempt lastError w
      = (Throw (engine_error E Timeout_AbortError), w')
      /\ requests w' = requests w ++ repeat (refresh_form E rt) (S n)
      /\ timers w'
         = timers w ++ map (fun j => (delay * (attempt + Z.of_nat j))%Z) (seq 0 n)
      /\ clock w'
         = (clock w + requestTimeoutMs * Z.of_nat (S n)
            + fold_right Z.add 0
                (map (fun j => (delay * (attempt + Z.of_nat j))%Z) (seq 0 n)))%Z
      /\ currentToken w' = currentToken w /\ file w' = file w.
Proof.
  intros Hdelay.
  induction n as [|n IH]; intros attempt lastError w Hsrv Hattempt Hn.
  - eexists. split.
    + apply withRetry_loop_exhausted;
        [now apply refresh_request_timeout | apply no_status_retryable; reflexivity | lia].
    + world_simpl. cbn [repeat seq map fold_right]. rewrite app_nil_r.
      unfold requestTimeoutMs. repeat split; lia.
  - rewrite (withRetry_loop_retry _ _ _ _ _ _ _ _ _ _
               (refresh_request_timeout rt w Hsrv)
               (no_status_retryable (engine_error E Timeout_AbortError) eq_refl))
      by lia.
    match goal with
    | |- context [withRetry_loop _ _ _ _ _ _ ?w1] =>
        destruct (IH (attempt + 1)%Z (Some (engine_error E Timeout_AbortError)) w1)
          as (w' & Hloop & Hreq & Htim & Hclock & Htok & Hfile)
    end.
    + exact Hsrv.
    + lia.
    + lia.
    + exists w'. split; [exact Hloop|].
      revert Hreq Htim Hclock Htok Hfile. unfold sleep, modify. world_simpl.
      intros Hreq Htim Hclock Htok Hfile.
      split; [rewrite Hreq, <- app_assoc; reflexivity|].
      assert (Hshift : map (fun j => (delay * (attempt + 1 + Z.of_nat j))%Z) (seq 0 n)
                       = map (fun j => (delay * (attempt + Z.of_nat j))%Z) (seq 1 n)).
      { rewrite <- seq_shift, map_map. apply map_ext. intros j. f_equal. lia. }
      split.
      { rewrite Htim, <- app_assoc, Hshift. cbn [seq map app]. rewrite Z.add_0_r.
        reflexivity. }
      split; [|split; assumption].
      rewrite Hclock, Hshift. cbn [seq map fold_right]. rewrite Z.add_0_r.
      unfold requestTimeoutMs. nia.
Qed.

(** X22. What a call costs when nothing is answered: against a server that
    answers no request within the 120 seconds, [refreshToken]
    makes its five attempts, each aborted after 120 seconds, sleeps 2, 4, 6
    and 8 seconds in between, and fails with the AbortError after exactly
    620 seconds; the token held and the file stay as they were. *)
Theorem refreshToken_unanswered_takes_620_seconds :
  forall (rt : JsVal) (w : World),
    never_in_time (server w) ->
    exists w',
      refreshToken E rt w = (Throw (engine_error E Timeout_AbortError), w')
      /\ requests w' = requests w ++ repeat (refresh_form E rt) 5
      /\ timers w' = timers w ++ [2000; 4000; 6000; 8000]%Z
      /\ clock w' = (clock w + 620000)%Z
      /\ currentToken w' = currentToken w
      /\ file w' = file w.
Proof.
  intros rt w Hsrv. unfold refreshToken, withRetry.
  change (Z.to_nat MAX_RETRIES) with 5%nat.
  destruct (refresh_requests_all_time_out rt RETRY_DELAY_MS MAX_RETRIES
              ltac:(unfold RETRY_DELAY_MS; lia) 4 1%Z None w Hsrv
              ltac:(lia) eq_refl)
    as (w' & Hloop & Hreq & Htim & Hclock & Htok & Hfile).
  exists w'. split; [exact Hloop|]. split; [exact Hreq|]. split; [exact Htim|].
  split; [|split; assumption].
  rewrite Hclock. cbn [seq map fold_right]. unfold requestTimeoutMs, RETRY_DELAY_MS. lia.
Qed.

End Timeouts.

(* ================================================================= *)
(** ** The invoice tool: Markdown fences *)

Lemma at_json_fence_head c r : c <> 96 -> at_json_fence (c :: r) = false.
Proof.
  intros Hc. apply N.eqb_neq in Hc. unfold at_json_fence.
  destruct r as [|x1 [|x2 [|x3 [|x4 [|x5 [|x6 r]]]]]]; try reflexivity.
  rewrite Hc. reflexivity.
Qed.

Lemma at_fence_head c r : c <> 96 -> at_fence (c :: r) = false.
Proof.
  intros Hc. apply N.eqb_neq in Hc. unfold at_fence.
  destruct r as [|x1 [|x2 r]]; try reflexivity.
  rewrite Hc. reflexivity.
Qed.

Lemma remove_all_clean found width :
  (forall c r, c <> 96 -> found (c :: r) = false) ->
  forall pre s,
    backtick_free pre = true ->
    remove_all found width 0 (pre ++ s) = pre ++ remove_all found width 0 s.
Proof.
  intros Hfound. induction pre as [|c pre IH]; intros s Hpre; [reflexivity|].
  cbn [backtick_free forallb] in Hpre. apply andb_prop in Hpre as [Hc Hpre].
  apply negb_true_iff, N.eqb_neq in Hc.
  cbn [app remove_all]. rewrite Hfound by exact Hc.
  f_equal. apply IH. exact Hpre.
Qed.

Lemma remove_all_clean_all found width s :
  (forall c r, c <> 96 -> found (c :: r) = false) ->
  backtick_free s = true ->
  remove_all found width 0 s = s.
Proof.
  intros Hfound Hs.
  rewrite <- (app_nil_r s) at 1. rewrite (remove_all_clean _ _ Hfound _ _ Hs).
  cbn [remove_all]. apply app_nil_r.
Qed.

Lemma remove_all_skip found width p s :
  remove_all found width (List.length p) (p ++ s) = remove_all found width 0 s.
Proof.
  induction p as [|c p IH]; [reflexivity|]. cbn [List.length app remove_all]. exact IH.
Qed.

Lemma at_json_fence_app opening rest :
  at_json_fence opening = true -> at_json_fence (opening ++ rest) = true.
Proof.
  destruct opening as [|x0 [|x1 [|x2 [|x3 [|x4 [|x5 [|x6 r]]]]]]]; try discriminate.
  intros H. exact H.
Qed.

Lemma backtick_free_app s t :
  backtick_free (s ++ t) = backtick_free s && backtick_free t.
Proof. apply forallb_app. Qed.

(** The closing fence in the first pass: it is not a [```json]. *)
Lemma closing_fence_first_pass post :
  backtick_free post = true ->
  at_json_fence (96 :: 96 :: 96 :: post) = false ->
  remove_all at_json_fence 7 0 (96 :: 96 :: 96 :: post) = 96 :: 96 :: 96 :: post.
Proof.
  intros Hpost Hno.
  assert (Hhead : forall x r, backtick_free r = true ->
                              at_json_fence (x :: 96 :: r) = false
                              \/ r = [] \/ exists c r', r = c :: r' /\ c <> 96).
  { intros x r Hr. destruct r as [|c r']; [auto|].
    right. right. exists c, r'. split; [reflexivity|].
    cbn [backtick_free forallb] in Hr. apply andb_prop in Hr as [Hc _].
    now apply negb_true_iff, N.eqb_neq in Hc. }
  cbn [remove_all]. rewrite Hno. cbn [Nat.sub]. f_equal.
  assert (H2 : at_json_fence (96 :: 96 :: post) = false).
  { destruct post as [|c post]; [reflexivity|].
    cbn [backtick_free forallb] in Hpost. apply andb_prop in Hpost as [Hc _].
    apply negb_true_iff in Hc. unfold at_json_fence.
    destruct post as [|x1 [|x2 [|x3 [|x4 r]]]]; try reflexivity.
    rewrite Hc. cbn. reflexivity. }
  rewrite H2. f_equal.
  assert (H1 : at_json_fence (96 :: post) = false).
  { destruct post as [|c post]; [reflexivity|].
    cbn [backtick_free forallb] in Hpost. apply andb_prop in Hpost as [Hc _].
    apply negb_true_iff in Hc. unfold at_json_fence.
    destruct post as [|x1 [|x2 [|x3 [|x4 [|x5 r]]]]]; try reflexivity.
    rewrite Hc. cbn. reflexivity. }
  rewrite H1. f_equal.
  apply remove_all_clean_all; [exact at_json_fence_head | exact Hpost].
Qed.

(** X23. An answer in a Markdown fence is unwrapped: when the text before the
    fence, between the fences and after them has no backtick, and the
    closing fence is not itself followed by the letters json,
    [stripJsonFences] gives the three texts joined and trimmed.  The
    opening [```json] is matched in any case of its letters; text around
    the fences is kept, not dropped. *)
Theorem stripJsonFences_unwraps_the_fence :
  forall pre opening body post : jsstring,
    backtick_free pre = true ->
    backtick_free body = true ->
    backtick_free post = true ->
    at_json_fence opening = true ->
    List.length opening = 7%nat ->
    at_json_fence (js "```" ++ post) = false ->
    stripJsonFences (pre ++ opening ++ body ++ js "```" ++ post)
    = trim (pre ++ body ++ post).
Proof.
  intros pre opening body post Hpre Hbody Hpost Hopen Hlen Hclose.
  change (js "```") with [96; 96; 96] in *. cbn [app] in Hclose |- *.
  unfold stripJsonFences. f_equal.
  assert (Hfirst : remove_all at_json_fence 7 0
                     (opening ++ body ++ 96 :: 96 :: 96 :: post)
                   = body ++ 96 :: 96 :: 96 :: post).
  { pose proof (at_json_fence_app _ (body ++ 96 :: 96 :: 96 :: post) Hopen) as Hat.
    pose proof (remove_all_skip at_json_fence 7 (tl opening)
                  (body ++ 96 :: 96 :: 96 :: post)) as Hskip.
    destruct opening as [|x0 opening]; [discriminate|].
    cbn [List.length] in Hlen. injection Hlen as Hlen.
    cbn [tl] in Hskip. rewrite Hlen in Hskip.
    cbn [app] in Hat |- *. cbn [remove_all]. rewrite Hat. cbn [Nat.sub].
    rewrite Hskip.
    rewrite remove_all_clean by (exact at_json_fence_head || exact Hbody).
    now rewrite closing_fence_first_pass. }
  rewrite remove_all_clean by (exact at_json_fence_head || exact Hpre).
  rewrite remove_all_clean by (exact at_fence_head || exact Hpre). f_equal.
  etransitivity; [apply f_equal; exact Hfirst|].
  rewrite remove_all_clean by (exact at_fence_head || exact Hbody). f_equal.
  cbn [app remove_all at_fence N.eqb Pos.eqb andb Nat.sub].
  apply remove_all_clean_all; [exact at_fence_head | exact Hpost].
Qed.

(** What the second pass leaves has no three backticks in a row. *)
Lemma remove_fences_no_fence :
  forall s skip n, at_fence (skipn n (remove_all at_fence 3 skip s)) = false.
Proof.
  assert (Hcons : forall c out,
             at_fence (c :: out) = false ->
             (forall n, at_fence (skipn n out) = false) ->
             forall n, at_fence (skipn n (c :: out)) = false).
  { intros c out H0 H [|n]; [exact H0 | exact (H n)]. }
  unfold code_unit in *.
  induction s as [|c r IH]; intros skip n.
  - cbn [remove_all]. destruct n; reflexivity.
  - cbn [remove_all]. destruct skip as [|k]; [|apply IH].
    destruct (at_fence (c :: r)) eqn:Hf; [apply IH|].
    apply Hcons; [|intros m; apply IH].
    destruct (N.eq_dec c 96) as [->|Hc]; [|now apply at_fence_head].
    (* a backtick that does not start a fence *)
    destruct r as [|c1 r1]; [reflexivity|].
    destruct (N.eq_dec c1 96) as [->|Hc1].
    + destruct r1 as [|c2 r2]; [reflexivity|].
      assert (Hc2 : c2 <> 96).
      { intros ->. discriminate Hf. }
      cbn [remove_all].
      match goal with
      | |- context [if at_fence ?l then _ else 96 :: _] =>
          replace (at_fence l) with false
      end.
      2:{ symmetry. unfold at_fence. destruct r2; [reflexivity|].
          apply N.eqb_neq in Hc2. rewrite Hc2. reflexivity. }
      unfold at_fence at 1. apply N.eqb_neq in Hc2.
      destruct (match at_fence (c2 :: r2) with true => _ | false => _ end) eqn:Hout.
      * reflexivity.
      * rewrite at_fence_head in Hout by (now apply N.eqb_neq).
        injection Hout as <- _. rewrite Hc2. cbn. reflexivity.
    + cbn [remove_all]. rewrite (at_fence_head c1) by exact Hc1.
      apply N.eqb_neq in Hc1. unfold at_fence at 1. rewrite Hc1.
      destruct (remove_all at_fence 3 0 r1); reflexivity.
Qed.

Lemma at_fence_prefix s t : at_fence s = true -> at_fence (s ++ t) = true.
Proof.
  destruct s as [|x0 [|x1 [|x2 r]]]; try discriminate. intros H; exact H.
Qed.

Lemma no_fence_suffix pre s :
  (forall n, at_fence (skipn n (pre ++ s)) = false) ->
  forall n, at_fence (skipn n s) = false.
Proof.
  intros H n. specialize (H (List.length pre + n)%nat).
  rewrite skipn_app in H.
  replace (List.length pre + n - List.length pre)%nat with n in H by lia.
  rewrite skipn_all2 in H by lia. exact H.
Qed.

Lemma no_fence_prefix s post :
  (forall n, at_fence (skipn n (s ++ post)) = false) ->
  forall n, at_fence (skipn n s) = false.
Proof.
  intros H n. specialize (H n). rewrite skipn_app in H.
  destruct (at_fence (skipn n s)) eqn:Hf; [|reflexivity].
  rewrite (at_fence_prefix _ _ Hf) in H. discriminate.
Qed.

Lemma trimEnd_prefix s :
  exists post, s = trimEnd s ++ post /\ forallb is_js_whitespace post = true.
Proof.
  unfold trimEnd. destruct (trimStart_suffix (rev s)) as (pre & Hs & Hpre).
  exists (rev pre). split.
  - rewrite <- rev_app_distr, <- Hs. symmetry. apply rev_involutive.
  - apply forallb_forall. intros x Hx. apply in_rev in Hx.
    rewrite forallb_forall in Hpre. now apply Hpre.
Qed.

Lemma trim_no_fence s :
  (forall n, at_fence (skipn n s) = false) ->
  forall n, at_fence (skipn n (trim s)) = false.
Proof.
  intros H. unfold trim.
  destruct (trimStart_suffix s) as (pre & Hs & _).
  destruct (trimEnd_prefix (trimStart s)) as (post & Ht & _).
  apply (no_fence_prefix _ post). rewrite <- Ht.
  apply (no_fence_suffix pre). rewrite <- Hs. exact H.
Qed.

(** X24. What [stripJsonFences] returns never holds three backticks in a row,
    whatever the text: every fence goes, the ones inside the JSON text (in
    a string value, say) included.  A text without a backtick is only
    trimmed. *)
Theorem stripJsonFences_leaves_no_fence :
  (forall (text : jsstring) (n : nat),
      at_fence (skipn n (stripJsonFences text)) = false)
  /\ (forall text : jsstring,
         backtick_free text = true -> stripJsonFences text = trim text).
Proof.
  split.
  - intros text. unfold stripJsonFences. apply trim_no_fence.
    apply remove_fences_no_fence.
  - intros text Hfree. unfold stripJsonFences.
    rewrite (remove_all_clean_all _ _ _ at_json_fence_head Hfree).
    rewrite (remove_all_clean_all _ _ _ at_fence_head Hfree). reflexivity.
Qed.

(* ================================================================= *)
(** ** The invoice tool: the recognition of one invoice *)

Section InvoiceTool.

Context (E : Engine).

Lemma invoice_request_answered dataUrl w tok baseUrl latency r v :
  invoice_answered E dataUrl w tok baseUrl latency r v ->
  sendRequest E (VObj (invoice_options dataUrl)) w
  = (Ok (JsonBody v),
     answered (chat_post E tok baseUrl (VObj (invoice_options dataUrl))) latency w).
Proof.
  intros (Hcur & Hdue & Hbase & Hs & Hl & Hok & Hparse).
  rewrite (sendRequest_no_refresh E _ w tok Hcur Hdue).
  pose proof (chat_request_answered E (invoice_options dataUrl) w tok baseUrl latency r
                Hcur Hbase Hs Hl Hok) as Hrun.
  change (truthy (lookup (js "stream") (invoice_options dataUrl))) with false in Hrun.
  cbv iota in Hrun. rewrite Hparse in Hrun.
  unfold withRetry. change (Z.to_nat MAX_RETRIES) with 5%nat.
  now apply withRetry_loop_ok.
Qed.

Lemma finish_invoice textContent w :
  match textContent with
  | [] => throw (new_Error (js "Model returned empty content."))
  | _ :: _ => parseInvoiceJson E textContent
  end w
  = (invoice_of_text E textContent, w).
Proof.
  destruct textContent as [|c t]; [reflexivity|].
  unfold parseInvoiceJson, JSON_parse_or_throw, invoice_of_text.
  destruct (JSON_parse (stripJsonFences (c :: t))); reflexivity.
Qed.

Lemma part_texts_total parts w :
  existsb nullish parts = false ->
  part_texts E parts w = (Ok (map text_of_part parts), w).
Proof.
  induction parts as [|part rest IH]; intros Hparts; [reflexivity|].
  cbn [existsb] in Hparts. apply orb_false_elim in Hparts as [Hpart Hrest].
  cbn [part_texts map]. unfold bind, prop, text_of_part, get_prop_opt.
  destruct part; try discriminate Hpart;
    cbn [get_prop]; unfold ret at 1;
    try (cbn [strict_eq_string]; unfold ret at 1; rewrite (IH Hrest); reflexivity).
  destruct (strict_eq_string _ _); unfold ret at 1; rewrite (IH Hrest); reflexivity.
Qed.

Lemma part_texts_nullish parts w :
  existsb nullish parts = true ->
  part_texts E parts w = (Throw (engine_error E Nullish_TypeError), w).
Proof.
  induction parts as [|part rest IH]; intros Hparts; [discriminate|].
  cbn [existsb] in Hparts. cbn [part_texts]. unfold bind at 1, prop at 1.
  destruct part; cbn [nullish orb] in Hparts; try reflexivity;
    cbn [get_prop]; unfold ret at 1; unfold bind at 1;
    try (cbn [strict_eq_string]; unfold ret at 1; unfold bind;
         rewrite (IH Hparts); reflexivity).
  unfold prop. cbn [get_prop].
  destruct (strict_eq_string _ _); unfold ret at 1; unfold bind;
    rewrite (IH Hparts); reflexivity.
Qed.

(** X25. What [extractSingleInvoice] makes of a 2xx answer: it reads the content
    of the message of the first choice only.  A string is trimmed, stripped
    of its fences and parsed.  Of an array, the [text] of the parts whose
    [type] is the string text are joined without a separator, in their
    order, the other parts count as empty, and the result is treated as a
    string is; a part that is [null] makes the call fail with the TypeError
    of the engine.  Any other answer (no choices, a content that is
    missing, [null], a number or an object) is the error Model returned
    empty content, as a blank text is.  In each case one request has been
    issued: neither the empty answer nor the text that does not parse is
    asked for again. *)
Theorem extractSingleInvoice_reads_the_first_choice :
  forall (dataUrl : jsstring) (w : World) (tok : QwenTokenData) (baseUrl : jsstring)
         (latency : N) (r : Response) (v : JsVal),
    invoice_answered E dataUrl w tok baseUrl latency r v ->
    extractSingleInvoice E dataUrl w
    = (match response_content v with
       | VStr s => invoice_of_text E (trim s)
       | VArr parts =>
           if existsb nullish parts
           then Throw (engine_error E Nullish_TypeError)
           else invoice_of_text E (trim (join_texts E (map text_of_part parts)))
       | _ => Throw (new_Error (js "Model returned empty content."))
       end,
       answered (chat_post E tok baseUrl (VObj (invoice_options dataUrl))) latency w).
Proof.
  intros dataUrl w tok baseUrl latency r v Hanswered.
  pose proof (invoice_request_answered _ _ _ _ _ _ _ Hanswered) as Hsend.
  unfold extractSingleInvoice. unfold bind at 1. rewrite Hsend.
  destruct (response_content v) as [| |b|q|s|parts|m] eqn:Hcontent;
    unfold bind, ret at 1; try reflexivity.
  - apply finish_invoice.
  - destruct (existsb nullish parts) eqn:Hparts.
    + rewrite (part_texts_nullish _ _ Hparts). reflexivity.
    + rewrite (part_texts_total _ _ Hparts). cbv beta iota.
      rewrite finish_invoice. reflexivity.
Qed.

End InvoiceTool.

(* ================================================================= *)
(** ** The invoice tool: the page pattern *)

Lemma after_digits_suffix s : forall seen t,
  after_digits seen s = Some t -> exists p, s = p ++ t.
Proof.
  induction s as [|c r IH]; intros seen t H; cbn [after_digits] in H.
  - destruct seen; [|discriminate]. injection H as <-. exists []. reflexivity.
  - destruct (is_digit c).
    + destruct (IH _ _ H) as (p & ->). exists (c :: p). reflexivity.
    + destruct seen; [|discriminate]. injection H as <-. exists []. reflexivity.
Qed.

Lemma is_page_suffix_dot s : is_page_suffix s = true -> In 46 s.
Proof.
  unfold is_page_suffix. destruct s as [|c r]; [discriminate|].
  destruct (N.eq_dec c 45) as [->|Hc].
  2:{ destruct c as [|p]; [discriminate|].
      do 6 (destruct p as [p|p|]; try discriminate). now contradict Hc. }
  destruct (after_digits false r) as [t|] eqn:Hd; [|discriminate].
  destruct (after_digits_suffix _ _ _ Hd) as (p & ->).
  destruct t as [|d t]; [discriminate|].
  destruct (N.eq_dec d 46) as [->|Hd46].
  - intros _. right. apply in_or_app. right. left. reflexivity.
  - destruct d as [|q]; [discriminate|].
    do 6 (destruct q as [q|q|]; try discriminate). now contradict Hd46.
Qed.

Lemma after_digits_run digits rest seen :
  forallb is_digit digits = true ->
  (seen = true \/ digits <> []) ->
  match rest with c :: _ => is_digit c = false | [] => True end ->
  after_digits seen (digits ++ rest) = Some rest.
Proof.
  revert seen. induction digits as [|d digits IH]; intros seen Hd Hseen Hrest.
  - destruct Hseen as [->|Hne]; [|contradiction].
    cbn [app]. destruct rest as [|c r]; [reflexivity|].
    cbn [after_digits]. rewrite Hrest. reflexivity.
  - cbn [forallb] in Hd. apply andb_prop in Hd as [Hd0 Hd].
    cbn [app after_digits]. rewrite Hd0. apply IH; auto.
Qed.

Lemma page_match_none s :
  (forall p q, s = p ++ q -> p <> [] -> is_page_suffix q = false) ->
  page_match s = None.
Proof.
  induction s as [|c r IH]; intros H; [reflexivity|].
  cbn [page_match]. destruct (is_line_terminator c); [reflexivity|].
  rewrite IH.
  - rewrite (H [c] r eq_refl) by discriminate. reflexivity.
  - intros p q -> Hp. apply (H (c :: p) q eq_refl). discriminate.
Qed.

Lemma not_page_suffix_without_dot s :
  forallb (fun x => negb (x =? 46)) s = true -> is_page_suffix s = false.
Proof.
  intros Hs. destruct (is_page_suffix s) eqn:H; [|reflexivity].
  apply is_page_suffix_dot in H. rewrite forallb_forall in Hs.
  specialize (Hs _ H). discriminate.
Qed.

Lemma page_number_is_suffix digits ext :
  digits <> [] ->
  forallb is_digit digits = true ->
  ext <> [] ->
  forallb (fun x => negb (x =? 46)) ext = true ->
  is_page_suffix (45 :: digits ++ 46 :: ext) = true.
Proof.
  intros Hne Hd Hext Hdot. unfold is_page_suffix.
  rewrite (after_digits_run digits (46 :: ext) false Hd (or_intror Hne) eq_refl).
  destruct ext as [|c ext]; [contradiction|]. exact Hdot.
Qed.

Lemma page_number_only_suffix digits ext p q :
  forallb is_digit digits = true ->
  forallb (fun x => negb (x =? 46)) ext = true ->
  45 :: digits ++ 46 :: ext = p ++ q ->
  p <> [] ->
  is_page_suffix q = false.
Proof.
  intros Hd Hdot Hsplit Hp.
  destruct p as [|c p]; [contradiction|].
  cbn [app] in Hsplit. injection Hsplit as _ Hsplit.
  apply app_eq_app in Hsplit.
  destruct Hsplit as (l & [[-> ->] | [-> Hq]]).
  - (* the rest starts inside the digits, or at the dot *)
    destruct l as [|d l].
    + reflexivity.
    + cbn [app]. rewrite forallb_app in Hd. apply andb_prop in Hd as [_ Hd].
      cbn [forallb] in Hd. apply andb_prop in Hd as [Hd0 _].
      unfold is_page_suffix. destruct (N.eq_dec d 45) as [->|Hd45]; [discriminate|].
      destruct d as [|x]; [reflexivity|].
      do 6 (destruct x as [x|x|]; try reflexivity). now contradict Hd45.
  - (* the rest starts at the dot or inside the extension *)
    destruct l as [|d l].
    + cbn [app] in Hq. subst q. reflexivity.
    + cbn [app] in Hq. injection Hq as _ ->.
      rewrite forallb_app in Hdot. apply andb_prop in Hdot as [_ Hq].
      now apply not_page_suffix_without_dot.
Qed.

(** X26. The image of a page, [name-N.ext], belongs to the PDF [name]: the
    pattern cuts the page number and the extension off, at the last hyphen
    that is followed by digits and by the only dot that remains, whatever
    hyphens, dots and digits the name itself holds (a line break apart).
    A file name without a dot stands for itself. *)
Theorem pdfName_of_page_image :
  (forall name digits ext : jsstring,
      name <> [] ->
      existsb is_line_terminator name = false ->
      digits <> [] ->
      forallb is_digit digits = true ->
      ext <> [] ->
      forallb (fun x => negb (x =? 46)) ext = true ->
      pdfName_of (name ++ js "-" ++ digits ++ js "." ++ ext) = name)
  /\ (forall file : jsstring,
         forallb (fun x => negb (x =? 46)) file = true -> pdfName_of file = file).
Proof.
  split.
  - intros name digits ext Hname Hline Hne Hd Hext Hdot.
    change (js "-") with [45]. change (js ".") with [46]. cbn [app].
    unfold pdfName_of.
    match goal with
    | |- match ?m with _ => _ end = _ =>
        enough (H : m = Some name) by (rewrite H; reflexivity)
    end.
    induction name as [|c name IH]; [contradiction|].
    cbn [existsb] in Hline. apply orb_false_elim in Hline as [Hc Hline].
    cbn [app page_match]. rewrite Hc.
    destruct name as [|c' name].
    + cbn [app]. rewrite page_match_none.
      * rewrite page_number_is_suffix by assumption. reflexivity.
      * intros p q Hsplit Hp.
        now apply (page_number_only_suffix digits ext p q).
    + rewrite IH by (discriminate || assumption). reflexivity.
  - intros file Hdot. unfold pdfName_of. rewrite page_match_none; [reflexivity|].
    intros p q -> _. rewrite forallb_app in Hdot. apply andb_prop in Hdot as [_ Hq].
    now apply not_page_suffix_without_dot.
Qed.

(* ================================================================= *)
(** ** The invoice tool: the groups of pages *)

Lemma push_page_known pdfName dataUrl pdfGroups :
  In pdfName (map fst pdfGroups) ->
  first_pages (push_page pdfName dataUrl pdfGroups) = first_pages pdfGroups.
Proof.
  induction pdfGroups as [|[name [first others]] rest IH]; intros Hin; [contradiction|].
  cbn [push_page]. destruct (jsstring_eqb name pdfName) eqn:Heq; [reflexivity|].
  cbn [first_pages map fst snd]. f_equal. apply IH.
  destruct Hin as [Hin|Hin]; [|exact Hin].
  cbn [fst] in Hin. subst pdfName. rewrite jsstring_eqb_refl in Heq. discriminate.
Qed.

Lemma push_page_new pdfName dataUrl pdfGroups :
  ~ In pdfName (map fst pdfGroups) ->
  first_pages (push_page pdfName dataUrl pdfGroups)
  = first_pages pdfGroups ++ [(pdfName, dataUrl)].
Proof.
  induction pdfGroups as [|[name [first others]] rest IH]; intros Hin; [reflexivity|].
  cbn [push_page]. destruct (jsstring_eqb name pdfName) eqn:Heq.
  - apply jsstring_eqb_eq in Heq. subst pdfName. exfalso. apply Hin. left. reflexivity.
  - cbn [first_pages map fst snd app]. f_equal. apply IH.
    intros H. apply Hin. right. exact H.
Qed.

Lemma first_pages_names pdfGroups : map fst (first_pages pdfGroups) = map fst pdfGroups.
Proof. unfold first_pages. rewrite map_map. reflexivity. Qed.

Lemma push_page_length pdfName dataUrl pdfGroups :
  (List.length (push_page pdfName dataUrl pdfGroups) <= S (List.length pdfGroups))%nat.
Proof.
  induction pdfGroups as [|[name [first others]] rest IH]; cbn [push_page List.length]; [lia|].
  destruct (jsstring_eqb name pdfName); cbn [List.length]; lia.
Qed.

Lemma group_pages_length encodedImages : forall pdfGroups,
  (List.length (group_pages encodedImages pdfGroups)
   <= List.length pdfGroups + List.length encodedImages)%nat.
Proof.
  induction encodedImages as [|[file dataUrl] rest IH]; intros pdfGroups;
    cbn [group_pages List.length]; [lia|].
  specialize (IH (push_page (pdfName_of file) dataUrl pdfGroups)).
  pose proof (push_page_length (pdfName_of file) dataUrl pdfGroups). lia.
Qed.

Lemma first_image_of_later pdfName dataUrl file url rest :
  pdfName_of file <> pdfName ->
  first_image_of pdfName dataUrl ((file, url) :: rest)
  <-> first_image_of pdfName dataUrl rest.
Proof.
  intros Hother. split.
  - intros (before & f & after & Hsplit & Hname & Hbefore).
    destruct before as [|image before].
    + cbn [app] in Hsplit. injection Hsplit as Hf _ _. subst f. contradiction.
    + cbn [app] in Hsplit. injection Hsplit as Himage Hrest. subst image rest.
      exists before, f, after. split; [reflexivity|]. split; [exact Hname|].
      intros image Hin. apply Hbefore. right. exact Hin.
  - intros (before & f & after & -> & Hname & Hbefore).
    exists ((file, url) :: before), f, after. split; [reflexivity|]. split; [exact Hname|].
    intros image [<-|Hin]; [exact Hother | now apply Hbefore].
Qed.

Lemma first_image_of_head dataUrl file url rest :
  first_image_of (pdfName_of file) dataUrl ((file, url) :: rest) <-> dataUrl = url.
Proof.
  split.
  - intros (before & f & after & Hsplit & Hname & Hbefore).
    destruct before as [|image before].
    + cbn [app] in Hsplit. injection Hsplit as _ Hurl _. symmetry. exact Hurl.
    + cbn [app] in Hsplit. injection Hsplit as Himage _. subst image.
      exfalso. apply (Hbefore (file, url)); [left|]; reflexivity.
  - intros ->. exists [], file, rest. split; [reflexivity|]. split; [reflexivity|].
    intros image [].
Qed.

Lemma group_pages_first_pages encodedImages : forall pdfGroups,
  NoDup (map fst pdfGroups) ->
  NoDup (map fst (group_pages encodedImages pdfGroups))
  /\ forall pdfName dataUrl,
       In (pdfName, dataUrl) (first_pages (group_pages encodedImages pdfGroups))
       <-> In (pdfName, dataUrl) (first_pages pdfGroups)
           \/ (~ In pdfName (map fst pdfGroups)
               /\ first_image_of pdfName dataUrl encodedImages).
Proof.
  induction encodedImages as [|[file url] rest IH]; intros pdfGroups Hnodup.
  - cbn [group_pages]. split; [exact Hnodup|]. intros pdfName dataUrl. split; [auto|].
    intros [H|[_ (before & f & after & Hsplit & _)]]; [exact H|].
    destruct before; discriminate.
  - cbn [group_pages].
    destruct (in_dec (list_eq_dec N.eq_dec) (pdfName_of file) (map fst pdfGroups))
      as [Hknown|Hnew].
    + pose proof (push_page_known _ url _ Hknown) as Hpush.
      assert (Hnames : map fst (push_page (pdfName_of file) url pdfGroups)
                       = map fst pdfGroups).
      { rewrite <- !first_pages_names, Hpush. reflexivity. }
      destruct (IH (push_page (pdfName_of file) url pdfGroups)) as [Hnd Hin].
      { rewrite Hnames. exact Hnodup. }
      split; [exact Hnd|]. intros pdfName dataUrl.
      rewrite Hin, Hpush, Hnames. apply or_iff_compat_l.
      assert (Hother : forall name, ~ In name (map fst pdfGroups) ->
                                    pdfName_of file <> name).
      { intros name Hfresh Heq. apply Hfresh. rewrite <- Heq. exact Hknown. }
      split; intros [Hfresh Hfirst]; (split; [exact Hfresh|]).
      * apply first_image_of_later; [now apply Hother | exact Hfirst].
      * apply first_image_of_later in Hfirst; [exact Hfirst | now apply Hother].
    + pose proof (push_page_new _ url _ Hnew) as Hpush.
      assert (Hnames : map fst (push_page (pdfName_of file) url pdfGroups)
                       = map fst pdfGroups ++ [pdfName_of file]).
      { rewrite <- !first_pages_names, Hpush, map_app. reflexivity. }
      destruct (IH (push_page (pdfName_of file) url pdfGroups)) as [Hnd Hin].
      { rewrite Hnames. apply NoDup_app; [exact Hnodup | repeat constructor; intros [] |].
        intros x Hx [<-|[]]. contradiction. }
      split; [exact Hnd|]. intros pdfName dataUrl.
      rewrite Hin, Hpush, Hnames. rewrite !in_app_iff. cbn [In].
      destruct (list_eq_dec N.eq_dec (pdfName_of file) pdfName) as [<-|Hother].
      * rewrite first_image_of_head. split.
        -- intros [[H|[H|[]]]|[Hfresh _]]; [auto | | ].
           ++ injection H as <-. auto.
           ++ exfalso. apply Hfresh. right. left. reflexivity.
        -- intros [H|[_ ->]]; auto.
      * rewrite (first_image_of_later _ _ _ _ _ Hother). split.
        -- intros [[H|[H|[]]]|[Hfresh Hfirst]]; [auto | | ].
           ++ injection H as H _. contradiction.
           ++ right. split; [|exact Hfirst]. intros H. apply Hfresh. left. exact H.
        -- intros [H|[Hfresh Hfirst]]; [auto|].
           right. split; [|exact Hfirst]. intros [H|[H|[]]]; contradiction.
Qed.


(* ================================================================= *)
(** ** The invoice tool: the recognition of all invoices *)

Section Recognition.

Context (E : Engine).

Lemma part_texts_pure parts : forall w r w',
  part_texts E parts w = (r, w') -> w' = w.
Proof.
  induction parts as [|part rest IH]; intros w r w' H.
  - inversion H. reflexivity.
  - destruct (existsb nullish (part :: rest)) eqn:Hn.
    + rewrite (part_texts_nullish E _ _ Hn) in H. inversion H. reflexivity.
    + rewrite (part_texts_total E _ _ Hn) in H. inversion H. reflexivity.
Qed.

Lemma extractSingleInvoice_within dataUrl w r w' :
  extractSingleInvoice E dataUrl w = (r, w') -> within 40000 10 w w'.
Proof.
  unfold extractSingleInvoice. unfold bind at 1.
  destruct (sendRequest E (VObj (invoice_options dataUrl)) w) as [[response|e] w1] eqn:Hsend;
    apply sendRequest_within in Hsend.
  2:{ intros H. inversion H; subst. exact Hsend. }
  unfold bind.
  match goal with
  | |- context [match ?m w1 with _ => _ end] =>
      assert (Hpure : snd (m w1) = w1)
  end.
  { destruct response as [text|v]; [reflexivity|].
    destruct (response_content v); try reflexivity.
    unfold bind.
    destruct (part_texts E l w1) as [[texts|e] w2] eqn:Hparts;
      apply part_texts_pure in Hparts; exact Hparts. }
  match goal with
  | |- context [match ?m w1 with _ => _ end] => destruct (m w1) as [[textContent|e] w2]
  end; cbn [snd] in Hpure; subst w2.
  - rewrite finish_invoice. intros H. inversion H; subst. exact Hsend.
  - intros H. inversion H; subst. exact Hsend.
Qed.

Lemma recognise_step dataUrl invoices w r w' :
  recognise E dataUrl invoices w = (r, w') ->
  within 40000 10 w w'
  /\ exists after line,
       r = Ok (after, line)
       /\ (List.length invoices <= List.length after <= S (List.length invoices))%nat.
Proof.
  unfold recognise.
  destruct (extractSingleInvoice E dataUrl w) as [[invoice|e] w1] eqn:Hrun;
    apply extractSingleInvoice_within in Hrun.
  - unfold try_catch, bind, prop.
    assert (Hlen : (List.length invoices <= List.length (invoices ++ [invoice])
                    <= S (List.length invoices))%nat)
      by (rewrite length_app; cbn [List.length]; lia).
    destruct (get_prop invoice (js "items")) as [items|].
    + unfold ret at 1, length_of.
      destruct items; unfold throw, ret; intros H; inversion H; subst;
        (split; [exact Hrun|]); eauto.
    + unfold throw, ret. intros H; inversion H; subst. split; [exact Hrun|]. eauto.
  - intros H; inversion H; subst. split; [exact Hrun|].
    exists invoices, (js " ✗ " ++ err_message e). split; [reflexivity | lia].
Qed.

Lemma recognise_from_returns pdfGroups : forall total i invoices stdout w,
  exists after text w',
    recognise_from E total i pdfGroups invoices stdout w = (Ok (after, text), w')
    /\ (List.length after <= List.length invoices + List.length pdfGroups)%nat
    /\ within (40000 * Z.of_nat (List.length pdfGroups))
              (10 * List.length pdfGroups) w w'.
Proof.
  induction pdfGroups as [|[pdfName [first others]] rest IH];
    intros total i invoices stdout w.
  - exists invoices, stdout, w. split; [reflexivity|]. split; [cbn; lia|].
    apply within_refl.
  - cbn [recognise_from]. unfold bind.
    destruct (recognise E first invoices w) as [r w1] eqn:Hstep.
    apply recognise_step in Hstep as (Hw1 & after1 & line & -> & Hlen).
    cbn [fst snd].
    match goal with
    | |- context [recognise_from E total (S i) rest after1 ?out w1] =>
        destruct (IH total (S i) after1 out w1) as (after & text & w' & Hrun & Hafter & Hw')
    end.
    exists after, text, w'. split; [exact Hrun|]. split; [cbn [List.length]; lia|].
    cbn [List.length]. eapply within_weaken; [| |exact (within_trans _ _ _ _ _ _ _ Hw1 Hw')]; lia.
Qed.

(** X28. [extractAllInvoices] never throws, whatever the server answers and
    the store does: each failure of a recognition is caught and logged.
    What it returns holds at most one invoice for each PDF, so at most one
    for each image; and for each PDF it issues ten requests at most and
    sleeps 40 seconds at most. *)
Theorem extractAllInvoices_never_throws :
  forall (encodedImages : list (jsstring * jsstring)) (w : World),
    exists invoices stdout w',
      extractAllInvoices E encodedImages w = (Ok (invoices, stdout), w')
      /\ (List.length invoices <= List.length (group_pages encodedImages [])
          <= List.length encodedImages)%nat
      /\ within (40000 * Z.of_nat (List.length (group_pages encodedImages [])))
                (10 * List.length (group_pages encodedImages [])) w w'.
Proof.
  intros encodedImages w. unfold extractAllInvoices.
  destruct (recognise_from_returns (group_pages encodedImages [])
              (List.length (group_pages encodedImages [])) 0 [] [] w)
    as (after & text & w' & Hrun & Hlen & Hw').
  exists after, text, w'. split; [exact Hrun|]. split; [|exact Hw'].
  pose proof (group_pages_length encodedImages []). cbn [List.length] in *. lia.
Qed.

(** X29. An answer that parses but is no invoice is returned as one: when the
    value that [extractSingleInvoice] gives has no [items] ([null], a
    number, an object without that key), [extractAllInvoices] has already
    pushed it when the line that counts its items fails, so the value is in
    the result although the log reports the failure, with the message of
    the TypeError. *)
Theorem extractAllInvoices_keeps_what_it_cannot_count :
  forall (file dataUrl : jsstring) (w w1 : World) (invoice : JsVal),
    extractSingleInvoice E dataUrl w = (Ok invoice, w1) ->
    nullish (get_prop_opt invoice (js "items")) = true ->
    extractAllInvoices E [(file, dataUrl)] w
    = (Ok ([invoice],
           js "• 识别发票 " ++ Number_toString E (inject_Z 1)
              ++ js "/" ++ Number_toString E (inject_Z 1)
              ++ js ": " ++ pdfName_of file ++ js "..."
              ++ js " ✗ " ++ fault_message E Nullish_TypeError ++ [10]),
       w1).
Proof.
  intros file dataUrl w w1 invoice Hrun Hitems.
  unfold extractAllInvoices. cbn [group_pages push_page List.length recognise_from].
  unfold bind at 1. unfold recognise. rewrite Hrun.
  unfold try_catch, bind, prop, get_prop_opt in *.
  destruct (get_prop invoice (js "items")) as [[]|]; try discriminate Hitems;
    cbn -[js]; rewrite <- ?app_assoc; reflexivity.
Qed.

End Recognition.

(* ================================================================= *)
(** * Concrete runs *)

Lemma withRetry_fatal_status_invoked_once_witness :
  (1 <= MAX_RETRIES)%Z
  /\ fatal (buildHttpError integer_engine
              (mkResponse 401 (js "Unauthorized") (json_text "{'error':'invalid_token'}")))
  /\ withRetry ping MAX_RETRIES RETRY_DELAY_MS unauthorized_world
     = ping unauthorized_world
  /\ requests (snd (withRetry ping MAX_RETRIES RETRY_DELAY_MS unauthorized_world))
     = [ping_request]
  /\ timers (snd (withRetry ping MAX_RETRIES RETRY_DELAY_MS unauthorized_world)) = [].
Proof.
  assert (Hretries : (1 <= MAX_RETRIES)%Z) by (unfold MAX_RETRIES; lia).
  assert (Hfatal : fatal (buildHttpError integer_engine
              (mkResponse 401 (js "Unauthorized") (json_text "{'error':'invalid_token'}"))))
    by (left; reflexivity).
  assert (Hrun : ping unauthorized_world
                 = (Throw (buildHttpError integer_engine
                             (mkResponse 401 (js "Unauthorized")
                                (json_text "{'error':'invalid_token'}"))),
                    answered ping_request 0 unauthorized_world))
    by (vm_compute; reflexivity).
  pose proof (proj1 (withRetry_fatal_status_invoked_once JsVal ping MAX_RETRIES
                       RETRY_DELAY_MS unauthorized_world _ _ Hretries Hrun Hfatal))
    as Hthm.
  split; [exact Hretries|]. split; [exact Hfatal|].
  rewrite Hthm, Hrun. repeat split.
Defined.

Lemma withRetry_linear_backoff_and_exhaustion_witness :
  withRetry ping MAX_RETRIES RETRY_DELAY_MS flaky_world
  = (Ok (VObj [(js "ok", VBool true)]),
     answered ping_request 0
       (snd (sleep 4000 (answered ping_request 0
          (snd (sleep 2000 (answered ping_request 0 flaky_world)))))))
  /\ timers (snd (withRetry ping MAX_RETRIES RETRY_DELAY_MS flaky_world))
     = [2000; 4000]%Z
  /\ fst (withRetry ping MAX_RETRIES RETRY_DELAY_MS down_world)
     = Throw (match snd network_down with
              | NetFailure e => e
              | NetResponse _ => new_Error []
              end)
  /\ timers (snd (withRetry ping MAX_RETRIES RETRY_DELAY_MS down_world))
     = [2000; 4000; 6000; 8000]%Z
  /\ List.length (requests (snd (withRetry ping MAX_RETRIES RETRY_DELAY_MS down_world)))
     = 5%nat.
Proof.
  pose proof (withRetry_linear_backoff_and_exhaustion JsVal ping MAX_RETRIES
                RETRY_DELAY_MS) as (Hthird & Hall & _).
  assert (Hflaky :
            withRetry ping MAX_RETRIES RETRY_DELAY_MS flaky_world
            = (Ok (VObj [(js "ok", VBool true)]),
               answered ping_request 0
                 (snd (sleep 4000 (answered ping_request 0
                    (snd (sleep 2000 (answered ping_request 0 flaky_world)))))))).
  { eapply (Hthird flaky_world).
    - unfold MAX_RETRIES. lia.
    - vm_compute. reflexivity.
    - reflexivity.
    - vm_compute. reflexivity.
    - reflexivity.
    - vm_compute. reflexivity. }
  assert (Hdown : exists w',
             withRetry ping MAX_RETRIES RETRY_DELAY_MS down_world
             = (Throw (match snd network_down with
                       | NetFailure e => e
                       | NetResponse _ => new_Error []
                       end), w')
             /\ timers w' = [2000; 4000; 6000; 8000]%Z
             /\ List.length (requests w') = 5%nat).
  { eexists. split.
    - apply Hall.
      do 4 (eapply fails_and_retries;
            [unfold MAX_RETRIES; lia | vm_compute; reflexivity
            | apply no_status_retryable; reflexivity | ]).
      eapply fails_last_attempt;
        [reflexivity | vm_compute; reflexivity
        | apply no_status_retryable; reflexivity].
    - split; vm_compute; reflexivity. }
  destruct Hdown as (w' & Hdown & Htimers & Hcount).
  split; [exact Hflaky|]. rewrite Hflaky, Hdown.
  split; [vm_compute; reflexivity|]. split; [reflexivity|].
  split; assumption.
Defined.

(** C3, refuted as stated. With the default interval of 5000 ms, two
    [authorization_pending] answers and then a grant with
    [expires_in = 3600]: the poll starts at time 0 and sleeps twice, so the
    grant is received at 10000 ms and the expiry is 3610000 ms, ten seconds
    after [poll_start_time + 3600 s]; and the email stored is not the email
    passed in, which had a space in front. *)
Lemma pollForToken_expiry_counts_from_the_grant :
  exists tok w',
    two_pending_poll = Some (Ok tok, w')
    /\ timers w' = [5000; 5000]%Z
    /\ parseExpiry integer_engine (expiry_date tok) = Some 3610000%Z
    /\ ~ (Z.abs (3610000 - (clock two_pending_world + 3600 * 1000)) <= 1000)%Z
    /\ stored_email w' = Some (VStr (js "user@example.com"))
    /\ VStr (js "user@example.com") <> VStr (js " user@example.com").
Proof.
  eexists _, _. split; [vm_compute; reflexivity|].
  split; [reflexivity|]. split; [vm_compute; reflexivity|].
  split; [vm_compute; intros H; apply H; reflexivity|].
  split; [vm_compute; reflexivity|].
  intros H. vm_compute in H. discriminate H.
Qed.

Lemma pollForToken_grant_after_two_pending_witness :
  exists tok w' text,
    two_pending_poll = Some (Ok tok, w')
    /\ tok = token_of_response
               [(js "access_token", VStr (js "tok-A"));
                (js "token_type", VStr (js "Bearer"));
                (js "expires_in", VNum 3600)]
               (toISOString_ms (10000 + 3600 * 1000))
    /\ clock w' = 10000%Z
    /\ timers w' = [5000; 5000]%Z
    /\ requests w' = [poll_form (js "DC123") (js "v1");
                      poll_form (js "DC123") (js "v1");
                      poll_form (js "DC123") (js "v1")]
    /\ JSON_stringify integer_engine (js "  ")
         (storageData tok (VStr (trim (js " user@example.com"))) 10000) = Some text
    /\ file w' = Some (toWellFormed text)
    /\ currentToken w' = Some tok
    /\ currentEmail w' = VStr (trim (js " user@example.com")).
Proof.
  apply (pollForToken_grant_after_two_pending integer_engine 0
           (js "DC123") (js "v1") (js " user@example.com") 5000 two_pending_world
           0 (mkResponse 400 (js "Bad Request") (json_text "{'error':'authorization_pending'}"))
           0 (mkResponse 400 (js "Bad Request") (json_text "{'error':'authorization_pending'}"))
           0 (mkResponse 200 (js "OK")
                (json_text "{'access_token':'tok-A','token_type':'Bearer','expires_in':3600}"))
           [(js "access_token", VStr (js "tok-A"));
            (js "token_type", VStr (js "Bearer"));
            (js "expires_in", VNum 3600)]
           3600 10000%Z).
  - reflexivity.
  - reflexivity.
  - split; [reflexivity|]. eexists. split; vm_compute; reflexivity.
  - reflexivity.
  - reflexivity.
  - split; [reflexivity|]. eexists. split; vm_compute; reflexivity.
  - reflexivity.
  - reflexivity.
  - split; vm_compute; reflexivity.
  - vm_compute. reflexivity.
  - reflexivity.
  - reflexivity.
  - reflexivity.
  - vm_compute. discriminate.
Defined.

Lemma pollForToken_slow_down_witness :
  pollForToken integer_engine 2 (js "DC123") (js "v1") [] 5000 slow_down_world
  = pollForToken integer_engine 1 (js "DC123") (js "v1") [] 7500
      (snd (sleep 7500 (answered (poll_form (js "DC123") (js "v1")) 0 slow_down_world)))
  /\ timers (snd (sleep 7500
                    (answered (poll_form (js "DC123") (js "v1")) 0 slow_down_world)))
     = [7500]%Z
  /\ option_map (fun rw => timers (snd rw))
       (pollForToken integer_engine 2 (js "DC123") (js "v1") [] 5000 slow_down_world)
     = Some [7500]%Z.
Proof.
  destruct (pollForToken_slow_down integer_engine 1 (js "DC123") (js "v1") [] 5000
              slow_down_world 0
              (mkResponse 400 (js "Bad Request") (json_text "{'error':'slow_down'}")))
    as (Hstep & Htimers & _ & H7500).
  - reflexivity.
  - reflexivity.
  - split; [reflexivity|]. eexists. split; vm_compute; reflexivity.
  - reflexivity.
  - rewrite H7500 in Hstep, Htimers.
    split; [exact Hstep|]. split; [exact Htimers|].
    rewrite Hstep. vm_compute. reflexivity.
Defined.

Lemma sendRequest_refreshes_once_before_dispatch_witness :
  exists res w' rs refreshed,
    sendRequest integer_engine chat_options expired_world = (res, w')
    /\ refreshed = refreshed_token
                     [(js "access_token", VStr (js "tok-B")); (js "expires_in", VNum 3600)]
                     (VStr (js "rt-1")) (toISOString_ms 3601000)
    /\ requests w' = refresh_form integer_engine (VStr (js "rt-1")) :: rs
    /\ Forall (authorized_chat_request (js "Bearer tok-B")) rs
    /\ currentToken w' = Some refreshed
    /\ List.length rs = 2%nat
    /\ res = Ok (JsonBody (VObj [(js "choices", VArr [])])).
Proof.
  destruct (sendRequest_refreshes_once_before_dispatch integer_engine chat_options
              expired_world expired_token 0%Z) as [_ Hgrant].
  - reflexivity.
  - vm_compute. reflexivity.
  - vm_compute. discriminate.
  - reflexivity.
  - destruct (Hgrant 0 refresh_grant
                [(js "access_token", VStr (js "tok-B")); (js "expires_in", VNum 3600)]
                3600%Q 3601000%Z)
      as (res & w' & rs & refreshed & Hsend & Href & Hreqs & Hall & Hcur & _);
      [reflexivity | reflexivity | split; vm_compute; reflexivity | reflexivity
      | vm_compute; reflexivity | reflexivity |].
    exists res, w', rs, refreshed.
    split; [exact Hsend|]. split; [exact Href|]. split; [exact Hreqs|].
    split; [rewrite Href in Hall; exact Hall|]. split; [exact Hcur|].
    assert (Hrun : exists w'',
               sendRequest integer_engine chat_options expired_world
               = (Ok (JsonBody (VObj [(js "choices", VArr [])])), w'')
               /\ List.length (requests w'') = 3%nat).
    { eexists. split; vm_compute; reflexivity. }
    destruct Hrun as (w'' & Hrun & Hlen).
    rewrite Hsend in Hrun. inversion Hrun; subst.
    change (requests expired_world) with (@nil Request) in Hreqs.
    rewrite Hreqs in Hlen. cbn [List.length app] in Hlen.
    split; [lia | reflexivity].
Defined.

Lemma token_store_round_trip_witness :
  storable mac_token
  /\ exists w1 w2 loaded,
       saveTokenToStorage integer_engine mac_token (VStr (js "user@example.com"))
                          empty_world = (Ok tt, w1)
       /\ loadTokenFromStorage integer_engine w1 = (Ok (Some loaded), w2)
       /\ access_token loaded = VStr (js "tok-A")
       /\ refresh_token loaded = VStr (json_text "rt-'quoted'")
       /\ expiry_date loaded = VStr (js "2026-11-02T00:00:00.123Z")
       /\ resource_url loaded = VStr (js "portal.qwen.ai/")
       /\ currentToken w2 = Some loaded
       /\ currentEmail w2 = VStr (js "user@example.com").
Proof.
  assert (Hstorable : storable mac_token).
  { unfold storable, is_optional_string, is_string. cbn.
    split; [eauto|]. split; [right; eauto|]. split; [right; eauto | eauto]. }
  split; [exact Hstorable|].
  apply (token_store_round_trip integer_engine mac_token empty_world Hstorable);
    reflexivity.
Defined.

Lemma loadTokenFromStorage_never_throws_witness :
  loadTokenFromStorage integer_engine empty_world = (Ok None, empty_world)
  /\ loadTokenFromStorage integer_engine corrupted_world
     = (Ok None,
        log_warning (js "加载令牌失败:") (engine_error integer_engine JSON_SyntaxError)
                    corrupted_world)
  /\ saveTokenToStorage integer_engine mac_token VUndefined
       (mkWorld 0 (fun _ _ => network_down) [] [] (fun _ => x00) 0 None None
                (Some (new_Error (js "EACCES"))) [] None VUndefined)
     = (Throw (new_Error (js "EACCES")),
        mkWorld 0 (fun _ _ => network_down) [] [] (fun _ => x00) 0 None None
                (Some (new_Error (js "EACCES"))) [] None VUndefined).
Proof.
  destruct (loadTokenFromStorage_never_throws integer_engine)
    as (Habsent & Hcorrupt & _ & _ & Hsave & _).
  split; [apply Habsent; reflexivity|].
  split; [apply (Hcorrupt corrupted_world (json_text "{'access_token': 'tok-A', "));
          vm_compute; reflexivity|].
  apply Hsave. reflexivity.
Defined.

(** C8, refuted as stated. The file holds a well-formed token: where it can
    be read, it loads.  Where the same file cannot be read, which is a
    failure but no corruption, loading is degraded just as for a corrupt
    file: a warning is logged, the result is absent and the caller gets no
    error.  So corruption is not the only failure of the authentication
    flow that is silently degraded this way. *)
Lemma loadTokenFromStorage_degrades_a_read_error :
  (exists tok w',
      loadTokenFromStorage integer_engine readable_world = (Ok (Some tok), w')
      /\ access_token tok = VStr (js "tok-A"))
  /\ file unreadable_world = file readable_world
  /\ JSON_parse stored_token_text <> None
  /\ loadTokenFromStorage integer_engine unreadable_world
     = (Ok None, log_warning (js "加载令牌失败:") permission_denied unreadable_world).
Proof.
  split; [eexists _, _; split; [vm_compute; reflexivity | reflexivity]|].
  split; [reflexivity|].
  split; [intros H; vm_compute in H; discriminate H|].
  vm_compute. reflexivity.
Qed.

(** C9, refuted as stated. The email passed to the poller has white space
    around it; the email field of the stored envelope has not. *)
Lemma pollForToken_stored_email_is_trimmed :
  exists tok w',
    one_pending_poll = Some (Ok tok, w')
    /\ access_token tok = VStr (js "tok-A")
    /\ stored_email w' = Some (VStr (js "alice@example.com"))
    /\ stored_email w' <> Some (VStr (js "  alice@example.com ")).
Proof.
  eexists _, _. split; [vm_compute; reflexivity|].
  split; [reflexivity|]. split; [vm_compute; reflexivity|].
  intros H. vm_compute in H. discriminate H.
Qed.

Lemma pollForToken_stores_trimmed_email_witness :
  exists tok w' now text,
    pollForToken integer_engine 2 (js "DC123") (js "v1") (js "  alice@example.com ")
                 5000 one_pending_world = Some (Ok tok, w')
    /\ JSON_stringify integer_engine (js "  ")
         (storageData tok (VStr (js "alice@example.com")) now) = Some text
    /\ file w' = Some (toWellFormed text)
    /\ currentEmail w' = VStr (js "alice@example.com").
Proof.
  assert (Hrun : exists tok w',
             pollForToken integer_engine 2 (js "DC123") (js "v1")
               (js "  alice@example.com ") 5000 one_pending_world
             = Some (Ok tok, w'))
    by (eexists _, _; vm_compute; reflexivity).
  destruct Hrun as (tok & w' & Hrun).
  destruct (pollForToken_stores_trimmed_email integer_engine _ _ _ _ _ _ _ _ Hrun)
    as (now & text & Htext & Hfile & _ & Hemail & _).
  exists tok, w', now, text.
  assert (Htrim : trim (js "  alice@example.com ") = js "alice@example.com")
    by (vm_compute; reflexivity).
  rewrite Htrim in Htext, Hemail.
  split; [exact Hrun|]. split; [exact Htext|]. split; [exact Hfile | exact Hemail].
Defined.

Lemma token_type_is_not_stored_witness :
  saveTokenToStorage integer_engine mac_token (VStr (js "user@example.com")) empty_world
  = saveTokenToStorage integer_engine
      (with_token_type (VStr (js "Bearer")) mac_token)
      (VStr (js "user@example.com")) empty_world
  /\ exists w1 w2 loaded,
       saveTokenToStorage integer_engine mac_token (VStr (js "user@example.com"))
                          empty_world = (Ok tt, w1)
       /\ loadTokenFromStorage integer_engine w1 = (Ok (Some loaded), w2)
       /\ token_type loaded = VStr (js "Bearer")
       /\ token_type mac_token = VStr (js "MAC").
Proof.
  destruct (token_type_is_not_stored integer_engine) as (_ & Hsame & _ & Hback).
  split; [symmetry; apply Hsame|].
  destruct (Hback mac_token (js "user@example.com") empty_world)
    as (w1 & w2 & loaded & Hsave & Hload & Htype); try reflexivity.
  - unfold storable, is_optional_string, is_string. cbn.
    split; [eauto|]. split; [right; eauto|]. split; [right; eauto | eauto].
  - exists w1, w2, loaded. repeat split; assumption.
Defined.

(** The test vector of RFC 7636 (appendix B). *)
Example generateCodeChallenge_rfc7636 :
  generateCodeChallenge (js "dBjftJeZ4CVP-mB92K27uhbUJU1p1r_wW1gFWFOEjXk")
  = js "E9Melhoa2OwvFrEMTJguCHaoeK1t8URWbuGJSstw-cM".
Proof. vm_compute. reflexivity. Qed.

(* ================================================================= *)
(** ** Runs of the further properties *)

Lemma withRetry_backoff_schedule_witness :
  exists k : nat,
    (Z.of_nat k < MAX_RETRIES)%Z
    /\ List.length (requests (snd (withRetry ping MAX_RETRIES RETRY_DELAY_MS down_world)))
       = (List.length (requests down_world) + S k)%nat
    /\ timers (snd (withRetry ping MAX_RETRIES RETRY_DELAY_MS down_world))
       = timers down_world ++ linear_backoff RETRY_DELAY_MS k.
Proof.
  apply (withRetry_backoff_schedule JsVal ping MAX_RETRIES RETRY_DELAY_MS down_world
           (fst (withRetry ping MAX_RETRIES RETRY_DELAY_MS down_world))).
  - apply postForm_one_request.
  - unfold MAX_RETRIES. lia.
  - apply surjective_pairing.
Defined.

Lemma withRetry_result_is_the_last_attempt_witness :
  (exists last w0,
      retried_to ping MAX_RETRIES RETRY_DELAY_MS 1 down_world last w0
      /\ ping w0
         = (fst (withRetry ping MAX_RETRIES RETRY_DELAY_MS down_world),
            snd (withRetry ping MAX_RETRIES RETRY_DELAY_MS down_world))
      /\ ends_the_loop MAX_RETRIES last
           (fst (withRetry ping MAX_RETRIES RETRY_DELAY_MS down_world)))
  /\ withRetry ping 0 RETRY_DELAY_MS unauthorized_world
     = (Throw (new_Error (js "请求失败")), unauthorized_world).
Proof.
  split.
  - exact (proj1 (withRetry_result_is_the_last_attempt JsVal ping MAX_RETRIES
                    RETRY_DELAY_MS down_world)
             ltac:(unfold MAX_RETRIES; lia)
             (fst (withRetry ping MAX_RETRIES RETRY_DELAY_MS down_world))
             (snd (withRetry ping MAX_RETRIES RETRY_DELAY_MS down_world))
             (surjective_pairing _)).
  - exact (proj2 (withRetry_result_is_the_last_attempt JsVal ping 0 RETRY_DELAY_MS
                    unauthorized_world)
             ltac:(lia)).
Defined.

Lemma sendRequest_loads_the_stored_token_witness :
  sendRequest integer_engine chat_options empty_world
  = (Throw (new_Error (js "未找到有效的令牌，请先进行认证")), empty_world).
Proof.
  exact (proj2 (proj2 (sendRequest_loads_the_stored_token integer_engine chat_options
                         empty_world eq_refl)) eq_refl).
Defined.

Lemma fresh_token_needs_no_refresh w :
  clock w = 0%Z -> no_refresh_due integer_engine fresh_token (clock w).
Proof. intros ->. right. vm_compute. reflexivity. Qed.

Lemma sendRequest_uses_the_held_token_witness :
  sendRequest integer_engine chat_options serving_world
  = withRetry (chat_request integer_engine chat_options) MAX_RETRIES RETRY_DELAY_MS
      serving_world
  /\ currentToken (snd (sendRequest integer_engine chat_options serving_world))
     = Some fresh_token
  /\ exists rs,
       requests (snd (sendRequest integer_engine chat_options serving_world))
       = requests serving_world ++ rs
       /\ Forall (authorized_chat_request (bearer_text integer_engine (Some fresh_token)))
            rs.
Proof.
  destruct (sendRequest_uses_the_held_token integer_engine chat_options serving_world
              fresh_token eq_refl (fresh_token_needs_no_refresh serving_world eq_refl))
    as [Heq Hall].
  split; [exact Heq|].
  apply (Hall (fst (sendRequest integer_engine chat_options serving_world))).
  apply surjective_pairing.
Defined.

Lemma rejecting_world_rejects : rejects_everything (server rejecting_world).
Proof.
  intros n rq. eexists _, _. split; [reflexivity|]. split; reflexivity.
Qed.

Lemma sendRequest_retries_every_rejection_witness :
  exists latency r w',
    sendRequest integer_engine (VObj chat_properties) rejecting_world
    = (Throw (new_Error (readErrorResponse integer_engine r)), w')
    /\ server rejecting_world (List.length (requests rejecting_world) + 4)
         (chat_post integer_engine fresh_token (js "https://portal.qwen.ai/v1")
            (VObj chat_properties))
       = (latency, NetResponse r)
    /\ err_status (new_Error (readErrorResponse integer_engine r)) = None
    /\ requests w'
       = requests rejecting_world
         ++ repeat (chat_post integer_engine fresh_token (js "https://portal.qwen.ai/v1")
                      (VObj chat_properties)) 5
    /\ timers w' = timers rejecting_world ++ [2000; 4000; 6000; 8000]%Z
    /\ currentToken w' = Some fresh_token.
Proof.
  apply (sendRequest_retries_every_rejection integer_engine chat_properties
           rejecting_world fresh_token (js "https://portal.qwen.ai/v1")).
  - reflexivity.
  - apply fresh_token_needs_no_refresh. reflexivity.
  - vm_compute. reflexivity.
  - apply rejecting_world_rejects.
Defined.

Lemma sendRequest_returns_the_answer_witness :
  sendRequest integer_engine (VObj chat_properties) serving_world
  = (Ok (JsonBody (VObj [(js "choices", VArr [])])),
     answered (chat_post integer_engine fresh_token (js "https://portal.qwen.ai/v1")
                 (VObj chat_properties)) 0 serving_world).
Proof.
  apply (proj2 (sendRequest_returns_the_answer integer_engine chat_properties
                  serving_world fresh_token (js "https://portal.qwen.ai/v1") 0
                  (mkResponse 200 (js "OK") (json_text "{'choices':[]}"))
                  eq_refl (fresh_token_needs_no_refresh serving_world eq_refl)
                  ltac:(vm_compute; reflexivity) eq_refl eq_refl eq_refl)).
  - reflexivity.
  - vm_compute. reflexivity.
Defined.

Lemma refreshToken_rejection_is_final_witness :
  refreshToken integer_engine (VStr (js "rt-1")) refused_world
  = (Throw (buildHttpError integer_engine invalid_grant),
     answered (refresh_form integer_engine (VStr (js "rt-1"))) 0 refused_world)
  /\ sendRequest integer_engine chat_options refused_world
     = (Throw (buildHttpError integer_engine invalid_grant),
        answered (refresh_form integer_engine (VStr (js "rt-1"))) 0 refused_world).
Proof.
  destruct (refreshToken_rejection_is_final integer_engine (VStr (js "rt-1"))
              refused_world 0 invalid_grant eq_refl eq_refl (or_introl eq_refl))
    as (Href & _ & _ & _ & _ & Hsend).
  split; [exact Href|].
  apply (Hsend chat_options expired_token 0%Z); try reflexivity.
  - vm_compute. discriminate.
Defined.


Lemma incomplete_world_answers : answers_incomplete (server incomplete_world).
Proof.
  intros n rq. exists 0, incomplete_flow. split; [reflexivity|]. split; [reflexivity|].
  exists [(js "device_code", VStr (js "DC123"))].
  split; [split; vm_compute; reflexivity | reflexivity].
Qed.

Lemma initiateDeviceFlow_retries_incomplete_answers_witness :
  exists w',
    initiateDeviceFlow integer_engine incomplete_world
    = (Throw (new_Error (js "设备授权返回缺少字段")), w')
    /\ requests w'
       = requests incomplete_world
         ++ [device_code_post incomplete_world 0; device_code_post incomplete_world 1;
             device_code_post incomplete_world 2; device_code_post incomplete_world 3;
             device_code_post incomplete_world 4]
    /\ timers w' = timers incomplete_world ++ [2000; 4000; 6000; 8000]%Z
    /\ drawn w' = (drawn incomplete_world + 160)%nat.
Proof.
  apply (initiateDeviceFlow_retries_incomplete_answers integer_engine incomplete_world).
  apply incomplete_world_answers.
Defined.


Lemma base64URLEncode_injective_witness :
  map byte_of_N [1; 2; 255] = [x01; x02; xff].
Proof.
  apply (base64URLEncode_injective (map byte_of_N [1; 2; 255]) [x01; x02; xff]).
  reflexivity.
Defined.

Lemma waiting_world_keeps_waiting :
  keeps_waiting (server waiting_world) (poll_form (js "DC123") (js "v1")).
Proof.
  intros n. change (server waiting_world n (poll_form (js "DC123") (js "v1")))
    with (if Nat.even n then pending_answer else slow_down_answer).
  destruct (Nat.even n); eexists _, _; (split; [reflexivity|]); (split; [reflexivity|]);
    [left | right]; (split; [reflexivity|]); eexists; split; vm_compute; reflexivity.
Qed.

Lemma pollForToken_has_no_deadline_witness :
  pollForToken integer_engine 100 (js "DC123") (js "v1") [] 5000 waiting_world = None.
Proof.
  apply (pollForToken_has_no_deadline integer_engine 100 (js "DC123") (js "v1") [] 5000
           waiting_world).
  apply waiting_world_keeps_waiting.
Defined.

Lemma access_denied_is_no_wait code :
  code = js "authorization_pending" \/ code = js "slow_down" ->
  ~ error_answer code access_denied.
Proof.
  intros Hcode (_ & d & Hd & He).
  vm_compute in Hd. injection Hd as <-.
  destruct Hcode as [-> | ->]; vm_compute in He; discriminate He.
Qed.

Lemma pollForToken_stops_on_other_rejections_witness :
  exists e,
    pollForToken integer_engine 1 (js "DC123") (js "v1") [] 5000 denied_world
    = Some (Throw e, answered (poll_form (js "DC123") (js "v1")) 0 denied_world)
    /\ err_status e = None
    /\ starts_with (err_message e) (js "令牌获取失败") = true.
Proof.
  apply (pollForToken_stops_on_other_rejections integer_engine 0 (js "DC123") (js "v1")
           [] 5000 denied_world 0 access_denied).
  - reflexivity.
  - reflexivity.
  - reflexivity.
  - apply access_denied_is_no_wait. left. reflexivity.
  - apply access_denied_is_no_wait. right. reflexivity.
Defined.

Lemma loadTokenFromStorage_does_not_validate_witness :
  loadTokenFromStorage integer_engine unvalidated_world
  = (Ok (Some {| access_token := VUndefined; refresh_token := VUndefined;
                 token_type := VStr (js "Bearer"); resource_url := VUndefined;
                 expiry_date := VUndefined |}),
     set_currentEmail VUndefined
       (set_currentToken
          {| access_token := VUndefined; refresh_token := VUndefined;
             token_type := VStr (js "Bearer"); resource_url := VUndefined;
             expiry_date := VUndefined |} unvalidated_world)).
Proof.
  apply (proj1 (loadTokenFromStorage_does_not_validate integer_engine unvalidated_world
                  (json_text "{}") (VObj []) eq_refl eq_refl
                  ltac:(vm_compute; reflexivity))).
  discriminate.
Defined.

Lemma mac_token_storable : storable mac_token.
Proof.
  unfold storable, is_optional_string, is_string. cbn.
  split; [eauto|]. split; [right; eauto|]. split; [right; eauto | eauto].
Qed.

Lemma updateTokenEmail_relabels_the_stored_token_witness :
  updateTokenEmail integer_engine (js " bob ") empty_world = (Ok tt, empty_world)
  /\ exists w1 w2,
       updateTokenEmail integer_engine (js " bob ") labelled_world = (Ok tt, w1)
       /\ currentToken w1 = Some mac_token
       /\ currentEmail w1 = VStr (js " bob ")
       /\ stored_email w1 = Some (VStr (js " bob "))
       /\ loadTokenFromStorage integer_engine w1
          = (Ok (Some (with_token_type (VStr (js "Bearer")) mac_token)), w2)
       /\ currentEmail w2 = VStr (js " bob ").
Proof.
  destruct (updateTokenEmail_relabels_the_stored_token integer_engine)
    as (Hnone & Hsome & _).
  split; [apply Hnone; reflexivity|].
  apply (Hsome (js " bob ") labelled_world mac_token eq_refl mac_token_storable
           eq_refl eq_refl).
Defined.

Lemma buildBaseUrl_of_resource_witness :
  buildBaseUrl integer_engine VUndefined empty_world
  = (Ok (js "https://portal.qwen.ai/v1"), empty_world)
  /\ buildBaseUrl integer_engine (VStr (js "  ")) empty_world
     = (Ok (js "https://portal.qwen.ai/v1"), empty_world)
  /\ buildBaseUrl integer_engine (VStr (js "portal.qwen.ai" ++ [47])) empty_world
     = (Ok (js "https://" ++ js "portal.qwen.ai" ++ js "/v1"), empty_world).
Proof.
  destruct (buildBaseUrl_of_resource integer_engine) as (Hnone & Hblank & Hhost & _).
  split; [apply Hnone; reflexivity|]. split; [apply Hblank; reflexivity|].
  apply (Hhost (js "portal.qwen.ai") empty_world); [reflexivity|].
  intros h Hh. apply (f_equal (@rev code_unit)) in Hh.
  rewrite rev_app_distr in Hh. vm_compute in Hh. discriminate Hh.
Defined.


Lemma sdk_calls_end_within_bounds_witness :
  within 40000 10 expired_world
    (snd (sendRequest integer_engine chat_options expired_world)).
Proof.
  exact (proj2 (proj2 (sdk_calls_end_within_bounds integer_engine)) chat_options
           expired_world (fst (sendRequest integer_engine chat_options expired_world))
           (snd (sendRequest integer_engine chat_options expired_world))
           (surjective_pairing _)).
Defined.

Lemma stripJsonFences_unwraps_the_fence_witness :
  stripJsonFences (js "Here: " ++ js "```JSON" ++ js " {} " ++ js "```" ++ js " done")
  = js "Here:  {}  done".
Proof.
  apply (stripJsonFences_unwraps_the_fence (js "Here: ") (js "```JSON") (js " {} ")
           (js " done")); reflexivity.
Defined.

Lemma stripJsonFences_leaves_no_fence_witness :
  at_fence (skipn 7 (stripJsonFences (js "{'note':'````json``'}"))) = false
  /\ stripJsonFences (js " [1, 2] ") = js "[1, 2]".
Proof.
  split.
  - apply (proj1 stripJsonFences_leaves_no_fence).
  - apply (proj2 stripJsonFences_leaves_no_fence (js " [1, 2] ")). reflexivity.
Defined.

Lemma invoice_world_answered :
  invoice_answered integer_engine page_image invoice_world fresh_token
    (js "https://portal.qwen.ai/v1") 0 fenced_invoice
    (VObj [(js "choices",
            VArr [VObj [(js "message",
                         VObj [(js "content",
                               VStr (js "```json" ++ [10]
                                     ++ json_text "{'items':[]}" ++ [10]
                                     ++ js "```"))])]])]).
Proof.
  split; [reflexivity|]. split; [apply fresh_token_needs_no_refresh; reflexivity|].
  split; [vm_compute; reflexivity|]. split; [reflexivity|].
  split; [reflexivity|]. split; [reflexivity|]. vm_compute. reflexivity.
Qed.

Lemma extractSingleInvoice_reads_the_first_choice_witness :
  extractSingleInvoice integer_engine page_image invoice_world
  = (Ok (VObj [(js "items", VArr [])]),
     answered (chat_post integer_engine fresh_token (js "https://portal.qwen.ai/v1")
                 (VObj (invoice_options page_image))) 0 invoice_world).
Proof.
  rewrite (extractSingleInvoice_reads_the_first_choice integer_engine page_image
             invoice_world fresh_token (js "https://portal.qwen.ai/v1") 0 fenced_invoice
             _ invoice_world_answered).
  reflexivity.
Defined.

Lemma pdfName_of_page_image_witness :
  pdfName_of (js "2024-01.invoice" ++ js "-" ++ js "12" ++ js "." ++ js "png")
  = js "2024-01.invoice"
  /\ pdfName_of (js "scan-1") = js "scan-1".
Proof.
  split.
  - apply (proj1 pdfName_of_page_image (js "2024-01.invoice") (js "12") (js "png"));
      (discriminate || reflexivity).
  - apply (proj2 pdfName_of_page_image (js "scan-1")). reflexivity.
Defined.

Lemma empty_invoice_recognised :
  extractSingleInvoice integer_engine page_image empty_invoice_world
  = (Ok (VObj []),
     answered (chat_post integer_engine fresh_token (js "https://portal.qwen.ai/v1")
                 (VObj (invoice_options page_image))) 0 empty_invoice_world).
Proof. vm_compute. reflexivity. Qed.

Lemma extractAllInvoices_keeps_what_it_cannot_count_witness :
  extractAllInvoices integer_engine [(js "a-1.png", page_image)] empty_invoice_world
  = (Ok ([VObj []], js "• 识别发票 1/1: a... ✗ TypeError" ++ [10]),
     answered (chat_post integer_engine fresh_token (js "https://portal.qwen.ai/v1")
                 (VObj (invoice_options page_image))) 0 empty_invoice_world).
Proof.
  exact (extractAllInvoices_keeps_what_it_cannot_count integer_engine (js "a-1.png")
           page_image empty_invoice_world _ (VObj []) empty_invoice_recognised eq_refl).
Defined.

Lemma pollForToken_gives_up_on_the_first_failure_witness :
  pollForToken integer_engine 1 (js "DC123") (js "v1") [] 5000 stalled_world
  = Some (Throw (new_Error (js "令牌获取失败: "
                            ++ extractError (engine_error integer_engine Timeout_AbortError))),
          advance requestTimeoutMs
            (log_request (poll_form (js "DC123") (js "v1")) stalled_world))
  /\ pollForToken integer_engine 1 (js "DC123") (js "v1") [] 5000 down_world
     = Some (Throw (new_Error (js "令牌获取失败: " ++ extractError fetch_failed)),
             answered (poll_form (js "DC123") (js "v1")) 0 down_world).
Proof.
  split.
  - refine (proj1 (pollForToken_gives_up_on_the_first_failure integer_engine 0
                     (js "DC123") (js "v1") [] 5000 stalled_world 120000
                     (NetResponse (mkResponse 200 (js "OK") (json_text "{}")))
                     eq_refl) _).
    unfold requestTimeoutMs. lia.
  - exact (proj2 (pollForToken_gives_up_on_the_first_failure integer_engine 0
                    (js "DC123") (js "v1") [] 5000 down_world 0
                    (NetFailure fetch_failed) eq_refl)
             fetch_failed eq_refl eq_refl eq_refl).
Defined.

Lemma no_lifetime_is_an_object :
  object_answer [(js "access_token", VStr (js "tok-A"))] no_lifetime.
Proof. split; vm_compute; reflexivity. Qed.

Lemma granted_is_an_object : object_answer granted_properties granted.
Proof. split; vm_compute; reflexivity. Qed.

Lemma granted_lifetime :
  ToNumber integer_engine (lookup (js "expires_in") granted_properties) = Some 3600%Q.
Proof. reflexivity. Qed.

Lemma granted_expiry :
  TimeClip (inject_Z (clock unwritable_world + Z.of_N 0) + 3600 * 1000) = Some 3600000%Z.
Proof. vm_compute. reflexivity. Qed.

Lemma pollForToken_grants_that_fail_witness :
  pollForToken integer_engine 1 (js "DC123") (js "v1") [] 5000 no_lifetime_world
  = Some (Throw (new_Error (js "令牌获取失败: "
                            ++ extractError (engine_error integer_engine
                                               InvalidTime_RangeError))),
          answered (poll_form (js "DC123") (js "v1")) 0 no_lifetime_world)
  /\ exists w1,
       pollForToken integer_engine 1 (js "DC123") (js "v1") (js " bob ") 5000
         unwritable_world
       = Some (Throw (new_Error (js "令牌获取失败: " ++ extractError disk_full)), w1)
       /\ currentToken w1
          = Some (token_of_response granted_properties (toISOString_ms 3600000))
       /\ currentEmail w1 = VStr (trim (js " bob "))
       /\ file w1 = file unwritable_world.
Proof.
  split.
  - exact (proj1 (pollForToken_grants_that_fail integer_engine 0 (js "DC123") (js "v1")
                    [] 5000 no_lifetime_world 0 no_lifetime
                    [(js "access_token", VStr (js "tok-A"))]
                    eq_refl eq_refl no_lifetime_is_an_object)
             eq_refl).
  - exact (proj2 (pollForToken_grants_that_fail integer_engine 0 (js "DC123") (js "v1")
                    (js " bob ") 5000 unwritable_world 0 granted granted_properties
                    eq_refl eq_refl granted_is_an_object)
             3600%Q 3600000%Z disk_full granted_lifetime granted_expiry eq_refl eq_refl).
Defined.

Lemma stalled_world_never_answers : never_in_time (server stalled_world).
Proof. intros n rq. cbn. unfold requestTimeoutMs. lia. Qed.

Lemma refreshToken_unanswered_takes_620_seconds_witness :
  exists w',
    refreshToken integer_engine (VStr (js "rt-1")) stalled_world
    = (Throw (engine_error integer_engine Timeout_AbortError), w')
    /\ requests w'
       = requests stalled_world ++ repeat (refresh_form integer_engine (VStr (js "rt-1"))) 5
    /\ timers w' = timers stalled_world ++ [2000; 4000; 6000; 8000]%Z
    /\ clock w' = (clock stalled_world + 620000)%Z
    /\ currentToken w' = currentToken stalled_world
    /\ file w' = file stalled_world.
Proof.
  exact (refreshToken_unanswered_takes_620_seconds integer_engine (VStr (js "rt-1"))
           stalled_world stalled_world_never_answers).
Defined.
